(* ===== verification/_CoqProject ===== *)
-Q . S2P
Prelude.v
CStr.v
Stdio.v
JsonText.v
Wire.v
Slots.v
OuiTable.v
OuiOverride.v
Oui.v
Helpers.v
Offload.v
BpfAdapter.v
BpfKernel.v
BpfSpec.v
BpfFrame.v
BpfEffects.v
Upstream.v
Scheduler.v
Platform.v
PlatformSpec.v
UpstreamSpec.v
SchedulerSpec.v
KernelPromise.v
HostnameCache.v
MdnsWorker.v
MdnsResolve.v
DeviceTable.v
DeviceSpec.v
DhcpLog.v
DevicesJson.v
DevicesJsonSpec.v
Neigh.v
NeighSpec.v
DeviceFlow.v
Hotspotd.v
HotspotdSpec.v
Startup.v
StartupSpec.v
Launcher.v
LauncherSpec.v
Lsm.v
LsmSpec.v
Guarded.v
GuardedSpec.v
StatusJson.v
TcIngress.v
TcIngressSpec.v
OffloadCtl.v
OffloadCtlSpec.v
IpcClient.v
IpcClientSpec.v
EndToEnd.v
JsonTool.v
JsonToolSpec.v
JsonArraySpec.v
JsonTokenSpec.v
