(* ===== verification/Prelude.v ===== *)
(** * Verification library of HNC's hotspot daemon (root file)

    HNC limits and accounts the devices of a phone's WiFi hotspot.  Its core is
    the C daemon [hotspotd] (src/daemon/hotspotd), which keeps a table of the
    devices, names them, and switches the tethering offload of the modem off while
    some device has a rate limit (offloaded packets would bypass the limit).  This
    library models the parts of that daemon that decide something, as executable
    functions on the data of the source, and proves what makes them correct.

    ** The parts and how they interact

    - names of devices: [hnc_helpers.c] (JSON escaping, the names a user gave, the
      vendor table with 907 MAC prefixes, the fallback name, the timing
      predicates), [oui_override.c] (vendor names a user gave, read by
      [hnc_lookup_oui] before the table), [hostname_cache.c] (names seen earlier,
      kept in a file), [mdns_resolve.c] (a command that asks a device for its name
      over mDNS) and [mdns_worker.c] (a thread that runs such questions for the
      daemon, fed and drained through two rings);
    - the device table and the event loop: [hotspotd.c], which calls all of them;
    - supervision: [hnc_launcher.c], a separate process that keeps the DPI daemon alive;
    - ingress redirect: [hnc_tc_ingress.c], a tool that installs a qdisc and a filter;
    - commands: [tools/], which a user or a script runs: [hnc_ipc.c] talks to the daemon,
      [offload_ctl.c] and [platform_probe.c] call an adapter and the probe without it, and
      [hnc_json.c] edits the configuration files;
    - platform: [platform.c] finds out what phone this is and what offload it has;
    - offload control: [scheduler.c] keeps the set of limited devices, finds the
      upstream interface and calls the adapter it elected ([offload/adapter.c]):
      [adapter_bpf.c] writes the quota map of the tethering BPF program,
      [adapter_null.c] does nothing.

    ** The files

    - [Prelude]: tactics, the bounded loop combinator [loop] with its totality and
      invariant rules, slots of arrays, machine integers, a state monad.
    - [CStr]: C strings as lists of bytes and the C library functions on them.
    - [OuiTable], [Oui]: the vendor table as data, [bsearch] and [hnc_lookup_oui].
    - [OuiOverride]: [oui_override.c].  The state is [override_state].
    - [Helpers]: the rest of [hnc_helpers.c].
    - [HostnameCache]: [hostname_cache.c].  The state is [cache_state], the 1024
      slots of [g_cache] with the dirty flag and the path; a file is its content.
    - [MdnsWorker]: [mdns_worker.c].  The state is [mdns_state]; the two threads
      are a step relation [mdns_step] whose steps are the critical sections.
    - [MdnsResolve]: [mdns_resolve.c].  Accesses to buffers are checked in the
      model ([Stuck] is an access outside of one); the network is a trace of
      receives.
    - [Stdio]: [fgets], [sscanf] fields and [strtok_r] as functions on lists.
    - [Wire]: netlink words and attributes.
    - [Slots]: arrays of slots keyed by a MAC up to case, shared by the cache and
      the device table.
    - [DeviceTable]: the device table of [hotspotd.c] and the names of devices.
      The state of the daemon is [hstate]: the globals of [hotspotd.c], those of
      the modules it calls, and the file devices.json.  A [world] is what the
      daemon reads while it handles one event.  [DeviceSpec], [DhcpLog]: theorems.
    - [JsonText]: a reference reader and printer of JSON.
    - [DevicesJson]: the traffic counters, the blacklist and devices.json;
      [DevicesJsonSpec]: what a reader of the file sees.
    - [Neigh]: /proc/net/arp, netlink messages on the bytes of the receive buffer,
      pending devices, mDNS answers, the sweep; [NeighSpec], [DeviceFlow]: theorems.
    - [Hotspotd]: commands of clients, the PID file, the turn of the main loop, its
      start and end; [HotspotdSpec]: runs of the daemon and their theorems.
    - [Startup]: the options, the forks and the sockets; [StartupSpec]: a whole process,
      from the start to the exit ([main_run]), and what it leaves behind.
    - [Offload]: the adapter interface (the function pointers of [offload_adapter_t]
      as a record), the null adapter and the election.
    - [BpfAdapter]: [adapter_bpf.c] against the interface [BpfSys] of the bpf(2)
      calls it makes; [BpfKernel]: the laws of that interface, first with updates that may
      fail with any errno ([LimitCalls]), then for a map this process may write ([BpfLaws]), and
      kernels that satisfy them; [BpfSpec]: the theorems, proved for any kernel
      with the laws.
    - [Upstream]: [upstream.c], the four ways to find the upstream, on a [net_view] (the
      interface table, two BPF maps, two texts); [UpstreamSpec]: what they find, and
      the scheduler's interface to the detection discharged ([detecting_promise]).
    - [Scheduler]: [scheduler.c] against the interface [SchedEnv] (upstream
      detection, LSM guard, rules file, clock, thread creation);
      [SchedulerSpec]: the theorems on the calls it makes.
    - [BpfEffects]: what the adapter's operations leave ready; [KernelPromise]: the scheduler,
      the adapter and the map together, in surroundings that do not write the map
      ([QuietEnv], which the detection of [upstream.c] satisfies: [detecting_quiet]); [EndToEnd]: a limit from the command line to the map.
    - [Lsm]: the guard of the limit map: the BPF program [hnc_check_bpf], the loader
      [hnc_lsm_loader.c] with libbpf as a record of outcomes ([lsm_io]), and the
      interleaving of writers, reports and answers ([guard_step]); [LsmSpec]: theorems.
    - [Guarded]: the kernel with the guard in it, as a world of the scheduler
      ([guarded_env]), and the steps of all three ([gstep]); [GuardedSpec]: theorems.
      [BpfFrame]: what no operation of the adapter touches.
    - [TcIngress]: [hnc_tc_ingress.c], its two rtnetlink requests byte by byte and the wait
      for their acknowledgements; [TcIngressSpec]: a reader of requests, the interface
      [TcKernel] with the documented rules ([TcLaws]), and the theorems.
    - [Launcher]: [hnc_launcher.c], the supervisor of the DPI daemon: its main thread as
      a program counter, with signals, children and time as events ([lstep], [run]);
      [LauncherSpec]: the theorems.
    - [StatusJson]: the answer to OFFLOAD_STATUS, which joins the scheduler's summary and
      the guard's status.
    - [Platform]: [platform.c] on a record of answers ([plat_env]: properties, [stat],
      [uname], BPF_OBJ_GET); [PlatformSpec]: the tables it amounts to, and its report.
    - [OffloadCtl]: [offload_ctl.c] and [platform_probe.c]; [OffloadCtlSpec]: runs of the
      first as processes on one kernel.
    - [IpcClient]: [hnc_ipc.c]; [IpcClientSpec]: its conversation with [handle_client].
    - [JsonTool]: [hnc_json.c], which searches and splices text; [JsonToolSpec]: what that
      does to the objects the texts stand for, with any layout; [JsonArraySpec]: its arrays
      as sets of names; [JsonTokenSpec]: revoking one token of many.

    ** What the theorems show

    - offload promise: along every interleaving of the main thread and the
      scheduler's worker, while a device is limited the upstream that is known has
      been switched off since the last restore; a notification changes the set and
      calls the adapter exactly as it should; the limited array refines a set of at
      most 256 MACs; MACs are brought to a canonical form; what goes wrong after a
      restart of the scheduler inside the process.
    - in the kernel: along every interleaving, while a device is limited the limit map holds
      no quota for the upstream; a command of [hnc_ipc] in any reachable state takes
      or lifts quotas as it should; the entry that limiting leaves in the map misleads the
      detection.
    - BPF adapter: per-upstream and global disable and restore, on every error of
      the map calls; round trips; an invariant of the set of switched-off
      upstreams; what a descriptor that went stale does.
    - upstream: the detection finds exactly what the maps and the route tables say.
    - guard: no foreign unlimited quota survives while every report is answered after its call
      has written, the ring has room, and writers use neither batches nor descriptors above 65535,
      and what happens otherwise; the loader's life cycle; the status text.
    - scheduler and guard together: the guard is where the scheduler's upstream is, as long
      as the worker finds the changes, and then the quota of the upstream of a limited
      device is not lifted for good by a writer, under the same conditions and while the upstream
      stays; where the guard is left behind.
    - ingress redirect: both requests are read back as what is asked for, and against any
      kernel with the documented rules the exit code 0 comes only with a qdisc and a filter, new
      or old ones of any kind, and nothing else changes.
    - supervisor: over every interleaving at most one child exists; SIGTERM stops the
      supervisor and its child, except inside [spawn_dpid], as is shown; the crash guard
      decides as the whole history of crashes would, and when it still can.
    - names: the vendor lookup equals a search in the table after the overrides;
      override files and name files are read back as written; escaping keeps whole
      UTF-8 characters; the cache is a map with eviction of an oldest entry, and
      saving and loading it gives the same map.
    - mDNS: the decoder of compressed DNS names is memory safe, ends, and
      implements a relational specification of names; the response parser returns
      the first PTR record for the question; a printed name is authentic; a
      responder's answer is understood; over every interleaving each task of the
      worker is answered at most once and in order; stopping ends.
    - devices: along every run the table is well formed and the file shows it, as far as the
      disk had room, when it does not count as changed; changes are saved within 30 seconds; a device
      that comes up is entered as into a bounded map, and devices leave
      when they failed, fell silent or are displaced from a full table, and not otherwise; pending devices are all resolved, oldest
      first; the file parses as JSON to the active devices; netlink datagrams are
      decoded without a read behind their end; replies are sent whole; the PID
      file keeps a second daemon out, except in a race that is shown; a daemon that ends
      takes back its files, if its PID was written whole, and leaves a devices.json that shows its
      last table.
    - platform: the probe equals a search in tables and has a result exactly if what it
      reads fits its buffers; its report and the offload status fit their buffers
      and parse as JSON when their texts need no escapes.
    - commands: setting and deleting a field of a file does to the object exactly that,
      adding and removing a name does so to the array of a field, revoking a token to that token,
      whatever the layout and the strings, as long as the text that is searched for is not found earlier
      (or, for an addition, behind the array), and where the search goes wrong; what one run of the control
      program switched off the next run lifts; a notification sent by the client reaches
      the scheduler, and the answer is printed however the socket cuts it.

    ** Bounds and fuel

    Loops whose recursion is not structural run through [Prelude.loop] with a fuel
    argument; [Prelude.loop_total] and a measure show that it suffices: the length
    of the text that is left for the parsers of files, [(16 - jumps) * (n + 1)]
    plus the bytes left for names in a packet of [n] bytes.  Fixed-size buffers of
    the source appear as truncation at their size ([c_trunc], [take]); 32- and
    64-bit arithmetic wraps through [u32], [u64] and [s32].

    ** What is not modelled

    System calls and log lines: their outcomes are arguments of the models
    ([world], [write_io], [recv_ev], [send_ev], [plat_env], [ipc_io], [jsys], ...).
    Writing a file may be short where the source does not look ([written], [write_file], [pid_io]).
    Sockets are taken to be open where no theorem is about them, memory to be available.
    The supervisor has one clock that only grows, for [time] and for sleeping; jumps of the wall
    clock are not modelled.
    In [hotspotd.c] the redirection of standard streams and the crash handler are left out.
    Not modelled at all: [tools/sched_test.c] (a test program), the Go web server and DPI
    daemon, shell scripts, the web page, vendored headers. *)
From stdpp Require Export prelude list gmap strings relations.
From Stdlib Require Export ZArith Lia.

Create HintDb hnc.
Create Rewrite HintDb hnc.

Declare Scope hnc_scope.
Delimit Scope hnc_scope with hnc.

(** ** Automation shared by the files. *)

(** Destruct the scrutinee of the first [match] or [if] of the goal. *)
Ltac case_goal :=
  match goal with
  | |- context [match ?x with _ => _ end] => destruct x eqn:?
  end.

(** The same in a hypothesis. *)
Ltac case_in H :=
  match type of H with
  | context [match ?x with _ => _ end] => destruct x eqn:?
  end.

(** Turn the boolean tests of the source into propositions. *)
Ltac bool_simpl :=
  repeat match goal with
  | H : (_ && _)%bool = true |- _ => apply andb_prop in H as [? ?]
  | H : (_ || _)%bool = false |- _ => apply orb_false_iff in H as [? ?]
  | H : negb _ = true |- _ => apply negb_true_iff in H
  | H : negb _ = false |- _ => apply negb_false_iff in H
  | H : (_ =? _)%Z = true |- _ => apply Z.eqb_eq in H
  | H : (_ =? _)%Z = false |- _ => apply Z.eqb_neq in H
  | H : (_ <? _)%Z = true |- _ => apply Z.ltb_lt in H
  | H : (_ <? _)%Z = false |- _ => apply Z.ltb_ge in H
  | H : (_ <=? _)%Z = true |- _ => apply Z.leb_le in H
  | H : (_ <=? _)%Z = false |- _ => apply Z.leb_gt in H
  | H : (_ =? _)%nat = true |- _ => apply Nat.eqb_eq in H
  | H : (_ =? _)%nat = false |- _ => apply Nat.eqb_neq in H
  | H : (_ <? _)%nat = true |- _ => apply Nat.ltb_lt in H
  | H : (_ <? _)%nat = false |- _ => apply Nat.ltb_ge in H
  | H : (_ <=? _)%nat = true |- _ => apply Nat.leb_le in H
  | H : (_ <=? _)%nat = false |- _ => apply Nat.leb_gt in H
  | H : bool_decide _ = true |- _ => apply bool_decide_eq_true in H
  | H : bool_decide _ = false |- _ => apply bool_decide_eq_false in H
  end.

(** Case analysis on every test of the goal, then arithmetic. *)
Ltac cases_lia := repeat case_goal; bool_simpl; simplify_eq/=; try lia.

(** Decide every integer comparison of the goal and close it by arithmetic. *)
Ltac zcases :=
  repeat match goal with
  | |- context [(?a <=? ?b)%Z] => destruct (Z.leb_spec a b); cbn [andb orb negb]
  | |- context [(?a <? ?b)%Z] => destruct (Z.ltb_spec a b); cbn [andb orb negb]
  | |- context [(?a =? ?b)%Z] => destruct (Z.eqb_spec a b); cbn [andb orb negb]
  | H : context [(?a <=? ?b)%Z] |- _ =>
      revert H; destruct (Z.leb_spec a b); cbn [andb orb negb]; intros ?
  | H : context [(?a <? ?b)%Z] |- _ =>
      revert H; destruct (Z.ltb_spec a b); cbn [andb orb negb]; intros ?
  | H : context [(?a =? ?b)%Z] |- _ =>
      revert H; destruct (Z.eqb_spec a b); cbn [andb orb negb]; intros ?
  end; try done; try lia.

(** ** A bounded loop.

    [loop step fuel s] runs a C loop whose body is [step]: [inl s'] is another
    turn, [inr r] leaves the loop with [r].  [None] means that the fuel did not
    suffice; every use proves that it does. *)
Section loop.
Context {S R : Type} (step : S -> S + R).

Fixpoint loop (fuel : nat) (s : S) : option R :=
  match fuel with
  | O => None
  | Datatypes.S n =>
      match step s with
      | inl s' => loop n s'
      | inr r => Some r
      end
  end.

Lemma loop_S n s :
  loop (Datatypes.S n) s = match step s with inl s' => loop n s' | inr r => Some r end.
Proof. reflexivity. Qed.

(** A loop whose measure goes down while the invariant holds ends. *)
Lemma loop_total (I : S -> Prop) (m : S -> nat) :
  (forall s s', I s -> step s = inl s' -> I s' /\ (m s' < m s)%nat) ->
  forall fuel s, I s -> (m s < fuel)%nat -> is_Some (loop fuel s).
Proof.
  intros Hdec; induction fuel as [|fuel IH]; intros s HI Hm; [lia|].
  simpl. destruct (step s) as [s'|r] eqn:E; [|eauto].
  destruct (Hdec s s' HI E) as [HI' Hlt]. apply IH; [done|lia].
Qed.

(** Partial correctness of a loop from its invariant. *)
Lemma loop_inv (I : S -> Prop) (Q : R -> Prop) :
  (forall s s', I s -> step s = inl s' -> I s') ->
  (forall s r, I s -> step s = inr r -> Q r) ->
  forall fuel s r, I s -> loop fuel s = Some r -> Q r.
Proof.
  intros Hs Hr; induction fuel as [|fuel IH]; intros s r HI; [done|].
  simpl. destruct (step s) as [s'|r'] eqn:E; intros Hl.
  - eapply IH; [|exact Hl]. eauto.
  - simplify_eq. eauto.
Qed.

(** More fuel does not change the result. *)
Lemma loop_mono fuel fuel' s r :
  loop fuel s = Some r -> (fuel <= fuel')%nat -> loop fuel' s = Some r.
Proof.
  revert fuel' s; induction fuel as [|fuel IH]; intros fuel' s; [done|].
  destruct fuel' as [|fuel']; [lia|]. simpl.
  destruct (step s); intros; [apply IH; [done|lia]|done].
Qed.

Lemma loop_agree fuel fuel' s r r' :
  loop fuel s = Some r -> loop fuel' s = Some r' -> r = r'.
Proof.
  intros H1 H2. destruct (le_ge_dec fuel fuel') as [H|H].
  - pose proof (loop_mono _ _ _ _ H1 H). congruence.
  - pose proof (loop_mono _ _ _ _ H2 H). congruence.
Qed.
End loop.

(** ** Invariants along runs. *)
Lemma rtc_invariant {A} (R : relation A) (I : A -> Prop) :
  (forall x y, I x -> R x y -> I y) ->
  forall x y, rtc R x y -> I x -> I y.
Proof. intros Hs x y Hr. induction Hr; eauto. Qed.

(** ** Lists and arrays of slots. *)

(** Index of the first element that satisfies a boolean test. *)
Definition find_idx {A} (p : A -> bool) (l : list A) : option nat :=
  fst <$> list_find (fun x => p x = true) l.

Section find_idx.
Context {A : Type} (p : A -> bool).

Lemma find_idx_Some l i :
  find_idx p l = Some i <->
  exists x, l !! i = Some x /\ p x = true /\
            forall j y, l !! j = Some y -> (j < i)%nat -> p y = false.
Proof.
  unfold find_idx. rewrite fmap_Some. split.
  - intros [[i' x] [Hf ->]]. apply list_find_Some in Hf as (Hl & Hp & Hj).
    exists x. split_and!; [done..|]. intros j y Hy Hlt.
    destruct (p y) eqn:E; [|done]. exfalso. eapply Hj; eauto.
  - intros (x & Hl & Hp & Hj). exists (i, x). split; [|done].
    apply list_find_Some. split_and!; [done..|].
    intros j y Hy Hlt. rewrite (Hj j y Hy Hlt). done.
Qed.

Lemma find_idx_None l :
  find_idx p l = None <-> forall x, x ∈ l -> p x = false.
Proof.
  unfold find_idx. rewrite fmap_None, list_find_None, Forall_forall.
  split; intros Hp x Hx; specialize (Hp x Hx); destruct (p x); congruence.
Qed.

Lemma find_idx_lookup l i : find_idx p l = Some i -> exists x, l !! i = Some x /\ p x = true.
Proof. rewrite find_idx_Some. naive_solver. Qed.

Lemma find_idx_lt l i : find_idx p l = Some i -> (i < length l)%nat.
Proof. intros (x & Hx & _)%find_idx_lookup. by apply lookup_lt_Some in Hx. Qed.
End find_idx.

(** The index of the first smallest element of an array, as a loop finds it that
    starts with the first element and moves on a strictly smaller one. *)
Section min_idx.
Context {A : Type} (key : A -> Z).

Fixpoint min_from (l : list A) (i best : nat) (best_key : Z) : nat :=
  match l with
  | [] => best
  | e :: r => if (key e <? best_key)%Z then min_from r (S i) i (key e)
              else min_from r (S i) best best_key
  end.
Definition min_idx (l : list A) : nat :=
  match l with [] => 0 | e :: r => min_from r 1 0 (key e) end.

Lemma min_from_spec l i best best_key :
  exists k, min_from l i best best_key = k /\
    ((k = best /\ (forall e, e ∈ l -> (best_key <= key e)%Z)) \/
     (exists e, l !! (k - i) = Some e /\ i <= k /\ (key e < best_key)%Z /\
        forall e', e' ∈ l -> (key e <= key e')%Z)).
Proof.
  revert i best best_key. induction l as [|e l IH]; intros i best best_key; simpl.
  { exists best. split; [done|]. left. split; [done|]. by intros ? ?%elem_of_nil. }
  destruct (key e <? best_key)%Z eqn:E; bool_simpl.
  - destruct (IH (S i) i (key e)) as (k & -> & [[-> Hk]|(a & Ha & Hle & Hlt & Hk)]);
      eexists; (split; [reflexivity|]); right.
    + exists e. rewrite Nat.sub_diag. split_and!; [done|lia|lia|].
      intros e' [->|He']%elem_of_cons; [lia|by apply Hk].
    + exists a. replace (k - i) with (S (k - S i)) by lia. split_and!; [done|lia|lia|].
      intros e' [->|He']%elem_of_cons; [lia|by apply Hk].
  - destruct (IH (S i) best best_key) as (k & -> & [[-> Hk]|(a & Ha & Hle & Hlt & Hk)]);
      eexists; (split; [reflexivity|]).
    + left. split; [done|]. intros e' [->|He']%elem_of_cons; [lia|by apply Hk].
    + right. exists a. replace (k - i) with (S (k - S i)) by lia. split_and!; [done|lia|lia|].
      intros e' [->|He']%elem_of_cons; [lia|by apply Hk].
Qed.

Lemma min_idx_spec l :
  l <> [] -> exists e, l !! min_idx l = Some e /\ forall e', e' ∈ l -> (key e <= key e')%Z.
Proof.
  destruct l as [|e0 l]; [done|]. intros _. unfold min_idx.
  destruct (min_from_spec l 1 0 (key e0)) as (k & -> & [[-> Hk]|(a & Ha & Hle & Hlt & Hk)]).
  - exists e0. split; [done|]. intros e' [->|He']%elem_of_cons; [lia|by apply Hk].
  - exists a. destruct k as [|k]; [lia|]. cbn. replace (S k - 1) with k in Ha by lia.
    split; [done|]. intros e' [->|He']%elem_of_cons; [lia|by apply Hk].
Qed.
End min_idx.

Lemma Forall_insert_le {A} (P : A -> Prop) (l : list A) i x :
  Forall P l -> P x -> Forall P (<[i:=x]> l).
Proof.
  intros Hl Hx. apply Forall_forall. intros y Hy.
  apply list_elem_of_lookup in Hy as [j Hj]. destruct (decide (i = j)) as [->|Hne].
  - destruct (decide (j < length l)%nat).
    + rewrite list_lookup_insert_eq in Hj by lia. by simplify_eq.
    + rewrite list_insert_ge in Hj by lia. by eapply Forall_lookup_1.
  - rewrite list_lookup_insert_ne in Hj by done. by eapply Forall_lookup_1.
Qed.

Lemma filter_insert_length_le {A} (P : A -> Prop) `{!forall x, Decision (P x)} (l : list A) i x :
  (length (filter P (<[i:=x]> l)) <= S (length (filter P l)))%nat.
Proof.
  revert i; induction l as [|a l IH]; intros i; simpl; [lia|].
  destruct i as [|i]; simpl.
  - rewrite !filter_cons. repeat case_decide; simpl; lia.
  - rewrite !filter_cons. specialize (IH i). repeat case_decide; simpl; lia.
Qed.

Lemma forallb_elem {A} (p : A -> bool) (l : list A) x :
  forallb p l = true -> x ∈ l -> p x = true.
Proof. intros Hp Hx%list_elem_of_In. by eapply forallb_forall in Hp. Qed.

(** Two elements at different places of a list without duplicate keys have
    different keys. *)
Lemma NoDup_fmap_inj {A B} (f : A -> B) (l : list A) i j x y :
  NoDup (f <$> l) -> l !! i = Some x -> l !! j = Some y -> f x = f y -> i = j.
Proof.
  intros Hnd Hi Hj Hf. eapply (NoDup_lookup _ i j (f x)); [exact Hnd| |].
  - by rewrite list_lookup_fmap, Hi.
  - by rewrite list_lookup_fmap, Hj, Hf.
Qed.

(** Removal from an array by moving the last element into the hole. *)
Definition swap_remove {A} (i : nat) (l : list A) : list A :=
  match last l with
  | Some x => take (length l - 1) (<[i := x]> l)
  | None => l
  end.

Lemma swap_remove_perm {A} (l : list A) i x :
  l !! i = Some x -> l ≡ₚ x :: swap_remove i l.
Proof.
  intros Hi. unfold swap_remove.
  rewrite <- (take_drop_middle l i x Hi) at 1.
  pose proof (lookup_lt_Some _ _ _ Hi) as Hlt.
  destruct (drop (S i) l) as [|z l2 _] eqn:Ed using rev_ind.
  - assert (Hlen : length l = S i).
    { apply (f_equal length) in Ed. rewrite length_drop in Ed. simpl in Ed. lia. }
    rewrite last_lookup, Hlen. simpl. rewrite Hi, list_insert_id by done.
    rewrite Nat.sub_0_r. apply Permutation_app_comm.
  - assert (Hl : l = take i l ++ x :: l2 ++ [z]).
    { rewrite <- Ed. symmetry. by apply take_drop_middle. }
    assert (Hi' : length (take i l) = i) by (rewrite length_take; lia).
    set (l1 := take i l) in *. clearbody l1. rewrite Hl.
    rewrite (last_app_cons l1), last_cons, last_snoc.
    rewrite insert_app_r_alt by lia. rewrite Hi', Nat.sub_diag. simpl.
    rewrite !length_app. simpl. rewrite length_app. simpl.
    rewrite take_app_ge by lia.
    replace (length l1 + S (length l2 + 1) - 1 - length l1)%nat with (S (length l2)) by lia.
    simpl. rewrite take_app_length. solve_Permutation.
Qed.

(** ** Machine integers *)
Local Open Scope Z_scope.

Definition u32 (z : Z) : Z := z mod 2 ^ 32.
Definition u64 (z : Z) : Z := z mod 2 ^ 64.

Lemma u32_range z : 0 <= u32 z < 2 ^ 32.
Proof. apply Z.mod_pos_bound. lia. Qed.
Lemma u64_range z : 0 <= u64 z < 2 ^ 64.
Proof. apply Z.mod_pos_bound. lia. Qed.
Lemma u32_small z : 0 <= z < 2 ^ 32 -> u32 z = z.
Proof. apply Z.mod_small. Qed.
Lemma u64_small z : 0 <= z < 2 ^ 64 -> u64 z = z.
Proof. apply Z.mod_small. Qed.

#[export] Hint Resolve u32_range u64_range : hnc.
#[export] Hint Rewrite u32_small u64_small using lia : hnc.

(** Gluing bit fields is addition. *)
Lemma lor_shiftl_add a b n :
  0 <= n -> 0 <= b < 2 ^ n -> Z.lor (Z.shiftl a n) b = a * 2 ^ n + b.
Proof.
  intros Hn Hb. rewrite <- Z.shiftl_mul_pow2 by done.
  rewrite <- (Z.add_lor_land (Z.shiftl a n) b).
  replace (Z.land (Z.shiftl a n) b) with 0; [lia|]. symmetry.
  apply Z.bits_inj'. intros i Hi. rewrite Z.land_spec, Z.bits_0.
  destruct (Z.lt_ge_cases i n).
  - by rewrite Z.shiftl_spec_low.
  - destruct (decide (b = 0)) as [->|]; [by rewrite Z.bits_0, andb_false_r|].
    rewrite (Z.bits_above_log2 b i), andb_false_r; [done|lia|].
    apply Z.log2_lt_pow2; [lia|]. eapply Z.lt_le_trans; [apply Hb|].
    apply Z.pow_le_mono_r; lia.
Qed.

(** A one-bit mask tests the bit. *)
Lemma land_pow2_testbit a n : 0 <= n -> negb (Z.land a (2 ^ n) =? 0) = Z.testbit a n.
Proof.
  intros Hn. destruct (Z.testbit a n) eqn:E.
  - apply negb_true_iff, Z.eqb_neq. intros H0.
    assert (Z.testbit (Z.land a (2 ^ n)) n = false) as H1 by by rewrite H0, Z.bits_0.
    rewrite Z.land_spec, E, Z.pow2_bits_true in H1 by done. done.
  - apply negb_false_iff, Z.eqb_eq, Z.bits_inj'. intros i Hi.
    rewrite Z.land_spec, Z.bits_0, Z.pow2_bits_eqb by done.
    destruct (Z.eqb_spec n i) as [<-|]; [by rewrite E|apply andb_false_r].
Qed.

(** Reading a 32-bit word as a signed [int]. *)
Definition s32 (z : Z) : Z := let u := u32 z in if u <? 2 ^ 31 then u else u - 2 ^ 32.

Lemma s32_u32 z : - 2 ^ 31 <= z < 2 ^ 31 -> s32 (u32 z) = z.
Proof.
  intros Hz. unfold s32, u32. rewrite Z.mod_mod by lia.
  destruct (decide (0 <= z)).
  - rewrite Z.mod_small by lia. zcases.
  - replace (z mod 2 ^ 32) with (z + 2 ^ 32); [zcases|].
    symmetry. rewrite <- (Z.mod_add z 1) by lia. rewrite Z.mod_small; lia.
Qed.

Lemma s32_id z : - 2 ^ 31 <= z < 2 ^ 31 -> s32 z = z.
Proof.
  intros Hz. rewrite <- (s32_u32 z Hz) at 2. unfold s32, u32. by rewrite Z.mod_mod by lia.
Qed.

Lemma s32_range z : - 2 ^ 31 <= s32 z < 2 ^ 31.
Proof. unfold s32. pose proof (u32_range z). cases_lia. Qed.

(** ** A state monad for the handlers that thread a state through calls. *)
Definition st (S A : Type) : Type := S -> A * S.
#[export] Instance st_ret S : MRet (st S) := fun A x s => (x, s).
#[export] Instance st_bind S : MBind (st S) := fun A B f m s => let '(x, s') := m s in f x s'.

Definition st_get {S A} (f : S -> A) : st S A := fun s => (f s, s).
Definition st_mod {S} (f : S -> S) : st S unit := fun s => (tt, f s).
