(* ===== verification/CStr.v ===== *)
(** * C strings and the parts of the C library the sources call

    A byte is a [Z] in [0, 256); a C string is the list of its bytes before the
    terminating NUL, and a pointer into a string is the suffix it points at.
    This file holds the C library functions ([strncpy], [snprintf] with ["%s"],
    ["%d"] and ["%04x"], [strstr], [strcasecmp], [strtol], [tolower], ...) as
    functions on such lists, with the lemmas about them the components share. *)
From S2P Require Import Prelude.
From Stdlib Require Import Ascii.
Local Open Scope Z_scope.

Abbreviation bytes := (list Z).

Definition str (s : string) : bytes :=
  map (fun c => Z.of_N (N_of_ascii c)) (String.list_ascii_of_string s).

(** Character codes. *)
Definition QUOTE : Z := 34.
Definition BSLASH : Z := 92.
Definition NL : Z := 10.
Definition CR : Z := 13.
Definition TAB : Z := 9.
Definition COLON : Z := 58.

Definition is_byte (c : Z) : Prop := 0 <= c < 256.
Definition is_cchar (c : Z) : Prop := 0 < c < 256.

(** A property of all bytes can be checked byte by byte. *)
Lemma byte_forall (P : Z -> bool) c :
  forallb P (seqZ 0 256) = true -> 0 <= c < 256 -> P c = true.
Proof.
  intros HP Hc. eapply forallb_forall in HP; [exact HP|].
  apply list_elem_of_In, elem_of_seqZ. lia.
Qed.

(** ** Character classes *)
Definition is_digit (c : Z) : bool := (48 <=? c) && (c <=? 57).
Definition is_lower_hex (c : Z) : bool := (97 <=? c) && (c <=? 102).
Definition is_upper_hex (c : Z) : bool := (65 <=? c) && (c <=? 70).
Definition isxdigit (c : Z) : bool := is_digit c || is_lower_hex c || is_upper_hex c.
Definition is_upper (c : Z) : bool := (65 <=? c) && (c <=? 90).
Definition tolower (c : Z) : Z := if is_upper c then c + 32 else c.
(** [isspace] in the C locale. *)
Definition isspace (c : Z) : bool := (c =? 32) || ((9 <=? c) && (c <=? 13)).
(** The blanks of a JSON text. *)
Definition json_ws (c : Z) : bool := (c =? 32) || (c =? TAB) || (c =? NL) || (c =? CR).

Lemma tolower_idem c : tolower (tolower c) = tolower c.
Proof. unfold tolower, is_upper. cases_lia. Qed.

(** ** Copying and comparing *)

(** What a buffer of [size] bytes holds after [snprintf(dst, size, "%s", s)], or
    after [strncpy(dst, s, size - 1)] followed by the terminating NUL. *)
Definition c_trunc (size : nat) (s : bytes) : bytes := take (size - 1) s.

Lemma c_trunc_length size s : (0 < size)%nat -> (length (c_trunc size s) < size)%nat.
Proof. unfold c_trunc. rewrite length_take. lia. Qed.

Lemma c_trunc_id size s : (length s < size)%nat -> c_trunc size s = s.
Proof. intros. unfold c_trunc. apply take_ge. lia. Qed.

Lemma c_trunc_idem size s : c_trunc size (c_trunc size s) = c_trunc size s.
Proof. unfold c_trunc. rewrite take_take. f_equal. lia. Qed.

(** The C string held by a byte buffer. *)
Fixpoint cut_nul (b : bytes) : bytes :=
  match b with
  | [] => []
  | c :: r => if c =? 0 then [] else c :: cut_nul r
  end.

Lemma cut_nul_id s : Forall is_cchar s -> cut_nul s = s.
Proof.
  induction 1 as [|c s Hc _ IH]; simpl; [done|].
  unfold is_cchar in Hc. destruct (c =? 0) eqn:E; bool_simpl; [lia|]. by rewrite IH.
Qed.

(** [strcmp(a, b) == 0] and [strcasecmp(a, b) == 0]. *)
Definition strcmp_eq (a b : bytes) : bool := bool_decide (a = b).
Definition lower (s : bytes) : bytes := map tolower s.
Definition strcasecmp_eq (a b : bytes) : bool := bool_decide (lower a = lower b).

Lemma strcasecmp_eq_true a b : strcasecmp_eq a b = true <-> lower a = lower b.
Proof. apply bool_decide_eq_true. Qed.
Lemma strcasecmp_refl a : strcasecmp_eq a a = true.
Proof. by apply strcasecmp_eq_true. Qed.
Lemma lower_idem s : lower (lower s) = lower s.
Proof. unfold lower. rewrite map_map. apply map_ext, tolower_idem. Qed.

(** ** Searching *)

(** [strncmp(s, p, strlen(p)) == 0]; the result is what follows the prefix. *)
Fixpoint strip_prefix (p s : bytes) : option bytes :=
  match p, s with
  | [], _ => Some s
  | a :: p', b :: s' => if a =? b then strip_prefix p' s' else None
  | _ :: _, [] => None
  end.

Definition starts_with (p s : bytes) : bool :=
  match strip_prefix p s with Some _ => true | None => false end.

Lemma strip_prefix_Some p s r : strip_prefix p s = Some r <-> s = p ++ r.
Proof.
  revert s; induction p as [|a p IH]; intros s; simpl; [split; congruence|].
  destruct s as [|b s]; [done|].
  destruct (a =? b) eqn:E; bool_simpl.
  - subst b. rewrite IH. split; congruence.
  - split; [done|]. intros [= ]. congruence.
Qed.

Lemma strip_prefix_app p s : strip_prefix p (p ++ s) = Some s.
Proof. by apply strip_prefix_Some. Qed.

(** [strstr(s, p)]: the bytes before the first occurrence and the suffix that
    starts at it. *)
Fixpoint strstr (p s : bytes) : option (bytes * bytes) :=
  if starts_with p s then Some ([], s)
  else match s with
       | [] => None
       | c :: s' => '(pre, q) ← strstr p s'; Some (c :: pre, q)
       end.

Lemma strstr_Some p s pre q :
  strstr p s = Some (pre, q) -> s = pre ++ q /\ starts_with p q = true.
Proof.
  revert pre; induction s as [|c s IH]; intros pre; simpl.
  - destruct (starts_with p []) eqn:E; [|done]. by intros [= <- <-].
  - destruct (starts_with p (c :: s)) eqn:E; [by intros [= <- <-]|].
    destruct (strstr p s) as [[pre' q']|]; simpl; [|done].
    intros [= <- <-]. destruct (IH pre') as [-> ?]; done.
Qed.

(** [strchr(s, c)]: the same for one character. *)
Fixpoint split_at (c : Z) (s : bytes) : option (bytes * bytes) :=
  match s with
  | [] => None
  | x :: s' => if x =? c then Some ([], s)
               else '(pre, q) ← split_at c s'; Some (x :: pre, q)
  end.

Lemma split_at_Some c s pre q :
  split_at c s = Some (pre, q) -> exists q', q = c :: q' /\ s = pre ++ q /\ c ∉ pre.
Proof.
  revert pre; induction s as [|x s IH]; intros pre; simpl; [done|].
  destruct (x =? c) eqn:E; bool_simpl.
  - intros [= <- <-]. subst. eexists. split_and!; [done..|]. apply not_elem_of_nil.
  - destruct (split_at c s) as [[pre' q']|]; simpl; [|done]. intros [= <- <-].
    destruct (IH pre' eq_refl) as (r & -> & -> & Hn). eexists. split_and!; [done..|].
    rewrite not_elem_of_cons. split; [congruence|done].
Qed.

Fixpoint drop_while (p : Z -> bool) (s : bytes) : bytes :=
  match s with
  | c :: s' => if p c then drop_while p s' else s
  | [] => []
  end.

Fixpoint take_while (p : Z -> bool) (s : bytes) : bytes :=
  match s with
  | c :: s' => if p c then c :: take_while p s' else []
  | [] => []
  end.

Lemma drop_while_length p s : (length (drop_while p s) <= length s)%nat.
Proof. induction s as [|c s IH]; simpl; [lia|]. case_goal; simpl; lia. Qed.

Lemma take_drop_while p s : take_while p s ++ drop_while p s = s.
Proof. induction s as [|c s IH]; simpl; [done|]. case_goal; simpl; congruence. Qed.

Lemma take_while_app p s t :
  (forall c, c ∈ s -> p c = true) -> (forall c, head t = Some c -> p c = false) ->
  take_while p (s ++ t) = s /\ drop_while p (s ++ t) = t.
Proof.
  intros Hs Ht. induction s as [|c s IH]; simpl.
  - destruct t as [|c t]; [done|]. simpl. by rewrite (Ht c eq_refl).
  - rewrite (Hs c) by (left). destruct IH as [-> ->]; [|done].
    intros d Hd. apply Hs. by right.
Qed.

(** ** Numbers *)
Definition hex_digit (n : Z) : Z := if n <? 10 then 48 + n else 87 + n.
(** ["%04x"] of a value below [2^16]. *)
Definition hex4 (n : Z) : bytes :=
  [hex_digit (n / 4096 mod 16); hex_digit (n / 256 mod 16);
   hex_digit (n / 16 mod 16); hex_digit (n mod 16)].

(** The value of a hexadecimal digit, [-1] for another character. *)
Definition hex_val (c : Z) : Z :=
  if is_digit c then c - 48
  else if is_lower_hex c then c - 97 + 10
  else if is_upper_hex c then c - 65 + 10
  else -1.

Lemma hex_val_digit n : 0 <= n < 16 -> hex_val (hex_digit n) = n.
Proof.
  intros Hn. unfold hex_digit, hex_val, is_digit, is_lower_hex, is_upper_hex. zcases.
Qed.

Lemma hex_val_tolower c : hex_val (tolower c) = hex_val c.
Proof.
  unfold tolower, is_upper.
  destruct (Z.leb_spec 65 c), (Z.leb_spec c 90); cbn [andb]; try done.
  unfold hex_val, is_digit, is_lower_hex, is_upper_hex. zcases.
Qed.

Lemma hex_val_range c : hex_val c = -1 \/ 0 <= hex_val c < 16.
Proof. unfold hex_val, is_digit, is_lower_hex, is_upper_hex. zcases. Qed.

Lemma hex_digit_range n : 0 <= n < 16 -> 48 <= hex_digit n < 103.
Proof. unfold hex_digit. zcases. Qed.

(** ["%d"] and ["%ld"]: decimal digits with a sign. *)
Fixpoint digits (fuel : nat) (n : Z) : bytes :=
  match fuel with
  | O => []
  | S f => if n <? 10 then [48 + n] else digits f (n / 10) ++ [48 + n mod 10]
  end.
Definition dec_nat (n : Z) : bytes := digits (S (Z.to_nat (Z.log2 n))) n.
Definition dec (z : Z) : bytes := if z <? 0 then 45 :: dec_nat (- z) else dec_nat z.

(** The value of a run of decimal digits. *)
Definition digits_val (ds : bytes) : Z := fold_left (fun v d => 10 * v + (d - 48)) ds 0.

Definition LONG_MAX : Z := 2 ^ 63 - 1.
Definition ULONG_MAX : Z := 2 ^ 64 - 1.
Definition LONG_MIN : Z := - 2 ^ 63.

(** [strtol(s, NULL, 10)]. *)
Definition strtol (s : bytes) : Z :=
  let s := drop_while isspace s in
  let '(neg, s) := match s with
                   | c :: s' => if c =? 45 then (true, s')
                                else if c =? 43 then (false, s') else (false, s)
                   | [] => (false, s)
                   end in
  let v := digits_val (take_while is_digit s) in
  Z.max LONG_MIN (Z.min LONG_MAX (if neg : bool then - v else v)).

Lemma digits_digit fuel n c : 0 <= n -> c ∈ digits fuel n -> is_digit c = true.
Proof.
  revert n c; induction fuel as [|fuel IH]; intros n c Hn; simpl.
  { by intros ?%elem_of_nil. }
  destruct (n <? 10) eqn:E; bool_simpl.
  - intros ->%list_elem_of_singleton. unfold is_digit. zcases.
  - rewrite elem_of_app, list_elem_of_singleton.
    intros [H| ->]; [eapply IH; [|exact H]; apply Z.div_pos; lia|].
    pose proof (Z.mod_pos_bound n 10). unfold is_digit. zcases.
Qed.

Lemma digits_val_snoc ds d : digits_val (ds ++ [d]) = 10 * digits_val ds + (d - 48).
Proof. unfold digits_val. by rewrite fold_left_app. Qed.

Lemma digits_val_digits fuel n :
  0 <= n < 10 ^ Z.of_nat fuel -> digits_val (digits fuel n) = n.
Proof.
  revert n; induction fuel as [|fuel IH]; intros n Hn.
  - simpl in *. unfold digits_val. simpl. lia.
  - simpl. destruct (n <? 10) eqn:E; bool_simpl.
    + unfold digits_val. simpl. lia.
    + rewrite Nat2Z.inj_succ, Z.pow_succ_r in Hn by lia.
      rewrite digits_val_snoc, IH; [pose proof (Z.div_mod n 10); lia|].
      split; [apply Z.div_pos; lia|]. apply Z.div_lt_upper_bound; lia.
Qed.

Lemma digits_val_dec_nat n : 0 <= n -> digits_val (dec_nat n) = n.
Proof.
  intros Hn. apply digits_val_digits. split; [done|].
  rewrite Nat2Z.inj_succ, Z2Nat.id by apply Z.log2_nonneg.
  destruct (decide (n = 0)) as [->|Hz]; [done|].
  pose proof (Z.log2_spec n ltac:(lia)) as [_ Hlt].
  eapply Z.lt_le_trans; [exact Hlt|]. apply Z.pow_le_mono_l. lia.
Qed.

Lemma digits_nonempty fuel n : exists d ds, digits (S fuel) n = d :: ds.
Proof.
  simpl. destruct (n <? 10); [by eauto|].
  destruct (digits fuel (n / 10)) as [|d ds]; simpl; eauto.
Qed.

Lemma dec_nat_digit n c : 0 <= n -> c ∈ dec_nat n -> is_digit c = true.
Proof. apply digits_digit. Qed.

Lemma is_digit_isspace c : is_digit c = true -> isspace c = false.
Proof. unfold is_digit, isspace. zcases. Qed.

(** How many digits a number has. *)
Lemma digits_length fuel k n :
  0 <= n < 10 ^ Z.of_nat (S k) -> (length (digits fuel n) <= S k)%nat.
Proof.
  revert k n; induction fuel as [|fuel IH]; intros k n Hn; simpl; [lia|].
  destruct (n <? 10) eqn:E; bool_simpl; [simpl; lia|]. rewrite length_app. simpl.
  destruct k as [|k]; [change (10 ^ Z.of_nat 1) with 10 in Hn; lia|].
  assert (length (digits fuel (n / 10)) <= S k)%nat; [|lia]. apply IH.
  split; [apply Z.div_pos; lia|]. apply Z.div_lt_upper_bound; [lia|].
  rewrite (Nat2Z.inj_succ (S k)), Z.pow_succ_r in Hn by lia. lia.
Qed.

Lemma dec_length_lt k z :
  - 10 ^ Z.of_nat (S k) < z < 10 ^ Z.of_nat (S k) ->
  (length (dec z) <= S k + (if (z <? 0)%Z then 1 else 0))%nat.
Proof.
  intros Hz. unfold dec. destruct (z <? 0) eqn:E; bool_simpl.
  - pose proof (digits_length (S (Z.to_nat (Z.log2 (- z)))) k (- z)). unfold dec_nat. cbn [length]. lia.
  - pose proof (digits_length (S (Z.to_nat (Z.log2 z))) k z). unfold dec_nat. lia.
Qed.

(** Integers of 64 and of 32 bits. *)
Lemma dec_length_64 z : LONG_MIN <= z <= ULONG_MAX -> (length (dec z) <= 20)%nat.
Proof.
  unfold LONG_MIN, ULONG_MAX. intros Hz. destruct (z <? 0) eqn:E; bool_simpl.
  - pose proof (dec_length_lt 18 z). change (10 ^ Z.of_nat 19) with 10000000000000000000 in *.
    rewrite (proj2 (Z.ltb_lt z 0)) in * by done. lia.
  - pose proof (dec_length_lt 19 z). change (10 ^ Z.of_nat 20) with 100000000000000000000 in *.
    rewrite (proj2 (Z.ltb_ge z 0)) in * by done. lia.
Qed.

Lemma dec_length z : LONG_MIN <= z <= LONG_MAX -> (length (dec z) <= 20)%nat.
Proof. intros Hz. apply dec_length_64. unfold LONG_MIN, LONG_MAX, ULONG_MAX in *. lia. Qed.

Lemma dec_length_32 z : - 2 ^ 31 <= z < 2 ^ 32 -> (length (dec z) <= 11)%nat.
Proof.
  intros Hz. pose proof (dec_length_lt 9 z). change (10 ^ Z.of_nat 10) with 10000000000 in *.
  destruct (z <? 0); lia.
Qed.

(** Reading back a printed [long]. *)
Lemma strtol_dec z rest :
  LONG_MIN <= z <= LONG_MAX -> (forall c, head rest = Some c -> is_digit c = false) ->
  strtol (dec z ++ rest) = z.
Proof.
  intros Hz Hrest. unfold dec.
  assert (Hn : 0 <= (if z <? 0 then - z else z)) by zcases.
  assert (Hval : forall n, 0 <= n ->
    digits_val (take_while is_digit (dec_nat n ++ rest)) = n).
  { intros n Hp. destruct (take_while_app is_digit (dec_nat n) rest) as [-> _].
    - intros c. by apply dec_nat_digit.
    - done.
    - by apply digits_val_dec_nat. }
  unfold strtol. destruct (z <? 0) eqn:E; bool_simpl.
  - simpl. rewrite Hval by lia. lia.
  - destruct (digits_nonempty (Z.to_nat (Z.log2 z)) z) as (d & ds & Hd).
    assert (Hdig : is_digit d = true).
    { apply (dec_nat_digit z); [lia|]. unfold dec_nat. rewrite Hd. left. }
    specialize (Hval z E). unfold dec_nat in *. rewrite Hd in *. simpl.
    rewrite is_digit_isspace by done.
    pose proof Hdig as Hdig'. unfold is_digit in Hdig'; bool_simpl.
    replace (d =? 45) with false by (symmetry; apply Z.eqb_neq; lia).
    replace (d =? 43) with false by (symmetry; apply Z.eqb_neq; lia).
    simpl in Hval. simpl. rewrite Hval. lia.
Qed.

(** ** JSON string escapes *)

(** The escape of one byte as [hnc_json_escape] writes it. *)
Definition json_esc1 (c : Z) : bytes :=
  if (c =? QUOTE) || (c =? BSLASH) then [BSLASH; c]
  else if c =? NL then [BSLASH; 110]
  else if c =? CR then [BSLASH; 114]
  else if c =? TAB then [BSLASH; 116]
  else if c <? 32 then BSLASH :: 117 :: hex4 c
  else [c].
Definition json_esc (s : bytes) : bytes := concat (map json_esc1 s).

Lemma json_esc_cons c s : json_esc (c :: s) = json_esc1 c ++ json_esc s.
Proof. done. Qed.
Lemma json_esc_app s t : json_esc (s ++ t) = json_esc s ++ json_esc t.
Proof. unfold json_esc. by rewrite map_app, concat_app. Qed.

(** ** UTF-8: the shape of a character (a lead byte and its continuations). *)
Definition is_cont (c : Z) : bool := Z.land c 192 =? 128.
(** Number of continuation bytes a lead byte asks for. *)
Definition utf8_needed (lead : Z) : nat :=
  if Z.land lead 128 =? 0 then 0
  else if Z.land lead 224 =? 192 then 1
  else if Z.land lead 240 =? 224 then 2
  else if Z.land lead 248 =? 240 then 3
  else 0.
Definition utf8_char (w : bytes) : bool :=
  match w with
  | [] => false
  | lead :: conts => (0 <? lead) && (lead <? 256) && negb (is_cont lead)
                     && (length conts =? utf8_needed lead)%nat && forallb is_cont conts
                     && forallb (fun c => (0 <? c) && (c <? 256)) conts
  end.
