(* ===== verification/Stdio.v ===== *)
(** * Reading text line by line and field by field

    The parts of the C library the daemon's line parsers call: [fgets], [sscanf]
    with ["%Ns"], ["%ld"] and ["%d"], [strtok_r] with one delimiter, [strcasestr]
    and ["%02x"]. *)
From S2P Require Import Prelude CStr.
Local Open Scope Z_scope.

(** ** Lines *)

(** The strings [fgets] leaves in a buffer, [size] bytes each, until the end of
    the file: [room] bytes can still be stored after [acc]. *)
Fixpoint fgets_from (size room : nat) (acc s : bytes) : list bytes :=
  match s with
  | [] => if bool_decide (acc = []) then [] else [acc]
  | c :: r =>
      if (c =? NL) || (room <=? 1)%nat then (acc ++ [c]) :: fgets_from size (size - 1) [] r
      else fgets_from size (room - 1) (acc ++ [c]) r
  end.
(** Each line is read as a C string, up to a NUL in it. *)
Definition fgets_lines (size : nat) (s : bytes) : list bytes :=
  map cut_nul (fgets_from size (size - 1) [] s).

(** The tokens of [strtok_r(s, delim)]: the pieces that are not empty. *)
Fixpoint strtok_from (delim : Z) (acc s : bytes) : list bytes :=
  match s with
  | [] => if bool_decide (acc = []) then [] else [acc]
  | c :: r =>
      if c =? delim then (if bool_decide (acc = []) then [] else [acc]) ++ strtok_from delim [] r
      else strtok_from delim (acc ++ [c]) r
  end.
Definition strtok (delim : Z) (s : bytes) : list bytes := strtok_from delim [] s.

(** [strcasestr(s, p) != NULL] *)
Fixpoint strcasestr (p s : bytes) : bool :=
  starts_with (lower p) (lower s) ||
  match s with [] => false | _ :: r => strcasestr p r end.

(** ** Fields *)

Definition not_space (c : Z) : bool := negb (isspace c).

(** ["%ws"]: the word and the rest; [None] when there is no word. *)
Definition scan_s (w : nat) (s : bytes) : option (bytes * bytes) :=
  let s := drop_while isspace s in
  let word := take w (take_while not_space s) in
  if bool_decide (word = []) then None else Some (word, drop (length word) s).

(** ["%ld"]: the value is cut at the bounds of [long], as [strtol] does. *)
Definition scan_ld (s : bytes) : option (Z * bytes) :=
  let s := drop_while isspace s in
  let '(neg, s) := match s with
                   | c :: s' => if c =? 45 then (true, s')
                                else if c =? 43 then (false, s') else (false, s)
                   | [] => (false, s)
                   end in
  let ds := take_while is_digit s in
  if bool_decide (ds = []) then None
  else
    let v := digits_val ds in
    Some (Z.max LONG_MIN (Z.min LONG_MAX (if neg : bool then - v else v)), drop (length ds) s).

(** ["%d"]: the same, stored in an [int]. *)
Definition scan_d (s : bytes) : option (Z * bytes) :=
  '(v, rest) ← scan_ld s; Some (s32 v, rest).

(** ["%x"], stored in an [unsigned int]: a sign and a prefix [0x] are accepted, and
    the value is cut at the largest [unsigned long]. *)
Definition scan_x (s : bytes) : option (Z * bytes) :=
  let s := drop_while isspace s in
  let '(neg, s) := match s with
                   | c :: s' => if c =? 45 then (true, s')
                                else if c =? 43 then (false, s') else (false, s)
                   | [] => (false, s)
                   end in
  let s := match s with
           | z :: x :: h :: r => if (z =? 48) && (tolower x =? 120) && isxdigit h then h :: r else s
           | _ => s
           end in
  let ds := take_while isxdigit s in
  if bool_decide (ds = []) then None
  else
    let v := fold_left (fun v d => 16 * v + hex_val d) ds 0 in
    let v := if ULONG_MAX <? v then ULONG_MAX else if neg : bool then - v else v in
    Some (u32 v, drop (length ds) s).

(** ["%02x"] of a byte. *)
Definition hex2 (n : Z) : bytes := [hex_digit (n / 16); hex_digit (n mod 16)].

(** ** Lemmas *)

Lemma fgets_from_line size l r : forall acc room,
  NL ∉ l -> (length l + 1 < room)%nat ->
  fgets_from size room acc (l ++ NL :: r) = (acc ++ l ++ [NL]) :: fgets_from size (size - 1) [] r.
Proof.
  induction l as [|c l IH]; intros acc room Hn Hr; cbn [app fgets_from]; [done|].
  rewrite not_elem_of_cons in Hn. destruct Hn as [Hc Hn]. cbn in Hr.
  rewrite (proj2 (Z.eqb_neq c NL)) by done. rewrite (proj2 (Nat.leb_gt _ _)) by lia. cbn [orb].
  rewrite IH by (done || lia). by rewrite <- app_assoc.
Qed.

Lemma cut_nul_app_nl l : Forall is_cchar l -> cut_nul (l ++ [NL]) = l ++ [NL].
Proof. intros Hl. apply cut_nul_id, Forall_app. split; [done|]. repeat constructor. Qed.

(** A text of short lines is read line by line. *)
Lemma fgets_lines_text size (ls : list bytes) :
  Forall (fun l => Forall is_cchar l /\ NL ∉ l /\ (length l + 2 < size)%nat) ls ->
  fgets_lines size (concat (map (fun l => l ++ [NL]) ls)) = map (fun l => l ++ [NL]) ls.
Proof.
  unfold fgets_lines. induction 1 as [|l ls (Hc & Hn & Hl) _ IH]; cbn [concat map]; [done|].
  rewrite <- app_assoc. cbn [app]. rewrite fgets_from_line by (done || lia). cbn [app map].
  by rewrite IH, cut_nul_app_nl.
Qed.

Lemma isspace_blank c : c = 32 \/ c = NL -> isspace c = true.
Proof. by intros [->| ->]. Qed.

Definition blanks (sp : bytes) : bool := forallb isspace sp.

Lemma drop_while_blanks sp s :
  blanks sp = true -> (forall c, head s = Some c -> isspace c = false) ->
  drop_while isspace (sp ++ s) = s.
Proof.
  intros Hsp Hs. induction sp as [|c sp IH]; cbn in *.
  - destruct s as [|c s]; [done|]. cbn. by rewrite (Hs c eq_refl).
  - bool_simpl. rewrite H. auto.
Qed.

Definition is_word (w : bytes) : bool := negb (bool_decide (w = [])) && forallb not_space w.

Lemma is_word_spec w : is_word w = true -> w <> [] /\ forall c, c ∈ w -> not_space c = true.
Proof.
  unfold is_word. intros [Hn Hw]%andb_prop. split; [by bool_simpl|].
  intros c. by apply forallb_elem.
Qed.

(** A word of at most [n] characters after blanks is read whole. *)
Lemma scan_s_word n sp w rest :
  blanks sp = true -> is_word w = true -> (length w <= n)%nat ->
  (forall c, head rest = Some c -> isspace c = true) ->
  scan_s n (sp ++ w ++ rest) = Some (w, rest).
Proof.
  intros Hsp [Hne Hw]%is_word_spec Hn Hr. unfold scan_s.
  rewrite drop_while_blanks; [|done|].
  2:{ destruct w as [|c w]; [done|]. intros ? [= <-]. apply negb_true_iff, (Hw c). left. }
  destruct (take_while_app not_space w rest) as [-> _].
  { done. }
  { intros c Hc. unfold not_space. by rewrite (Hr c Hc). }
  rewrite take_ge by done. rewrite bool_decide_eq_false_2 by done. by rewrite drop_app_length.
Qed.

Lemma scan_s_length n s w rest : scan_s n s = Some (w, rest) -> w <> [] /\ (length w <= n)%nat.
Proof.
  unfold scan_s. destruct (bool_decide _) eqn:E; [done|]. bool_simpl. intros [= <- <-].
  split; [done|]. rewrite length_take. lia.
Qed.

Lemma scan_s_cchar n s w rest :
  Forall is_cchar s -> scan_s n s = Some (w, rest) -> Forall is_cchar w /\ Forall is_cchar rest.
Proof.
  intros Hs. unfold scan_s. destruct (bool_decide _); [done|]. intros [= <- <-].
  pose proof (take_drop_while isspace s) as H1. rewrite <- H1 in Hs.
  apply Forall_app in Hs as [_ Hs]. split; [|by apply Forall_drop].
  apply Forall_take. pose proof (take_drop_while not_space (drop_while isspace s)) as H2.
  rewrite <- H2 in Hs. by apply Forall_app in Hs as [Hs _].
Qed.

Lemma scan_s_not_space n s w rest :
  scan_s n s = Some (w, rest) -> forall c, c ∈ w -> isspace c = false.
Proof.
  unfold scan_s. destruct (bool_decide _); [done|]. intros [= <- <-] c Hc%elem_of_take.
  destruct Hc as (i & Hi & _). assert (Hc : c ∈ take_while not_space (drop_while isspace s))
    by by eapply list_elem_of_lookup_2.
  clear Hi. induction (drop_while isspace s) as [|x l IH]; cbn in Hc; [by apply elem_of_nil in Hc|].
  destruct (not_space x) eqn:E; [|by apply elem_of_nil in Hc].
  apply elem_of_cons in Hc as [->|Hc]; [by apply negb_true_iff|auto].
Qed.

(** A printed number is read back. *)
Lemma scan_ld_dec z sp rest :
  blanks sp = true -> LONG_MIN <= z <= LONG_MAX ->
  (forall c, head rest = Some c -> is_digit c = false) ->
  scan_ld (sp ++ dec z ++ rest) = Some (z, rest).
Proof.
  intros Hsp Hz Hr. unfold scan_ld, dec.
  assert (Hval : forall n, 0 <= n ->
    take_while is_digit (dec_nat n ++ rest) = dec_nat n /\ dec_nat n <> [] /\ digits_val (dec_nat n) = n).
  { intros n Hp. destruct (take_while_app is_digit (dec_nat n) rest) as [-> _];
      [intros c; by apply dec_nat_digit|done|].
    split_and!; [done| |by apply digits_val_dec_nat].
    destruct (digits_nonempty (Z.to_nat (Z.log2 n)) n) as (d & ds & E). unfold dec_nat. by rewrite E. }
  destruct (z <? 0) eqn:E; bool_simpl.
  - rewrite drop_while_blanks; [|done|by intros ? [= <-]].
    cbn [app]. change (45 =? 45) with true. cbn [app].
    destruct (Hval (- z) ltac:(lia)) as (-> & Hne & Hv).
    rewrite bool_decide_eq_false_2 by done. rewrite Hv, drop_app_length. do 2 f_equal. lia.
  - destruct (Hval z E) as (Ht & Hne & Hv). destruct (dec_nat z) as [|d ds] eqn:Ed; [done|].
    assert (Hd : is_digit d = true) by (apply (dec_nat_digit z); [lia|rewrite Ed; left]).
    rewrite drop_while_blanks; [|done|intros ? [= <-]; by apply is_digit_isspace].
    cbn [app]. assert (48 <= d <= 57) by (unfold is_digit in Hd; bool_simpl; lia).
    rewrite (proj2 (Z.eqb_neq d 45)), (proj2 (Z.eqb_neq d 43)) by lia.
    change (d :: ds ++ rest) with ((d :: ds) ++ rest). rewrite Ht.
    rewrite bool_decide_eq_false_2 by done. rewrite Hv, drop_app_length. do 2 f_equal. lia.
Qed.

(** ** Searching *)

Lemma starts_with_app p r : starts_with p (p ++ r) = true.
Proof. unfold starts_with. by rewrite strip_prefix_app. Qed.

Lemma strstr_first p : forall pre s,
  (forall k, (k < length pre)%nat -> starts_with p (drop k (pre ++ p ++ s)) = false) ->
  strstr p (pre ++ p ++ s) = Some (pre, p ++ s).
Proof.
  induction pre as [|c pre IH]; intros s Hn; cbn [app].
  - pose proof (starts_with_app p s) as H. destruct (p ++ s); cbn [strstr]; by rewrite H.
  - pose proof (Hn 0%nat) as H0. cbn [drop app] in H0. cbn [strstr].
    rewrite H0 by (cbn; lia). rewrite IH; [done|].
    intros k Hk. apply (Hn (S k)). cbn. lia.
Qed.
