(* ===== verification/JsonText.v ===== *)
(** * JSON texts

    A reference reader and printer for the part of JSON the daemon writes (strings,
    integers, booleans, arrays and objects, without blanks), used to say what a written file means
    to whoever parses it.  Strings are read with every escape the daemon writes.  The values
    have one more kind, [null] and the numbers that are no integers, which are in the files of others. *)
From S2P Require Import Prelude CStr.
Local Open Scope Z_scope.

Inductive json :=
  | JStr (s : bytes)
  | JNum (z : Z)
  | JBool (b : bool)
  | JWord (w : bytes)
  | JArr (items : list json)
  | JObj (fields : list (bytes * json)).

(** ** Reader *)

(** A string, from behind its opening quote; the rest starts behind the closing
    one.  Control characters must be escaped; ["\u"] stands for a 7-bit character. *)
Fixpoint parse_str (s : bytes) : option (bytes * bytes) :=
  match s with
  | [] => None
  | c :: r =>
      if c =? QUOTE then Some ([], r)
      else if c =? BSLASH then
        match r with
        | e :: r1 =>
            let keep (x : Z) := '(t, rest) ← parse_str r1; Some (x :: t, rest) in
            if (e =? QUOTE) || (e =? BSLASH) then keep e
            else if e =? 110 then keep NL
            else if e =? 114 then keep CR
            else if e =? 116 then keep TAB
            else if e =? 117 then
              match r1 with
              | h3 :: h2 :: h1 :: h0 :: r2 =>
                  if forallb isxdigit [h3; h2; h1; h0] then
                    let v := ((hex_val h3 * 16 + hex_val h2) * 16 + hex_val h1) * 16 + hex_val h0 in
                    if v <? 128 then '(t, rest) ← parse_str r2; Some (v :: t, rest) else None
                  else None
              | _ => None
              end
            else None
        | [] => None
        end
      else if c <? 32 then None
      else '(t, rest) ← parse_str r; Some (c :: t, rest)
  end.

Definition parse_num (s : bytes) : option (json * bytes) :=
  let '(neg, s) := match s with
                   | c :: r => if c =? 45 then (true, r) else (false, s)
                   | [] => (false, s)
                   end in
  let ds := take_while is_digit s in
  if bool_decide (ds = []) then None
  else Some (JNum (if neg : bool then - digits_val ds else digits_val ds), drop (length ds) s).

Definition parse_lit (s : bytes) : option (json * bytes) :=
  match strip_prefix (str "true") s with
  | Some r => Some (JBool true, r)
  | None => match strip_prefix (str "false") s with
            | Some r => Some (JBool false, r)
            | None => parse_num s
            end
  end.

(** Each call consumes a character, so the length of the text is enough fuel. *)
Fixpoint parse_val (fuel : nat) (s : bytes) : option (json * bytes) :=
  match fuel, s with
  | O, _ | _, [] => None
  | S f, c :: r =>
      if c =? QUOTE then '(t, rest) ← parse_str r; Some (JStr t, rest)
      else if c =? 123 then
        match r with
        | [] => None
        | d :: r1 => if d =? 125 then Some (JObj [], r1)
                     else '(fs, rest) ← parse_fields f r; Some (JObj fs, rest)
        end
      else if c =? 91 then
        match r with
        | [] => None
        | d :: r1 => if d =? 93 then Some (JArr [], r1)
                     else '(vs, rest) ← parse_items f r; Some (JArr vs, rest)
        end
      else parse_lit s
  end
with parse_items (fuel : nat) (s : bytes) : option (list json * bytes) :=
  match fuel with
  | O => None
  | S f =>
      '(v, r) ← parse_val f s;
      match r with
      | [] => None
      | c :: r =>
          if c =? 93 then Some ([v], r)
          else if c =? 44 then '(vs, rest) ← parse_items f r; Some (v :: vs, rest)
          else None
      end
  end
with parse_fields (fuel : nat) (s : bytes) : option (list (bytes * json) * bytes) :=
  match fuel, s with
  | O, _ | _, [] => None
  | S f, c :: r =>
      if negb (c =? QUOTE) then None
      else
        '(k, r) ← parse_str r;
        match r with
        | [] => None
        | c :: r =>
            if negb (c =? COLON) then None
            else
              '(v, r) ← parse_val f r;
              match r with
              | [] => None
              | c :: r =>
                  if c =? 125 then Some ([(k, v)], r)
                  else if c =? 44 then '(fs, rest) ← parse_fields f r; Some ((k, v) :: fs, rest)
                  else None
              end
        end
  end.

Definition parse_json (s : bytes) : option json :=
  match parse_val (S (length s)) s with
  | Some (v, []) => Some v
  | _ => None
  end.

(** ** Printer *)

Fixpoint print_json (v : json) : bytes :=
  match v with
  | JStr s => QUOTE :: json_esc s ++ [QUOTE]
  | JNum z => dec z
  | JBool b => if b then str "true" else str "false"
  | JWord w => w
  | JArr vs =>
      91 :: (fix go (first : bool) (vs : list json) : bytes :=
               match vs with
               | [] => []
               | v :: vs' => (if first then [] else [44]) ++ print_json v ++ go false vs'
               end) true vs ++ [93]
  | JObj fs =>
      123 :: (fix go (first : bool) (fs : list (bytes * json)) : bytes :=
                match fs with
                | [] => []
                | (k, v) :: fs' =>
                    (if first then [] else [44]) ++ QUOTE :: json_esc k ++ QUOTE :: COLON ::
                    print_json v ++ go false fs'
                end) true fs ++ [125]
  end.

Fixpoint print_fields (first : bool) (fs : list (bytes * json)) : bytes :=
  match fs with
  | [] => []
  | (k, v) :: fs' =>
      (if first then [] else [44]) ++ QUOTE :: json_esc k ++ QUOTE :: COLON ::
      print_json v ++ print_fields false fs'
  end.

Lemma print_json_obj fs : print_json (JObj fs) = 123 :: print_fields true fs ++ [125].
Proof. reflexivity. Qed.

Fixpoint print_items (first : bool) (vs : list json) : bytes :=
  match vs with
  | [] => []
  | v :: vs' => (if first then [] else [44]) ++ print_json v ++ print_items false vs'
  end.

Lemma print_json_arr vs : print_json (JArr vs) = 91 :: print_items true vs ++ [93].
Proof. reflexivity. Qed.

(** Texts of characters: no NUL in a string of the value. *)
Inductive json_ok : json -> Prop :=
  | ok_str s : Forall is_cchar s -> json_ok (JStr s)
  | ok_num z : json_ok (JNum z)
  | ok_bool b : json_ok (JBool b)
  | ok_arr vs : Forall json_ok vs -> json_ok (JArr vs)
  | ok_obj fs : Forall (fun kv => Forall is_cchar kv.1 /\ json_ok kv.2) fs -> json_ok (JObj fs).

(** ** Reading what was printed *)

Lemma parse_str_esc1 c s :
  is_cchar c -> parse_str (json_esc1 c ++ s) = ('(t, rest) ← parse_str s; Some (c :: t, rest)).
Proof.
  intros Hc. unfold json_esc1.
  destruct ((c =? QUOTE) || (c =? BSLASH)) eqn:E1.
  { cbn [app parse_str]. rewrite E1. done. }
  apply orb_false_iff in E1 as [Eq Eb].
  destruct (c =? NL) eqn:E2; [bool_simpl; by subst|].
  destruct (c =? CR) eqn:E3; [bool_simpl; by subst|].
  destruct (c =? TAB) eqn:E4; [bool_simpl; by subst|].
  destruct (c <? 32) eqn:E5.
  - bool_simpl. unfold is_cchar in Hc.
    assert (Hx : forallb (fun c => (32 <=? c) ||
        match hex4 c with
        | [h3; h2; h1; h0] => forallb isxdigit [h3; h2; h1; h0] &&
            (((hex_val h3 * 16 + hex_val h2) * 16 + hex_val h1) * 16 + hex_val h0 =? c)
        | _ => false
        end) (seqZ 0 256) = true) by by vm_compute.
    pose proof (byte_forall _ c Hx ltac:(lia)) as Hh. cbn beta in Hh.
    rewrite (proj2 (Z.leb_gt 32 c)) in Hh by lia. cbn [orb] in Hh.
    unfold hex4 in *. apply andb_prop in Hh as [Hd Hv]. apply Z.eqb_eq in Hv.
    change (([BSLASH; 117] ++ ?l) ++ s) with (BSLASH :: 117 :: l ++ s).
    cbn [app parse_str]. change (BSLASH =? QUOTE) with false. change (BSLASH =? BSLASH) with true.
    change ((117 =? QUOTE) || (117 =? BSLASH)) with false.
    change (117 =? 110) with false. change (117 =? 114) with false. change (117 =? 116) with false.
    change (117 =? 117) with true. cbv iota. rewrite Hd, Hv.
    by rewrite (proj2 (Z.ltb_lt c 128)) by lia.
  - cbn [app parse_str]. by rewrite Eq, Eb, E5.
Qed.

Lemma parse_str_esc s rest :
  Forall is_cchar s -> parse_str (json_esc s ++ QUOTE :: rest) = Some (s, rest).
Proof.
  induction 1 as [|c s Hc _ IH]; [done|].
  rewrite json_esc_cons, <- app_assoc, parse_str_esc1 by done. by rewrite IH.
Qed.

(** The text behind a number does not continue it. *)
Definition num_end (rest : bytes) : Prop := forall c, head rest = Some c -> is_digit c = false.

Lemma parse_num_dec z rest : num_end rest -> parse_num (dec z ++ rest) = Some (JNum z, rest).
Proof.
  intros Hr. unfold parse_num, dec.
  assert (Hval : forall n, 0 <= n ->
    take_while is_digit (dec_nat n ++ rest) = dec_nat n /\ dec_nat n <> [] /\ digits_val (dec_nat n) = n).
  { intros n Hp. destruct (take_while_app is_digit (dec_nat n) rest) as [-> _];
      [intros c; by apply dec_nat_digit|done|].
    split_and!; [done| |by apply digits_val_dec_nat].
    destruct (digits_nonempty (Z.to_nat (Z.log2 n)) n) as (d & ds & E). unfold dec_nat. by rewrite E. }
  destruct (z <? 0) eqn:E; bool_simpl.
  - cbn [app]. change (45 =? 45) with true. cbv iota.
    destruct (Hval (- z) ltac:(lia)) as (-> & Hne & ->).
    rewrite bool_decide_eq_false_2 by done. rewrite drop_app_length. by rewrite Z.opp_involutive.
  - destruct (Hval z E) as (Ht & Hne & Hv). destruct (dec_nat z) as [|d ds] eqn:Ed; [done|].
    assert (Hd : is_digit d = true) by (apply (dec_nat_digit z); [lia|rewrite Ed; left]).
    assert (48 <= d <= 57) by (unfold is_digit in Hd; bool_simpl; lia).
    cbn [app]. rewrite (proj2 (Z.eqb_neq d 45)) by lia. change (d :: ds ++ rest) with ((d :: ds) ++ rest).
    rewrite Ht, bool_decide_eq_false_2 by done. by rewrite Hv, drop_app_length.
Qed.

Lemma dec_head z rest : exists c r, dec z ++ rest = c :: r /\ (c = 45 \/ 48 <= c <= 57).
Proof.
  unfold dec. destruct (z <? 0) eqn:E; bool_simpl; [eexists _, _; split; [done|by left]|].
  destruct (digits_nonempty (Z.to_nat (Z.log2 z)) z) as (d & ds & Ed).
  exists d, (ds ++ rest). unfold dec_nat. rewrite Ed. split; [done|].
  assert (Hd : is_digit d = true) by (apply (dec_nat_digit z); [lia|unfold dec_nat; rewrite Ed; left]).
  unfold is_digit in Hd. bool_simpl. lia.
Qed.

(** The first character of a value tells its kind, and is no closing bracket. *)
Lemma print_json_head v : json_ok v -> exists c r, print_json v = c :: r /\ c <> 93 /\ c <> 44 /\ isspace c = false.
Proof.
  destruct 1 as [s _|z|b|vs _|fs _]; try (by eexists _, _); [|by destruct b; eexists _, _].
  destruct (dec_head z []) as (c & r & E & Hc). rewrite app_nil_r in E. exists c, r.
  cbn [print_json]. split; [done|]. destruct Hc as [->|Hc]; [done|].
  split_and!; [lia..|]. unfold isspace. zcases.
Qed.

Definition print_field (kv : bytes * json) : bytes :=
  QUOTE :: json_esc kv.1 ++ QUOTE :: COLON :: print_json kv.2.

Lemma print_fields_cons first kv fs :
  print_fields first (kv :: fs) = (if first then [] else [44]) ++ print_field kv ++ print_fields false fs.
Proof.
  destruct kv as [k v]. cbn [print_fields]. unfold print_field. cbn [fst snd app].
  rewrite <- app_assoc. by destruct first.
Qed.

(** One field, when its value is read back. *)
Lemma parse_field kv t fuel :
  Forall is_cchar kv.1 -> parse_val fuel (print_json kv.2 ++ t) = Some (kv.2, t) ->
  parse_fields (S fuel) (print_field kv ++ t)
  = match t with
    | [] => None
    | c :: r => if c =? 125 then Some ([kv], r)
                else if c =? 44 then '(fs, rest) ← parse_fields fuel r; Some (kv :: fs, rest)
                else None
    end.
Proof.
  destruct kv as [k v]. cbn [fst snd]. intros Hk Hv. unfold print_field. cbn [fst snd app parse_fields].
  rewrite Z.eqb_refl. cbn [negb]. rewrite <- app_assoc. cbn [app].
  rewrite parse_str_esc by done. cbn [mbind option_bind]. rewrite Z.eqb_refl. cbn [negb].
  by rewrite Hv.
Qed.

Definition reads_back (v : json) : Prop := forall fuel rest,
  (length (print_json v) <= fuel)%nat -> num_end rest ->
  parse_val (S fuel) (print_json v ++ rest) = Some (v, rest).

Lemma num_end_after fs rest : num_end (print_fields false fs ++ 125 :: rest).
Proof. by destruct fs as [|[k v] fs]; intros ? [= <-]. Qed.

Lemma parse_fields_print fs rest : forall kv fuel,
  Forall (fun kv => Forall is_cchar kv.1 /\ reads_back kv.2) (kv :: fs) ->
  (length (print_fields true (kv :: fs)) <= fuel)%nat ->
  parse_fields (S fuel) (print_fields true (kv :: fs) ++ 125 :: rest) = Some (kv :: fs, rest).
Proof.
  induction fs as [|kv' fs IH]; intros kv fuel [[Hk Hv] Hfs]%Forall_cons Hf;
    rewrite print_fields_cons in *; cbn [app] in *; rewrite <- app_assoc;
    rewrite length_app in Hf; unfold print_field at 1 in Hf; cbn [length] in Hf;
    rewrite length_app in Hf; cbn [length] in Hf; (destruct fuel as [|fuel]; [lia|]).
  - rewrite parse_field; [done|done|]. apply Hv; [lia|]. by intros ? [= <-].
  - rewrite parse_field; [|done|apply Hv; [lia|by apply num_end_after]].
    rewrite print_fields_cons in *. cbn [app] in *. rewrite length_cons in Hf.
    change (44 =? 125) with false. change (44 =? 44) with true. cbv iota.
    pose proof (IH kv' fuel Hfs) as Hx. rewrite print_fields_cons in Hx. cbn [app] in Hx.
    rewrite Hx by lia. done.
Qed.

Lemma print_items_cons first v vs :
  print_items first (v :: vs) = (if first then [] else [44]) ++ print_json v ++ print_items false vs.
Proof. reflexivity. Qed.

Lemma num_end_items vs rest : num_end (print_items false vs ++ 93 :: rest).
Proof. by destruct vs as [|v vs]; intros ? [= <-]. Qed.

Lemma parse_items_print vs rest : forall v fuel,
  Forall reads_back (v :: vs) -> (length (print_items true (v :: vs)) < fuel)%nat ->
  parse_items (S fuel) (print_items true (v :: vs) ++ 93 :: rest) = Some (v :: vs, rest).
Proof.
  induction vs as [|v' vs IH]; intros v fuel [Hv Hvs]%Forall_cons Hf;
    rewrite print_items_cons in *; cbn [app] in *; rewrite <- app_assoc;
    rewrite length_app in Hf; (destruct fuel as [|fuel]; [lia|]);
    set (f := S fuel); cbn [parse_items]; subst f.
  - rewrite Hv by (lia || apply (num_end_items [])). done.
  - rewrite Hv by (lia || apply num_end_items). cbn [mbind option_bind].
    rewrite print_items_cons in *. cbn [app length] in *.
    change (44 =? 93) with false. change (44 =? 44) with true. cbv iota.
    pose proof (IH v' fuel Hvs) as Hx. rewrite print_items_cons in Hx. cbn [app] in Hx.
    rewrite Hx by lia. done.
Qed.

Lemma print_items_elem vs x first :
  x ∈ vs -> (length (print_json x) <= length (print_items first vs))%nat.
Proof.
  revert first. induction vs as [|y l IHl]; intros b Hx; [by apply elem_of_nil in Hx|].
  rewrite print_items_cons, !length_app. apply elem_of_cons in Hx as [->|Hx]; [lia|].
  specialize (IHl false Hx). lia.
Qed.

Lemma print_fields_elem fs x first :
  x ∈ fs -> (length (print_json x.2) <= length (print_fields first fs))%nat.
Proof.
  revert first. induction fs as [|y l IHl]; intros b Hx; [by apply elem_of_nil in Hx|].
  rewrite print_fields_cons, !length_app. apply elem_of_cons in Hx as [->|Hx].
  - unfold print_field. cbn [length]. rewrite length_app. cbn [length]. lia.
  - specialize (IHl false Hx). lia.
Qed.

Lemma reads_back_num z : reads_back (JNum z).
Proof.
  intros fuel rest _ Hrest. cbn [print_json].
  pose proof (parse_num_dec z rest Hrest) as Hp.
  destruct (dec_head z rest) as (c & r & E & Hc). rewrite E in *. cbn [parse_val].
  rewrite (proj2 (Z.eqb_neq c QUOTE)), (proj2 (Z.eqb_neq c 123)), (proj2 (Z.eqb_neq c 91)) by (unfold QUOTE; lia).
  unfold parse_lit. change (str "true") with (116 :: str "rue"). change (str "false") with (102 :: str "alse").
  cbn [strip_prefix]. by rewrite (proj2 (Z.eqb_neq 116 c)), (proj2 (Z.eqb_neq 102 c)) by lia.
Qed.

Lemma reads_back_arr vs : Forall json_ok vs -> Forall reads_back vs -> reads_back (JArr vs).
Proof.
  intros Hok Hvs fuel rest Hf _. rewrite print_json_arr in *. cbn [app parse_val].
  change (91 =? QUOTE) with false. change (91 =? 123) with false. change (91 =? 91) with true.
  cbv iota. rewrite <- app_assoc. cbn [app]. destruct vs as [|v vs]; [done|].
  cbn [length] in Hf. rewrite length_app in Hf. cbn [length] in Hf. destruct fuel as [|fuel]; [lia|].
  pose proof (parse_items_print vs rest v fuel Hvs) as H.
  destruct (print_json_head v) as (c & r & Hr & Hc & _); [by apply Forall_cons in Hok as [? _]|].
  rewrite print_items_cons in *. cbn [app] in *. rewrite Hr in *. cbn [app] in *.
  rewrite (proj2 (Z.eqb_neq c 93)) by done. rewrite H by lia. done.
Qed.

Lemma reads_back_obj fs :
  Forall (fun kv => Forall is_cchar kv.1 /\ reads_back kv.2) fs -> reads_back (JObj fs).
Proof.
  intros Hfs fuel rest Hf _. rewrite print_json_obj in *. cbn [app parse_val].
  change (123 =? QUOTE) with false. change (123 =? 123) with true. cbv iota.
  rewrite <- app_assoc. cbn [app]. destruct fs as [|kv fs]; [done|].
  cbn [length] in Hf. rewrite length_app in Hf. destruct fuel as [|fuel]; [lia|].
  pose proof (parse_fields_print fs rest kv fuel Hfs) as H.
  assert (Hq : exists r, print_fields true (kv :: fs) = QUOTE :: r)
    by (rewrite print_fields_cons; by eexists).
  destruct Hq as [r Hr]. rewrite Hr in *. cbn [app] in *.
  change (QUOTE =? 125) with false. cbv iota. rewrite H by lia. done.
Qed.

(** A printed value is read back, whatever follows it. *)
Lemma parse_val_print n : forall v, (length (print_json v) <= n)%nat -> json_ok v -> reads_back v.
Proof.
  induction n as [n IH] using lt_wf_ind. intros v Hn Hok. destruct Hok as [s Hs|z|b|vs Hvs|fs Hfs].
  - intros fuel rest _ _. cbn [print_json app parse_val]. rewrite Z.eqb_refl, <- app_assoc. cbn [app].
    by rewrite parse_str_esc.
  - apply reads_back_num.
  - by destruct b.
  - apply reads_back_arr; [done|]. apply Forall_forall. intros x Hx. rewrite print_json_arr in Hn. cbn [length] in Hn.
    rewrite length_app in Hn. pose proof (print_items_elem vs x true Hx).
    apply (IH (length (print_json x))); [lia|done|]. by eapply Forall_forall in Hvs.
  - apply reads_back_obj, Forall_forall. intros x Hx. rewrite print_json_obj in Hn. cbn [length] in Hn.
    rewrite length_app in Hn. pose proof (print_fields_elem fs x true Hx).
    pose proof (proj1 (Forall_forall _ _) Hfs x Hx) as [Hk Hv].
    split; [done|]. apply (IH (length (print_json x.2))); [lia|done|done].
Qed.

(** Printing and reading of JSON values are inverse. *)
Lemma parse_print_json v : json_ok v -> parse_json (print_json v) = Some v.
Proof.
  intros Hok. unfold parse_json.
  pose proof (parse_val_print (length (print_json v)) v (le_n _) Hok (length (print_json v)) []) as H.
  rewrite app_nil_r in H. rewrite H; [done|lia|by intros ? ?].
Qed.

(** ** Texts that need no escape *)
Definition plain_char (c : Z) : bool := (32 <=? c) && (c <? 256) && negb (c =? QUOTE) && negb (c =? BSLASH).
Definition plain (s : bytes) : bool := forallb plain_char s.

Lemma plain_esc s : plain s = true -> json_esc s = s.
Proof.
  unfold plain. induction s as [|c s IH]; cbn [forallb]; [done|]. intros [Hc Hs]%andb_prop.
  rewrite json_esc_cons, IH by done. unfold plain_char in Hc. bool_simpl.
  unfold json_esc1, NL, CR, TAB. rewrite (proj2 (Z.eqb_neq c QUOTE)), (proj2 (Z.eqb_neq c BSLASH)) by done.
  cbn [orb]. zcases.
Qed.

Lemma plain_cchar s : plain s = true -> Forall is_cchar s.
Proof.
  intros Hs. apply Forall_forall. intros c Hc. pose proof (forallb_elem _ _ _ Hs Hc) as Hp.
  unfold plain_char in Hp. bool_simpl. unfold is_cchar. lia.
Qed.

(** ** The texts the source writes piece by piece *)

(** ["key":], a value in quotes, a boolean *)
Definition key (k : string) : bytes := QUOTE :: str k ++ [QUOTE; COLON].
Definition quoted (v : bytes) : bytes := QUOTE :: v ++ [QUOTE].
Definition jbool (b : bool) : bytes := if b then str "true" else str "false".

Lemma quoted_print s : plain s = true -> quoted s = print_json (JStr s).
Proof. intros Hs. unfold quoted. cbn [print_json]. by rewrite plain_esc. Qed.

Lemma key_print k v rest : plain (str k) = true ->
  key k ++ v ++ rest = (QUOTE :: json_esc (str k) ++ QUOTE :: COLON :: v) ++ rest.
Proof.
  intros Hk. unfold key. rewrite (plain_esc (str k)) by done. cbn [app]. f_equal.
  rewrite <- !app_assoc. done.
Qed.

(** A field whose name is a literal of the source. *)
Definition jfld (k : string) (v : json) : bytes * json := (str k, v).

Lemma print_field_jfld k v : plain (str k) = true -> print_field (jfld k v) = key k ++ print_json v.
Proof.
  intros Hk. unfold print_field, key, jfld. cbn [fst snd]. rewrite plain_esc by done.
  cbn [app]. by rewrite <- app_assoc.
Qed.

Definition field_ok (kv : bytes * json) : Prop := Forall is_cchar kv.1 /\ json_ok kv.2.

Lemma field_ok_jfld k v : plain (str k) = true -> json_ok v -> field_ok (jfld k v).
Proof. intros Hk Hv. split; [by apply plain_cchar|done]. Qed.

Lemma ok_str_plain s : plain s = true -> json_ok (JStr s).
Proof. intros. by apply ok_str, plain_cchar. Qed.

(** The other pieces print values too. *)
Lemma jbool_print b : jbool b = print_json (JBool b).
Proof. done. Qed.
Lemma dec_print z : dec z = print_json (JNum z).
Proof. done. Qed.

Lemma key_length k : length (key k) = (3 + String.length k)%nat.
Proof.
  unfold key, str. cbn [length]. rewrite length_app, length_map. cbn [length].
  enough (length (String.list_ascii_of_string k) = String.length k) by lia.
  induction k; cbn; congruence.
Qed.

Lemma quoted_length v : length (quoted v) = (2 + length v)%nat.
Proof. unfold quoted. cbn [length]. rewrite length_app. cbn [length]. lia. Qed.

Lemma jbool_length b : (length (jbool b) <= 5)%nat.
Proof. destruct b; vm_compute; lia. Qed.

(** A text of such pieces is the printed value: the goal equates the two. *)
Ltac json_text :=
  repeat (rewrite print_json_obj || rewrite print_fields_cons ||
          rewrite print_field_jfld by by vm_compute);
  cbn [print_fields];
  rewrite <- ?quoted_print by (assumption || by vm_compute);
  rewrite <- ?jbool_print, <- ?dec_print;
  repeat first [rewrite <- app_assoc | progress (cbn [app])]; rewrite ?app_nil_r; try reflexivity.

(** Its value is well formed. *)
Ltac json_wf :=
  repeat lazymatch goal with
    | |- field_ok (jfld _ _) => apply field_ok_jfld; [by vm_compute|]
    | |- json_ok (JStr _) => apply ok_str_plain; (assumption || by vm_compute)
    | |- json_ok (JObj ?fs) => apply (ok_obj fs); change (Forall field_ok fs)
    | |- json_ok (JNum _) => apply ok_num
    | |- json_ok (JBool _) => apply ok_bool
    | |- Forall _ (_ :: _) => apply Forall_cons; split
    | |- Forall _ [] => constructor
  end.
