(* ===== verification/Wire.v ===== *)
(** * Netlink words and attributes

    Little-endian words in a buffer, and the attributes of a netlink message, shared by
    the reader of neighbour messages and the tool that builds requests.  A read outside
    of the buffer is [None]. *)
From S2P Require Import Prelude CStr.
Local Open Scope Z_scope.

(** ** Reading *)

(** Little-endian words. *)
Definition rd8 (buf : bytes) (i : nat) : option Z := buf !! i.
Definition rd16 (buf : bytes) (i : nat) : option Z :=
  a ← rd8 buf i; b ← rd8 buf (i + 1); Some (a + 256 * b).
Definition rd32 (buf : bytes) (i : nat) : option Z :=
  a ← rd16 buf i; b ← rd16 buf (i + 2); Some (a + 65536 * b).

(** [NLMSG_ALIGN] and [RTA_ALIGN], on 32 bits. *)
Definition align4 (z : Z) : Z := Z.land (u32 (z + 3)) (Z.lnot 3).

Definition rd_bytes (buf : bytes) (i n : nat) : option bytes :=
  if (i + n <=? length buf)%nat then Some (take n (drop i buf)) else None.

(** ** Writing *)

Definition le16 (z : Z) : bytes := [z mod 256; z / 256].
Definition le32 (z : Z) : bytes := le16 (z mod 65536) ++ le16 (z / 65536).

(** [s] stands at offset [i] of [buf]. *)
Definition at_off (buf : bytes) (i : nat) (s : bytes) : Prop := exists rest, drop i buf = s ++ rest.

Lemma at_off_app buf i s t : at_off buf i (s ++ t) -> at_off buf i s /\ at_off buf (i + length s) t.
Proof.
  intros [rest H]. split; [exists (t ++ rest); by rewrite app_assoc|]. exists rest.
  by rewrite <- drop_drop, H, <- app_assoc, drop_app_length.
Qed.

Lemma rd8_at buf i c : at_off buf i [c] -> rd8 buf i = Some c.
Proof.
  intros [rest H]. unfold rd8. rewrite <- (Nat.add_0_r i), <- lookup_drop, H. done.
Qed.

Lemma rd16_at buf i z : at_off buf i (le16 z) -> rd16 buf i = Some z.
Proof.
  unfold le16. intros H. change [z mod 256; z / 256] with ([z mod 256] ++ [z / 256]) in H.
  apply at_off_app in H as [Ha Hb]. cbn [length] in Hb. unfold rd16.
  rewrite (rd8_at _ _ _ Ha), (rd8_at _ _ _ Hb). cbn. f_equal.
  pose proof (Z.div_mod z 256 ltac:(lia)). lia.
Qed.

Lemma rd32_at buf i z : at_off buf i (le32 z) -> rd32 buf i = Some z.
Proof.
  unfold le32. intros [Ha Hb]%at_off_app. unfold rd32.
  change (length (le16 _)) with 2%nat in Hb.
  rewrite (rd16_at _ _ _ Ha), (rd16_at _ _ _ Hb). cbn. f_equal.
  pose proof (Z.div_mod z 65536 ltac:(lia)). lia.
Qed.

Lemma rd_bytes_at buf i s : s <> [] -> at_off buf i s -> rd_bytes buf i (length s) = Some s.
Proof.
  intros Hne [rest H]. unfold rd_bytes.
  assert (Hlen : (length (drop i buf) = length s + length rest)%nat) by by rewrite H, length_app.
  rewrite length_drop in Hlen. destruct s as [|c s]; [done|]. cbn [length] in Hlen.
  rewrite (proj2 (Nat.leb_le _ _)) by (cbn [length]; lia). by rewrite H, take_app_length.
Qed.

Lemma align4_spec z : 0 <= z < 2 ^ 32 - 3 -> align4 z = (z + 3) / 4 * 4.
Proof.
  intros Hz. unfold align4. rewrite u32_small by lia.
  change (Z.land (z + 3) (Z.lnot 3)) with (Z.ldiff (z + 3) (Z.ones 2)).
  rewrite Z.ldiff_ones_r, Z.shiftl_mul_pow2, Z.shiftr_div_pow2 by lia. done.
Qed.

(** ** Attributes *)

(** An attribute: its type and its payload, padded to four bytes. *)
Definition pad4 (n : nat) : nat := ((4 - n mod 4) mod 4)%nat.
Definition enc_attr (a : Z * bytes) : bytes :=
  le16 (4 + Z.of_nat (length a.2)) ++ le16 a.1 ++ a.2 ++ replicate (pad4 (length a.2)) 0.
Definition attr_ok (a : Z * bytes) : Prop := 4 + Z.of_nat (length a.2) < 65536.

Lemma enc_attr_length a :
  attr_ok a -> align4 (4 + Z.of_nat (length a.2)) = Z.of_nat (length (enc_attr a)).
Proof.
  unfold attr_ok. intros Ha. rewrite align4_spec by lia. unfold enc_attr.
  rewrite !length_app, length_replicate. change (length (le16 _)) with 2%nat. unfold pad4.
  generalize dependent (length a.2). intros n Hn. rewrite !Nat2Z.inj_add, !Nat2Z.inj_mod.
  rewrite Nat2Z.inj_sub, Nat2Z.inj_mod by (pose proof (Nat.mod_upper_bound n 4); lia).
  Z.to_euclidean_division_equations. lia.
Qed.

Definition enc_attrs (attrs : list (Z * bytes)) : bytes := concat (map enc_attr attrs).
