(* ===== verification/Slots.v ===== *)
(** * Arrays of slots keyed by a text up to case

    The hostname cache and the device table are arrays whose active slots carry a
    MAC that is compared without case.  The lemmas here say what searching such an
    array finds and what overwriting one slot changes. *)
From S2P Require Import Prelude CStr.

Section slots.
Context {A : Type} (act : A -> bool) (key : A -> bytes) (sane : A -> Prop) (hit : bytes -> A -> bool).

(** No key twice. *)
Definition slots_uniq (l : list A) : Prop :=
  forall i j a b, l !! i = Some a -> l !! j = Some b -> act a = true -> act b = true ->
    lower (key a) = lower (key b) -> i = j.

Definition slot_holds (l : list A) (i : nat) (k : bytes) (e : A) : Prop :=
  l !! i = Some e /\ act e = true /\ lower (key e) = lower k.

Hypothesis hit_spec : forall k e, sane e -> hit k e = true <-> act e = true /\ lower (key e) = lower k.

Lemma slot_hit_spec l i e k :
  Forall sane l -> l !! i = Some e -> hit k e = true <-> slot_holds l i k e.
Proof.
  intros Hs Hi. rewrite hit_spec by by eapply Forall_lookup_1. unfold slot_holds. naive_solver.
Qed.

Lemma slot_find_Some l k i e :
  Forall sane l -> slots_uniq l ->
  list_find (fun e => hit k e = true) l = Some (i, e) <-> slot_holds l i k e.
Proof.
  intros Hs Hu. rewrite list_find_Some. split.
  - intros (Hi & Hh & _). by apply (slot_hit_spec l i e).
  - intros Hh. pose proof Hh as (Hi & Ha & Hm). split_and!; [done|by apply (slot_hit_spec l i e)|].
    intros j y Hj Hlt Hy. apply (slot_hit_spec l j y) in Hy as (_ & Hya & Hym); [|done..].
    assert (i = j) by (eapply Hu; eauto; congruence). lia.
Qed.

Lemma slot_find_None l k :
  Forall sane l ->
  list_find (fun e => hit k e = true) l = None <-> forall i e, ~ slot_holds l i k e.
Proof.
  intros Hs. rewrite list_find_None, Forall_forall. split.
  - intros Hn i e Hh. apply (Hn e); [by eapply list_elem_of_lookup_2, Hh|].
    apply (slot_hit_spec l i e); [done|apply Hh|done].
  - intros Hn e [i Hi]%list_elem_of_lookup Hh. apply (slot_hit_spec l i e) in Hh; [|done..].
    by apply (Hn i e).
Qed.

(** Making a slot inactive, or leaving its key, keeps keys apart. *)
Lemma slots_uniq_insert_off l i e : act e = false -> slots_uniq l -> slots_uniq (<[i := e]> l).
Proof.
  intros He Hu j k a b Hj Hk Ha Hb Hab.
  assert (H : forall m x, <[i := e]> l !! m = Some x -> act x = true -> l !! m = Some x).
  { intros m x Hm Hx. destruct (decide (i = m)) as [->|Hne]; [|by rewrite list_lookup_insert_ne in Hm].
    destruct (decide (m < length l)%nat).
    - rewrite list_lookup_insert_eq in Hm by lia. congruence.
    - by rewrite list_insert_ge in Hm by lia. }
  eapply Hu; eauto.
Qed.

(** Changing one slot to an active entry. *)
Section insert_slot.
Context (l : list A) (i : nat) (e : A) (old : A).
Hypothesis (Hs : Forall sane l) (Hu : slots_uniq l) (Hi : l !! i = Some old).
Hypothesis (He : act e = true) (Hse : sane e).
(** Nobody else has the key. *)
Hypothesis (Hfree : forall j a, slot_holds l j (key e) a -> j = i).

Lemma insert_sane : Forall sane (<[i := e]> l).
Proof. by apply Forall_insert_le. Qed.

Lemma insert_holds j k a :
  slot_holds (<[i := e]> l) j k a <->
  (j = i /\ a = e /\ lower (key e) = lower k) \/ (j <> i /\ slot_holds l j k a).
Proof.
  unfold slot_holds. destruct (decide (i = j)) as [<-|Hne].
  - rewrite list_lookup_insert_eq by by eapply lookup_lt_Some. naive_solver.
  - rewrite list_lookup_insert_ne by done. naive_solver.
Qed.

Lemma insert_uniq : slots_uniq (<[i := e]> l).
Proof.
  intros j k a b Hj Hk Ha Hb Heq.
  assert (H1 : slot_holds (<[i := e]> l) j (key a) a) by done.
  assert (H2 : slot_holds (<[i := e]> l) k (key a) b) by (split_and!; congruence).
  apply insert_holds in H1, H2.
  destruct H1 as [(-> & -> & Hm1)|(Hn1 & H1)], H2 as [(-> & -> & Hm2)|(Hn2 & H2)]; [done| | |].
  - destruct Hn2. apply (Hfree k b). unfold slot_holds in *. naive_solver congruence.
  - destruct Hn1. apply (Hfree j a). unfold slot_holds in *. naive_solver congruence.
  - unfold slot_holds in *. eapply Hu; [apply H1|apply H2|..]; naive_solver congruence.
Qed.

Lemma insert_find_new k :
  lower (key e) = lower k ->
  list_find (fun x => hit k x = true) (<[i := e]> l) = Some (i, e).
Proof.
  intros Hm. apply slot_find_Some; [apply insert_sane|apply insert_uniq|].
  apply insert_holds. by left.
Qed.

Lemma insert_find_other k :
  lower (key e) <> lower k -> (act old = true -> lower (key old) <> lower k) ->
  list_find (fun x => hit k x = true) (<[i := e]> l) = list_find (fun x => hit k x = true) l.
Proof.
  intros Hm Ho. destruct (list_find (fun x => hit k x = true) l) as [[j a]|] eqn:E.
  - apply slot_find_Some in E; [|done..].
    apply slot_find_Some; [apply insert_sane|apply insert_uniq|]. apply insert_holds. right.
    split; [|done]. intros ->. destruct E as (Hj & Ha & Hl). rewrite Hi in Hj. naive_solver.
  - apply slot_find_None; [apply insert_sane|]. intros j a Hh%insert_holds.
    pose proof (proj1 (slot_find_None _ _ Hs) E). naive_solver.
Qed.

Lemma insert_find_victim k :
  lower (key e) <> lower k -> slot_holds l i k old ->
  list_find (fun x => hit k x = true) (<[i := e]> l) = None.
Proof.
  intros Hm Hh. apply slot_find_None; [apply insert_sane|]. intros j a Ha%insert_holds.
  destruct Ha as [(-> & -> & ?)|(Hne & (Hj & Hja & Hjm))]; [done|].
  destruct Hh as (_ & Hoa & Hom). apply Hne. eapply Hu; eauto. congruence.
Qed.
End insert_slot.
End slots.
