(* ===== verification/OuiTable.v ===== *)
(** * The built-in vendor table

    The 907 entries of [HNC_OUI_TABLE] of [hnc_helpers.c], in the order of the
    source, cut into pieces of consecutive rows.  [Oui.v] holds the lookup. *)
From S2P Require Import Prelude.
Local Open Scope Z_scope.

(** [hnc_oui_entry_t] *)
Record hnc_oui_entry := Oui { oui_prefix : Z; oui_vendor : string }.

Definition HNC_OUI_TABLE_0 : list hnc_oui_entry := [
  Oui 0x000048 "Epson";
  Oui 0x0000AA "Canon";
  Oui 0x00026F "Epson";
  Oui 0x000272 "HP";
  Oui 0x000393 "Apple";
  Oui 0x0005CD "Denon";
  Oui 0x00065B "Dell";
  Oui 0x000678 "Denon";
  Oui 0x0006F5 "Denon";
  Oui 0x000824 "Toshiba";
  Oui 0x000874 "Dell";
  Oui 0x000883 "HP";
  Oui 0x000BDB "Dell";
  Oui 0x000C29 "Dell";
  Oui 0x000D6F "IKEA";
  Oui 0x000E58 "Sonos";
  Oui 0x000F1F "Dell";
  Oui 0x000F5D "Sony";
  Oui 0x001018 "TP-Link";
  Oui 0x001143 "Dell";
  Oui 0x001240 "Hikvision";
  Oui 0x00125A "Microsoft";
  Oui 0x001315 "PlayStation";
  Oui 0x001319 "Intel";
  Oui 0x001343 "Denon";
  Oui 0x001346 "D-Link";
  Oui 0x0013A9 "Sony";
  Oui 0x0013E8 "Intel";
  Oui 0x00146C "Apple";
  Oui 0x0014C2 "HP";
  Oui 0x0015B9 "Samsung";
  Oui 0x0015E9 "D-Link";
  Oui 0x0016CB "Apple";
  Oui 0x001788 "Philips-Hue";
  Oui 0x00178B "Philips";
  Oui 0x0017A4 "HP";
  Oui 0x0017C9 "Samsung";
  Oui 0x0017EA "Philips";
  Oui 0x0017EF "Philips";
  Oui 0x0017FA "Microsoft";
  Oui 0x001821 "Dahua";
  Oui 0x00188B "Dell";
  Oui 0x0019FD "Nintendo";
  Oui 0x001A11 "Google";
  Oui 0x001A80 "Sony";
  Oui 0x001B11 "D-Link";
  Oui 0x001B2F "Netgear";
  Oui 0x001B58 "Panasonic";
  Oui 0x001BA9 "Brother";
  Oui 0x001BCF "Intel";
  Oui 0x001BFC "ASUS";
  Oui 0x001CD2 "Panasonic";
  Oui 0x001D25 "Samsung";
  Oui 0x001DBA "Sony";
  Oui 0x001E4F "Dell";
  Oui 0x001E75 "LG";
  Oui 0x001E7D "Vizio";
  Oui 0x001E8C "ASUS";
  Oui 0x001E8F "Canon";
  Oui 0x001FA7 "PlayStation";
  Oui 0x001FE3 "LG";
  Oui 0x0020D8 "Denon";
  Oui 0x002127 "TP-Link";
  Oui 0x002129 "Linksys";
  Oui 0x00212F "Intel";
  Oui 0x00215C "Apple";
  Oui 0x0021CC "Lenovo";
  Oui 0x0021D1 "Samsung";
  Oui 0x002215 "ASUS";
  Oui 0x002248 "Microsoft";
  Oui 0x002255 "Canon";
  Oui 0x00225F "Microsoft";
  Oui 0x00228E "D-Link";
  Oui 0x0022C9 "Microsoft";
  Oui 0x0022D7 "Nintendo";
  Oui 0x0022F9 "Google";
  Oui 0x0022FA "Lenovo";
  Oui 0x0022FB "Intel";
  Oui 0x002339 "Samsung";
  Oui 0x002369 "Panasonic";
  Oui 0x002401 "D-Link";
  Oui 0x002419 "Hikvision";
  Oui 0x002454 "Samsung";
  Oui 0x00247E "Dell";
  Oui 0x002481 "HP";
  Oui 0x0024A3 "Canon";
  Oui 0x0024BE "Sony";
  Oui 0x0024D7 "ASUS";
  Oui 0x002500 "Apple";
  Oui 0x002555 "Toshiba";
  Oui 0x002564 "Lenovo";
  Oui 0x002568 "Huawei";
  Oui 0x002608 "Apple";
  Oui 0x00265D "Samsung";
  Oui 0x002674 "Canon";
  Oui 0x0026B0 "Apple";
  Oui 0x0026BB "Apple";
  Oui 0x0026E2 "LG";
  Oui 0x0026E8 "Samsung";
  Oui 0x0026EF "Toshiba";
  Oui 0x0026F2 "Netgear";
  Oui 0x0026F3 "D-Link";
  Oui 0x002709 "Nintendo";
  Oui 0x002721 "Intel";
  Oui 0x002E76 "Microsoft";
  Oui 0x003077 "Lenovo";
  Oui 0x003EE1 "Harman";
  Oui 0x004096 "Huawei";
  Oui 0x00464B "Huawei";
  Oui 0x00480F "Epson";
  Oui 0x008000 "HP";
  Oui 0x008092 "Brother";
  Oui 0x008EF2 "Xiaomi";
  Oui 0x00904C "Harman";
  Oui 0x009E25 "Amazon";
  Oui 0x00A0DE "Yamaha";
  Oui 0x00A0EE "Yamaha";
  Oui 0x00C2C6 "Intel";
  Oui 0x00D9D1 "PlayStation";
  Oui 0x00E0FC "Huawei";
  Oui 0x026F70 "Epson";
  Oui 0x0400A0 "Garmin";
  Oui 0x0403D6 "Nintendo";
  Oui 0x040CCE "Apple";
  Oui 0x0418D6 "Ubiquiti";
  Oui 0x041CE1 "Vizio";
  Oui 0x042665 "Apple";
  Oui 0x0427E2 "Ubiquiti";
  Oui 0x044EAF "Tesla";
  Oui 0x04795F "Huawei"].

Definition HNC_OUI_TABLE_1 : list hnc_oui_entry := [
  Oui 0x047D7B "Yamaha";
  Oui 0x04924A "ASUS";
  Oui 0x049E70 "Hisense";
  Oui 0x04A316 "Bose";
  Oui 0x04A8B8 "Panasonic";
  Oui 0x04BD70 "Huawei";
  Oui 0x04CF8C "Aqara";
  Oui 0x04DB56 "Apple";
  Oui 0x080027 "Apple";
  Oui 0x080046 "Sony";
  Oui 0x08053B "Vizio";
  Oui 0x0808C2 "LG";
  Oui 0x0820EF "Epson";
  Oui 0x082994 "Bose";
  Oui 0x082E5F "Apple";
  Oui 0x08606E "ASUS";
  Oui 0x087ED6 "Intel";
  Oui 0x088620 "TCL";
  Oui 0x08DF1F "Harman";
  Oui 0x08FD0E "Sony";
  Oui 0x0C1DAF "Xiaomi";
  Oui 0x0C37DC "Huawei";
  Oui 0x0C47C9 "Amazon";
  Oui 0x0C54A5 "Hikvision";
  Oui 0x0C715D "Samsung";
  Oui 0x0C77A6 "Apple";
  Oui 0x0C8463 "Intel";
  Oui 0x0C8BFD "Lenovo";
  Oui 0x0C96BF "Huawei";
  Oui 0x0C9D92 "ASUS";
  Oui 0x0CB2B7 "Bose";
  Oui 0x0CBC9F "Apple";
  Oui 0x0CE0DC "Canon";
  Oui 0x0CFCBF "OPPO";
  Oui 0x1023B9 "Samsung";
  Oui 0x1027F5 "TP-Link";
  Oui 0x102AB3 "Xiaomi";
  Oui 0x1049BB "Samsung";
  Oui 0x1065A3 "Vizio";
  Oui 0x10683F "LG";
  Oui 0x107B44 "ASUS";
  Oui 0x10BF48 "OPPO";
  Oui 0x10BFDC "Hisense";
  Oui 0x10C61F "Huawei";
  Oui 0x10C6FC "OPPO";
  Oui 0x10DA43 "Netgear";
  Oui 0x10DDB1 "Apple";
  Oui 0x141023 "Xiaomi";
  Oui 0x14109F "Apple";
  Oui 0x1427EA "TP-Link";
  Oui 0x142D27 "Samsung";
  Oui 0x145A05 "Apple";
  Oui 0x146D62 "Toshiba";
  Oui 0x147517 "Lenovo";
  Oui 0x14914A "Linksys";
  Oui 0x149192 "Samsung";
  Oui 0x1499E2 "Apple";
  Oui 0x14BD61 "Apple";
  Oui 0x14CC20 "TP-Link";
  Oui 0x14D64D "D-Link";
  Oui 0x14DAE9 "ASUS";
  Oui 0x14F42A "OPPO";
  Oui 0x170880 "Philips";
  Oui 0x17880B "Philips";
  Oui 0x181EB0 "Samsung";
  Oui 0x18549B "TCL";
  Oui 0x18595F "Xiaomi";
  Oui 0x1866DA "Dell";
  Oui 0x18749C "Amazon";
  Oui 0x1885C5 "OPPO";
  Oui 0x18AF8F "Apple";
  Oui 0x18BC5A "Tesla";
  Oui 0x18E73D "Nintendo";
  Oui 0x1C1B0D "Microsoft";
  Oui 0x1C1B68 "Epson";
  Oui 0x1C1D67 "Huawei";
  Oui 0x1C232C "Samsung";
  Oui 0x1C35F1 "Hisense";
  Oui 0x1C36BB "Apple";
  Oui 0x1C3BF3 "TP-Link";
  Oui 0x1C4593 "Canon";
  Oui 0x1C5A3E "Xiaomi";
  Oui 0x1C61B4 "TP-Link";
  Oui 0x1C69A5 "Intel";
  Oui 0x1C7EE5 "D-Link";
  Oui 0x1C872C "ASUS";
  Oui 0x1C9E46 "Canon";
  Oui 0x1CAF05 "Samsung";
  Oui 0x1CAFF7 "D-Link";
  Oui 0x1CB72C "Lenovo";
  Oui 0x1CBA8C "Google";
  Oui 0x1CBDB9 "D-Link";
  Oui 0x2004B7 "Dell";
  Oui 0x2009CE "Bose";
  Oui 0x200BC7 "Huawei";
  Oui 0x201A06 "Intel";
  Oui 0x201F3B "LG";
  Oui 0x203CAE "Linksys";
  Oui 0x203DBD "Huawei";
  Oui 0x204E6B "Hisense";
  Oui 0x204E7F "Netgear";
  Oui 0x2085FE "Hikvision";
  Oui 0x20A2E4 "Apple";
  Oui 0x20C6EB "Panasonic";
  Oui 0x240AC4 "Espressif";
  Oui 0x243739 "Google";
  Oui 0x2462AB "Espressif";
  Oui 0x2469A5 "Huawei";
  Oui 0x246F28 "Espressif";
  Oui 0x2477E5 "Canon";
  Oui 0x24A06E "Fitbit";
  Oui 0x24A160 "Espressif";
  Oui 0x24A43C "Ubiquiti";
  Oui 0x24DA9B "Fitbit";
  Oui 0x24DBAC "OPPO";
  Oui 0x24E314 "Apple";
  Oui 0x28107B "D-Link";
  Oui 0x28186E "Microsoft";
  Oui 0x281878 "Microsoft";
  Oui 0x2827BF "Samsung";
  Oui 0x28312A "Huawei";
  Oui 0x283737 "Apple";
  Oui 0x28395E "Samsung";
  Oui 0x283CE4 "Huawei";
  Oui 0x284180 "Hikvision";
  Oui 0x28570E "Hikvision";
  Oui 0x286C07 "Xiaomi";
  Oui 0x288088 "Netgear";
  Oui 0x2882A4 "Xiaomi";
  Oui 0x288335 "Samsung"].

Definition HNC_OUI_TABLE_2 : list hnc_oui_entry := [
  Oui 0x2887BA "TP-Link";
  Oui 0x289AFA "Samsung";
  Oui 0x28A02B "Apple";
  Oui 0x28B448 "Huawei";
  Oui 0x28E31F "Xiaomi";
  Oui 0x2C1F23 "Apple";
  Oui 0x2C27D7 "Toshiba";
  Oui 0x2C30B5 "Netgear";
  Oui 0x2C54CF "LG";
  Oui 0x2C56DC "ASUS";
  Oui 0x2C58E8 "Huawei";
  Oui 0x2C598A "LG";
  Oui 0x2C9D1E "Huawei";
  Oui 0x2C9FFB "Canon";
  Oui 0x2CAA8E "Wyze";
  Oui 0x2CAB00 "Huawei";
  Oui 0x2CABA4 "Vizio";
  Oui 0x2CAE2B "Samsung";
  Oui 0x2CB05D "Netgear";
  Oui 0x2CBC10 "Sony";
  Oui 0x2CCF67 "OPPO";
  Oui 0x30038A "OPPO";
  Oui 0x30055C "Brother";
  Oui 0x300D43 "Harman";
  Oui 0x30150E "Huawei";
  Oui 0x302432 "Apple";
  Oui 0x30469A "Netgear";
  Oui 0x30595B "OPPO";
  Oui 0x305A3A "ASUS";
  Oui 0x307C30 "Hisense";
  Oui 0x308D99 "Google";
  Oui 0x30AEA4 "Espressif";
  Oui 0x30B5C2 "TP-Link";
  Oui 0x30C7AE "Samsung";
  Oui 0x30F9ED "Sony";
  Oui 0x34145F "Samsung";
  Oui 0x344DF7 "LG";
  Oui 0x345A60 "Hisense";
  Oui 0x3460F9 "OPPO";
  Oui 0x346BD3 "TP-Link";
  Oui 0x3480B3 "Xiaomi";
  Oui 0x348741 "Samsung";
  Oui 0x349B1F "Samsung";
  Oui 0x349FB1 "Samsung";
  Oui 0x34AF2C "Nintendo";
  Oui 0x34B354 "Huawei";
  Oui 0x34D270 "Amazon";
  Oui 0x34DE1A "OPPO";
  Oui 0x34E2FD "Sony";
  Oui 0x380566 "Toshiba";
  Oui 0x381A52 "ASUS";
  Oui 0x382C4A "HP";
  Oui 0x384B76 "OPPO";
  Oui 0x3859F9 "Lenovo";
  Oui 0x38A4ED "Xiaomi";
  Oui 0x38AA3C "Samsung";
  Oui 0x38C986 "Apple";
  Oui 0x38CA73 "LG";
  Oui 0x38D40B "Samsung";
  Oui 0x38F73D "Amazon";
  Oui 0x3C0518 "Samsung";
  Oui 0x3C0754 "Apple";
  Oui 0x3C1B6F "Dahua";
  Oui 0x3C22FB "Apple";
  Oui 0x3C2AF4 "Epson";
  Oui 0x3C5A37 "LG";
  Oui 0x3C5CC4 "Ring";
  Oui 0x3C71BF "Espressif";
  Oui 0x3C84A6 "TP-Link";
  Oui 0x3C9544 "Panasonic";
  Oui 0x3C970E "Lenovo";
  Oui 0x3CEF8C "Dahua";
  Oui 0x3CF011 "Lenovo";
  Oui 0x403FFC "Fitbit";
  Oui 0x404E36 "Samsung";
  Oui 0x40831D "Apple";
  Oui 0x4083DE "Huawei";
  Oui 0x409C28 "Nintendo";
  Oui 0x40A69D "Panasonic";
  Oui 0x40A6D9 "Apple";
  Oui 0x40A8F0 "HP";
  Oui 0x40B0FA "LG";
  Oui 0x40B4CD "Amazon";
  Oui 0x40B837 "Samsung";
  Oui 0x40B89A "Samsung";
  Oui 0x40B8A8 "Google";
  Oui 0x40EC99 "Hisense";
  Oui 0x40ED98 "Garmin";
  Oui 0x40F201 "Arlo";
  Oui 0x440319 "Hikvision";
  Oui 0x441EA1 "HP";
  Oui 0x444C0C "Huawei";
  Oui 0x4457DC "Amazon";
  Oui 0x44650D "Amazon";
  Oui 0x447DA5 "Amazon";
  Oui 0x448A5B "Harman";
  Oui 0x449163 "Apple";
  Oui 0x44B57E "Fitbit";
  Oui 0x44D244 "Epson";
  Oui 0x44D9E7 "Ubiquiti";
  Oui 0x48137E "Samsung";
  Oui 0x48435A "Huawei";
  Oui 0x48437C "Apple";
  Oui 0x484971 "LG";
  Oui 0x4852BE "Amazon";
  Oui 0x485B39 "ASUS";
  Oui 0x4865EE "Intel";
  Oui 0x48A98A "Google";
  Oui 0x48D6D5 "Bose";
  Oui 0x48E729 "Espressif";
  Oui 0x4C0BBE "Microsoft";
  Oui 0x4C11AE "Espressif";
  Oui 0x4C11BF "Dahua";
  Oui 0x4C1A3A "Yamaha";
  Oui 0x4C1FCC "Huawei";
  Oui 0x4C3275 "Apple";
  Oui 0x4C5E0C "MikroTik";
  Oui 0x4C60DE "Netgear";
  Oui 0x4C7C5F "Apple";
  Oui 0x4C99E3 "Hikvision";
  Oui 0x4CB16C "Huawei";
  Oui 0x4CBCA5 "Samsung";
  Oui 0x4CBE14 "Brother";
  Oui 0x4CEBD6 "Espressif";
  Oui 0x4CF59C "Hisense";
  Oui 0x4CF95D "Huawei";
  Oui 0x4CFCAA "Tesla";
  Oui 0x50022A "Tuya";
  Oui 0x500291 "Espressif";
  Oui 0x500809 "Lenovo"].

Definition HNC_OUI_TABLE_3 : list hnc_oui_entry := [
  Oui 0x501500 "Xiaomi";
  Oui 0x50465D "ASUS";
  Oui 0x50640D "Xiaomi";
  Oui 0x5065F3 "HP";
  Oui 0x50C4DD "Hisense";
  Oui 0x50C7BF "TP-Link";
  Oui 0x50CB1D "Intel";
  Oui 0x50CCF8 "Samsung";
  Oui 0x50CD22 "OPPO";
  Oui 0x50DCE7 "Amazon";
  Oui 0x50EAD6 "Xiaomi";
  Oui 0x50EC50 "Aqara";
  Oui 0x541DD9 "Google";
  Oui 0x542696 "Samsung";
  Oui 0x54423E "Sony";
  Oui 0x544249 "Sony";
  Oui 0x546CEB "Lenovo";
  Oui 0x548998 "Vizio";
  Oui 0x54A050 "ASUS";
  Oui 0x54A51B "Huawei";
  Oui 0x54CF36 "Tesla";
  Oui 0x54E1AD "Lenovo";
  Oui 0x54E43A "Apple";
  Oui 0x584498 "Xiaomi";
  Oui 0x5849BA "TCL";
  Oui 0x586AB1 "Hikvision";
  Oui 0x58820A "Microsoft";
  Oui 0x58A2B5 "LG";
  Oui 0x58B035 "Apple";
  Oui 0x58B10F "Samsung";
  Oui 0x58BDA3 "Nintendo";
  Oui 0x58C38B "Samsung";
  Oui 0x58EF68 "Linksys";
  Oui 0x58FB84 "Xiaomi";
  Oui 0x5C0A5B "Amazon";
  Oui 0x5C1B7D "Xiaomi";
  Oui 0x5C3C27 "Toshiba";
  Oui 0x5C497D "Samsung";
  Oui 0x5C5B35 "Google";
  Oui 0x5C628B "TP-Link";
  Oui 0x5C7D5E "Huawei";
  Oui 0x5CA5E6 "Lenovo";
  Oui 0x5CA86A "Huawei";
  Oui 0x5CAAFD "Sonos";
  Oui 0x5CB524 "Sony";
  Oui 0x5CCF7F "Espressif";
  Oui 0x5CD998 "D-Link";
  Oui 0x5CF207 "Hikvision";
  Oui 0x5CF6DC "Samsung";
  Oui 0x5CF938 "Apple";
  Oui 0x5CF9DD "Dell";
  Oui 0x603570 "Intel";
  Oui 0x6038E0 "Linksys";
  Oui 0x60455E "Microsoft";
  Oui 0x60A44C "ASUS";
  Oui 0x60A4B7 "TP-Link";
  Oui 0x60D819 "Lenovo";
  Oui 0x60DE44 "Huawei";
  Oui 0x60E3AC "LG";
  Oui 0x64004A "Dell";
  Oui 0x64006A "Lenovo";
  Oui 0x64090C "Xiaomi";
  Oui 0x640980 "Xiaomi";
  Oui 0x64166D "Google";
  Oui 0x641CB0 "Huawei";
  Oui 0x6466B3 "Google";
  Oui 0x6468BC "Hisense";
  Oui 0x64A651 "Huawei";
  Oui 0x64B853 "Samsung";
  Oui 0x64CC2E "Xiaomi";
  Oui 0x64EB8C "Epson";
  Oui 0x6805CA "Epson";
  Oui 0x680AE2 "Tuya";
  Oui 0x681599 "Canon";
  Oui 0x687251 "Ubiquiti";
  Oui 0x689C70 "Apple";
  Oui 0x68A86D "Apple";
  Oui 0x68AAD2 "Google";
  Oui 0x68AB1E "Intel";
  Oui 0x68B1D6 "Canon";
  Oui 0x68C63A "Espressif";
  Oui 0x68D93C "Apple";
  Oui 0x68DBF5 "Amazon";
  Oui 0x68DD26 "OPPO";
  Oui 0x68DFDD "Xiaomi";
  Oui 0x68EBAE "Samsung";
  Oui 0x6C05D7 "OPPO";
  Oui 0x6C0B84 "Lenovo";
  Oui 0x6C2F2C "Samsung";
  Oui 0x6C3B6B "MikroTik";
  Oui 0x6C5CDE "TCL";
  Oui 0x6C5F1C "Xiaomi";
  Oui 0x6CAAB3 "Google";
  Oui 0x6CB0CE "Netgear";
  Oui 0x6CD032 "LG";
  Oui 0x7016CF "Google";
  Oui 0x70288B "Samsung";
  Oui 0x7054F5 "Huawei";
  Oui 0x705AB6 "Lenovo";
  Oui 0x7085C2 "Intel";
  Oui 0x709E29 "PlayStation";
  Oui 0x70A8E3 "Huawei";
  Oui 0x70BC10 "Microsoft";
  Oui 0x70D7A7 "OPPO";
  Oui 0x70DEE2 "Apple";
  Oui 0x70F927 "Samsung";
  Oui 0x742344 "Xiaomi";
  Oui 0x7451BA "LG";
  Oui 0x747548 "Amazon";
  Oui 0x749975 "Bose";
  Oui 0x74CD42 "Panasonic";
  Oui 0x74D55B "Tesla";
  Oui 0x74D637 "Amazon";
  Oui 0x74E14A "Harman";
  Oui 0x74E5F9 "Intel";
  Oui 0x7811DC "Aqara";
  Oui 0x781848 "Lenovo";
  Oui 0x7824AF "ASUS";
  Oui 0x78282A "Sonos";
  Oui 0x7828CA "Sonos";
  Oui 0x782BCB "Xiaomi";
  Oui 0x784558 "Ubiquiti";
  Oui 0x784F43 "Vizio";
  Oui 0x78542E "D-Link";
  Oui 0x78595E "Samsung";
  Oui 0x789508 "Canon";
  Oui 0x78BDBC "Samsung";
  Oui 0x78CA39 "Apple";
  Oui 0x78D752 "Huawei";
  Oui 0x78F882 "Samsung"].

Definition HNC_OUI_TABLE_4 : list hnc_oui_entry := [
  Oui 0x7C1CF1 "Huawei";
  Oui 0x7C1DD9 "Xiaomi";
  Oui 0x7C1E52 "Microsoft";
  Oui 0x7C2EBD "Google";
  Oui 0x7C49EB "Xiaomi";
  Oui 0x7C6193 "Samsung";
  Oui 0x7C6D62 "Apple";
  Oui 0x7C70BC "Arlo";
  Oui 0x7C76C8 "Intel";
  Oui 0x7C78B2 "Wyze";
  Oui 0x7C7D3D "Huawei";
  Oui 0x7C9EBD "Espressif";
  Oui 0x7CA61D "Sony";
  Oui 0x7CA9B5 "Panasonic";
  Oui 0x7CBB8A "Nintendo";
  Oui 0x7CC2C6 "Google";
  Oui 0x7CED8D "Microsoft";
  Oui 0x802AA8 "Ubiquiti";
  Oui 0x803773 "TCL";
  Oui 0x805EC0 "HP";
  Oui 0x80656D "Samsung";
  Oui 0x80910A "Toshiba";
  Oui 0x80927A "Brother";
  Oui 0x80AFCA "Xiaomi";
  Oui 0x80F73E "OPPO";
  Oui 0x84119E "Samsung";
  Oui 0x841B5E "Netgear";
  Oui 0x841B77 "Epson";
  Oui 0x8425DB "Samsung";
  Oui 0x845387 "Vizio";
  Oui 0x848999 "Panasonic";
  Oui 0x84A8E4 "Huawei";
  Oui 0x84C9B2 "D-Link";
  Oui 0x84D6D0 "Amazon";
  Oui 0x84DBAC "Huawei";
  Oui 0x84F3EB "Espressif";
  Oui 0x84FD27 "IKEA";
  Oui 0x88329B "Samsung";
  Oui 0x88408E "Huawei";
  Oui 0x8863DF "Apple";
  Oui 0x88708C "Lenovo";
  Oui 0x8871E5 "Amazon";
  Oui 0x887DDE "Canon";
  Oui 0x88C663 "Apple";
  Oui 0x88C9D0 "LG";
  Oui 0x88CEFA "Huawei";
  Oui 0x88D7F6 "ASUS";
  Oui 0x8C1645 "Intel";
  Oui 0x8C53C3 "Hisense";
  Oui 0x8C56C5 "Nintendo";
  Oui 0x8C8590 "Bose";
  Oui 0x8CAAB5 "Espressif";
  Oui 0x8CBEBE "Xiaomi";
  Oui 0x8CDCD4 "Huawei";
  Oui 0x902B34 "Huawei";
  Oui 0x90840D "Apple";
  Oui 0x90940E "D-Link";
  Oui 0x90B21F "Apple";
  Oui 0x90B6ED "Samsung";
  Oui 0x9407A9 "Xiaomi";
  Oui 0x94181B "Ubiquiti";
  Oui 0x941A72 "Huawei";
  Oui 0x9422C8 "Panasonic";
  Oui 0x9457A5 "HP";
  Oui 0x94B97E "Espressif";
  Oui 0x94D29B "OPPO";
  Oui 0x94EB2C "Google";
  Oui 0x94F3B1 "Sonos";
  Oui 0x9809CF "OPPO";
  Oui 0x983B8F "Garmin";
  Oui 0x9852B1 "Samsung";
  Oui 0x98A7B0 "Microsoft";
  Oui 0x98B8E3 "Apple";
  Oui 0x98CDAC "Shelly";
  Oui 0x98D6F7 "LG";
  Oui 0x98DF82 "Hikvision";
  Oui 0x98E743 "Dell";
  Oui 0x98E8FA "Nintendo";
  Oui 0x98ED5C "Tesla";
  Oui 0x98F4AB "Espressif";
  Oui 0x98FA9B "Xiaomi";
  Oui 0x9C14C3 "Dahua";
  Oui 0x9C2883 "Huawei";
  Oui 0x9C28EF "Huawei";
  Oui 0x9C3DCF "Netgear";
  Oui 0x9C53CD "TP-Link";
  Oui 0x9C5CF9 "Yamaha";
  Oui 0x9C93E4 "Google";
  Oui 0x9C99A0 "Xiaomi";
  Oui 0x9CAE4E "Epson";
  Oui 0x9CB2B2 "Huawei";
  Oui 0x9CE063 "Samsung";
  Oui 0xA002DC "Amazon";
  Oui 0xA00BBA "TCL";
  Oui 0xA020A6 "Espressif";
  Oui 0xA021B7 "Netgear";
  Oui 0xA039F7 "LG";
  Oui 0xA040A0 "Netgear";
  Oui 0xA0510B "Lenovo";
  Oui 0xA07591 "Samsung";
  Oui 0xA081B5 "Huawei";
  Oui 0xA086C6 "Xiaomi";
  Oui 0xA0B4A5 "Samsung";
  Oui 0xA0BD1D "Dahua";
  Oui 0xA0C589 "OPPO";
  Oui 0xA0C9A0 "Microsoft";
  Oui 0xA0D3C1 "HP";
  Oui 0xA0EDCD "Apple";
  Oui 0xA0F6FD "Bose";
  Oui 0xA41F72 "Dell";
  Oui 0xA42BB0 "TP-Link";
  Oui 0xA434D9 "Samsung";
  Oui 0xA4506B "Google";
  Oui 0xA475DC "Amazon";
  Oui 0xA4770C "Harman";
  Oui 0xA4778D "Google";
  Oui 0xA486C7 "LG";
  Oui 0xA48CDB "Tuya";
  Oui 0xA48E0A "Lenovo";
  Oui 0xA4B197 "Apple";
  Oui 0xA4BA76 "Huawei";
  Oui 0xA4CF12 "Espressif";
  Oui 0xA4D1D2 "Apple";
  Oui 0xA4DA22 "Google";
  Oui 0xA4DA32 "Xiaomi";
  Oui 0xA4DDE6 "Canon";
  Oui 0xA4EE57 "Epson";
  Oui 0xA855F1 "Google";
  Oui 0xA87DC3 "Xiaomi";
  Oui 0xA87EEA "Samsung"].

Definition HNC_OUI_TABLE_5 : list hnc_oui_entry := [
  Oui 0xA8C83A "Huawei";
  Oui 0xA8D2E0 "TCL";
  Oui 0xA8E3EE "PlayStation";
  Oui 0xAC16B6 "HP";
  Oui 0xAC180E "Epson";
  Oui 0xAC220B "ASUS";
  Oui 0xAC293A "Apple";
  Oui 0xAC2DA3 "OPPO";
  Oui 0xAC63BE "Amazon";
  Oui 0xAC8F3B "Lenovo";
  Oui 0xAC92A4 "Xiaomi";
  Oui 0xAC9B0A "Sony";
  Oui 0xAC9E17 "ASUS";
  Oui 0xACB966 "Hikvision";
  Oui 0xACBC32 "Amazon";
  Oui 0xACCF23 "Panasonic";
  Oui 0xACE215 "Huawei";
  Oui 0xACF108 "LG";
  Oui 0xB02A43 "Lenovo";
  Oui 0xB03956 "Netgear";
  Oui 0xB047BF "Ring";
  Oui 0xB0481A "Apple";
  Oui 0xB0487A "TP-Link";
  Oui 0xB05B99 "Huawei";
  Oui 0xB065BD "Apple";
  Oui 0xB06EBF "ASUS";
  Oui 0xB06FE0 "OPPO";
  Oui 0xB0C554 "Arlo";
  Oui 0xB0DF3A "Samsung";
  Oui 0xB0E235 "Xiaomi";
  Oui 0xB0E43F "Microsoft";
  Oui 0xB0E892 "Epson";
  Oui 0xB0EC71 "OPPO";
  Oui 0xB407F9 "Sony";
  Oui 0xB40B44 "Samsung";
  Oui 0xB42E99 "Harman";
  Oui 0xB45D50 "Canon";
  Oui 0xB47443 "Xiaomi";
  Oui 0xB47956 "Tuya";
  Oui 0xB47C9C "Amazon";
  Oui 0xB49691 "HP";
  Oui 0xB499BA "HP";
  Oui 0xB4CD27 "Huawei";
  Oui 0xB4E62D "Espressif";
  Oui 0xB4FBE4 "Yamaha";
  Oui 0xB8098A "Apple";
  Oui 0xB81DAA "LG";
  Oui 0xB827EB "Raspberry-Pi";
  Oui 0xB83765 "Lenovo";
  Oui 0xB853AC "Apple";
  Oui 0xB857D8 "Samsung";
  Oui 0xB868D4 "TCL";
  Oui 0xB869F4 "MikroTik";
  Oui 0xB88A60 "Intel";
  Oui 0xB89678 "Harman";
  Oui 0xB89A2A "Microsoft";
  Oui 0xB8A175 "Vizio";
  Oui 0xB8A386 "D-Link";
  Oui 0xB8AE6E "Nintendo";
  Oui 0xB8D812 "Harman";
  Oui 0xB8E937 "Sonos";
  Oui 0xBC0294 "Hikvision";
  Oui 0xBC20BA "Samsung";
  Oui 0xBC52B7 "Apple";
  Oui 0xBC5436 "Apple";
  Oui 0xBC5FF4 "Intel";
  Oui 0xBC60A7 "Sony";
  Oui 0xBC7E8F "Vizio";
  Oui 0xBC8A1E "LG";
  Oui 0xBC8CCD "Samsung";
  Oui 0xBCAEC5 "ASUS";
  Oui 0xBCD177 "TP-Link";
  Oui 0xBCDDC2 "Espressif";
  Oui 0xBCE10D "Huawei";
  Oui 0xBCE2BE "Samsung";
  Oui 0xC02C5C "OPPO";
  Oui 0xC02FAF "Samsung";
  Oui 0xC03EBA "Apple";
  Oui 0xC03F0E "Netgear";
  Oui 0xC05627 "Hikvision";
  Oui 0xC0954D "Canon";
  Oui 0xC0C1C0 "Linksys";
  Oui 0xC0C9E3 "TP-Link";
  Oui 0xC0F6BF "Garmin";
  Oui 0xC40415 "Netgear";
  Oui 0xC40BCB "Vizio";
  Oui 0xC4438F "LG";
  Oui 0xC4576E "Samsung";
  Oui 0xC45BBE "Espressif";
  Oui 0xC46699 "Xiaomi";
  Oui 0xC46AB7 "Xiaomi";
  Oui 0xC46E1F "TP-Link";
  Oui 0xC485C8 "Huawei";
  Oui 0xC4A2CA "Panasonic";
  Oui 0xC4A366 "Huawei";
  Oui 0xC4AD34 "MikroTik";
  Oui 0xC4B741 "Hikvision";
  Oui 0xC4E3EB "Google";
  Oui 0xC4F081 "Xiaomi";
  Oui 0xC80210 "LG";
  Oui 0xC8193E "Samsung";
  Oui 0xC81F66 "Dell";
  Oui 0xC82A14 "Apple";
  Oui 0xC82B96 "Espressif";
  Oui 0xC863F1 "PlayStation";
  Oui 0xC87B23 "Huawei";
  Oui 0xC8BCC8 "Xiaomi";
  Oui 0xC8BE19 "D-Link";
  Oui 0xC8C9A3 "Espressif";
  Oui 0xC8D719 "Linksys";
  Oui 0xC8DF84 "Espressif";
  Oui 0xC8E265 "Hisense";
  Oui 0xC8E9EE "TCL";
  Oui 0xC8F733 "Microsoft";
  Oui 0xCC2D8C "LG";
  Oui 0xCC2DE0 "MikroTik";
  Oui 0xCC348E "LG";
  Oui 0xCC50E3 "Espressif";
  Oui 0xCC52AF "Microsoft";
  Oui 0xCC96A0 "Huawei";
  Oui 0xCCB255 "D-Link";
  Oui 0xCCB8A8 "Xiaomi";
  Oui 0xD017C2 "ASUS";
  Oui 0xD022BE "Google";
  Oui 0xD03A2E "Xiaomi";
  Oui 0xD03F27 "Wyze";
  Oui 0xD04F7E "Apple";
  Oui 0xD0667B "Huawei";
  Oui 0xD06C9A "Lenovo";
  Oui 0xD07E28 "HP"].

Definition HNC_OUI_TABLE_6 : list hnc_oui_entry := [
  Oui 0xD0817A "Apple";
  Oui 0xD0C5D3 "Garmin";
  Oui 0xD0C8A1 "Fitbit";
  Oui 0xD0CF5E "IKEA";
  Oui 0xD0DFC7 "Samsung";
  Oui 0xD44B5E "PlayStation";
  Oui 0xD45D64 "ASUS";
  Oui 0xD4610F "TCL";
  Oui 0xD4619D "Apple";
  Oui 0xD481D7 "Dell";
  Oui 0xD487D8 "Samsung";
  Oui 0xD48890 "Samsung";
  Oui 0xD4970B "Xiaomi";
  Oui 0xD4AE52 "Dell";
  Oui 0xD4B110 "Huawei";
  Oui 0xD4CA6D "MikroTik";
  Oui 0xD4E8B2 "Hikvision";
  Oui 0xD831CF "Samsung";
  Oui 0xD8490B "Huawei";
  Oui 0xD86BF7 "Yamaha";
  Oui 0xD89C67 "Toshiba";
  Oui 0xD89D67 "HP";
  Oui 0xD89EF3 "Microsoft";
  Oui 0xD8BFC0 "Tuya";
  Oui 0xD8D43C "Sony";
  Oui 0xDC2B2A "Apple";
  Oui 0xDC2B61 "Apple";
  Oui 0xDC4427 "Tesla";
  Oui 0xDC4F22 "Tuya";
  Oui 0xDC537C "Intel";
  Oui 0xDC72AD "Huawei";
  Oui 0xDC9FDB "Ubiquiti";
  Oui 0xDCA632 "Raspberry-Pi";
  Oui 0xDCA904 "Apple";
  Oui 0xDCCB8E "OPPO";
  Oui 0xE0191D "OPPO";
  Oui 0xE0469A "Netgear";
  Oui 0xE05FB9 "Vizio";
  Oui 0xE06266 "Samsung";
  Oui 0xE063DA "Ubiquiti";
  Oui 0xE0A71C "Hisense";
  Oui 0xE0ACCB "Apple";
  Oui 0xE0BB9E "Epson";
  Oui 0xE0DB55 "Dell";
  Oui 0xE0E751 "Nintendo";
  Oui 0xE4115B "HP";
  Oui 0xE425E7 "Apple";
  Oui 0xE42F26 "OPPO";
  Oui 0xE43E12 "Intel";
  Oui 0xE45F01 "Raspberry-Pi";
  Oui 0xE46F13 "Netgear";
  Oui 0xE46F3B "HP";
  Oui 0xE488B9 "Canon";
  Oui 0xE48B7F "Apple";
  Oui 0xE48D8C "MikroTik";
  Oui 0xE4A471 "Intel";
  Oui 0xE4BD4B "Huawei";
  Oui 0xE4C63D "Apple";
  Oui 0xE4E0C5 "Samsung";
  Oui 0xE8039A "Samsung";
  Oui 0xE80601 "Aqara";
  Oui 0xE8088B "Huawei";
  Oui 0xE85354 "Samsung";
  Oui 0xE869FC "Tuya";
  Oui 0xE88D28 "Apple";
  Oui 0xE892A4 "LG";
  Oui 0xE89309 "TCL";
  Oui 0xE8CC18 "TP-Link";
  Oui 0xE8CD2D "Huawei";
  Oui 0xE8DE27 "TP-Link";
  Oui 0xEC0E03 "Nintendo";
  Oui 0xEC1BBD "Philips-Hue";
  Oui 0xEC64C9 "Espressif";
  Oui 0xEC71DB "Reolink";
  Oui 0xEC8916 "Lenovo";
  Oui 0xEC9A74 "HP";
  Oui 0xECB5FA "IKEA";
  Oui 0xECEBB8 "Microsoft";
  Oui 0xECF4BB "Dell";
  Oui 0xF01DBC "Microsoft";
  Oui 0xF0272D "Amazon";
  Oui 0xF04141 "Hikvision";
  Oui 0xF08173 "Samsung";
  Oui 0xF08A76 "OPPO";
  Oui 0xF094E3 "TP-Link";
  Oui 0xF09FC2 "Ubiquiti";
  Oui 0xF0B429 "Xiaomi";
  Oui 0xF0BF97 "Sony";
  Oui 0xF0D2F1 "Amazon";
  Oui 0xF0DBF8 "Apple";
  Oui 0xF0F61C "Apple";
  Oui 0xF0F6C1 "Sonos";
  Oui 0xF42981 "OPPO";
  Oui 0xF430B9 "HP";
  Oui 0xF4559C "Huawei";
  Oui 0xF46B8C "Vizio";
  Oui 0xF48B32 "Xiaomi";
  Oui 0xF48C50 "Apple";
  Oui 0xF48CEB "D-Link";
  Oui 0xF48FFD "Xiaomi";
  Oui 0xF49F54 "Samsung";
  Oui 0xF4B301 "Intel";
  Oui 0xF4C714 "Huawei";
  Oui 0xF4F15A "Apple";
  Oui 0xF4F5D8 "Xiaomi";
  Oui 0xF4F5E8 "Google";
  Oui 0xF80CF3 "LG";
  Oui 0xF81EDF "Apple";
  Oui 0xF83DFF "Huawei";
  Oui 0xF83F51 "Google";
  Oui 0xF84DFC "Hikvision";
  Oui 0xF895C7 "LG";
  Oui 0xF8A45F "Xiaomi";
  Oui 0xF8B156 "Dell";
  Oui 0xF8E903 "TCL";
  Oui 0xFC0FE6 "OPPO";
  Oui 0xFC253F "Apple";
  Oui 0xFC4BBC "Fitbit";
  Oui 0xFC4DD4 "Canon";
  Oui 0xFC5F49 "Dahua";
  Oui 0xFC6479 "Xiaomi";
  Oui 0xFCA183 "Amazon";
  Oui 0xFCA667 "Amazon";
  Oui 0xFCC2DE "OPPO";
  Oui 0xFCECDA "Ubiquiti";
  Oui 0xFCF152 "Sony";
  Oui 0xFCF8AE "Intel"].

Definition HNC_OUI_TABLE : list hnc_oui_entry :=
  HNC_OUI_TABLE_0 ++ HNC_OUI_TABLE_1 ++ HNC_OUI_TABLE_2 ++ HNC_OUI_TABLE_3 ++ HNC_OUI_TABLE_4 ++ HNC_OUI_TABLE_5 ++ HNC_OUI_TABLE_6.
