(* ===== verification/OuiOverride.v ===== *)
(** * User overrides of vendor names ([oui_override.c])

    The table of at most 256 user labels, keyed by a normalised 24-bit MAC
    prefix: [init], [reset], [count], [lookup], the tolerant JSON scanner of
    [load], and what they guarantee. *)
From S2P Require Import Prelude CStr.
Local Open Scope Z_scope.

Definition HNC_OVERRIDE_MAX_ENTRIES : nat := 256.
Definition HNC_OVERRIDE_LABEL_LEN : nat := 64.
Definition OVERRIDE_FILE_MAX : Z := 16 * 1024.

(** [hnc_override_entry_t] *)
Record hnc_override_entry := OverrideEntry {
  ov_active : bool;
  ov_prefix : bytes;
  ov_label : bytes
}.
Definition override_zero : hnc_override_entry := OverrideEntry false [] [].

(** The three globals of the file. *)
Record override_state := OverrideState {
  g_overrides : list hnc_override_entry;
  g_override_count : nat;
  g_override_path : bytes
}.

(** [normalize_prefix]: six hexadecimal digits in lower case, [None] for -1. *)
Definition prefix_done (out : bytes) : option bytes :=
  if (length out =? 6)%nat then Some out else None.

Fixpoint normalize_from (inp out : bytes) : option bytes :=
  match inp with
  | [] => prefix_done out
  | c :: rest =>
      if negb (length out <? 6)%nat then prefix_done out
      else if (c =? COLON) || (c =? 45) || (c =? 32) then normalize_from rest out
      else if isxdigit c then normalize_from rest (out ++ [tolower c])
      else None
  end.

Definition normalize_prefix (inp : bytes) : option bytes := normalize_from inp [].

Definition hnc_override_reset (st : override_state) : override_state :=
  OverrideState (replicate HNC_OVERRIDE_MAX_ENTRIES override_zero) 0 (g_override_path st).

(** [hnc_override_init]: a NULL path is [None]. *)
Definition hnc_override_init (path : option bytes) : override_state :=
  OverrideState (replicate HNC_OVERRIDE_MAX_ENTRIES override_zero) 0
    (match path with Some p => c_trunc 256 p | None => [] end).

Definition hnc_override_count (st : override_state) : nat := g_override_count st.

(** [hnc_override_lookup]: [Some label] for 1 with [out] written, [None] for 0. *)
Definition hnc_override_lookup (st : override_state) (mac : bytes) (outlen : nat)
  : option bytes :=
  if (outlen =? 0)%nat then None
  else if (g_override_count st =? 0)%nat then None
  else match normalize_prefix mac with
       | None => None
       | Some key =>
           e ← list_find (fun e => ov_active e = true /\ ov_prefix e = key)
                 (take (g_override_count st) (g_overrides st));
           Some (c_trunc outlen (cut_nul (ov_label e.2)))
       end.

(** [find_unescaped_quote]: the text before the quote and the suffix at it. *)
Fixpoint find_unescaped_quote (p : bytes) : option (bytes * bytes) :=
  match p with
  | [] => None
  | c :: r =>
      if c =? BSLASH then
        match r with
        | [] => None
        | d :: r' => '(t, q) ← find_unescaped_quote r'; Some (c :: d :: t, q)
        end
      else if c =? QUOTE then Some ([], p)
      else '(t, q) ← find_unescaped_quote r; Some (c :: t, q)
  end.

(** The character a JSON escape stands for. *)
Definition json_unescape1 (c : Z) : Z :=
  if c =? 110 then NL else if c =? 114 then CR else if c =? 116 then TAB
  else if c =? QUOTE then QUOTE else if c =? BSLASH then BSLASH
  else if c =? 47 then 47 else c.

(** [decode_json_string], with the bytes written so far as an accumulator. *)
Fixpoint decode_json_from (src out : bytes) (out_size : nat) : bytes :=
  match src with
  | [] => out
  | c :: r =>
      if negb (length out + 1 <? out_size)%nat then out
      else if c =? BSLASH then
        match r with
        | d :: r' => decode_json_from r' (out ++ [json_unescape1 d]) out_size
        | [] => decode_json_from r (out ++ [c]) out_size
        end
      else decode_json_from r (out ++ [c]) out_size
  end.
Definition decode_json_string (src : bytes) (out_size : nat) : bytes :=
  if (out_size =? 0)%nat then [] else decode_json_from src [] out_size.

(** [skip_value] of [hnc_override_load]: skip the value of an over-long key. *)
Definition skip_value (p : bytes) : bytes :=
  let p := drop_while (fun c => negb (c =? COLON)) p in
  let p := tail p in
  let p := drop_while json_ws p in
  match p with
  | c :: p' =>
      if c =? QUOTE then
        match find_unescaped_quote p' with
        | Some (_, vq) => tail vq
        | None => p'
        end
      else p
  | [] => p
  end.

(** One turn of the loop of [hnc_override_load], up to the point where an entry
    is stored: the scan stops, goes on at another position without storing, or
    yields a key, a raw value and the position behind them. *)
Inductive scan_result :=
| ScanStop
| ScanSkip (p : bytes)
| ScanEntry (key val p : bytes).

Definition scan_value (key_raw p : bytes) : scan_result :=
  match drop_while json_ws p with
  | c :: p =>
      if negb (c =? COLON) then ScanSkip (c :: p)
      else
        match drop_while json_ws p with
        | d :: p =>
            if negb (d =? QUOTE) then ScanSkip (d :: p)
            else
              match find_unescaped_quote p with
              | None => ScanStop
              | Some (val, val_end) =>
                  match normalize_prefix (cut_nul key_raw) with
                  | None => ScanSkip (tail val_end)
                  | Some key => ScanEntry key val (tail val_end)
                  end
              end
        | [] => ScanSkip []
        end
  | [] => ScanSkip []
  end.

Definition scan_entry (p : bytes) : scan_result :=
  match drop_while (fun c => negb (c =? QUOTE)) p with
  | [] => ScanStop
  | _ :: p =>
      match find_unescaped_quote p with
      | None => ScanStop
      | Some (key_raw, key_end) =>
          if (64 <=? length key_raw)%nat then ScanSkip (skip_value (tail key_end))
          else scan_value key_raw (tail key_end)
      end
  end.

(** The slot of an entry: the one that has its key already, or the next one. *)
Definition put_entry (tab : list hnc_override_entry) (loaded : nat) (key val : bytes)
  : list hnc_override_entry * nat :=
  let entry := OverrideEntry true key (decode_json_string val HNC_OVERRIDE_LABEL_LEN) in
  match find_idx (fun e => bool_decide (ov_prefix e = key)) (take loaded tab) with
  | Some existing_idx => (<[existing_idx := entry]> tab, loaded)
  | None => (<[loaded := entry]> tab, S loaded)
  end.

Definition load_state : Type := bytes * nat * list hnc_override_entry.

Definition load_step (s : load_state) : load_state + (nat * list hnc_override_entry) :=
  let '(p, loaded, tab) := s in
  if (length p =? 0)%nat || negb (loaded <? HNC_OVERRIDE_MAX_ENTRIES)%nat
  then inr (loaded, tab)
  else match scan_entry p with
       | ScanStop => inr (loaded, tab)
       | ScanSkip p' => inl (p', loaded, tab)
       | ScanEntry key val p' =>
           let '(tab', loaded') := put_entry tab loaded key val in
           inl (p', loaded', tab')
       end.

(** [hnc_override_load].  [content] is the file at the configured path, [None]
    when it cannot be opened; the allocation and the read succeed.  The result is
    the return value and the new state. *)
Definition hnc_override_load (content : option bytes) (st : override_state)
  : nat * override_state :=
  match g_override_path st, content with
  | [], _ | _, None => (0%nat, st)
  | _, Some buf =>
      if (length buf =? 0)%nat || (OVERRIDE_FILE_MAX <? Z.of_nat (length buf)) then (0%nat, st)
      else match loop load_step (S (length buf)) (buf, 0%nat, g_overrides st) with
           | Some (loaded, tab) => (loaded, OverrideState tab loaded (g_override_path st))
           | None => (0%nat, st)
           end
  end.

(** ** Scanner lemmas *)
Lemma find_unescaped_quote_Some p t q :
  find_unescaped_quote p = Some (t, q) -> p = t ++ q /\ exists q', q = QUOTE :: q'.
Proof.
  revert t q. induction p as [p IH] using (induction_ltof1 _ (@length Z)). unfold ltof in IH.
  intros t q. destruct p as [|c r]; simpl; [done|].
  destruct (c =? BSLASH) eqn:Eb.
  - destruct r as [|d r']; [done|].
    destruct (find_unescaped_quote r') as [[t' q']|] eqn:E; simpl; [|done].
    intros [= <- <-]. destruct (IH r' ltac:(simpl; lia) _ _ E) as [-> ?]. done.
  - destruct (c =? QUOTE) eqn:Eq; bool_simpl.
    + intros [= <- <-]. subst. eauto.
    + destruct (find_unescaped_quote r) as [[t' q']|] eqn:E; simpl; [|done].
      intros [= <- <-]. destruct (IH r ltac:(simpl; lia) _ _ E) as [-> ?]. done.
Qed.

Lemma find_unescaped_quote_tail p t q :
  find_unescaped_quote p = Some (t, q) -> (length (tail q) < length p)%nat.
Proof.
  intros [-> [q' ->]]%find_unescaped_quote_Some. rewrite length_app. simpl. lia.
Qed.

Lemma tail_length {A} (l : list A) : (length (tail l) <= length l)%nat.
Proof. destruct l; simpl; lia. Qed.

Lemma skip_value_length p : (length (skip_value p) <= length p)%nat.
Proof.
  unfold skip_value.
  pose proof (drop_while_length (fun c => negb (c =? COLON)) p) as H1.
  set (p1 := drop_while (fun c => negb (c =? COLON)) p) in *.
  pose proof (tail_length p1) as H2.
  pose proof (drop_while_length json_ws (tail p1)) as H3.
  destruct (drop_while json_ws (tail p1)) as [|c p2]; simpl in *; [lia|].
  destruct (c =? QUOTE); simpl; [|lia].
  destruct (find_unescaped_quote p2) as [[t q]|] eqn:E; simpl; [|lia].
  apply find_unescaped_quote_tail in E. lia.
Qed.

Definition scan_rest (r : scan_result) : option bytes :=
  match r with ScanStop => None | ScanSkip p | ScanEntry _ _ p => Some p end.

Lemma scan_value_rest key p p' :
  scan_rest (scan_value key p) = Some p' -> (length p' <= length p)%nat.
Proof.
  unfold scan_value. pose proof (drop_while_length json_ws p) as H1.
  destruct (drop_while json_ws p) as [|c p1]; simpl in *; [intros [= <-]; simpl; lia|].
  destruct (negb (c =? COLON)); simpl; [intros [= <-]; simpl; lia|].
  pose proof (drop_while_length json_ws p1) as H2.
  destruct (drop_while json_ws p1) as [|d p2]; simpl in *; [intros [= <-]; simpl; lia|].
  destruct (negb (d =? QUOTE)); simpl; [intros [= <-]; simpl; lia|].
  destruct (find_unescaped_quote p2) as [[t q]|] eqn:E; simpl; [|done].
  apply find_unescaped_quote_tail in E.
  destruct (normalize_prefix (cut_nul key)); simpl; intros [= <-]; lia.
Qed.

(** Every turn of the loop moves forward, even over malformed text. *)
Lemma scan_entry_progress p p' :
  scan_rest (scan_entry p) = Some p' -> (length p' < length p)%nat.
Proof.
  unfold scan_entry.
  pose proof (drop_while_length (fun c => negb (c =? QUOTE)) p) as H1.
  destruct (drop_while _ p) as [|c p1]; [done|]. simpl in H1.
  destruct (find_unescaped_quote p1) as [[t q]|] eqn:E; [|done].
  apply find_unescaped_quote_tail in E.
  destruct (64 <=? length t)%nat.
  - intros Hs. injection Hs as <-. pose proof (skip_value_length (tail q)). lia.
  - intros H%scan_value_rest. lia.
Qed.

Lemma scan_entry_key p key val p' :
  scan_entry p = ScanEntry key val p' -> exists raw, normalize_prefix raw = Some key.
Proof.
  unfold scan_entry. destruct (drop_while _ p) as [|c p1]; [done|].
  destruct (find_unescaped_quote p1) as [[t q]|]; [|done].
  destruct (64 <=? length t)%nat; [done|]. unfold scan_value.
  repeat case_goal; try done. intros Hs. injection Hs as <- _ _. eauto.
Qed.

(** ** Normalised keys *)
Definition is_key_char (c : Z) : bool := is_digit c || is_lower_hex c.

Lemma tolower_key_char c : isxdigit c = true -> is_key_char (tolower c) = true.
Proof.
  unfold isxdigit, is_key_char, tolower, is_digit, is_lower_hex, is_upper_hex, is_upper.
  destruct (Z.leb_spec 65 c), (Z.leb_spec c 90); cbn [andb]; zcases.
Qed.

Lemma normalize_from_ok inp out key :
  Forall (fun c => is_key_char c = true) out ->
  normalize_from inp out = Some key ->
  length key = 6%nat /\ Forall (fun c => is_key_char c = true) key.
Proof.
  revert out; induction inp as [|c r IH]; intros out Ho; simpl; unfold prefix_done.
  - case_goal; bool_simpl; [|done]. intros [= <-]. done.
  - destruct (negb _); simpl.
    { case_goal; bool_simpl; [|done]. intros [= <-]. done. }
    destruct (_ || _); [by apply IH|].
    destruct (isxdigit c) eqn:E; [|done]. apply IH. apply Forall_app; split; [done|].
    constructor; [by apply tolower_key_char|done].
Qed.

Lemma normalize_prefix_ok inp key :
  normalize_prefix inp = Some key ->
  length key = 6%nat /\ Forall (fun c => is_key_char c = true) key.
Proof. apply normalize_from_ok. constructor. Qed.

Lemma decode_json_from_length src out n :
  (length out < n)%nat -> (length (decode_json_from src out n) < n)%nat.
Proof.
  revert out. induction src as [src IH] using (induction_ltof1 _ (@length Z)).
  unfold ltof in IH. intros out Ho. destruct src as [|c r]; simpl; [done|].
  destruct (negb _) eqn:E; bool_simpl; [lia|].
  destruct (c =? BSLASH); [destruct r as [|d r']|];
    (apply IH; [simpl; lia|rewrite length_app; simpl; lia]).
Qed.

Lemma decode_json_string_length src n :
  (0 < n)%nat -> (length (decode_json_string src n) < n)%nat.
Proof.
  intros. unfold decode_json_string. destruct (n =? 0)%nat eqn:E; bool_simpl; [lia|].
  apply decode_json_from_length. done.
Qed.

(** ** The table: its invariant and its meaning as a map *)

(** The live part of a table of which [n] slots are filled. *)
Definition entry_ok (e : hnc_override_entry) : Prop :=
  ov_active e = true /\ length (ov_prefix e) = 6%nat /\
  Forall (fun c => is_key_char c = true) (ov_prefix e) /\
  (length (ov_label e) < HNC_OVERRIDE_LABEL_LEN)%nat.

Definition table_ok (tab : list hnc_override_entry) (n : nat) : Prop :=
  length tab = HNC_OVERRIDE_MAX_ENTRIES /\ (n <= HNC_OVERRIDE_MAX_ENTRIES)%nat /\
  Forall entry_ok (take n tab) /\ NoDup (ov_prefix <$> take n tab).

Definition override_ok (st : override_state) : Prop :=
  table_ok (g_overrides st) (g_override_count st).

Definition label_map (tab : list hnc_override_entry) (n : nat) : gmap bytes bytes :=
  list_to_map ((fun e => (ov_prefix e, ov_label e)) <$> take n tab).

Definition has_key (key : bytes) (e : hnc_override_entry) : bool :=
  bool_decide (ov_prefix e = key).

Lemma label_map_lookup l key :
  Forall (fun e => ov_active e = true) l ->
  (list_to_map ((fun e => (ov_prefix e, ov_label e)) <$> l) : gmap bytes bytes) !! key
  = (fun e => ov_label e.2) <$> list_find (fun e => ov_active e = true /\ ov_prefix e = key) l.
Proof.
  induction 1 as [|e l He _ IH]; csimpl; [apply lookup_empty|].
  destruct (decide (ov_prefix e = key)) as [<-|Hne].
  - rewrite lookup_insert_eq. rewrite decide_True by done. done.
  - rewrite lookup_insert_ne, IH by done.
    rewrite (decide_False (P := _ /\ _)) by naive_solver.
    by destruct (list_find _ l) as [[? ?]|].
Qed.

Lemma label_map_snoc l e :
  ov_prefix e ∉ (ov_prefix <$> l) ->
  (list_to_map ((fun e => (ov_prefix e, ov_label e)) <$> (l ++ [e])) : gmap bytes bytes)
  = <[ov_prefix e := ov_label e]> (list_to_map ((fun e => (ov_prefix e, ov_label e)) <$> l)).
Proof.
  intros Hn. rewrite fmap_app. simpl. rewrite list_to_map_snoc; [done|].
  rewrite <- list_fmap_compose. done.
Qed.

Lemma label_map_replace l i e :
  find_idx (has_key (ov_prefix e)) l = Some i ->
  (list_to_map ((fun e => (ov_prefix e, ov_label e)) <$> <[i:=e]> l) : gmap bytes bytes)
  = <[ov_prefix e := ov_label e]> (list_to_map ((fun e => (ov_prefix e, ov_label e)) <$> l)).
Proof.
  rewrite find_idx_Some. revert i. induction l as [|a l IH]; intros i (x & Hi & Hk & Hj); [done|].
  destruct i as [|i]; csimpl in *.
  - simplify_eq. unfold has_key in Hk. bool_simpl. rewrite Hk. by rewrite insert_insert_eq.
  - rewrite (IH i).
    + rewrite insert_insert_ne; [done|]. intros Heq.
      specialize (Hj 0%nat a eq_refl ltac:(lia)). unfold has_key in Hj. bool_simpl. congruence.
    + exists x. split_and!; [done..|]. intros j y Hy Hlt. apply (Hj (S j) y Hy). lia.
Qed.

Definition entry_of (key val : bytes) : hnc_override_entry :=
  OverrideEntry true key (decode_json_string val HNC_OVERRIDE_LABEL_LEN).

(** [put_entry] on the live part of the table. *)
Lemma put_entry_live tab n key val tab' n' :
  table_ok tab n -> (n < HNC_OVERRIDE_MAX_ENTRIES)%nat ->
  put_entry tab n key val = (tab', n') ->
  length tab' = HNC_OVERRIDE_MAX_ENTRIES /\
  ((exists i, find_idx (has_key key) (take n tab) = Some i /\ n' = n /\
              take n' tab' = <[i := entry_of key val]> (take n tab)) \/
   ((key ∉ (ov_prefix <$> take n tab)) /\ n' = S n /\
    take n' tab' = take n tab ++ [entry_of key val])).
Proof.
  intros (Hlen & Hn & _) Hlt. unfold put_entry. fold (has_key key).
  destruct (find_idx (has_key key) (take n tab)) as [i|] eqn:E; intros [= <- <-];
    rewrite length_insert; (split; [done|]).
  - left. exists i. split_and!; [done..|]. apply find_idx_lt in E.
    rewrite length_take in E. apply take_insert_lt. lia.
  - right. split_and!; [|done|].
    + intros (e & -> & He)%list_elem_of_fmap.
      pose proof (proj1 (find_idx_None _ _) E e He) as Hf. unfold has_key in Hf.
      by bool_simpl.
    + erewrite take_S_r; [|apply list_lookup_insert_eq; lia].
      by rewrite take_insert_ge by lia.
Qed.

Lemma put_entry_ok tab n key val tab' n' :
  table_ok tab n -> (n < HNC_OVERRIDE_MAX_ENTRIES)%nat ->
  length key = 6%nat -> Forall (fun c => is_key_char c = true) key ->
  put_entry tab n key val = (tab', n') ->
  table_ok tab' n' /\
  label_map tab' n' = <[key := decode_json_string val HNC_OVERRIDE_LABEL_LEN]> (label_map tab n).
Proof.
  intros Hok Hlt Hk6 Hkc Hput. destruct (put_entry_live _ _ _ _ _ _ Hok Hlt Hput)
    as (Hlen & [(i & Hf & -> & Ht)|(Hnk & -> & Ht)]);
    destruct Hok as (Hl & Hn & Hall & Hnd);
    assert (Hent : entry_ok (entry_of key val))
      by (split_and!; [done..|]; apply decode_json_string_length; unfold HNC_OVERRIDE_LABEL_LEN; lia);
    unfold table_ok, label_map; rewrite Ht.
  - split; [split_and!; [done..| |]|].
    + by apply Forall_insert_le.
    + rewrite list_fmap_insert. rewrite list_insert_id; [done|].
      apply find_idx_lookup in Hf as (x & Hx & Hkx). unfold has_key in Hkx. bool_simpl.
      rewrite list_lookup_fmap, Hx. simpl. by rewrite Hkx.
    + by apply (label_map_replace _ i (entry_of key val)).
  - split; [split_and!; [done|lia| |]|].
    + apply Forall_app. by split; [|constructor].
    + rewrite fmap_app. apply NoDup_app. split_and!; [done| |apply NoDup_singleton].
      intros x Hx ->%list_elem_of_singleton. done.
    + by apply (label_map_snoc _ (entry_of key val)).
Qed.

(** ** The loading loop *)
Definition load_inv (s : load_state) : Prop := table_ok s.2 s.1.2.

Lemma load_step_inv s s' :
  load_inv s -> load_step s = inl s' ->
  load_inv s' /\ (length s'.1.1 < length s.1.1)%nat.
Proof.
  destruct s as [[p n] tab], s' as [[p' n'] tab']. unfold load_inv. simpl. intros Hok.
  destruct (_ || _) eqn:Eg; [done|]. bool_simpl.
  destruct (scan_entry p) as [|p1|key val p1] eqn:E; [done| |].
  - intros Hs. injection Hs as <- <- <-. split; [done|].
    apply scan_entry_progress. by rewrite E.
  - destruct (put_entry tab n key val) as [tab1 n1] eqn:Ep.
    intros Hs. injection Hs as <- <- <-.
    destruct (scan_entry_key _ _ _ _ E) as [raw [Hk6 Hkc]%normalize_prefix_ok].
    split; [by eapply put_entry_ok; eauto|]. apply scan_entry_progress. by rewrite E.
Qed.

Lemma load_step_done s r : load_inv s -> load_step s = inr r -> table_ok r.2 r.1.
Proof.
  destruct s as [[p n] tab]. unfold load_inv. simpl. intros Hok.
  destruct (_ || _); [by intros [= <-]|].
  destruct (scan_entry p); [by intros [= <-]|done|]. by destruct (put_entry _ _ _ _).
Qed.

Lemma table_ok_empty tab : length tab = HNC_OVERRIDE_MAX_ENTRIES -> table_ok tab 0.
Proof. intros. split_and!; [done|lia|constructor|apply NoDup_nil_2]. Qed.

Lemma load_loop_total buf tab :
  length tab = HNC_OVERRIDE_MAX_ENTRIES ->
  exists n tab', loop load_step (S (length buf)) (buf, 0%nat, tab) = Some (n, tab') /\
                 table_ok tab' n.
Proof.
  intros Hlen.
  destruct (loop_total load_step load_inv (fun s => length s.1.1)) with
    (fuel := S (length buf)) (s := (buf, 0%nat, tab)) as [[n tab'] Hr].
  - intros s s'. apply load_step_inv.
  - by apply table_ok_empty.
  - simpl. lia.
  - exists n, tab'. split; [done|].
    change (table_ok (n, tab').2 (n, tab').1).
    eapply (loop_inv load_step load_inv (fun r => table_ok r.2 r.1)); [| | |exact Hr].
    + intros s s' Hs He. by apply (load_step_inv _ _ Hs He).
    + apply load_step_done.
    + by apply table_ok_empty.
Qed.

(** ** Rendering a file and reading it back *)
Definition simple_char (c : Z) : bool :=
  (c <? 256) && ((32 <=? c) || (c =? NL) || (c =? CR) || (c =? TAB)).
Definition key_text (c : Z) : bool :=
  negb (c =? QUOTE) && negb (c =? BSLASH) && negb (c =? 0).

Lemma cut_nul_id_text k : forallb key_text k = true -> cut_nul k = k.
Proof.
  induction k as [|c k IH]; simpl; [done|]. unfold key_text at 1. intros Hk. bool_simpl.
  destruct (c =? 0) eqn:E; bool_simpl; [done|]. by rewrite IH.
Qed.

Section render.
(** The blanks around the colon. *)
Context (ws : bytes) (Hws : Forall (fun c => json_ws c = true) ws).

Definition render_entry (kv : bytes * bytes) : bytes :=
  QUOTE :: kv.1 ++ QUOTE :: ws ++ COLON :: ws ++ QUOTE :: json_esc kv.2 ++ [QUOTE].

Fixpoint render_rest (kvs : list (bytes * bytes)) : bytes :=
  match kvs with
  | [] => [125]
  | kv :: r => 44 :: render_entry kv ++ render_rest r
  end.

Definition override_file (kvs : list (bytes * bytes)) : bytes :=
  123 :: match kvs with
         | [] => [125]
         | kv :: r => render_entry kv ++ render_rest r
         end.

Definition kv_ok (kv : bytes * bytes) : bool :=
  forallb key_text kv.1 && (length kv.1 <? 64)%nat &&
  bool_decide (is_Some (normalize_prefix kv.1)) &&
  forallb simple_char kv.2 && (length kv.2 <? HNC_OVERRIDE_LABEL_LEN)%nat.

Lemma find_quote_key k rest :
  forallb key_text k = true ->
  find_unescaped_quote (k ++ QUOTE :: rest) = Some (k, QUOTE :: rest).
Proof.
  induction k as [|c k IH]; simpl; [done|]. unfold key_text at 1. intros Hk. bool_simpl.
  destruct (c =? BSLASH) eqn:E1; bool_simpl; [done|].
  destruct (c =? QUOTE) eqn:E2; bool_simpl; [done|]. by rewrite IH.
Qed.

Lemma find_quote_esc1 c rest :
  simple_char c = true ->
  find_unescaped_quote (json_esc1 c ++ rest)
  = '(t, q) ← find_unescaped_quote rest; Some (json_esc1 c ++ t, q).
Proof.
  intros Hc. unfold json_esc1.
  destruct (c =? QUOTE) eqn:E1; [simpl; by destruct (find_unescaped_quote rest) as [[]|]|].
  destruct (c =? BSLASH) eqn:E2; [simpl; by destruct (find_unescaped_quote rest) as [[]|]|].
  cbn [orb]. destruct (c =? NL) eqn:E3; [simpl; by destruct (find_unescaped_quote rest) as [[]|]|].
  destruct (c =? CR) eqn:E4; [simpl; by destruct (find_unescaped_quote rest) as [[]|]|].
  destruct (c =? TAB) eqn:E5; [simpl; by destruct (find_unescaped_quote rest) as [[]|]|].
  destruct (c <? 32) eqn:E6; [|simpl; by rewrite E2, E1].
  exfalso. revert Hc E3 E4 E5 E6. unfold simple_char, NL, CR, TAB. zcases.
Qed.

Lemma find_quote_esc s rest :
  forallb simple_char s = true ->
  find_unescaped_quote (json_esc s ++ QUOTE :: rest) = Some (json_esc s, QUOTE :: rest).
Proof.
  induction s as [|c s IH]; intros Hs; [done|]. cbn [forallb] in Hs. bool_simpl.
  rewrite json_esc_cons, <- app_assoc, find_quote_esc1, IH by done. done.
Qed.

Lemma decode_esc1 c rest out n :
  simple_char c = true -> (length out + 1 < n)%nat ->
  decode_json_from (json_esc1 c ++ rest) out n = decode_json_from rest (out ++ [c]) n.
Proof.
  intros Hc Hlt.
  unfold json_esc1.
  destruct (c =? QUOTE) eqn:E1; [bool_simpl; subst; simpl; by rewrite (proj2 (Nat.ltb_lt _ _) Hlt)|].
  destruct (c =? BSLASH) eqn:E2; [bool_simpl; subst; simpl; by rewrite (proj2 (Nat.ltb_lt _ _) Hlt)|]. cbn [orb].
  destruct (c =? NL) eqn:E3; [bool_simpl; subst; simpl; by rewrite (proj2 (Nat.ltb_lt _ _) Hlt)|].
  destruct (c =? CR) eqn:E4; [bool_simpl; subst; simpl; by rewrite (proj2 (Nat.ltb_lt _ _) Hlt)|].
  destruct (c =? TAB) eqn:E5; [bool_simpl; subst; simpl; by rewrite (proj2 (Nat.ltb_lt _ _) Hlt)|].
  destruct (c <? 32) eqn:E6; [|simpl; by rewrite (proj2 (Nat.ltb_lt _ _) Hlt), E2].
  exfalso. revert Hc E3 E4 E5 E6. unfold simple_char, NL, CR, TAB. zcases.
Qed.

Lemma decode_esc s out n :
  forallb simple_char s = true -> (length out + length s < n)%nat ->
  decode_json_from (json_esc s) out n = out ++ s.
Proof.
  revert out; induction s as [|c s IH]; intros out Hs Hlt.
  { by rewrite app_nil_r. }
  cbn [forallb] in Hs. bool_simpl. simpl in Hlt.
  rewrite json_esc_cons, decode_esc1; [|done|lia].
  rewrite IH; [|done|rewrite length_app; simpl; lia].
  by rewrite <- app_assoc.
Qed.

Lemma drop_ws rest c :
  head rest = Some c -> json_ws c = false -> drop_while json_ws (ws ++ rest) = rest.
Proof.
  intros Hc Hn. apply (take_while_app json_ws ws rest).
  - intros d Hd. by eapply Forall_forall in Hws.
  - intros d Hd. congruence.
Qed.

Lemma scan_render_entry pre k v rest key :
  forallb (fun c => negb (c =? QUOTE)) pre = true ->
  kv_ok (k, v) = true -> normalize_prefix k = Some key ->
  scan_entry (pre ++ render_entry (k, v) ++ rest) = ScanEntry key (json_esc v) rest.
Proof.
  intros Hpre Hkv Hkey. unfold kv_ok in Hkv. cbn [fst snd] in Hkv. bool_simpl.
  unfold scan_entry, render_entry. cbn [fst snd app].
  destruct (take_while_app (fun c => negb (c =? QUOTE)) pre
    (QUOTE :: (k ++ QUOTE :: ws ++ COLON :: ws ++ QUOTE :: json_esc v ++ [QUOTE]) ++ rest))
    as [_ ->].
  { intros c Hc. by eapply forallb_forall in Hpre; [|apply list_elem_of_In]. }
  { intros c [= <-]. done. }
  rewrite <- app_assoc. cbn [app]. rewrite find_quote_key by done.
  replace (64 <=? length k)%nat with false by (symmetry; by apply Nat.leb_gt).
  unfold scan_value. cbn [tail]. repeat (rewrite <- app_assoc; cbn [app]).
  rewrite (drop_ws _ COLON) by done. cbn [negb]. rewrite Z.eqb_refl. cbn [negb].
  rewrite (drop_ws _ QUOTE) by done. rewrite Z.eqb_refl. cbn [negb].
  rewrite find_quote_esc by done.
  rewrite cut_nul_id_text by done. by rewrite Hkey.
Qed.

(** The map a sequence of pairs stands for: the last pair of a key wins. *)
Definition put_kv (m : gmap bytes bytes) (kv : bytes * bytes) : gmap bytes bytes :=
  match normalize_prefix kv.1 with
  | Some key => <[key := kv.2]> m
  | None => m
  end.
Definition kvs_map : list (bytes * bytes) -> gmap bytes bytes -> gmap bytes bytes :=
  fold_left put_kv.

Lemma load_step_entry pre kv rest n tab :
  forallb (fun c => negb (c =? QUOTE)) pre = true -> kv_ok kv = true ->
  table_ok tab n -> (n < HNC_OVERRIDE_MAX_ENTRIES)%nat ->
  exists tab' n', load_step (pre ++ render_entry kv ++ rest, n, tab) = inl (rest, n', tab') /\
    table_ok tab' n' /\ (n' <= S n)%nat /\ label_map tab' n' = put_kv (label_map tab n) kv.
Proof.
  intros Hpre Hkv Hok Hn. destruct kv as [k v].
  pose proof Hkv as Hkv'. unfold kv_ok in Hkv'. cbn [fst snd] in Hkv'. bool_simpl.
  match goal with H : is_Some _ |- _ => destruct H as [key Hkey] end.
  unfold load_step. rewrite (scan_render_entry _ _ _ _ key) by done.
  replace (length _ =? 0)%nat with false
    by (symmetry; apply Nat.eqb_neq; rewrite !length_app; simpl; lia).
  rewrite (proj2 (Nat.ltb_lt _ _) Hn). cbn [orb negb].
  destruct (put_entry tab n key (json_esc v)) as [tab' n'] eqn:Ep.
  exists tab', n'. split; [done|]. pose proof (normalize_prefix_ok _ _ Hkey) as [Hk6 Hkc].
  destruct (put_entry_ok _ _ _ _ _ _ Hok Hn Hk6 Hkc Ep) as [Hok' Hmap].
  split_and!; [done| |].
  - destruct (put_entry_live _ _ _ _ _ _ Hok Hn Ep) as (_ & [(? & _ & -> & _)|(_ & -> & _)]); lia.
  - rewrite Hmap. unfold put_kv. cbn [fst snd]. rewrite Hkey. f_equal.
    unfold decode_json_string. cbn. by apply decode_esc.
Qed.

Lemma load_loop_render r kv pre n tab fuel :
  forallb (fun c => negb (c =? QUOTE)) pre = true -> forallb kv_ok (kv :: r) = true ->
  table_ok tab n -> (n + S (length r) <= HNC_OVERRIDE_MAX_ENTRIES)%nat ->
  (length (pre ++ render_entry kv ++ render_rest r) < fuel)%nat ->
  exists n' tab', loop load_step fuel (pre ++ render_entry kv ++ render_rest r, n, tab)
                  = Some (n', tab') /\ table_ok tab' n' /\
                  label_map tab' n' = kvs_map (kv :: r) (label_map tab n).
Proof.
  revert kv pre n tab fuel. induction r as [|kv' r IH]; intros kv pre n tab fuel;
    cbn [forallb]; intros Hpre Hkv Hok Hn Hfuel; bool_simpl;
    (destruct fuel as [|fuel]; [lia|]); rewrite loop_S;
    rewrite !length_app in Hfuel.
  - destruct (load_step_entry pre kv (render_rest []) n tab)
      as (tab' & n' & -> & Hok' & Hn' & Hmap); [done..|lia|].
    cbn in Hfuel. destruct fuel as [|fuel]; [lia|]. exists n', tab'. rewrite loop_S.
    split_and!; [|done|done]. simpl. by destruct (negb _).
  - destruct (load_step_entry pre kv (render_rest (kv' :: r)) n tab)
      as (tab' & n' & -> & Hok' & Hn' & Hmap); [done..|lia|].
    destruct (IH kv' [44] n' tab' fuel) as (n2 & tab2 & Hl & Hok2 & Hmap2); try done.
    + cbn [forallb]. by rewrite !andb_true_iff.
    + simpl in Hn. lia.
    + simpl render_rest in Hfuel. simpl in *. lia.
    + exists n2, tab2. split_and!; [exact Hl|done|]. rewrite Hmap2. unfold kvs_map. cbn.
      by rewrite Hmap.
Qed.
End render.

Lemma override_lookup_map st mac outlen :
  override_ok st ->
  hnc_override_lookup st mac outlen
  = if (outlen =? 0)%nat then None
    else key ← normalize_prefix mac;
         label ← label_map (g_overrides st) (g_override_count st) !! key;
         Some (c_trunc outlen (cut_nul label)).
Proof.
  intros (Hlen & Hn & Hall & Hnd). unfold hnc_override_lookup.
  destruct (outlen =? 0)%nat; [done|].
  destruct (normalize_prefix mac) as [key|]; simpl; [|by destruct (_ =? 0)%nat].
  unfold label_map. rewrite label_map_lookup
    by (eapply Forall_impl; [exact Hall|]; by intros e []).
  destruct (g_override_count st) eqn:E; simpl; [done|].
  by destruct (list_find _ _) as [[i e]|].
Qed.

(** ** Properties *)

(** Whatever bytes the override file holds, loading it ends (the fuel of the
    loop always suffices), returns the number of live entries, and leaves a table of 256 slots whose
    live entries are active, have distinct keys of six lower-case hexadecimal
    digits and labels that fit their 64 bytes. *)
Lemma override_load_sound (content : option bytes) (st : override_state) :
  override_ok st ->
  override_ok (hnc_override_load content st).2 /\
  (forall buf, content = Some buf -> g_override_path st <> [] ->
     buf <> [] -> Z.of_nat (length buf) <= OVERRIDE_FILE_MAX ->
     exists n tab, loop load_step (S (length buf)) (buf, 0%nat, g_overrides st) = Some (n, tab) /\
       hnc_override_load content st = (n, OverrideState tab n (g_override_path st))).
Proof.
  intros Hok. pose proof Hok as (Hlen & _).
  assert (Hload : forall buf, content = Some buf -> g_override_path st <> [] ->
     buf <> [] -> Z.of_nat (length buf) <= OVERRIDE_FILE_MAX ->
     exists n tab, loop load_step (S (length buf)) (buf, 0%nat, g_overrides st) = Some (n, tab) /\
       table_ok tab n /\
       hnc_override_load content st = (n, OverrideState tab n (g_override_path st))).
  { intros buf -> Hp Hne Hsz. destruct (load_loop_total buf _ Hlen) as (n & tab & Hl & Ht).
    exists n, tab. split_and!; [done..|]. unfold hnc_override_load.
    destruct (g_override_path st); [done|]. destruct buf; [done|].
    rewrite (proj2 (Z.ltb_ge _ _)) by done. cbn [length Nat.eqb orb] in *. by rewrite Hl. }
  split.
  - unfold hnc_override_load at 1. destruct (g_override_path st) eqn:Ep; [done|].
    destruct content as [buf|]; [|done]. destruct (_ || _) eqn:Eg; [done|]. bool_simpl.
    destruct (Hload buf) as (n & tab & -> & Ht & _); [done..| |done|done]. by intros ->.
  - intros buf H1 H2 H3 H4. destruct (Hload buf H1 H2 H3 H4) as (n & tab & ? & _ & ?). eauto.
Qed.

(** A file that lists pairs of a MAC prefix and a label (escaped as JSON, any
    blanks around the colon, at most 256 pairs and 16 KiB) is read back exactly:
    after [init] and [load], a lookup yields the label of the last pair whose
    prefix normalises like the MAC, cut to the caller's buffer. *)
Lemma override_file_lookup (ws path : bytes) (kvs : list (bytes * bytes)) (mac : bytes) (outlen : nat) :
  Forall (fun c => json_ws c = true) ws ->
  forallb kv_ok kvs = true -> (length kvs <= HNC_OVERRIDE_MAX_ENTRIES)%nat ->
  Z.of_nat (length (override_file ws kvs)) <= OVERRIDE_FILE_MAX -> path <> [] ->
  let st := (hnc_override_load (Some (override_file ws kvs)) (hnc_override_init (Some path))).2 in
  hnc_override_lookup st mac outlen
  = if (outlen =? 0)%nat then None
    else key ← normalize_prefix mac;
         label ← kvs_map kvs ∅ !! key;
         Some (c_trunc outlen (cut_nul label)).
Proof.
  intros Hws Hkvs Hn Hsz Hpath st.
  set (tab0 := g_overrides (hnc_override_init (Some path))).
  assert (Hl : exists n tab, loop load_step (S (length (override_file ws kvs)))
      (override_file ws kvs, 0%nat, tab0) = Some (n, tab) /\ table_ok tab n /\
      label_map tab n = kvs_map kvs ∅).
  { assert (Hok0 : table_ok tab0 0) by by apply table_ok_empty. destruct kvs as [|kv r].
    - exists 0%nat, tab0. split_and!; [done|done|done].
    - apply (load_loop_render ws Hws r kv [123] 0%nat tab0); [done..|simpl in *; lia|].
      cbn. lia. }
  destruct Hl as (n & tab & Hl & Hok & Hmap).
  assert (Hst : st = OverrideState tab n (c_trunc 256 path)).
  { unfold st, hnc_override_load. cbn [g_override_path hnc_override_init].
    unfold c_trunc. destruct path as [|c path]; [done|]. cbn [take Nat.sub].
    rewrite (proj2 (Z.ltb_ge _ _)) by done. cbn [length override_file Nat.eqb orb].
    fold tab0. cbn [length override_file] in Hl. by rewrite Hl. }
  rewrite Hst, override_lookup_map by done. cbn [g_overrides g_override_count]. by rewrite Hmap.
Qed.

Lemma override_load_sound_witness :
  override_ok (hnc_override_init (Some (str "/data/x"))) /\
  override_ok (hnc_override_load (Some (str "{"))
                 (hnc_override_init (Some (str "/data/x")))).2.
Proof.
  assert (H : override_ok (hnc_override_init (Some (str "/data/x"))))
    by by apply table_ok_empty.
  split; [exact H|]. apply (override_load_sound (Some (str "{")) _ H).
Defined.

Lemma override_file_lookup_witness :
  hnc_override_lookup
    (hnc_override_load
       (Some (override_file [32] [(str "28:6C:07", str "Phone"); (str "02-42-ac", str "Docker");
                                  (str "286c07", str "Mi")]))
       (hnc_override_init (Some (str "/data/oui.json")))).2
    (str "28:6c:07:11:22:33") 64 = Some (str "Mi").
Proof.
  etransitivity.
  - apply (override_file_lookup [32] (str "/data/oui.json")
      [(str "28:6C:07", str "Phone"); (str "02-42-ac", str "Docker"); (str "286c07", str "Mi")]
      (str "28:6c:07:11:22:33") 64); [by repeat constructor|by vm_compute| | |done].
    + vm_compute. lia.
    + vm_compute. done.
  - by vm_compute.
Defined.
