(* ===== verification/Oui.v ===== *)
(** * Vendor lookup by MAC prefix ([hnc_lookup_oui] of [hnc_helpers.c])

    The comparator and [bsearch] over the built-in table, the parse of the first
    three octets of a MAC, the locally-administered test, and the precedence of
    the user's overrides. *)
From S2P Require Import Prelude CStr OuiTable OuiOverride.
Local Open Scope Z_scope.

(** [hnc_oui_cmp] *)
Definition hnc_oui_cmp (k : Z) (elem : hnc_oui_entry) : Z :=
  if k <? oui_prefix elem then -1
  else if oui_prefix elem <? k then 1
  else 0.

(** [hnc_hex_val] *)
Definition hnc_hex_val (c : Z) : Z :=
  if (48 <=? c) && (c <=? 57) then c - 48
  else if (97 <=? c) && (c <=? 102) then c - 97 + 10
  else if (65 <=? c) && (c <=? 70) then c - 65 + 10
  else -1.

(** [bsearch] of the C library: the bounds of the part still searched. *)
Section bsearch.
Context (base : list hnc_oui_entry) (key : Z).

Definition bsearch_step (s : nat * nat) : nat * nat + option hnc_oui_entry :=
  let '(lo, hi) := s in
  if negb (lo <? hi)%nat then inr None
  else
    let mid := Nat.div2 (lo + hi) in
    match base !! mid with
    | None => inr None
    | Some e =>
        let r := hnc_oui_cmp key e in
        if r <? 0 then inl (lo, mid)
        else if 0 <? r then inl (S mid, hi)
        else inr (Some e)
    end.

Definition bsearch : option hnc_oui_entry :=
  match loop bsearch_step (S (length base)) (0%nat, length base) with
  | Some r => r
  | None => None
  end.
End bsearch.

Definition VENDOR_SUFFIX : bytes := str " 设备".

(** [hnc_lookup_oui] over any override table.  [mac] and [out] are not NULL; a
    read behind the end of a short string cannot be told from the NUL, because
    the read at the end itself already makes the function return 0. *)
Definition hnc_lookup_oui (st : override_state) (mac : bytes) (outlen : nat) : option bytes :=
  if (outlen =? 0)%nat then None
  else if (outlen <? 16)%nat then None
  else match hnc_override_lookup st mac outlen with
  | Some label => Some label
  | None =>
      let at_ i := nth i mac 0 in
      let b0h := hnc_hex_val (at_ 0%nat) in
      let b0l := hnc_hex_val (at_ 1%nat) in
      let b1h := hnc_hex_val (at_ 3%nat) in
      let b1l := hnc_hex_val (at_ 4%nat) in
      let b2h := hnc_hex_val (at_ 6%nat) in
      let b2l := hnc_hex_val (at_ 7%nat) in
      if (b0h <? 0) || (b0l <? 0) || (b1h <? 0) || (b1l <? 0) || (b2h <? 0) || (b2l <? 0)
      then None
      else if negb (at_ 2%nat =? COLON) || negb (at_ 5%nat =? COLON) then None
      else
        let byte0 := Z.lor (Z.shiftl b0h 4) b0l in
        let byte1 := Z.lor (Z.shiftl b1h 4) b1l in
        let byte2 := Z.lor (Z.shiftl b2h 4) b2l in
        if negb (Z.land byte0 2 =? 0) then None
        else
          let key := Z.lor (Z.lor (Z.shiftl byte0 16) (Z.shiftl byte1 8)) byte2 in
          match bsearch HNC_OUI_TABLE key with
          | None => None
          | Some hit => Some (c_trunc outlen (str (oui_vendor hit) ++ VENDOR_SUFFIX))
          end
  end.

(** ** Binary search finds what a linear search finds *)
Fixpoint sorted_by_prefix (l : list hnc_oui_entry) : bool :=
  match l with
  | a :: (b :: _) as r => (oui_prefix a <? oui_prefix b) && sorted_by_prefix r
  | _ => true
  end.

Lemma sorted_by_prefix_cons a l :
  sorted_by_prefix (a :: l) = true ->
  sorted_by_prefix l = true /\ forall x, x ∈ l -> oui_prefix a < oui_prefix x.
Proof.
  revert a. induction l as [|b l IH]; intros a Hs.
  { split; [done|]. by intros x ?%elem_of_nil. }
  cbn [sorted_by_prefix] in Hs. apply andb_prop in Hs as [Hlt Hs]. apply Z.ltb_lt in Hlt.
  split; [done|]. intros x [->|Hx]%elem_of_cons; [done|].
  destruct (IH b Hs) as [_ Hb]. specialize (Hb x Hx). lia.
Qed.

Lemma sorted_lookup l i j a b :
  sorted_by_prefix l = true -> l !! i = Some a -> l !! j = Some b -> (i < j)%nat ->
  oui_prefix a < oui_prefix b.
Proof.
  revert i j. induction l as [|x l IH]; intros i j Hs Hi Hj Hlt; [done|].
  apply sorted_by_prefix_cons in Hs as [Hs Hx]. destruct j as [|j]; [lia|].
  destruct i as [|i]; simpl in *.
  - simplify_eq. apply Hx. by eapply list_elem_of_lookup_2.
  - apply (IH i j); [done..|lia].
Qed.

Section bsearch_correct.
Context (base : list hnc_oui_entry) (key : Z) (Hs : sorted_by_prefix base = true).

(** Entries outside the searched part do not have the key. *)
Definition bs_inv (s : nat * nat) : Prop :=
  (s.2 <= length base)%nat /\
  forall i e, base !! i = Some e -> oui_prefix e = key -> (s.1 <= i < s.2)%nat.

Lemma bsearch_step_inv s s' :
  bs_inv s -> bsearch_step base key s = inl s' ->
  bs_inv s' /\ (s'.2 - s'.1 < s.2 - s.1)%nat.
Proof.
  destruct s as [lo hi]. unfold bs_inv, bsearch_step. simpl. intros [Hhi Hin].
  destruct (negb (lo <? hi)%nat) eqn:E; [done|]. bool_simpl.
  pose proof (Nat.div2_div (lo + hi)) as Hd.
  assert (Hm : (lo <= Nat.div2 (lo + hi) < hi)%nat).
  { rewrite Hd. split; [apply Nat.div_le_lower_bound; lia|apply Nat.Div0.div_lt_upper_bound; lia]. }
  set (mid := Nat.div2 (lo + hi)) in *.
  destruct (base !! mid) as [e|] eqn:Ee; [|done]. unfold hnc_oui_cmp.
  destruct (key <? oui_prefix e) eqn:E1; simpl; bool_simpl.
  - intros [= <-]. simpl. split; [|lia]. split; [lia|]. intros i x Hi Hx.
    specialize (Hin i x Hi Hx). destruct (decide (i < mid)%nat); [lia|].
    destruct (decide (i = mid)) as [->|]; [simplify_eq; lia|].
    pose proof (sorted_lookup _ mid i e x Hs Ee Hi). lia.
  - destruct (oui_prefix e <? key) eqn:E2; simpl; bool_simpl; [|done].
    intros [= <-]. simpl. split; [|lia]. split; [lia|]. intros i x Hi Hx.
    specialize (Hin i x Hi Hx). destruct (decide (mid < i)%nat); [lia|].
    destruct (decide (i = mid)) as [->|]; [simplify_eq; lia|].
    pose proof (sorted_lookup _ i mid x e Hs Hi Ee). lia.
Qed.

Definition bs_result (r : option hnc_oui_entry) : Prop :=
  match r with
  | Some e => e ∈ base /\ oui_prefix e = key
  | None => forall e, e ∈ base -> oui_prefix e <> key
  end.

Lemma bsearch_step_done s r : bs_inv s -> bsearch_step base key s = inr r -> bs_result r.
Proof.
  destruct s as [lo hi]. unfold bs_inv, bsearch_step, bs_result. simpl. intros [Hhi Hin].
  destruct (negb (lo <? hi)%nat) eqn:E; bool_simpl.
  { intros [= <-] e [i Hi]%list_elem_of_lookup He. specialize (Hin i e Hi He). lia. }
  destruct (base !! Nat.div2 (lo + hi)) as [e|] eqn:Ee.
  - unfold hnc_oui_cmp. destruct (key <? oui_prefix e) eqn:E1; simpl; [done|].
    destruct (oui_prefix e <? key) eqn:E2; simpl; [done|]. intros [= <-]. bool_simpl.
    split; [by eapply list_elem_of_lookup_2|lia].
  - intros [= <-] x [i Hi]%list_elem_of_lookup Hx. specialize (Hin i x Hi Hx).
    apply lookup_ge_None in Ee. rewrite Nat.div2_div in Ee.
    assert ((lo + hi) / 2 < hi)%nat by (apply Nat.Div0.div_lt_upper_bound; lia). lia.
Qed.

Lemma bsearch_sound : bs_result (bsearch base key).
Proof.
  unfold bsearch.
  assert (Hi : bs_inv (0%nat, length base)).
  { split; [done|]. intros i e Hi _. apply lookup_lt_Some in Hi. simpl. lia. }
  destruct (loop_total (bsearch_step base key) bs_inv (fun s => s.2 - s.1)%nat bsearch_step_inv
    (S (length base)) (0%nat, length base) Hi) as [r Hr]; [simpl; lia|].
  rewrite Hr. eapply (loop_inv _ bs_inv bs_result); [|apply bsearch_step_done|exact Hi|exact Hr].
  intros s s' H1 H2. by apply (bsearch_step_inv s s').
Qed.
End bsearch_correct.

Lemma sorted_NoDup l : sorted_by_prefix l = true -> NoDup (oui_prefix <$> l).
Proof.
  induction l as [|a l IH]; intros Hs; [apply NoDup_nil_2|].
  apply sorted_by_prefix_cons in Hs as [Hs Ha]. constructor; [|by apply IH].
  intros (x & Hx & Hin)%list_elem_of_fmap. specialize (Ha x Hin). lia.
Qed.

(** The table as a map. *)
Definition table_map (l : list hnc_oui_entry) : gmap Z string :=
  list_to_map ((fun e => (oui_prefix e, oui_vendor e)) <$> l).

Lemma bsearch_map l key :
  sorted_by_prefix l = true -> oui_vendor <$> bsearch l key = table_map l !! key.
Proof.
  intros Hs. pose proof (bsearch_sound l key Hs) as Hr. unfold table_map.
  destruct (bsearch l key) as [e|]; simpl in *; symmetry.
  - destruct Hr as [Hin <-]. apply elem_of_list_to_map.
    + rewrite <- list_fmap_compose. by apply sorted_NoDup.
    + apply list_elem_of_fmap. eauto.
  - apply not_elem_of_list_to_map. rewrite <- list_fmap_compose.
    intros (x & -> & Hx)%list_elem_of_fmap. by apply (Hr x).
Qed.

Lemma oui_table_sorted : sorted_by_prefix HNC_OUI_TABLE = true.
Proof. by vm_compute. Qed.

(** ** The specification of the lookup *)

(** The octet two characters denote. *)
Definition octet (h l : Z) : option Z :=
  if isxdigit h && isxdigit l then Some (16 * hex_val h + hex_val l) else None.

(** The first three octets of a MAC in colon notation. *)
Definition mac_oui (mac : bytes) : option (Z * Z * Z) :=
  match mac with
  | h0 :: l0 :: c0 :: h1 :: l1 :: c1 :: h2 :: l2 :: _ =>
      if (c0 =? COLON) && (c1 =? COLON) then
        b0 ← octet h0 l0; b1 ← octet h1 l1; b2 ← octet h2 l2; Some (b0, b1, b2)
      else None
  | _ => None
  end.

(** What the built-in table says of a MAC: nothing for a locally administered one. *)
Definition vendor_of (mac : bytes) : option string :=
  '(b0, b1, b2) ← mac_oui mac;
  if Z.testbit b0 1 then None
  else table_map HNC_OUI_TABLE !! (65536 * b0 + 256 * b1 + b2).

Lemma hnc_hex_val_spec c :
  (hnc_hex_val c <? 0) = negb (isxdigit c) /\ hnc_hex_val c = hex_val c.
Proof.
  split; [|done]. unfold hnc_hex_val, isxdigit, is_digit, is_lower_hex, is_upper_hex. zcases.
Qed.

Lemma isxdigit_hex_val c : isxdigit c = true -> 0 <= hex_val c < 16.
Proof. unfold isxdigit, hex_val. unfold is_digit, is_lower_hex, is_upper_hex. zcases. Qed.

(** Two characters are an octet, with the value the source computes for it, or
    one of them has no hexadecimal value. *)
Lemma octet_case h l :
  (exists b, octet h l = Some b /\ (hnc_hex_val h <? 0) = false /\ (hnc_hex_val l <? 0) = false /\
             Z.lor (Z.shiftl (hnc_hex_val h) 4) (hnc_hex_val l) = b /\ 0 <= b < 256) \/
  (octet h l = None /\ ((hnc_hex_val h <? 0) = true \/ (hnc_hex_val l <? 0) = true)).
Proof.
  destruct (hnc_hex_val_spec h) as [Hh Vh], (hnc_hex_val_spec l) as [Hl Vl].
  rewrite Hh, Hl, Vh, Vl. unfold octet.
  destruct (isxdigit h) eqn:Eh, (isxdigit l) eqn:El; cbn [andb negb]; [left|right; auto..].
  apply isxdigit_hex_val in Eh, El. eexists. split_and!; [done..| | |]; [|lia|lia].
  rewrite lor_shiftl_add by lia. lia.
Qed.

(** A string without three octets has a character that makes the source give up. *)
Lemma short_mac_None mac : (length mac < 8)%nat ->
  mac_oui mac = None /\
  ((hnc_hex_val (nth 0 mac 0) <? 0) || (hnc_hex_val (nth 1 mac 0) <? 0)
   || (hnc_hex_val (nth 3 mac 0) <? 0) || (hnc_hex_val (nth 4 mac 0) <? 0)
   || (hnc_hex_val (nth 6 mac 0) <? 0) || (hnc_hex_val (nth 7 mac 0) <? 0)) = true.
Proof.
  intros Hlen. split.
  - do 8 (destruct mac as [|? mac]; [done|]). simpl in Hlen. lia.
  - rewrite (nth_overflow mac) with (n := 7%nat) by lia.
    replace (hnc_hex_val 0 <? 0) with true by done. apply orb_true_r.
Qed.

(** The vendor lookup is, for every string and every buffer of at least 16
    bytes, the user's override when there is one, and otherwise the entry that
    the built-in table (as a map) has for the 24-bit prefix, unless the string is
    not a MAC or its locally-administered bit is set; the binary search, the hex
    parser and the bit arithmetic compute exactly that. *)
Lemma lookup_oui_spec (st : override_state) (mac : bytes) (outlen : nat) :
  hnc_lookup_oui st mac outlen
  = if (outlen <? 16)%nat then None
    else match hnc_override_lookup st mac outlen with
         | Some label => Some label
         | None => v ← vendor_of mac; Some (c_trunc outlen (str v ++ VENDOR_SUFFIX))
         end.
Proof.
  unfold hnc_lookup_oui. destruct (outlen =? 0)%nat eqn:E0.
  { bool_simpl. by subst. }
  destruct (outlen <? 16)%nat; [done|].
  destruct (hnc_override_lookup st mac outlen); [done|]. unfold vendor_of.
  destruct (decide (length mac < 8)%nat) as [Hlen|Hlen].
  { destruct (short_mac_None mac Hlen) as [-> ->]. done. }
  do 8 (destruct mac as [|? mac]; [simpl in Hlen; lia|]). cbn [mac_oui nth].
  destruct (octet_case z z0) as [(b0 & -> & -> & -> & V0 & R0)|[-> [-> | ->]]];
    [|rewrite ?orb_true_r; by destruct (_ && _)..].
  destruct (octet_case z2 z3) as [(b1 & -> & -> & -> & V1 & R1)|[-> [-> | ->]]];
    [|rewrite ?orb_true_r; by destruct (_ && _)..].
  destruct (octet_case z5 z6) as [(b2 & -> & -> & -> & V2 & R2)|[-> [-> | ->]]];
    [|rewrite ?orb_true_r; by destruct (_ && _)..].
  rewrite V0, V1, V2. cbn [orb]. destruct (z1 =? COLON); [|done].
  destruct (z4 =? COLON); [|done]. cbn [negb orb andb mbind option_bind].
  change 2 with (2 ^ 1) at 1. rewrite land_pow2_testbit by done.
  destruct (Z.testbit b0 1); [done|].
  rewrite <- bsearch_map by apply oui_table_sorted.
  replace (Z.lor (Z.lor (Z.shiftl b0 16) (Z.shiftl b1 8)) b2) with (65536 * b0 + 256 * b1 + b2).
  - by destruct (bsearch _ _).
  - rewrite <- Z.lor_assoc, (lor_shiftl_add b1), (lor_shiftl_add b0) by lia. lia.
Qed.

(** The entries of the built-in table that [vendor_of] can never yield. *)
Lemma oui_dead_entries :
  filter (fun e => Z.testbit (oui_prefix e) 17 = true) HNC_OUI_TABLE
  = [Oui 0x026F70 "Epson"; Oui 0x170880 "Philips"; Oui 0x17880B "Philips"].
Proof. by vm_compute. Qed.

Lemma oui_table_size : length HNC_OUI_TABLE = 907%nat.
Proof. by vm_compute. Qed.
