(* ===== verification/Helpers.v ===== *)
(** * Shared helpers of the daemon ([hnc_helpers.c])

    JSON escaping with the UTF-8 boundary rule, the MAC fallback name, the lookup
    of manual names, the fast name resolution and the two timing predicates. *)
From S2P Require Import Prelude CStr.
Local Open Scope Z_scope.

Definition HNC_PENDING_BREATHING_ROOM_SEC : Z := 1.

(** [hnc_should_re_resolve] *)
Definition hnc_should_re_resolve (hostname_src : bytes) (last_resolve now : Z) : bool :=
  if strcmp_eq hostname_src (str "mac") then true
  else if 60 <=? now - last_resolve then true
  else false.

(** [hnc_pending_ready]; a NULL source is [None]. *)
Definition hnc_pending_ready (hostname_src : option bytes) (pending_since now : Z) : bool :=
  match hostname_src with
  | None => false
  | Some s =>
      if negb (strcmp_eq s (str "pending")) then false
      else if now - pending_since <? HNC_PENDING_BREATHING_ROOM_SEC then false
      else true
  end.

(** ** [hnc_json_escape] *)

(** The copying loop: the bytes written and the flag [truncated]. *)
Fixpoint json_escape_loop (src dst : bytes) (dst_size : nat) : bytes * bool :=
  match src with
  | [] => (dst, false)
  | c :: rest =>
      let j := length dst in
      if negb (j + 1 <? dst_size)%nat then (dst, false)
      else if (c =? QUOTE) || (c =? BSLASH) then
        if (dst_size <=? j + 2)%nat then (dst, true)
        else json_escape_loop rest (dst ++ [BSLASH; c]) dst_size
      else if c =? NL then
        if (dst_size <=? j + 2)%nat then (dst, true)
        else json_escape_loop rest (dst ++ [BSLASH; 110]) dst_size
      else if c =? CR then
        if (dst_size <=? j + 2)%nat then (dst, true)
        else json_escape_loop rest (dst ++ [BSLASH; 114]) dst_size
      else if c =? TAB then
        if (dst_size <=? j + 2)%nat then (dst, true)
        else json_escape_loop rest (dst ++ [BSLASH; 116]) dst_size
      else if c <? 32 then
        if (dst_size <=? j + 6)%nat then (dst, true)
        else json_escape_loop rest (dst ++ BSLASH :: 117 :: hex4 c) dst_size
      else json_escape_loop rest (dst ++ [c]) dst_size
  end.

(** The fallback to the last whole UTF-8 character. *)
Definition utf8_fallback (dst : bytes) : bytes :=
  let have := length (take_while is_cont (reverse dst)) in
  let k := (length dst - have)%nat in
  match k with
  | O => dst
  | S k' =>
      let lead := nth k' dst 0 in
      if (have <? utf8_needed lead)%nat then take k' dst else dst
  end.

(** [None] when the buffer has no room at all and nothing is written. *)
Definition hnc_json_escape (src : bytes) (dst_size : nat) : option bytes :=
  if (dst_size =? 0)%nat then None
  else
    let '(dst, truncated) := json_escape_loop src [] dst_size in
    Some (if truncated || (negb (bool_decide (src = [])) && (dst_size <=? length dst + 1)%nat)
          then utf8_fallback dst else dst).

(** ** [hnc_mac_fallback] *)
Definition hnc_mac_fallback (mac : bytes) (outlen : nat) : option bytes :=
  if (outlen =? 0)%nat then None
  else
    let no_colon := take 12 (filter (fun c => c <> COLON) mac) in
    let ci := length no_colon in
    let suffix := if (8 <=? ci)%nat then drop (ci - 8) no_colon else no_colon in
    Some (c_trunc outlen suffix).

(** ** [hnc_lookup_manual_name] *)

(** The comparison loop: what follows a case-insensitive match of the pattern. *)
Fixpoint match_pattern_ci (m q : bytes) : option bytes :=
  match m, q with
  | [], _ => Some q
  | a :: m', b :: q' => if tolower b =? tolower a then match_pattern_ci m' q' else None
  | _ :: _, [] => None
  end.

(** The anchor test, on the bytes before the match, last one first. *)
Definition anchored (before : bytes) : bool :=
  match drop_while json_ws before with
  | [] => true
  | c :: _ => (c =? 123) || (c =? 44)
  end.

(** The copying loop: [room] is [outlen - 1 - i]. *)
Fixpoint copy_name (q : bytes) (room : nat) : bytes :=
  match q, room with
  | c :: r, S room' =>
      if c =? QUOTE then []
      else if c =? BSLASH then
        match r with
        | d :: r' => if (d =? QUOTE) || (d =? BSLASH) then d :: copy_name r' room'
                     else c :: copy_name r room'
        | [] => [c]
        end
      else c :: copy_name r room'
  | _, _ => []
  end.

(** The search loop.  The result is the text written to [out], if any. *)
Fixpoint manual_scan (pattern before p : bytes) (outlen : nat) : option bytes :=
  match p with
  | [] => None
  | c :: r =>
      match match_pattern_ci pattern p with
      | Some q => if anchored before then Some (copy_name q (outlen - 1))
                  else manual_scan pattern (c :: before) r outlen
      | None => manual_scan pattern (c :: before) r outlen
      end
  end.

Definition manual_pattern (mac : bytes) : bytes :=
  c_trunc 32 (QUOTE :: mac ++ [QUOTE; COLON; QUOTE]).

Definition NAMES_BUF : nat := Z.to_nat 8192.

(** [names] is the file at [names_path], [None] when there is no path or it
    cannot be opened; [outlen] is positive.  The result is the return value and
    what was written to [out]. *)
Definition hnc_lookup_manual_name (mac : bytes) (names : option bytes) (outlen : nat)
  : bool * option bytes :=
  match names with
  | None => (false, None)
  | Some content =>
      let buf := take (NAMES_BUF - 1) content in
      if (length buf =? 0)%nat then (false, None)
      else match manual_scan (manual_pattern mac) [] (cut_nul buf) outlen with
           | Some out => (negb (bool_decide (out = [])), Some out)
           | None => (false, None)
           end
  end.

(** [hnc_resolve_hostname_fast]: the name and its source. *)
Definition hnc_resolve_hostname_fast (mac : bytes) (names : option bytes) (hn_len src_len : nat)
  : bytes * bytes :=
  match hnc_lookup_manual_name mac names hn_len with
  | (true, out) => (default [] out, c_trunc src_len (str "manual"))
  | (false, _) => (default [] (hnc_mac_fallback mac hn_len), c_trunc src_len (str "mac"))
  end.

(** ** The escaping loop writes the escapes of a prefix *)
(** One turn of the loop, with the branches of the source merged: a special
    byte needs room for its escape, another byte only the check of the loop. *)
Lemma json_escape_loop_cons c src dst n :
  json_escape_loop (c :: src) dst n
  = if negb (length dst + 1 <? n)%nat then (dst, false)
    else if (n <=? length dst + length (json_esc1 c))%nat then (dst, true)
    else json_escape_loop src (dst ++ json_esc1 c) n.
Proof.
  cbn [json_escape_loop]. destruct (negb _) eqn:E; [done|]. bool_simpl. unfold json_esc1.
  destruct ((c =? QUOTE) || (c =? BSLASH)); [done|].
  destruct (c =? NL); [done|]. destruct (c =? CR); [done|]. destruct (c =? TAB); [done|].
  destruct (c <? 32); [done|]. cbn [length].
  rewrite (proj2 (Nat.leb_gt n _)) by lia. done.
Qed.

Lemma json_esc1_length c : (1 <= length (json_esc1 c))%nat.
Proof. unfold json_esc1. repeat case_goal; simpl; lia. Qed.

Lemma json_escape_loop_spec src dst n d t :
  (length dst < n)%nat -> json_escape_loop src dst n = (d, t) ->
  exists m, (m <= length src)%nat /\ d = dst ++ json_esc (take m src) /\ (length d < n)%nat /\
    (m = length src -> t = false) /\
    (forall c, src !! m = Some c ->
       (t = true \/ n <= length d + 1)%nat /\ (n <= length (d ++ json_esc1 c))%nat).
Proof.
  revert dst. induction src as [|c src IH]; intros dst Hlt.
  { intros [= <- <-]. exists 0%nat. split_and!; simpl; auto; [by rewrite app_nil_r|done]. }
  rewrite json_escape_loop_cons. pose proof (json_esc1_length c) as Hc.
  destruct (negb _) eqn:E1; bool_simpl.
  { intros [= <- <-]. exists 0%nat. cbn. rewrite app_nil_r. split_and!; [lia|done|done|done|].
    intros ? [= <-]. rewrite length_app. lia. }
  destruct (n <=? length dst + length (json_esc1 c))%nat eqn:E2; bool_simpl.
  { intros [= <- <-]. exists 0%nat. cbn. rewrite app_nil_r. split_and!; [lia|done|done|done|].
    intros ? [= <-]. rewrite length_app. auto. }
  intros H. apply IH in H as (m & Hm & -> & Hd & Ht & Hnext); [|rewrite length_app; lia].
  exists (S m). cbn [length take]. rewrite json_esc_cons, app_assoc.
  split_and!; [lia|done|done| |done]. intros. apply Ht. lia.
Qed.

(** ** The UTF-8 fallback *)
Lemma ascii_plain c : 0 <= c < 128 -> is_cont c = false /\ utf8_needed c = 0%nat.
Proof.
  intros Hc. assert (H : negb (c <? 128) || (negb (is_cont c) && (utf8_needed c =? 0)%nat) = true).
  { apply (byte_forall (fun c => negb (c <? 128) || (negb (is_cont c) && (utf8_needed c =? 0)%nat)));
      [by vm_compute|lia]. }
  rewrite (proj2 (Z.ltb_lt _ _)) in H by lia. simpl in H. bool_simpl. auto.
Qed.

Lemma cont_high c : 0 <= c < 256 -> is_cont c = true -> 128 <= c.
Proof.
  intros Hc Hi. destruct (decide (128 <= c)); [done|].
  destruct (ascii_plain c) as [Hf _]; [lia|]. congruence.
Qed.

Lemma lead_high c : 0 <= c < 256 -> utf8_needed c <> 0%nat -> 128 <= c.
Proof.
  intros Hc Hi. destruct (decide (128 <= c)); [done|].
  destruct (ascii_plain c) as [_ Hf]; [lia|]. congruence.
Qed.

Lemma json_esc1_high c : 128 <= c -> json_esc1 c = [c].
Proof. intros Hc. unfold json_esc1, QUOTE, BSLASH, NL, CR, TAB. zcases. Qed.

Lemma json_esc_high s : Forall (fun c => 128 <= c) s -> json_esc s = s.
Proof.
  induction 1 as [|c s Hc _ IH]; [done|]. rewrite json_esc_cons, IH, json_esc1_high by done. done.
Qed.

Lemma hex4_ascii c d : 0 <= c -> d ∈ hex4 c -> 0 <= d < 128.
Proof.
  intros Hc Hd. assert (Hh : forall x, 0 <= hex_digit (x mod 16) < 128).
  { intros x. pose proof (Z.mod_pos_bound x 16 ltac:(lia)) as Hx.
    pose proof (hex_digit_range _ Hx). lia. }
  unfold hex4 in Hd. rewrite !elem_of_cons, elem_of_nil in Hd.
  destruct Hd as [->|[->|[->|[->|[]]]]]; apply Hh.
Qed.

Lemma json_esc1_ascii c d : 0 <= c < 128 -> d ∈ json_esc1 c -> 0 <= d < 128.
Proof.
  intros Hc. unfold json_esc1, BSLASH. repeat case_goal;
    rewrite ?elem_of_cons, ?elem_of_nil; intros; destruct_or?; subst; try done; try lia.
  by eapply hex4_ascii; [|done]; lia.
Qed.

(** The fallback on a text that ends in a lead byte and continuation bytes. *)
Lemma utf8_fallback_snoc d lead conts :
  is_cont lead = false -> Forall (fun c => is_cont c = true) conts ->
  utf8_fallback (d ++ lead :: conts)
  = if (length conts <? utf8_needed lead)%nat then d else d ++ lead :: conts.
Proof.
  intros Hl Hc. unfold utf8_fallback.
  assert (Htw : take_while is_cont (reverse (d ++ lead :: conts)) = reverse conts).
  { rewrite reverse_app, reverse_cons, <- app_assoc.
    apply (take_while_app is_cont).
    - intros c Hin. rewrite elem_of_reverse in Hin. by eapply Forall_forall in Hc.
    - by intros c [= <-]. }
  rewrite Htw, length_reverse, length_app. cbn [length].
  replace (length d + S (length conts) - length conts)%nat with (S (length d)) by lia.
  rewrite app_nth2, Nat.sub_diag by lia. cbn [nth]. by rewrite take_app_length.
Qed.

Lemma utf8_char_inv w :
  utf8_char w = true ->
  exists lead conts, w = lead :: conts /\ 0 < lead < 256 /\ is_cont lead = false /\
    length conts = utf8_needed lead /\ Forall (fun c => is_cont c = true) conts /\
    Forall (fun c => 128 <= c) conts.
Proof.
  destruct w as [|lead conts]; [done|]. cbn [utf8_char].
  rewrite !andb_true_iff. intros [[[[[H1 H2] H3] H4] H5] H6]. bool_simpl.
  exists lead, conts.
  assert (Hc : Forall (fun c => is_cont c = true) conts)
    by (apply Forall_forall; intros x; by apply forallb_elem).
  split_and!; try done. apply Forall_forall. intros x Hx.
  pose proof (forallb_elem _ _ _ H6 Hx) as Hr. cbn beta in Hr. bool_simpl.
  apply cont_high; [lia|]. by eapply Forall_forall in Hc.
Qed.

(** A text of whole characters is kept by the fallback. *)
Lemma utf8_fallback_whole cs :
  forallb utf8_char cs = true ->
  utf8_fallback (json_esc (concat cs)) = json_esc (concat cs).
Proof.
  destruct cs as [|w cs _] using rev_ind; [done|]. rewrite forallb_app. cbn [forallb].
  intros H. bool_simpl.
  match goal with H : utf8_char w = true |- _ => apply utf8_char_inv in H end.
  rewrite concat_app. cbn [concat]. rewrite app_nil_r, json_esc_app.
  destruct H0 as (lead & conts & -> & Hl & Hnc & Hlen & Hco & Hhi).
  rewrite json_esc_cons, (json_esc_high conts) by done.
  destruct (decide (128 <= lead)) as [Hh|Hh].
  - rewrite (json_esc1_high lead) by done. cbn [app]. rewrite utf8_fallback_snoc by done.
    rewrite (proj2 (Nat.ltb_ge _ _)) by lia. done.
  - assert (Hn : utf8_needed lead = 0%nat) by (apply ascii_plain; lia).
    rewrite Hn in Hlen. destruct conts; [|done]. rewrite app_nil_r.
    destruct (json_esc1 lead) as [|x l _] eqn:E using rev_ind.
    { pose proof (json_esc1_length lead). rewrite E in *. simpl in *. lia. }
    assert (Hx : 0 <= x < 128)
      by (apply (json_esc1_ascii lead); [lia|rewrite E; set_solver]).
    destruct (ascii_plain x Hx) as [Hxc Hxn].
    rewrite app_assoc, utf8_fallback_snoc by (done || constructor). by rewrite Hxn.
Qed.

(** A cut character is removed. *)
Lemma utf8_fallback_partial cs w p :
  forallb utf8_char cs = true -> utf8_char w = true ->
  p `prefix_of` w -> p <> [] -> p <> w ->
  json_esc p = p /\ utf8_fallback (json_esc (concat cs) ++ p) = json_esc (concat cs).
Proof.
  intros Hcs Hw [q Hq] Hne Hnw.
  apply utf8_char_inv in Hw as (lead & conts & -> & Hl & Hnc & Hlen & Hco & Hhi).
  destruct p as [|x p]; [done|]. simpl in Hq. injection Hq as <- ->.
  rewrite Forall_app in Hco, Hhi. destruct Hco as [Hco _], Hhi as [Hhi _].
  assert (Hq : q <> []) by (intros ->; by rewrite app_nil_r in Hnw).
  rewrite length_app in Hlen. destruct q as [|y q]; [done|]. simpl in Hlen.
  split.
  - apply json_esc_high. constructor; [|done]. apply lead_high; lia.
  - rewrite utf8_fallback_snoc by done. by rewrite (proj2 (Nat.ltb_lt _ _)) by lia.
Qed.

(** Cutting a concatenation falls between two pieces or inside one. *)
Lemma take_concat_split {A} (cs : list (list A)) m :
  (m < length (concat cs))%nat ->
  exists n w p, cs !! n = Some w /\ take m (concat cs) = concat (take n cs) ++ p /\
                p `prefix_of` w /\ p <> w.
Proof.
  revert m. induction cs as [|w cs IH]; intros m Hm; simpl in Hm; [lia|].
  rewrite length_app in Hm. destruct (decide (m < length w)%nat) as [Hlt|Hge].
  - exists 0%nat, w, (take m w). split_and!; [done| | |].
    + simpl. by rewrite take_app_le by lia.
    + apply prefix_take.
    + intros Heq. apply (f_equal length) in Heq. rewrite length_take in Heq. lia.
  - destruct (IH (m - length w)%nat) as (n & w' & p & Hn & Ht & Hp & Hpw); [lia|].
    exists (S n), w', p. split_and!; [done| |done|done]. simpl.
    rewrite take_app_ge, Ht by lia. by rewrite app_assoc.
Qed.

Lemma json_escape_prefix (cs : list bytes) (dst_size : nat) :
  forallb utf8_char cs = true -> (0 < dst_size)%nat ->
  exists n out, hnc_json_escape (concat cs) dst_size = Some out /\
    out = json_esc (concat (take n cs)) /\ (length out < dst_size)%nat /\
    (n = length cs \/ (n < length cs)%nat /\
       (dst_size <= length (json_esc (concat (take (S n) cs))))%nat).
Proof.
  intros Hcs Hsz. unfold hnc_json_escape.
  rewrite (proj2 (Nat.eqb_neq _ _)) by lia.
  destruct (json_escape_loop (concat cs) [] dst_size) as [d t] eqn:El.
  apply json_escape_loop_spec in El as (m & Hm & -> & Hd & Ht & Hnext); [|done].
  cbn [app] in *.
  destruct (decide (m = length (concat cs))) as [->|Hne].
  { exists (length cs), (json_esc (concat cs)). rewrite !firstn_all in *.
    split_and!; try done; [|by left].
    rewrite utf8_fallback_whole by done. by destruct (_ || _). }
  destruct (lookup_lt_is_Some_2 (concat cs) m) as [c Hc]; [lia|].
  destruct (Hnext c Hc) as [Hstop Hfull].
  destruct (take_concat_split cs m) as (n & w & p & Hn & Htake & Hp & Hpw); [lia|].
  exists n, (json_esc (concat (take n cs))).
  assert (Hcsn : forallb utf8_char (take n cs) = true).
  { apply forallb_forall. intros x Hx. apply list_elem_of_In in Hx.
    eapply forallb_elem; [exact Hcs|]. by eapply elem_of_take in Hx as (? & ?%list_elem_of_lookup_2 & _). }
  assert (Hw : utf8_char w = true)
    by (eapply forallb_elem; [exact Hcs|by eapply list_elem_of_lookup_2]).
  rewrite Htake, json_esc_app in *.
  assert (Hcond : t || (negb (bool_decide (concat cs = [])) &&
                    (dst_size <=? length (json_esc (concat (take n cs)) ++ json_esc p) + 1)%nat) = true).
  { destruct Hstop as [->|Hs]; [done|]. rewrite (proj2 (Nat.leb_le _ _) Hs).
    rewrite bool_decide_false; [by rewrite orb_true_r|]. intros Hnil. by rewrite Hnil in Hc. }
  rewrite Hcond. rewrite length_app in Hd. pose proof (lookup_lt_Some _ _ _ Hn) as Hnlt.
  split_and!; [|done|lia|right; split; [lia|]].
  - destruct p as [|x p].
    + rewrite app_nil_r. by rewrite utf8_fallback_whole.
    + destruct (utf8_fallback_partial (take n cs) w (x :: p)) as [He Hf]; [done..|].
      by rewrite He, Hf.
  - erewrite take_S_r by done. rewrite concat_app, json_esc_app. cbn [concat].
    rewrite app_nil_r. destruct Hp as [q ->]. destruct q as [|y q]; [by rewrite app_nil_r in Hpw|].
    assert (Hy : c = y).
    { rewrite <- (take_drop n cs) in Hc. rewrite (drop_S _ _ _ Hn) in Hc.
      rewrite concat_app in Hc. cbn [concat] in Hc. rewrite <- app_assoc in Hc.
      rewrite app_assoc in Hc. 
      assert (Hlen : m = length (concat (take n cs) ++ p)).
      { rewrite <- Htake, length_take. lia. }
      rewrite lookup_app_r in Hc by lia. rewrite Hlen, Nat.sub_diag in Hc. by injection Hc. }
    subst y. rewrite json_esc_app, json_esc_cons. rewrite !length_app in *. lia.
Qed.

(** C38: [hnc_json_escape] writes the longest run of whole UTF-8 characters of
    the source that fits: the output is the escape of the first [n] characters,
    it is shorter than the buffer, and either nothing is missing or one more
    character would not have fitted; a character is never cut. *)
Lemma json_escape_longest_prefix (cs : list bytes) (dst_size : nat) :
  forallb utf8_char cs = true -> (0 < dst_size)%nat ->
  exists n out, hnc_json_escape (concat cs) dst_size = Some out /\
    out = json_esc (concat (take n cs)) /\ (length out < dst_size)%nat /\
    (n = length cs \/ (n < length cs)%nat /\
       (dst_size <= length (json_esc (concat (take (S n) cs))))%nat).
Proof. apply json_escape_prefix. Qed.

Definition sample_chars : list bytes := [[104]; [34]; [228; 184; 173]].

Lemma json_escape_longest_prefix_witness :
  exists n out, hnc_json_escape (concat sample_chars) 6 = Some out /\
    out = json_esc (concat (take n sample_chars)) /\ (length out < 6)%nat /\
    (n = length sample_chars \/ (n < length sample_chars)%nat /\
       (6 <= length (json_esc (concat (take (S n) sample_chars))))%nat).
Proof. apply (json_escape_longest_prefix sample_chars 6); [by vm_compute|lia]. Defined.

(** ** Manual names *)

(** The characters of a MAC in colon notation. *)
Definition mac_char (c : Z) : bool := isxdigit c || (c =? COLON).
Definition is_mac (m : bytes) : bool := forallb mac_char m && (length m =? 17)%nat.

Definition name_esc1 (c : Z) : bytes :=
  if (c =? QUOTE) || (c =? BSLASH) then [BSLASH; c] else [c].
Definition name_esc (v : bytes) : bytes := concat (map name_esc1 v).

Definition name_entry (kv : bytes * bytes) : bytes :=
  QUOTE :: kv.1 ++ [QUOTE; COLON; QUOTE] ++ name_esc kv.2 ++ [QUOTE].
Fixpoint names_rest (kvs : list (bytes * bytes)) : bytes :=
  match kvs with
  | [] => [125]
  | kv :: r => 44 :: name_entry kv ++ names_rest r
  end.
(** The file [device_names.json] for a list of pairs. *)
Definition names_file (kvs : list (bytes * bytes)) : bytes :=
  123 :: match kvs with [] => [125] | kv :: r => name_entry kv ++ names_rest r end.

(** The pair a MAC selects, whatever the case of its digits. *)
Definition names_find (mac : bytes) (kvs : list (bytes * bytes)) : option bytes :=
  (fun x => x.2.2) <$> list_find (fun kv => lower kv.1 = lower mac) kvs.

Lemma tolower_eq_plain a b :
  is_upper a = false -> is_lower_hex a = false -> (122 <? a) || (a <? 97) = true ->
  tolower b = tolower a -> b = a.
Proof.
  intros Ha Hh Hr. unfold tolower. rewrite Ha. unfold is_upper, is_lower_hex in *. zcases.
Qed.

Lemma mac_char_not m x :
  mac_char m = true -> x = QUOTE \/ x = BSLASH \/ x = 44 \/ x = 125 ->
  (tolower x =? tolower m) = false.
Proof.
  intros Hm Hx. apply Z.eqb_neq. intros Heq.
  assert (Hxx : tolower x = x) by by destruct Hx as [->|[->|[->| ->]]].
  assert (Hr : (48 <= tolower m <= 58) \/ (97 <= tolower m <= 102)).
  { revert Hm. unfold mac_char, isxdigit, is_digit, is_lower_hex, is_upper_hex, COLON.
    clear. unfold tolower, is_upper.
    destruct (Z.leb_spec 65 m), (Z.leb_spec m 90); cbn [andb]; zcases. }
  rewrite <- Heq, Hxx in Hr. unfold QUOTE, BSLASH in Hx. lia.
Qed.

Lemma quote_neq c : c <> QUOTE -> (tolower c =? tolower QUOTE) = false.
Proof.
  intros Hc. apply Z.eqb_neq. intros Heq. apply Hc. by apply tolower_eq_plain in Heq.
Qed.

#[local] Arguments tolower : simpl never.

Section manual_scan.
Context (mac : bytes) (Hmac : is_mac mac = true) (outlen : nat).
Let pat : bytes := QUOTE :: mac ++ [QUOTE; COLON; QUOTE].

Lemma scan_skip before c r :
  match_pattern_ci pat (c :: r) = None ->
  manual_scan pat before (c :: r) outlen = manual_scan pat (c :: before) r outlen.
Proof. intros H. cbn [manual_scan]. by rewrite H. Qed.

Lemma match_not_quote c r : c <> QUOTE -> match_pattern_ci pat (c :: r) = None.
Proof. intros Hc. unfold pat. cbn [match_pattern_ci]. by rewrite quote_neq. Qed.

Lemma scan_skip_plain before s r :
  Forall (fun c => c <> QUOTE) s ->
  manual_scan pat before (s ++ r) outlen = manual_scan pat (reverse s ++ before) r outlen.
Proof.
  intros Hs. revert before. induction Hs as [|c s Hc _ IH]; intros before; [done|].
  cbn [app]. rewrite scan_skip by by apply match_not_quote.
  by rewrite IH, reverse_cons, <- app_assoc.
Qed.

(** The text of a value, from any point on, is not a key followed by a colon. *)
Lemma match_value m v d r :
  forallb mac_char m = true -> d <> COLON ->
  match_pattern_ci (m ++ [QUOTE; COLON; QUOTE]) (name_esc v ++ QUOTE :: d :: r) = None.
Proof.
  revert v. induction m as [|x m IH]; intros v Hm Hd; cbn [forallb] in Hm; bool_simpl.
  - destruct v as [|c v]; cbn.
    + rewrite Z.eqb_refl. destruct (tolower d =? tolower COLON) eqn:E; [|done]. bool_simpl.
      by apply (tolower_eq_plain COLON d) in E.
    + unfold name_esc1. destruct (c =? QUOTE) eqn:E1; cbn; [done|].
      destruct (c =? BSLASH) eqn:E2; cbn; [done|]. bool_simpl. by rewrite quote_neq.
  - destruct v as [|c v]; cbn.
    + rewrite (mac_char_not x QUOTE); auto.
    + unfold name_esc1. destruct ((c =? QUOTE) || (c =? BSLASH)); cbn.
      { rewrite (mac_char_not x BSLASH); auto. }
      destruct (tolower c =? tolower x); [|done]. by apply IH.
Qed.

Lemma mac_chars : forallb mac_char mac = true.
Proof. unfold is_mac in Hmac. by bool_simpl. Qed.

Lemma match_value_at v d r :
  d <> COLON -> match_pattern_ci pat (QUOTE :: name_esc v ++ QUOTE :: d :: r) = None.
Proof. intros Hd. unfold pat. cbn. rewrite Z.eqb_refl. apply match_value; [apply mac_chars|done]. Qed.

Lemma match_close d r :
  d = 44 \/ d = 125 -> match_pattern_ci pat (QUOTE :: d :: r) = None.
Proof.
  intros Hd. unfold pat. cbn. pose proof mac_chars as Hc. unfold is_mac in Hmac. bool_simpl.
  destruct mac as [|x m]; [done|]. cbn in Hc. bool_simpl. cbn.
  rewrite Z.eqb_refl, mac_char_not; [done|done|tauto].
Qed.

Lemma scan_value_text before v d r :
  d <> COLON ->
  exists before', manual_scan pat before (name_esc v ++ QUOTE :: d :: r) outlen
    = manual_scan pat before' (QUOTE :: d :: r) outlen.
Proof.
  intros Hd. revert before. induction v as [|c v IH]; intros before; [by exists before|].
  unfold name_esc. cbn [map concat]. fold (name_esc v). unfold name_esc1.
  destruct (c =? QUOTE) eqn:E1; cbn [orb app]; bool_simpl.
  - subst c. rewrite scan_skip by by apply match_not_quote.
    rewrite scan_skip by by apply match_value_at. apply IH.
  - destruct (c =? BSLASH) eqn:E2; cbn [app]; bool_simpl.
    + subst c. do 2 rewrite scan_skip by by apply match_not_quote. apply IH.
    + rewrite scan_skip by by apply match_not_quote. apply IH.
Qed.

Lemma match_key m k t :
  length k = length m ->
  match_pattern_ci (m ++ [QUOTE; COLON; QUOTE]) (k ++ [QUOTE; COLON; QUOTE] ++ t)
  = if decide (lower k = lower m) then Some t else None.
Proof.
  revert k. induction m as [|x m IH]; intros [|c k] Hlen; try done; cbn.
  cbn [app] in IH. destruct (tolower c =? tolower x) eqn:E; bool_simpl.
  - rewrite IH by (simpl in Hlen; lia). unfold lower. rewrite E.
    repeat case_decide; congruence.
  - rewrite decide_False by congruence. done.
Qed.

Lemma copy_name_esc v r room : copy_name (name_esc v ++ QUOTE :: r) room = take room v.
Proof.
  revert room. induction v as [|c v IH]; intros [|room]; try done.
  { cbn. unfold name_esc1. by destruct (_ || _). }
  unfold name_esc. cbn [map concat]. fold (name_esc v). unfold name_esc1.
  destruct (c =? QUOTE) eqn:E1; cbn [orb app copy_name].
  { cbn [Z.eqb]. rewrite E1. cbn. by rewrite IH. }
  destruct (c =? BSLASH) eqn:E2; cbn [orb app copy_name].
  { rewrite E1. cbn. rewrite E2. cbn. by rewrite IH. }
  rewrite E1, E2. by rewrite IH.
Qed.

(** One entry, when the scan stands at its first byte. *)
Lemma scan_name_entry before kv d r :
  is_mac kv.1 = true -> anchored before = true -> d = 44 \/ d = 125 ->
  exists before', manual_scan pat before (name_entry kv ++ d :: r) outlen
    = if decide (lower kv.1 = lower mac) then Some (take (outlen - 1) kv.2)
      else manual_scan pat before' (d :: r) outlen.
Proof.
  intros Hk Han Hd. destruct kv as [k v]. cbn [fst snd] in *.
  assert (Hlen : length k = length mac) by (unfold is_mac in *; bool_simpl; congruence).
  assert (HdC : d <> COLON) by by destruct Hd as [->| ->].
  assert (Hkq : Forall (fun c => c <> QUOTE) k).
  { apply Forall_forall. intros x Hx ->. unfold is_mac in Hk. bool_simpl.
    by apply (forallb_elem _ _ _ H) in Hx. }
  unfold name_entry. cbn [fst snd app]. repeat (rewrite <- app_assoc; cbn [app]).
  set (t := name_esc v ++ QUOTE :: d :: r).
  assert (Hm : match_pattern_ci pat (QUOTE :: k ++ QUOTE :: COLON :: QUOTE :: t)
               = if decide (lower k = lower mac) then Some t else None).
  { unfold pat. cbn. rewrite Z.eqb_refl. by apply match_key. }
  case_decide as Hkm.
  - exists before. cbn [manual_scan]. rewrite Hm, Han. unfold t. by rewrite copy_name_esc.
  - rewrite scan_skip by done. rewrite scan_skip_plain by done.
    assert (Hclose : match_pattern_ci pat (QUOTE :: COLON :: QUOTE :: t) = None).
    { unfold pat. cbn. rewrite Z.eqb_refl. pose proof mac_chars as Hc.
      unfold is_mac in Hmac. bool_simpl. destruct mac as [|x [|y m]]; [done..|].
      cbn in Hc |- *. bool_simpl. destruct (tolower COLON =? tolower x); [|done].
      rewrite mac_char_not; auto. }
    rewrite scan_skip by done. rewrite scan_skip by by apply match_not_quote.
    rewrite scan_skip by by apply match_value_at.
    match goal with |- context [manual_scan pat ?b t] =>
      destruct (scan_value_text b v d r HdC) as [b' Hb] end.
    unfold t. rewrite Hb, scan_skip by by apply match_close. eauto.
Qed.

Lemma scan_names_rest r kv before :
  forallb (fun kv => is_mac kv.1) (kv :: r) = true -> anchored before = true ->
  manual_scan pat before (name_entry kv ++ names_rest r) outlen
  = take (outlen - 1) <$> names_find mac (kv :: r).
Proof.
  revert kv before. induction r as [|kv' r IH]; intros kv before Hall Han;
    cbn [forallb] in Hall; bool_simpl; cbn [names_rest].
  - destruct (scan_name_entry before kv 125 []) as [b ->]; [auto..|].
    unfold names_find. cbn [list_find]. case_decide; [done|].
    rewrite scan_skip by by apply match_not_quote. done.
  - destruct (scan_name_entry before kv 44 (name_entry kv' ++ names_rest r)) as [b ->]; [auto..|].
    unfold names_find. cbn [list_find]. case_decide; [done|].
    rewrite scan_skip by by apply match_not_quote.
    rewrite IH; [|cbn [forallb]; by rewrite !andb_true_iff|done]. unfold names_find.
    cbn [list_find]. case_decide; [done|]. by destruct (list_find _ r) as [[? ?]|].
Qed.
End manual_scan.

(** A names file that lists pairs of a MAC and a name (any bytes but NUL,
    quotes and backslashes escaped) is searched correctly: the lookup finds the
    first pair whose MAC is the given one up to the case of its digits, returns
    the name cut to the buffer, and is misled neither by a MAC that occurs inside a name nor by a
    quote or a backslash in one. *)
Lemma manual_name_lookup (kvs : list (bytes * bytes)) (mac : bytes) (outlen : nat) :
  is_mac mac = true -> forallb (fun kv => is_mac kv.1) kvs = true ->
  Forall (fun c => c <> 0) (names_file kvs) ->
  (length (names_file kvs) < NAMES_BUF)%nat ->
  hnc_lookup_manual_name mac (Some (names_file kvs)) outlen
  = match names_find mac kvs with
    | Some name => (negb (bool_decide (take (outlen - 1) name = [])), Some (take (outlen - 1) name))
    | None => (false, None)
    end.
Proof.
  intros Hmac Hkvs Hnz Hlen. unfold hnc_lookup_manual_name.
  rewrite take_ge by lia. 
  assert (Hne : (length (names_file kvs) =? 0)%nat = false) by by destruct kvs.
  assert (Hcut : cut_nul (names_file kvs) = names_file kvs).
  { revert Hnz. generalize (names_file kvs). clear. induction 1 as [|c s Hc _ IH]; [done|].
    cbn. apply Z.eqb_neq in Hc. by rewrite Hc, IH. }
  assert (Hpat : manual_pattern mac = QUOTE :: mac ++ [QUOTE; COLON; QUOTE]).
  { apply c_trunc_id. simpl. rewrite length_app. unfold is_mac in Hmac. bool_simpl. simpl. lia. }
  rewrite Hne, Hcut, Hpat.
  assert (Hscan : manual_scan (QUOTE :: mac ++ [QUOTE; COLON; QUOTE]) [] (names_file kvs) outlen
                  = take (outlen - 1) <$> names_find mac kvs).
  { destruct kvs as [|kv r]; unfold names_file.
    - do 2 rewrite scan_skip by by apply match_not_quote. done.
    - rewrite scan_skip by by apply match_not_quote. by apply scan_names_rest. }
  rewrite Hscan. by destruct (names_find mac kvs).
Qed.

Definition sample_names : list (bytes * bytes) :=
  [(str "11:22:33:44:55:66", QUOTE :: str "aa:bb:cc:dd:ee:ff");
   (str "AA:BB:CC:DD:EE:FF", str "Living room")].

Lemma manual_name_lookup_witness :
  hnc_lookup_manual_name (str "aa:bb:cc:dd:ee:ff") (Some (names_file sample_names)) 64
  = (true, Some (str "Living room")).
Proof.
  etransitivity; [apply manual_name_lookup|]; [by vm_compute|by vm_compute| | |by vm_compute].
  - apply (bool_decide_unpack _). by vm_compute.
  - apply Nat.ltb_lt. by vm_compute.
Defined.
