(* ===== verification/Offload.v ===== *)
(** * The offload adapter interface, its registry and the null adapter
    ([offload/adapter.h], [offload/adapter.c], [offload/adapter_null.c])

    An adapter is a record of operations over a world [W]; an operation whose
    function pointer may be NULL is an [option].  The registry elects the first
    adapter whose probe succeeds. *)
From S2P Require Import Prelude CStr.
Local Open Scope Z_scope.

(** [offload_err_t] *)
Inductive offload_err :=
| OFFLOAD_OK | OFFLOAD_ENOTSUP | OFFLOAD_EPERM | OFFLOAD_EINVAL
| OFFLOAD_ENOENT | OFFLOAD_EAGAIN | OFFLOAD_EINTERNAL.
#[export] Instance offload_err_eq_dec : EqDecision offload_err.
Proof. solve_decision. Defined.

Definition offload_err_val (e : offload_err) : Z :=
  match e with
  | OFFLOAD_OK => 0 | OFFLOAD_ENOTSUP => 1 | OFFLOAD_EPERM => 2 | OFFLOAD_EINVAL => 3
  | OFFLOAD_ENOENT => 4 | OFFLOAD_EAGAIN => 5 | OFFLOAD_EINTERNAL => 99
  end.

(** [offload_err_str] on any integer value of the enumeration. *)
Definition offload_err_str (e : Z) : string :=
  if e =? 0 then "OK" else if e =? 1 then "ENOTSUP" else if e =? 2 then "EPERM"
  else if e =? 3 then "EINVAL" else if e =? 4 then "ENOENT" else if e =? 5 then "EAGAIN"
  else if e =? 99 then "EINTERNAL" else "UNKNOWN".

(** [offload_type_t] *)
Inductive offload_type :=
| OFFLOAD_NONE | OFFLOAD_QCOM_BPF | OFFLOAD_MTK_PPE | OFFLOAD_SAMSUNG_NSS
| OFFLOAD_HISI_HINAT | OFFLOAD_UNKNOWN.
Definition offload_type_val (t : offload_type) : Z :=
  match t with
  | OFFLOAD_NONE => 0 | OFFLOAD_QCOM_BPF => 1 | OFFLOAD_MTK_PPE => 2
  | OFFLOAD_SAMSUNG_NSS => 3 | OFFLOAD_HISI_HINAT => 4 | OFFLOAD_UNKNOWN => 99
  end.
Definition offload_type_str (t : Z) : string :=
  if t =? 0 then "none" else if t =? 1 then "qcom_bpf" else if t =? 2 then "mtk_ppe"
  else if t =? 3 then "samsung_nss" else if t =? 4 then "hisi_hinat"
  else if t =? 99 then "unknown" else "invalid".

(** [offload_granularity_t] *)
Inductive offload_granularity :=
| OFFLOAD_GRAN_NONE | OFFLOAD_GRAN_GLOBAL | OFFLOAD_GRAN_PER_UPSTREAM | OFFLOAD_GRAN_PER_DEVICE.
#[export] Instance offload_granularity_eq_dec : EqDecision offload_granularity.
Proof. solve_decision. Defined.
Definition offload_gran_val (g : offload_granularity) : Z :=
  match g with
  | OFFLOAD_GRAN_NONE => 0 | OFFLOAD_GRAN_GLOBAL => 1
  | OFFLOAD_GRAN_PER_UPSTREAM => 2 | OFFLOAD_GRAN_PER_DEVICE => 3
  end.
Definition offload_gran_str (g : Z) : string :=
  if g =? 0 then "none" else if g =? 1 then "global" else if g =? 2 then "per_upstream"
  else if g =? 3 then "per_device" else "invalid".

(** [offload_status_t]; the array of eight indices is the list of those set. *)
Record offload_status := OffloadStatus {
  st_active : bool;
  st_last_refresh_ts : Z;
  st_last_delta_bytes : Z;
  st_disabled_upstream_count : Z;
  st_disabled_upstream_ifindex : list Z;
  st_globally_disabled : bool
}.
Definition status_zero : offload_status := OffloadStatus false 0 0 0 [] false.

(** [offload_adapter_t].  The operations on single devices are NULL in every
    adapter of the repository and have no field. *)
Record offload_adapter (W : Type) := OffloadAdapter {
  ad_name : string;
  ad_type : offload_type;
  ad_granularity : offload_granularity;
  ad_probe : option (W -> bool);
  ad_init : st W offload_err;
  ad_shutdown : st W unit;
  ad_self_check : option (st W offload_err);
  ad_status : option (W -> offload_status);
  ad_refresh_active : option (st W offload_err);
  ad_disable_global : option (st W offload_err);
  ad_restore_global : option (st W offload_err);
  ad_disable_upstream : option (Z -> st W offload_err);
  ad_restore_upstream : option (Z -> st W offload_err)
}.
Arguments OffloadAdapter {W}.
Arguments ad_name {W}. Arguments ad_type {W}. Arguments ad_granularity {W}.
Arguments ad_probe {W}. Arguments ad_init {W}. Arguments ad_shutdown {W}.
Arguments ad_self_check {W}. Arguments ad_status {W}. Arguments ad_refresh_active {W}.
Arguments ad_disable_global {W}. Arguments ad_restore_global {W}.
Arguments ad_disable_upstream {W}. Arguments ad_restore_upstream {W}.

(** ** The null adapter *)
Section null.
Context {W : Type}.

Definition null_probe (w : W) : bool := true.
Definition null_init : st W offload_err := mret OFFLOAD_OK.
Definition null_shutdown : st W unit := mret tt.
Definition null_self_check : st W offload_err := mret OFFLOAD_OK.
Definition null_status (w : W) : offload_status := status_zero.
Definition null_refresh_active : st W offload_err := mret OFFLOAD_OK.
Definition null_disable_global : st W offload_err := mret OFFLOAD_OK.
Definition null_restore_global : st W offload_err := mret OFFLOAD_OK.

Definition adapter_null : offload_adapter W :=
  OffloadAdapter "null" OFFLOAD_NONE OFFLOAD_GRAN_NONE (Some null_probe) null_init
    null_shutdown (Some null_self_check) (Some null_status) (Some null_refresh_active)
    (Some null_disable_global) (Some null_restore_global) None None.

(** ** Registry and election *)

(** [g_adapters]: the adapters compiled in, the null adapter last. *)
Definition g_adapters (compiled_in : list (offload_adapter W)) : list (offload_adapter W) :=
  compiled_in ++ [adapter_null].

(** [offload_select_adapter]: the elected adapter, which is also cached in
    [s_active]; an adapter without a probe is skipped. *)
Fixpoint select_from (l : list (offload_adapter W)) (w : W) : option (offload_adapter W) :=
  match l with
  | [] => None
  | a :: rest =>
      match ad_probe a with
      | None => select_from rest w
      | Some probe => if probe w then Some a else select_from rest w
      end
  end.
Definition offload_select_adapter (adapters : list (offload_adapter W)) (w : W)
  (s_active : option (offload_adapter W)) : option (offload_adapter W) * option (offload_adapter W) :=
  match select_from adapters w with
  | Some a => (Some a, Some a)
  | None => (None, s_active)
  end.

(** [offload_active_adapter] and [offload_set_active_adapter]. *)
Definition offload_active_adapter (adapters : list (offload_adapter W)) (w : W)
  (s_active : option (offload_adapter W)) : option (offload_adapter W) * option (offload_adapter W) :=
  match s_active with
  | None => offload_select_adapter adapters w s_active
  | Some a => (Some a, s_active)
  end.
Definition offload_set_active_adapter (a s_active : option (offload_adapter W))
  : option (offload_adapter W) := a.

(** Whether a registry entry would be elected. *)
Definition probes_ok (w : W) (a : offload_adapter W) : bool :=
  match ad_probe a with Some p => p w | None => false end.

Lemma select_from_find l w :
  select_from l w = snd <$> list_find (fun a => probes_ok w a = true) l.
Proof.
  induction l as [|a l IH]; [done|]. cbn [select_from list_find]. rewrite IH. unfold probes_ok.
  destruct (ad_probe a) as [p|]; [destruct (p w)|]; cbn; try done;
    by destruct (list_find _ l) as [[? ?]|].
Qed.
End null.

(** The election always yields an adapter: the first one of the compiled-in
    list whose probe exists and succeeds, and the null adapter exactly when none
    does; the choice is cached and a later query returns it without probing. *)
Lemma select_adapter_total {W} (compiled_in : list (offload_adapter W)) (w w' : W)
    (old : option (offload_adapter W)) :
  exists a, offload_select_adapter (g_adapters compiled_in) w old = (Some a, Some a) /\
    offload_active_adapter (g_adapters compiled_in) w' (Some a) = (Some a, Some a) /\
    ((exists i, compiled_in !! i = Some a /\ probes_ok w a = true /\
        forall j b, compiled_in !! j = Some b -> (j < i)%nat -> probes_ok w b = false) \/
     a = adapter_null /\ forall b, b ∈ compiled_in -> probes_ok w b = false).
Proof.
  unfold offload_select_adapter, offload_active_adapter, g_adapters. rewrite select_from_find.
  destruct (list_find (fun a => probes_ok w a = true) compiled_in) as [[i a]|] eqn:E.
  - exists a. erewrite list_find_app_l by done. cbn. split_and!; [done..|left]. exists i.
    apply list_find_Some in E as (Hi & Ha & Hj). split_and!; [done..|].
    intros j b Hb Hlt. specialize (Hj j b Hb Hlt). by destruct (probes_ok w b).
  - exists adapter_null. rewrite list_find_app_r by done. cbn. split_and!; [done..|right].
    split; [done|]. intros b Hb. apply list_find_None in E.
    rewrite Forall_forall in E. specialize (E b Hb). by destruct (probes_ok w b).
Qed.
