(* ===== verification/BpfAdapter.v ===== *)
(** * The BPF tethering adapter ([offload/adapter_bpf.c])

    The adapter switches the kernel's tethering fast path off and on by writing
    the pinned limit map: quota 0 makes the BPF program fall back to the slow
    path, [U64_MAX] lifts the quota.  The kernel is a type [K] with the system
    calls of the class [BpfSys]; [BpfLaws] states the documented behaviour of the
    BPF map commands, and [BpfKernel.v] holds a concrete kernel that has it. *)
From S2P Require Import Prelude CStr Offload.
Local Open Scope Z_scope.

(** ** The kernel interface *)

Definition EPERM : Z := 1.
Definition ENOENT : Z := 2.
Definition EBADF : Z := 9.
Definition EAGAIN : Z := 11.
Definition EACCES : Z := 13.
Definition EBUSY : Z := 16.
Definition EINVAL : Z := 22.

Definition BPF_ANY : Z := 0.
Definition BPF_EXIST : Z := 2.

(** [tether_stats_t] *)
Record tether_stats := TetherStats {
  rx_packets : Z; rx_bytes : Z; rx_errors : Z;
  tx_packets : Z; tx_bytes : Z; tx_errors : Z
}.

Definition BPF_LIMIT_MAP : string := "/sys/fs/bpf/tethering/map_offload_tether_limit_map".
Definition BPF_STATS_MAP : string := "/sys/fs/bpf/tethering/map_offload_tether_stats_map".
Definition BPF_ERROR_MAP : string := "/sys/fs/bpf/tethering/map_offload_tether_error_map".

Definition BPF_LIMIT_NONE : Z := 2 ^ 64 - 1.
Definition BPF_LIMIT_ZERO : Z := 0.
Definition ACTIVE_THRESHOLD_BYTES : Z := 1024 * 1024.
Definition ACTIVE_SAMPLE_INTERVAL : Z := 5.
Definition MAX_DISABLED_UPSTREAMS : nat := 8.

(** The system calls the adapter makes.  A failing call gives its [errno].
    [sys_map_steps] bounds the length of an iteration over a map. *)
Class BpfSys (K : Type) := {
  sys_obj_get : string -> st K (Z + Z);
  sys_close : Z -> K -> K;
  sys_update : Z -> Z -> Z -> Z -> st K (option Z);
  sys_next_key : Z -> option Z -> K -> Z + Z;
  sys_lookup_stats : Z -> Z -> K -> option tether_stats;
  sys_map_info : Z -> K -> (Z * Z) + Z;
  sys_stat_ok : string -> K -> bool;
  sys_sleep : Z -> K -> K;
  sys_time : K -> Z;
  sys_map_steps : K -> nat
}.

(** [errno_to_offload] *)
Definition errno_to_offload (e : Z) : offload_err :=
  if e =? 0 then OFFLOAD_OK
  else if (e =? EPERM) || (e =? EACCES) then OFFLOAD_EPERM
  else if e =? ENOENT then OFFLOAD_ENOENT
  else if e =? EINVAL then OFFLOAD_EINVAL
  else if (e =? EAGAIN) || (e =? EBUSY) then OFFLOAD_EAGAIN
  else OFFLOAD_EINTERNAL.

(** ** The adapter's state *)

(** The file-static [s].  The first [disabled_upstream_count] elements of the
    array are the list [bs_disabled]. *)
Record bpf_state := BpfState {
  bs_initialized : bool;
  bs_fd_limit : Z;
  bs_fd_stats : Z;
  bs_fd_error : Z;
  bs_cached_active : bool;
  bs_cached_refresh_ts : Z;
  bs_cached_delta_bytes : Z;
  bs_cached_last_total : Z;
  bs_disabled : list Z;
  bs_globally_disabled : bool
}.
Definition bpf_state_init : bpf_state := BpfState false (-1) (-1) (-1) false 0 0 0 [] false.

Definition set_fd_limit (fd : Z) (s : bpf_state) : bpf_state :=
  BpfState (bs_initialized s) fd (bs_fd_stats s) (bs_fd_error s) (bs_cached_active s)
    (bs_cached_refresh_ts s) (bs_cached_delta_bytes s) (bs_cached_last_total s)
    (bs_disabled s) (bs_globally_disabled s).
Definition set_fd_stats (fd : Z) (s : bpf_state) : bpf_state :=
  BpfState (bs_initialized s) (bs_fd_limit s) fd (bs_fd_error s) (bs_cached_active s)
    (bs_cached_refresh_ts s) (bs_cached_delta_bytes s) (bs_cached_last_total s)
    (bs_disabled s) (bs_globally_disabled s).
Definition set_fd_error (fd : Z) (s : bpf_state) : bpf_state :=
  BpfState (bs_initialized s) (bs_fd_limit s) (bs_fd_stats s) fd (bs_cached_active s)
    (bs_cached_refresh_ts s) (bs_cached_delta_bytes s) (bs_cached_last_total s)
    (bs_disabled s) (bs_globally_disabled s).
Definition set_initialized (b : bool) (s : bpf_state) : bpf_state :=
  BpfState b (bs_fd_limit s) (bs_fd_stats s) (bs_fd_error s) (bs_cached_active s)
    (bs_cached_refresh_ts s) (bs_cached_delta_bytes s) (bs_cached_last_total s)
    (bs_disabled s) (bs_globally_disabled s).
Definition set_cached (active : bool) (ts delta total : Z) (s : bpf_state) : bpf_state :=
  BpfState (bs_initialized s) (bs_fd_limit s) (bs_fd_stats s) (bs_fd_error s) active ts delta total
    (bs_disabled s) (bs_globally_disabled s).
Definition set_disabled (l : list Z) (s : bpf_state) : bpf_state :=
  BpfState (bs_initialized s) (bs_fd_limit s) (bs_fd_stats s) (bs_fd_error s) (bs_cached_active s)
    (bs_cached_refresh_ts s) (bs_cached_delta_bytes s) (bs_cached_last_total s)
    l (bs_globally_disabled s).
Definition set_globally (b : bool) (s : bpf_state) : bpf_state :=
  BpfState (bs_initialized s) (bs_fd_limit s) (bs_fd_stats s) (bs_fd_error s) (bs_cached_active s)
    (bs_cached_refresh_ts s) (bs_cached_delta_bytes s) (bs_cached_last_total s)
    (bs_disabled s) b.

(** ** The set of disabled upstreams *)
Definition disabled_set_contains (ifindex : Z) (l : list Z) : bool :=
  existsb (Z.eqb ifindex) l.

Definition disabled_set_add (ifindex : Z) (l : list Z) : list Z :=
  if disabled_set_contains ifindex l then l
  else if (MAX_DISABLED_UPSTREAMS <=? length l)%nat then l
  else l ++ [ifindex].

Definition disabled_set_remove (ifindex : Z) (l : list Z) : list Z :=
  match find_idx (Z.eqb ifindex) l with
  | Some i => swap_remove i l
  | None => l
  end.

(** ** The operations *)

(** The adapter's state together with the kernel. *)
Record bpf_world (K : Type) := BpfWorld { bw_s : bpf_state; bw_k : K }.
Arguments BpfWorld {K}. Arguments bw_s {K}. Arguments bw_k {K}.

Section bpf.
Context {K : Type} `{!BpfSys K}.

Definition modify_s (f : bpf_state -> bpf_state) : st (bpf_world K) unit :=
  st_mod (fun w => BpfWorld (f (bw_s w)) (bw_k w)).
Definition get_s {A} (f : bpf_state -> A) : st (bpf_world K) A := st_get (fun w => f (bw_s w)).
Definition get_k {A} (f : K -> A) : st (bpf_world K) A := st_get (fun w => f (bw_k w)).
Definition call_k {A} (m : st K A) : st (bpf_world K) A :=
  fun w => let '(x, k) := m (bw_k w) in (x, BpfWorld (bw_s w) k).

(** [reopen_fd]: [None] for 0, the [errno] otherwise. *)
Definition reopen_fd (get : bpf_state -> Z) (set : Z -> bpf_state -> bpf_state) (path : string)
  : st (bpf_world K) (option Z) :=
  fd ← get_s get;
  (if 0 <=? fd then
     call_k (fun k => (tt, sys_close fd k));; modify_s (set (-1))
   else mret tt);;
  r ← call_k (sys_obj_get path);
  match r with
  | inr e => mret (Some e)
  | inl new_fd => modify_s (set new_fd);; mret None
  end.

Definition reopen_limit : st (bpf_world K) (option Z) :=
  reopen_fd bs_fd_limit set_fd_limit BPF_LIMIT_MAP.

Definition ensure_limit_fd : st (bpf_world K) (option Z) :=
  fd ← get_s bs_fd_limit;
  if 0 <=? fd then mret None else reopen_limit.
Definition ensure_stats_fd : st (bpf_world K) (option Z) :=
  fd ← get_s bs_fd_stats;
  if 0 <=? fd then mret None else reopen_fd bs_fd_stats set_fd_stats BPF_STATS_MAP.

(** [bpf_map_update_elem] on the cached descriptor of the limit map. *)
Definition update_limit (key val flags : Z) : st (bpf_world K) (option Z) :=
  fd ← get_s bs_fd_limit; call_k (sys_update fd key val flags).

(** [stats_total_bytes] *)
Definition stats_step (fd : Z) (k : K) (s : option Z * Z) : (option Z * Z) + Z :=
  let '(prev, total) := s in
  match sys_next_key fd prev k with
  | inr _ => inr total
  | inl next_key =>
      let total := match sys_lookup_stats fd next_key k with
                   | Some v => u64 (total + u64 (rx_bytes v + tx_bytes v))
                   | None => total
                   end in
      inl (Some next_key, total)
  end.
Definition stats_total_bytes : st (bpf_world K) Z :=
  e ← ensure_stats_fd;
  match e with
  | Some _ => mret 0
  | None =>
      fd ← get_s bs_fd_stats;
      get_k (fun k => default 0 (loop (stats_step fd k) (sys_map_steps k) (None, 0)))
  end.

Definition bpf_probe (w : bpf_world K) : bool := sys_stat_ok BPF_LIMIT_MAP (bw_k w).

Definition bpf_init : st (bpf_world K) offload_err :=
  initialized ← get_s bs_initialized;
  if initialized : bool then mret OFFLOAD_OK
  else
    e ← ensure_limit_fd;
    match e with
    | Some e => mret (errno_to_offload e)
    | None =>
        ensure_stats_fd;;
        r ← call_k (sys_obj_get BPF_ERROR_MAP);
        modify_s (set_fd_error (match r with inl fd => fd | inr _ => -1 end));;
        modify_s (set_initialized true);;
        mret OFFLOAD_OK
    end.

Definition close_fd (get : bpf_state -> Z) (set : Z -> bpf_state -> bpf_state)
  : st (bpf_world K) unit :=
  fd ← get_s get;
  if 0 <=? fd then call_k (fun k => (tt, sys_close fd k));; modify_s (set (-1))
  else mret tt.
Definition bpf_shutdown : st (bpf_world K) unit :=
  initialized ← get_s bs_initialized;
  if negb initialized then mret tt
  else
    close_fd bs_fd_limit set_fd_limit;;
    close_fd bs_fd_stats set_fd_stats;;
    close_fd bs_fd_error set_fd_error;;
    modify_s (set_initialized false).

Definition bpf_self_check : st (bpf_world K) offload_err :=
  e ← ensure_limit_fd;
  match e with
  | Some e => mret (errno_to_offload e)
  | None =>
      fd ← get_s bs_fd_limit;
      info ← get_k (sys_map_info fd);
      match info with
      | inr _ => mret OFFLOAD_EINTERNAL
      | inl (key_size, value_size) =>
          if negb (key_size =? 4) || negb (value_size =? 8) then mret OFFLOAD_EINTERNAL
          else mret OFFLOAD_OK
      end
  end.

Definition bpf_status (w : bpf_world K) : offload_status :=
  let s := bw_s w in
  OffloadStatus (bs_cached_active s) (bs_cached_refresh_ts s) (bs_cached_delta_bytes s)
    (Z.of_nat (length (bs_disabled s))) (take 8 (bs_disabled s)) (bs_globally_disabled s).

(** [bpf_refresh_active]: two locked samples around the sleep. *)
Definition refresh_first : st (bpf_world K) (option Z) :=
  t1 ← stats_total_bytes;
  fd ← get_s bs_fd_stats;
  if (t1 =? 0) && (fd <? 0) then
    modify_s (fun s => set_cached false (bs_cached_refresh_ts s) (bs_cached_delta_bytes s)
                         (bs_cached_last_total s) s);; mret None
  else mret (Some t1).
Definition refresh_second (t1 : Z) : st (bpf_world K) offload_err :=
  t2 ← stats_total_bytes;
  let delta := if t1 <=? t2 then t2 - t1 else 0 in
  now ← get_k sys_time;
  modify_s (set_cached (ACTIVE_THRESHOLD_BYTES <=? delta) now delta t2);;
  mret OFFLOAD_OK.
Definition bpf_refresh_active : st (bpf_world K) offload_err :=
  r ← refresh_first;
  match r with
  | None => mret OFFLOAD_ENOENT
  | Some t1 =>
      call_k (fun k => (tt, sys_sleep ACTIVE_SAMPLE_INTERVAL k));;
      refresh_second t1
  end.

(** [bpf_disable_upstream]: the part after the first update and its repair. *)
Definition add_disabled (ifindex : Z) : st (bpf_world K) offload_err :=
  modify_s (fun s => set_disabled (disabled_set_add ifindex (bs_disabled s)) s);;
  mret OFFLOAD_OK.
Definition remove_disabled (ifindex : Z) : st (bpf_world K) offload_err :=
  modify_s (fun s => set_disabled (disabled_set_remove ifindex (bs_disabled s)) s);;
  mret OFFLOAD_OK.

Definition disable_absent (ifindex e1 : Z) : st (bpf_world K) offload_err :=
  if e1 =? ENOENT then
    r ← update_limit (u32 ifindex) BPF_LIMIT_ZERO BPF_ANY;
    match r with
    | None => add_disabled ifindex
    | Some e => mret (errno_to_offload e)
    end
  else mret (errno_to_offload e1).

Definition bpf_disable_upstream (ifindex : Z) : st (bpf_world K) offload_err :=
  if ifindex <=? 0 then mret OFFLOAD_EINVAL
  else
    e ← ensure_limit_fd;
    match e with
    | Some e => mret (errno_to_offload e)
    | None =>
        r ← update_limit (u32 ifindex) BPF_LIMIT_ZERO BPF_EXIST;
        match r with
        | None => add_disabled ifindex
        | Some e1 =>
            if e1 =? EBADF then
              o ← reopen_limit;
              match o with
              | Some e => mret (errno_to_offload e)
              | None =>
                  r ← update_limit (u32 ifindex) BPF_LIMIT_ZERO BPF_EXIST;
                  match r with
                  | None => add_disabled ifindex
                  | Some e1 => disable_absent ifindex e1
                  end
              end
            else disable_absent ifindex e1
        end
    end.

Definition restore_absent (ifindex e : Z) : st (bpf_world K) offload_err :=
  if e =? ENOENT then remove_disabled ifindex else mret (errno_to_offload e).

Definition bpf_restore_upstream (ifindex : Z) : st (bpf_world K) offload_err :=
  if ifindex <=? 0 then mret OFFLOAD_EINVAL
  else
    e ← ensure_limit_fd;
    match e with
    | Some e => mret (errno_to_offload e)
    | None =>
        r ← update_limit (u32 ifindex) BPF_LIMIT_NONE BPF_EXIST;
        match r with
        | None => remove_disabled ifindex
        | Some e =>
            if e =? EBADF then
              o ← reopen_limit;
              match o with
              | Some e => mret (errno_to_offload e)
              | None =>
                  r ← update_limit (u32 ifindex) BPF_LIMIT_NONE BPF_EXIST;
                  match r with
                  | None => remove_disabled ifindex
                  | Some e => restore_absent ifindex e
                  end
              end
            else restore_absent ifindex e
        end
    end.

(** The sweep both global operations make over the limit map.  [on_ok] is what
    happens to the disabled set after a successful write. *)
Record sweep := Sweep {
  sw_prev : option Z; sw_touched : nat; sw_errs : nat; sw_iter_errno : Z; sw_world : bpf_world K
}.
Definition sweep_step (val : Z) (on_ok : Z -> list Z -> list Z) (x : sweep) : sweep + sweep :=
  let w := sw_world x in
  let fd := bs_fd_limit (bw_s w) in
  match sys_next_key fd (sw_prev x) (bw_k w) with
  | inr e =>
      if e =? ENOENT then inr x
      else inr (Sweep (sw_prev x) (sw_touched x) (S (sw_errs x)) e w)
  | inl next_key =>
      let '(r, k') := sys_update fd next_key val BPF_EXIST (bw_k w) in
      match r with
      | None =>
          let s' := set_disabled (on_ok (s32 next_key) (bs_disabled (bw_s w))) (bw_s w) in
          inl (Sweep (Some next_key) (S (sw_touched x)) (sw_errs x) (sw_iter_errno x) (BpfWorld s' k'))
      | Some _ =>
          inl (Sweep (Some next_key) (sw_touched x) (S (sw_errs x)) (sw_iter_errno x)
                 (BpfWorld (bw_s w) k'))
      end
  end.
Definition sweep_limit (val : Z) (on_ok : Z -> list Z -> list Z) (w : bpf_world K) : sweep :=
  let x0 := Sweep None 0 0 0 w in
  default x0 (loop (sweep_step val on_ok) (sys_map_steps (bw_k w)) x0).

Definition sweep_result (x : sweep) : offload_err :=
  if (sw_errs x =? 0)%nat then OFFLOAD_OK
  else if negb (sw_iter_errno x =? 0) && (sw_touched x =? 0)%nat
  then errno_to_offload (sw_iter_errno x)
  else if (0 <? sw_touched x)%nat then OFFLOAD_OK
  else OFFLOAD_EINTERNAL.

Definition bpf_disable_global : st (bpf_world K) offload_err :=
  e ← ensure_limit_fd;
  match e with
  | Some e => mret (errno_to_offload e)
  | None => fun w =>
      let x := sweep_limit BPF_LIMIT_ZERO disabled_set_add w in
      let s := bw_s (sw_world x) in
      let g := if (0 <? sw_touched x)%nat && (sw_errs x =? 0)%nat then true
               else bs_globally_disabled s in
      (sweep_result x, BpfWorld (set_globally g s) (bw_k (sw_world x)))
  end.

Definition bpf_restore_global : st (bpf_world K) offload_err :=
  e ← ensure_limit_fd;
  match e with
  | Some e => mret (errno_to_offload e)
  | None => fun w =>
      let x := sweep_limit BPF_LIMIT_NONE disabled_set_remove w in
      let s := bw_s (sw_world x) in
      let s' := if (sw_errs x =? 0)%nat then set_globally false (set_disabled [] s) else s in
      (sweep_result x, BpfWorld s' (bw_k (sw_world x)))
  end.

Definition adapter_bpf : offload_adapter (bpf_world K) :=
  OffloadAdapter "bpf" OFFLOAD_QCOM_BPF OFFLOAD_GRAN_PER_UPSTREAM (Some bpf_probe) bpf_init
    bpf_shutdown (Some bpf_self_check) (Some bpf_status) (Some bpf_refresh_active)
    (Some bpf_disable_global) (Some bpf_restore_global)
    (Some bpf_disable_upstream) (Some bpf_restore_upstream).
End bpf.
