(* ===== verification/BpfKernel.v ===== *)
(** * What the adapter relies on in the kernel, and a kernel that provides it

    [LimitCalls] states what [BPF_OBJ_GET], [BPF_MAP_UPDATE_ELEM] and [close] do to the
    pinned limit map when an update may fail with any error; [BpfLaws] adds what holds for a
    hash map that this process may write: an update of an entry that is there
    works, and [BPF_MAP_GET_NEXT_KEY] walks the keys in an order.  [kern] is a small concrete kernel with
    these laws, on which the witnesses run, and [frozen] one that refuses updates. *)
From S2P Require Import Prelude CStr Offload BpfAdapter.
Local Open Scope Z_scope.

Class LimitCalls (K : Type) `{!BpfSys K} := {
  (** the content of the pinned limit map and the order of an iteration *)
  limit_map : K -> gmap Z Z;
  limit_keys : K -> list Z;
  (** the descriptor is open on the limit map; it is not open at all *)
  limit_fd : K -> Z -> Prop;
  fd_closed : K -> Z -> Prop;
  (** the map is pinned at its path and may be opened *)
  limit_pinned : K -> Prop;
  update_limit_fd k fd key v flags : limit_fd k fd ->
    match sys_update fd key v flags k with
    | (None, k') => limit_map k' = <[key := v]> (limit_map k) /\ limit_fd k' fd
    | (Some e, k') => e <> 0 /\ k' = k
    end;
  update_badf k fd key v flags : fd_closed k fd -> sys_update fd key v flags k = (Some EBADF, k);
  open_limit k : match sys_obj_get BPF_LIMIT_MAP k with
    | (inl fd, k') => 0 <= fd /\ limit_fd k' fd /\ limit_map k' = limit_map k /\
                      limit_keys k' = limit_keys k /\ (limit_pinned k' <-> limit_pinned k)
    | (inr e, k') => e <> 0 /\ ~ limit_pinned k /\ limit_map k' = limit_map k /\
                     limit_keys k' = limit_keys k /\ (limit_pinned k' <-> limit_pinned k)
    end;
  close_limit k fd : limit_map (sys_close fd k) = limit_map k /\
                     limit_keys (sys_close fd k) = limit_keys k /\
                     (limit_pinned (sys_close fd k) <-> limit_pinned k)
}.

Class BpfLaws (K : Type) `{!BpfSys K} := {
  laws_calls :: LimitCalls K;
  limit_keys_spec k : NoDup (limit_keys k) /\
    forall x, x ∈ limit_keys k <-> is_Some (limit_map k !! x);
  limit_steps k : (length (limit_keys k) < sys_map_steps k)%nat;
  update_exist k fd key v v0 : limit_fd k fd -> limit_map k !! key = Some v0 ->
    exists k', sys_update fd key v BPF_EXIST k = (None, k') /\
      limit_map k' = <[key := v]> (limit_map k) /\ limit_keys k' = limit_keys k /\ limit_fd k' fd;
  update_absent k fd key v : limit_fd k fd -> limit_map k !! key = None ->
    sys_update fd key v BPF_EXIST k = (Some ENOENT, k);
  next_key_order k fd l1 l2 : limit_fd k fd -> limit_keys k = l1 ++ l2 ->
    sys_next_key fd (last l1) k = match l2 with [] => inr ENOENT | x :: _ => inl x end;
  next_key_badf k fd key : fd_closed k fd -> sys_next_key fd key k = inr EBADF
}.

(** ** A concrete kernel *)
Record kern := Kern {
  kk_limit : gmap Z Z;
  kk_stats : gmap Z tether_stats;
  kk_pinned : bool;
  kk_fds : gmap N string;
  kk_clock : Z
}.

Definition kk_open (path : string) (k : kern) : (Z + Z) * kern :=
  if kk_pinned k then
    let fd := fresh (dom (kk_fds k)) in
    (inl (Z.of_N fd), Kern (kk_limit k) (kk_stats k) true (<[fd := path]> (kk_fds k)) (kk_clock k))
  else (inr ENOENT, k).

Definition kk_file (k : kern) (fd : Z) : option string :=
  if 0 <=? fd then kk_fds k !! Z.to_N fd else None.

Definition kk_keys (k : kern) (path : string) : list Z :=
  if bool_decide (path = BPF_STATS_MAP) then elements (dom (kk_stats k))
  else elements (dom (kk_limit k)).

Definition kk_next (keys : list Z) (key : option Z) : Z + Z :=
  let rest := match key with
              | None => keys
              | Some x => match find_idx (Z.eqb x) keys with
                          | Some i => drop (S i) keys
                          | None => keys
                          end
              end in
  match rest with [] => inr ENOENT | x :: _ => inl x end.

#[export] Instance kern_sys : BpfSys kern := {|
  sys_obj_get := kk_open;
  sys_close := fun fd k =>
    Kern (kk_limit k) (kk_stats k) (kk_pinned k)
      (if 0 <=? fd then delete (Z.to_N fd) (kk_fds k) else kk_fds k) (kk_clock k);
  sys_update := fun fd key v flags k =>
    match kk_file k fd with
    | None => (Some EBADF, k)
    | Some path =>
        if negb (bool_decide (path = BPF_LIMIT_MAP)) then (Some EINVAL, k)
        else if (flags =? BPF_EXIST) && negb (bool_decide (is_Some (kk_limit k !! key)))
        then (Some ENOENT, k)
        else (None, Kern (<[key := v]> (kk_limit k)) (kk_stats k) (kk_pinned k) (kk_fds k) (kk_clock k))
    end;
  sys_next_key := fun fd key k =>
    match kk_file k fd with
    | None => inr EBADF
    | Some path => kk_next (kk_keys k path) key
    end;
  sys_lookup_stats := fun fd key k =>
    match kk_file k fd with None => None | Some _ => kk_stats k !! key end;
  sys_map_info := fun fd k =>
    match kk_file k fd with None => inr EBADF | Some _ => inl (4, 8) end;
  sys_stat_ok := fun _ k => kk_pinned k;
  sys_sleep := fun d k =>
    Kern (kk_limit k) (kk_stats k) (kk_pinned k) (kk_fds k) (kk_clock k + d);
  sys_time := kk_clock;
  sys_map_steps := fun k => S (size (kk_limit k) + size (kk_stats k))
|}.

Lemma kk_next_order keys l1 l2 :
  NoDup keys -> keys = l1 ++ l2 ->
  kk_next keys (last l1) = match l2 with [] => inr ENOENT | x :: _ => inl x end.
Proof.
  intros Hnd ->. unfold kk_next. destruct l1 as [|x l1 _] using rev_ind; [done|].
  rewrite last_snoc. rewrite <- app_assoc in *. simpl in *.
  assert (Hf : find_idx (Z.eqb x) (l1 ++ x :: l2) = Some (length l1)).
  { apply find_idx_Some. exists x. split_and!; [|apply Z.eqb_refl|].
    - by rewrite lookup_app_r, Nat.sub_diag by lia.
    - intros j y Hj Hlt. apply Z.eqb_neq. intros ->.
      rewrite lookup_app_l in Hj by done. apply NoDup_app in Hnd as (_ & Hd & _).
      apply (Hd y); [by eapply list_elem_of_lookup_2|left]. }
  rewrite Hf, drop_app_ge by lia. replace (S (length l1) - length l1)%nat with 1%nat by lia. done.
Qed.

Definition kern_calls : LimitCalls kern.
Proof.
  refine {| limit_map := kk_limit; limit_keys := fun k => elements (dom (kk_limit k));
            limit_fd := fun k fd => kk_file k fd = Some BPF_LIMIT_MAP;
            fd_closed := fun k fd => kk_file k fd = None;
            limit_pinned := fun k => kk_pinned k = true |}.
  - intros k fd key v flags Hfd. cbn. rewrite Hfd. cbn. by destruct (_ && _).
  - intros k fd key v flags Hfd. cbn. by rewrite Hfd.
  - intros k. cbn. unfold kk_open. destruct (kk_pinned k) eqn:E; cbn; [|by rewrite E].
    split_and!; [lia| |done|done|done]. unfold kk_file. cbn. rewrite (proj2 (Z.leb_le _ _)) by lia.
    by rewrite N2Z.id, lookup_insert_eq.
  - intros k fd. done.
Defined.

#[export] Instance kern_laws : BpfLaws kern.
Proof.
  refine {| laws_calls := kern_calls |}; cbn.
  - intros k. split; [apply NoDup_elements|]. intros x. by rewrite elem_of_elements, elem_of_dom.
  - intros k. change (length _) with (size (dom (kk_limit k))). rewrite size_dom. lia.
  - intros k fd key v v0 Hfd Hv. eexists. rewrite Hfd. cbn.
    rewrite Hv. cbn. split_and!; [done|done| |done]. cbn.
    f_equal. apply leibniz_equiv. rewrite dom_insert. apply elem_of_dom_2 in Hv. set_solver.
  - intros k fd key v Hfd Hv. rewrite Hfd. cbn. by rewrite Hv.
  - intros k fd l1 l2 Hfd Hk. rewrite Hfd. apply kk_next_order; [|done].
    apply NoDup_elements.
  - intros k fd key Hfd. by rewrite Hfd.
Defined.

(** ** A frozen map

    After [BPF_MAP_FREEZE] every update is refused with [EPERM]. *)
Record frozen := Frozen { fz_kern : kern }.

#[export] Instance frozen_sys : BpfSys frozen := {|
  sys_obj_get path k := let '(r, k') := sys_obj_get path (fz_kern k) in (r, Frozen k');
  sys_close fd k := Frozen (sys_close fd (fz_kern k));
  sys_update fd _ _ _ k := (match kk_file (fz_kern k) fd with None => Some EBADF | Some _ => Some EPERM end, k);
  sys_next_key fd key k := sys_next_key fd key (fz_kern k);
  sys_lookup_stats fd key k := sys_lookup_stats fd key (fz_kern k);
  sys_map_info fd k := sys_map_info fd (fz_kern k);
  sys_stat_ok path k := sys_stat_ok path (fz_kern k);
  sys_sleep d k := Frozen (sys_sleep d (fz_kern k));
  sys_time k := sys_time (fz_kern k);
  sys_map_steps k := sys_map_steps (fz_kern k)
|}.

#[export] Instance frozen_calls : LimitCalls frozen.
Proof.
  refine {| limit_map k := limit_map (fz_kern k); limit_keys k := limit_keys (fz_kern k);
            limit_fd k := limit_fd (fz_kern k); fd_closed k := fd_closed (fz_kern k);
            limit_pinned k := limit_pinned (fz_kern k) |}; intros [k].
  - intros fd key v flags Hfd. cbn in *. by rewrite Hfd.
  - intros fd key v flags Hfd. cbn in *. by rewrite Hfd.
  - pose proof (open_limit k) as H. cbn [sys_obj_get frozen_sys fz_kern] in *.
    by destruct (sys_obj_get BPF_LIMIT_MAP k) as [[fd|e] k'].
  - intros fd. apply (close_limit k).
Defined.
