(* ===== verification/BpfSpec.v ===== *)
(** * Correctness of the BPF adapter

    What each operation of [BpfAdapter.v] does to the kernel's limit map, against
    the laws of [BpfKernel.v], and the invariant of the disabled set, which needs
    no law at all. *)
From S2P Require Import Prelude CStr Offload BpfAdapter BpfKernel.
Local Open Scope Z_scope.

(** ** The disabled set *)
Definition disabled_ok (l : list Z) : Prop :=
  NoDup l /\ (length l <= MAX_DISABLED_UPSTREAMS)%nat.

Lemma disabled_set_contains_spec x l : disabled_set_contains x l = true <-> x ∈ l.
Proof.
  unfold disabled_set_contains. rewrite existsb_exists. split.
  - intros (y & Hy & ->%Z.eqb_eq). by apply list_elem_of_In.
  - intros Hx. exists x. split; [by apply list_elem_of_In|apply Z.eqb_refl].
Qed.

Lemma disabled_set_add_ok x l : disabled_ok l -> disabled_ok (disabled_set_add x l).
Proof.
  intros [Hnd Hlen]. unfold disabled_set_add.
  destruct (disabled_set_contains x l) eqn:E; [done|].
  destruct (_ <=? _)%nat eqn:El; [done|]. bool_simpl. split.
  - apply NoDup_app. split_and!; [done| |apply NoDup_singleton].
    intros y Hy ->%list_elem_of_singleton. apply disabled_set_contains_spec in Hy. congruence.
  - rewrite length_app. simpl. lia.
Qed.

Lemma disabled_set_add_elem x y l :
  y ∈ disabled_set_add x l <->
  y ∈ l \/ (y = x /\ (x ∈ l \/ (length l < MAX_DISABLED_UPSTREAMS)%nat)).
Proof.
  unfold disabled_set_add. destruct (disabled_set_contains x l) eqn:E.
  { apply disabled_set_contains_spec in E. naive_solver. }
  assert (x ∉ l) by (intros H%disabled_set_contains_spec; congruence).
  destruct (_ <=? _)%nat eqn:El; bool_simpl.
  - split; [naive_solver|]. intros [?|[-> [?|?]]]; [done|done|lia].
  - rewrite elem_of_app, list_elem_of_singleton. naive_solver.
Qed.

Lemma disabled_set_remove_perm x l :
  x ∈ l -> l ≡ₚ x :: disabled_set_remove x l.
Proof.
  intros Hx. unfold disabled_set_remove.
  destruct (find_idx (Z.eqb x) l) as [i|] eqn:E.
  - apply find_idx_lookup in E as (y & Hy & ->%Z.eqb_eq). by apply swap_remove_perm.
  - pose proof (proj1 (find_idx_None _ _) E x Hx) as H. by rewrite Z.eqb_refl in H.
Qed.

Lemma disabled_set_remove_absent x l : x ∉ l -> disabled_set_remove x l = l.
Proof.
  intros Hx. unfold disabled_set_remove.
  destruct (find_idx (Z.eqb x) l) as [i|] eqn:E; [|done].
  apply find_idx_lookup in E as (y & Hy & ->%Z.eqb_eq). by apply list_elem_of_lookup_2 in Hy.
Qed.

Lemma disabled_set_remove_ok x l : disabled_ok l -> disabled_ok (disabled_set_remove x l).
Proof.
  intros [Hnd Hlen]. destruct (decide (x ∈ l)) as [Hx|Hx].
  - pose proof (disabled_set_remove_perm x l Hx) as Hp. split.
    + rewrite Hp in Hnd. by apply NoDup_cons in Hnd as [_ ?].
    + apply Permutation_length in Hp. simpl in Hp. lia.
  - by rewrite disabled_set_remove_absent.
Qed.

(** ** The invariant of every operation, over any kernel *)
Section invariant.
Context {K : Type} `{!BpfSys K}.
Implicit Types w : bpf_world K.

Definition bpf_inv w : Prop := disabled_ok (bs_disabled (bw_s w)).

(** An operation that keeps the disabled set as it is. *)
Definition keeps {A} (m : st (bpf_world K) A) : Prop :=
  forall w, bs_disabled (bw_s (m w).2) = bs_disabled (bw_s w).
Definition preserves {A} (m : st (bpf_world K) A) : Prop :=
  forall w, bpf_inv w -> bpf_inv (m w).2.

Lemma keeps_preserves {A} (m : st (bpf_world K) A) : keeps m -> preserves m.
Proof. intros Hm w Hw. unfold bpf_inv. by rewrite Hm. Qed.
Lemma keeps_ret {A} (x : A) : keeps (mret x).
Proof. by intros w. Qed.
Lemma keeps_bind {A B} (m : st (bpf_world K) A) (f : A -> st (bpf_world K) B) :
  keeps m -> (forall x, keeps (f x)) -> keeps (m ≫= f).
Proof.
  intros Hm Hf w. unfold mbind, st_bind. specialize (Hm w).
  destruct (m w) as [x w1]. simpl in *. by rewrite Hf.
Qed.
Lemma keeps_get_s {A} (f : bpf_state -> A) : keeps (get_s f).
Proof. by intros w. Qed.
Lemma keeps_get_k {A} (f : K -> A) : keeps (get_k f).
Proof. by intros w. Qed.
Lemma keeps_call_k {A} (m : st K A) : keeps (call_k m).
Proof. intros w. unfold call_k. by destruct (m (bw_k w)). Qed.
Lemma keeps_modify f : (forall s, bs_disabled (f s) = bs_disabled s) -> keeps (modify_s f).
Proof. intros Hf w. apply Hf. Qed.

Lemma preserves_ret {A} (x : A) : preserves (mret x).
Proof. by intros w. Qed.
Lemma preserves_bind {A B} (m : st (bpf_world K) A) (f : A -> st (bpf_world K) B) :
  preserves m -> (forall x, preserves (f x)) -> preserves (m ≫= f).
Proof.
  intros Hm Hf w Hw. unfold mbind, st_bind. specialize (Hm w Hw).
  destruct (m w) as [x w1]. simpl in *. by apply Hf.
Qed.
End invariant.

#[export] Hint Resolve keeps_ret keeps_get_s keeps_get_k keeps_call_k preserves_ret : hnc.

(** Walk through a monadic operation, one call at a time. *)
Ltac keeps_tac :=
  repeat match goal with
  | |- keeps (_ ≫= _) => apply keeps_bind; [|intros ?]
  | |- keeps (if ?b then _ else _) => destruct b
  | |- keeps (match ?x with _ => _ end) => destruct x
  | |- keeps (modify_s _) => apply keeps_modify; done
  | |- keeps _ => solve [auto with hnc]
  end.
Ltac preserves_tac :=
  repeat match goal with
  | |- preserves (_ ≫= _) => apply preserves_bind; [|intros ?]
  | |- preserves (if ?b then _ else _) => destruct b
  | |- preserves (match ?x with _ => _ end) => destruct x
  | |- preserves _ => solve [auto with hnc | apply keeps_preserves; auto with hnc]
  end.

Section operations.
Context {K : Type} `{!BpfSys K}.

Lemma keeps_reopen get set path :
  (forall fd s, bs_disabled (set fd s) = bs_disabled s) -> keeps (K:=K) (reopen_fd get set path).
Proof. intros Hset. unfold reopen_fd. keeps_tac. Qed.
Lemma keeps_reopen_limit : keeps (K:=K) reopen_limit.
Proof. by apply keeps_reopen. Qed.
Lemma keeps_ensure_limit : keeps (K:=K) ensure_limit_fd.
Proof. unfold ensure_limit_fd. keeps_tac. apply keeps_reopen_limit. Qed.
Lemma keeps_ensure_stats : keeps (K:=K) ensure_stats_fd.
Proof. unfold ensure_stats_fd. keeps_tac. by apply keeps_reopen. Qed.
Lemma keeps_update key val flags : keeps (K:=K) (update_limit key val flags).
Proof. unfold update_limit. keeps_tac. Qed.
Lemma keeps_stats_total : keeps (K:=K) stats_total_bytes.
Proof. unfold stats_total_bytes. keeps_tac. apply keeps_ensure_stats. Qed.
Lemma keeps_close get set :
  (forall fd s, bs_disabled (set fd s) = bs_disabled s) -> keeps (K:=K) (close_fd get set).
Proof. intros Hset. unfold close_fd. keeps_tac. Qed.

Lemma preserves_add ifindex : preserves (K:=K) (add_disabled ifindex).
Proof. intros w Hw. by apply disabled_set_add_ok. Qed.
Lemma preserves_remove ifindex : preserves (K:=K) (remove_disabled ifindex).
Proof. intros w Hw. by apply disabled_set_remove_ok. Qed.

Lemma sweep_inv val on_ok w :
  (forall x l, disabled_ok l -> disabled_ok (on_ok x l)) ->
  bpf_inv w -> bpf_inv (sw_world (sweep_limit (K:=K) val on_ok w)).
Proof.
  intros Hok Hw. unfold sweep_limit.
  destruct (loop _ _ _) as [x|] eqn:E; [|done]. cbn [default].
  eapply (loop_inv _ (fun x => bpf_inv (sw_world x)) (fun x => bpf_inv (sw_world x)));
    [| | |exact E]; [| |exact Hw].
  - intros y y' Hy. unfold sweep_step. repeat case_goal; try done; intros [= <-]; [exact Hy|].
    by apply Hok.
  - intros y y' Hy. unfold sweep_step. repeat case_goal; try done; by intros [= <-].
Qed.
End operations.

#[export] Hint Resolve keeps_reopen_limit keeps_ensure_limit keeps_ensure_stats keeps_update
  keeps_stats_total preserves_add preserves_remove : hnc.

(** The operations another part of the daemon can call. *)
Inductive bpf_op :=
| OpInit | OpShutdown | OpSelfCheck | OpRefresh | OpDisableGlobal | OpRestoreGlobal
| OpDisableUpstream (ifindex : Z) | OpRestoreUpstream (ifindex : Z).

Definition run_op {K} `{!BpfSys K} (o : bpf_op) (w : bpf_world K) : bpf_world K :=
  match o with
  | OpInit => (bpf_init w).2
  | OpShutdown => (bpf_shutdown w).2
  | OpSelfCheck => (bpf_self_check w).2
  | OpRefresh => (bpf_refresh_active w).2
  | OpDisableGlobal => (bpf_disable_global w).2
  | OpRestoreGlobal => (bpf_restore_global w).2
  | OpDisableUpstream i => (bpf_disable_upstream i w).2
  | OpRestoreUpstream i => (bpf_restore_upstream i w).2
  end.

Lemma run_op_inv {K} `{!BpfSys K} (o : bpf_op) (w : bpf_world K) :
  bpf_inv w -> bpf_inv (run_op o w).
Proof.
  destruct o; simpl; revert w.
  - change (preserves (K:=K) bpf_init). apply keeps_preserves. unfold bpf_init. keeps_tac.
  - change (preserves (K:=K) bpf_shutdown). apply keeps_preserves. unfold bpf_shutdown.
    keeps_tac; by apply keeps_close.
  - change (preserves (K:=K) bpf_self_check). apply keeps_preserves. unfold bpf_self_check. keeps_tac.
  - change (preserves (K:=K) bpf_refresh_active). apply keeps_preserves.
    unfold bpf_refresh_active, refresh_first, refresh_second. keeps_tac.
  - change (preserves (K:=K) bpf_disable_global). unfold bpf_disable_global. preserves_tac.
    intros w Hw. apply (sweep_inv BPF_LIMIT_ZERO _ w disabled_set_add_ok Hw).
  - change (preserves (K:=K) bpf_restore_global). unfold bpf_restore_global. preserves_tac.
    intros w Hw. unfold bpf_inv. cbn. destruct (_ =? 0)%nat.
    + split; [apply NoDup_nil_2|simpl; lia].
    + apply (sweep_inv BPF_LIMIT_NONE _ w disabled_set_remove_ok Hw).
  - change (preserves (K:=K) (bpf_disable_upstream ifindex)).
    unfold bpf_disable_upstream, disable_absent. preserves_tac.
  - change (preserves (K:=K) (bpf_restore_upstream ifindex)).
    unfold bpf_restore_upstream, restore_absent. preserves_tac.
Qed.

(** Through every sequence of adapter operations, over any kernel whatever
    its calls return, the set of disabled upstreams stays free of duplicates and
    within its eight slots, so the status report always shows the whole set. *)
Lemma bpf_disabled_set_inv {K} `{!BpfSys K} (ops : list bpf_op) (k : K) :
  let w := fold_left (fun w o => run_op o w) ops (BpfWorld bpf_state_init k) in
  disabled_ok (bs_disabled (bw_s w)) /\
  st_disabled_upstream_ifindex (bpf_status w) = bs_disabled (bw_s w) /\
  st_disabled_upstream_count (bpf_status w)
    = Z.of_nat (length (st_disabled_upstream_ifindex (bpf_status w))).
Proof.
  intros w. assert (Hw : bpf_inv w).
  { unfold w. assert (H0 : bpf_inv (BpfWorld bpf_state_init k)).
    { split; [apply NoDup_nil_2|simpl; lia]. }
    revert H0. generalize (BpfWorld bpf_state_init k).
    induction ops as [|o ops IH]; intros w0 H0; [done|]. simpl. apply IH. by apply run_op_inv. }
  split; [exact Hw|]. destruct Hw as [_ Hlen]. unfold bpf_status. cbn.
  rewrite firstn_all2 by exact Hlen. done.
Qed.

(** ** Effects on the kernel's limit map *)
Section calls.
Context {K : Type} `{!BpfSys K, !LimitCalls K}.
Implicit Types w : bpf_world K.

Definition lmap w : gmap Z Z := limit_map (bw_k w).
Definition lkeys w : list Z := limit_keys (bw_k w).
(** The cached descriptor works; it is unopened, works or was closed behind the
    adapter's back. *)
Definition fd_good w : Prop := limit_fd (bw_k w) (bs_fd_limit (bw_s w)).
Definition fd_known w : Prop :=
  bs_fd_limit (bw_s w) < 0 \/ fd_good w \/ fd_closed (bw_k w) (bs_fd_limit (bw_s w)).

(** Nothing an observer of the fast path sees has changed. *)
Definition same_effect w w' : Prop :=
  lmap w' = lmap w /\ lkeys w' = lkeys w /\
  bs_disabled (bw_s w') = bs_disabled (bw_s w) /\
  bs_globally_disabled (bw_s w') = bs_globally_disabled (bw_s w) /\
  (limit_pinned (bw_k w') <-> limit_pinned (bw_k w)).

Lemma same_effect_refl w : same_effect w w.
Proof. done. Qed.

(** The map cannot be opened, and the error is a real one. *)
Definition open_fails w (e : Z) : Prop := e <> 0 /\ ~ limit_pinned (bw_k w).

Lemma same_effect_trans w1 w2 w3 : same_effect w1 w2 -> same_effect w2 w3 -> same_effect w1 w3.
Proof.
  intros (? & ? & ? & ? & ?) (? & ? & ? & ? & ?). split_and!; try congruence. tauto.
Qed.

Lemma open_fails_same w w' e : same_effect w w' -> open_fails w' e -> open_fails w e.
Proof. intros (_ & _ & _ & _ & Hp) [He Hn]. split; [done|tauto]. Qed.

Lemma reopen_limit_effect w :
  match reopen_limit w with
  | (None, w') => fd_good w' /\ 0 <= bs_fd_limit (bw_s w') /\ same_effect w w'
  | (Some e, w') => open_fails w e /\ same_effect w w'
  end.
Proof.
  unfold reopen_limit, reopen_fd, mbind, st_bind, get_s, st_get, call_k, modify_s, st_mod, mret, st_ret.
  set (w1 := if 0 <=? bs_fd_limit (bw_s w)
             then BpfWorld (set_fd_limit (-1) (bw_s w)) (sys_close (bs_fd_limit (bw_s w)) (bw_k w))
             else w).
  assert (Hw1 : same_effect w w1).
  { unfold w1, same_effect, lmap, lkeys. destruct (0 <=? _); [|done]. cbn.
    destruct (close_limit (bw_k w) (bs_fd_limit (bw_s w))) as (-> & -> & ?). done. }
  pose proof (open_limit (bw_k w1)) as Hopen.
  destruct Hw1 as (H1 & H2 & H3 & H4 & H5). unfold lmap, lkeys in *.
  destruct (sys_obj_get BPF_LIMIT_MAP (bw_k w1)) as [[fd|e] k'] eqn:E; unfold w1 in *;
    destruct (0 <=? bs_fd_limit (bw_s w)); cbn in *; rewrite E;
    destruct_and!; unfold fd_good, same_effect, lmap, lkeys, open_fails; cbn;
    split_and!; eauto; try congruence; tauto.
Qed.

Lemma ensure_limit_effect w :
  fd_known w ->
  match ensure_limit_fd w with
  | (None, w') => (fd_good w' \/ fd_closed (bw_k w') (bs_fd_limit (bw_s w'))) /\ same_effect w w'
  | (Some e, w') => open_fails w e /\ same_effect w w'
  end.
Proof.
  intros Hfd. pose proof (reopen_limit_effect w) as Hr.
  unfold ensure_limit_fd, mbind, st_bind, get_s, st_get, mret, st_ret.
  destruct (0 <=? bs_fd_limit (bw_s w)) eqn:E; bool_simpl.
  - split; [|done]. destruct Hfd; [lia|done].
  - destruct (reopen_limit w) as [[e|] w']; destruct_and!; auto.
Qed.

(** An update through a working descriptor writes the entry, or nothing and fails. *)
Lemma update_limit_good w key v flags :
  fd_good w ->
  (exists w', update_limit key v flags w = (None, w') /\ fd_good w' /\
      bw_s w' = bw_s w /\ lmap w' = <[key := v]> (lmap w)) \/
  (exists e, e <> 0 /\ update_limit key v flags w = (Some e, w)).
Proof.
  intros Hfd. unfold update_limit, mbind, st_bind, get_s, st_get, call_k, lmap, fd_good in *.
  pose proof (update_limit_fd (bw_k w) _ key v flags Hfd) as H.
  destruct (sys_update _ key v flags (bw_k w)) as [[e|] k'].
  - right. destruct H as [He ->]. exists e. split; [done|]. by destruct w.
  - left. destruct H as [Hm Hf]. eauto 10.
Qed.

Lemma update_limit_badf w key v flags :
  fd_closed (bw_k w) (bs_fd_limit (bw_s w)) -> update_limit key v flags w = (Some EBADF, w).
Proof.
  intros Hfd. unfold update_limit, mbind, st_bind, get_s, st_get, call_k.
  rewrite update_badf by done. by destruct w.
Qed.

Lemma errno_not_ok e : e <> 0 -> errno_to_offload e <> OFFLOAD_OK.
Proof. intros He. unfold errno_to_offload. repeat case_goal; bool_simpl; done. Qed.

(** The three ways a disable or a restore of one upstream can end. *)
Definition upstream_done w w' (ifindex v : Z) (set : list Z -> list Z) : Prop :=
  lmap w' = <[u32 ifindex := v]> (lmap w) /\ bs_disabled (bw_s w') = set (bs_disabled (bw_s w)) /\
  bs_globally_disabled (bw_s w') = bs_globally_disabled (bw_s w) /\ fd_good w'.
Definition upstream_failed w w' (r : offload_err) (e : Z) : Prop :=
  r = errno_to_offload e /\ r <> OFFLOAD_OK /\ same_effect w w'.

(** The kernel refuses the quota at the descriptor that is now cached: the entry cannot be
    updated, or it is absent and cannot be made. *)
Definition quota_refused w (ifindex e : Z) : Prop :=
  fd_good w /\
  (e <> ENOENT /\ update_limit (u32 ifindex) BPF_LIMIT_ZERO BPF_EXIST w = (Some e, w) \/
   update_limit (u32 ifindex) BPF_LIMIT_ZERO BPF_EXIST w = (Some ENOENT, w) /\
   update_limit (u32 ifindex) BPF_LIMIT_ZERO BPF_ANY w = (Some e, w)).
Definition disable_result w w' (ifindex : Z) (r : offload_err) : Prop :=
  r = OFFLOAD_OK /\ upstream_done w w' ifindex BPF_LIMIT_ZERO (disabled_set_add ifindex) \/
  exists e, upstream_failed w w' r e /\ (open_fails w e \/ quota_refused w' ifindex e).

Lemma disable_write w w0 w' ifindex :
  same_effect w0 w -> fd_good w' -> bw_s w' = bw_s w -> lmap w' = <[u32 ifindex := BPF_LIMIT_ZERO]> (lmap w) ->
  exists r w'', add_disabled ifindex w' = (r, w'') /\ disable_result w0 w'' ifindex r.
Proof.
  intros (S1 & S2 & S3 & S4 & S5) Hg Hs Hm. eexists _, _. split; [reflexivity|]. left. split; [done|].
  unfold upstream_done, fd_good, lmap in *. cbn. rewrite Hs in *. by rewrite Hm, S1, S3, S4.
Qed.

(** One attempt of [disable_upstream] on a working descriptor, from its first update. *)
Lemma disable_attempt w w0 ifindex :
  fd_good w -> same_effect w0 w ->
  exists r w', match update_limit (u32 ifindex) BPF_LIMIT_ZERO BPF_EXIST w with
               | (None, w1) => add_disabled ifindex w1
               | (Some e1, w1) => disable_absent ifindex e1 w1
               end = (r, w') /\ disable_result w0 w' ifindex r.
Proof.
  intros Hfd Hs.
  destruct (update_limit_good w (u32 ifindex) BPF_LIMIT_ZERO BPF_EXIST Hfd)
    as [(w1 & -> & Hg & Hb & Hm)|(e1 & He1 & Hu)]; [by eapply disable_write|].
  rewrite Hu. unfold disable_absent. destruct (Z.eqb_spec e1 ENOENT) as [->|Hne].
  - unfold mbind, st_bind.
    destruct (update_limit_good w (u32 ifindex) BPF_LIMIT_ZERO BPF_ANY Hfd)
      as [(w1 & -> & Hg & Hb & Hm)|(e & He & Hu2)]; [by eapply disable_write|].
    rewrite Hu2. eexists _, _. split; [reflexivity|]. right. exists e.
    split; [split_and!; [done|by apply errno_not_ok|done]|]. right. split; [done|by right].
  - eexists _, _. split; [reflexivity|]. right. exists e1.
    split; [split_and!; [done|by apply errno_not_ok|done]|]. right. split; [done|by left].
Qed.

(** After the descriptor was found closed: it is opened again, and one attempt follows. *)
Lemma disable_again w w0 ifindex :
  same_effect w0 w ->
  exists r w', (o ← reopen_limit;
                match o with
                | Some e => mret (errno_to_offload e)
                | None =>
                    r ← update_limit (u32 ifindex) BPF_LIMIT_ZERO BPF_EXIST;
                    match r with
                    | None => add_disabled ifindex
                    | Some e1 => disable_absent ifindex e1
                    end
                end) w = (r, w') /\ disable_result w0 w' ifindex r.
Proof.
  intros Hs. pose proof (reopen_limit_effect w) as Ho. unfold mbind at 1, st_bind at 1.
  destruct (reopen_limit w) as [[e|] w2].
  - destruct Ho as [Ho Hs2]. eexists _, _. split; [reflexivity|]. right. exists e.
    split; [|left; by eapply open_fails_same].
    split_and!; [done|apply errno_not_ok, Ho|by eapply same_effect_trans].
  - destruct Ho as (Hg2 & _ & Hs2).
    destruct (disable_attempt w2 w0 ifindex Hg2 (same_effect_trans _ _ _ Hs Hs2)) as (r & w' & Hrun & Hres).
    exists r, w'. split; [|done]. unfold mbind, st_bind.
    by destruct (update_limit _ _ _ w2) as [[e|] w3].
Qed.

Lemma disable_upstream_run w ifindex :
  0 < ifindex -> fd_known w ->
  exists r w', bpf_disable_upstream ifindex w = (r, w') /\ disable_result w w' ifindex r.
Proof.
  intros Hi Hfd. unfold bpf_disable_upstream. rewrite (proj2 (Z.leb_gt _ _)) by done.
  pose proof (ensure_limit_effect w Hfd) as He. unfold mbind at 1, st_bind at 1.
  destruct (ensure_limit_fd w) as [[e|] w1].
  { destruct He as [Ho Hs]. eexists _, _. split; [reflexivity|]. right. exists e.
    split; [|by left]. split_and!; [done|apply errno_not_ok, Ho|done]. }
  destruct He as [[Hg|Hc] Hs]; unfold mbind at 1, st_bind at 1.
  - pose proof (disable_attempt w1 w ifindex Hg Hs) as Ha.
    destruct (update_limit_good w1 (u32 ifindex) BPF_LIMIT_ZERO BPF_EXIST Hg)
      as [(w2 & Hu & _)|(e1 & _ & Hu)]; rewrite Hu in *; [exact Ha|].
    destruct (e1 =? EBADF); [by apply disable_again|exact Ha].
  - rewrite update_limit_badf by done. change (EBADF =? EBADF) with true. cbv iota. by apply disable_again.
Qed.
End calls.

(** ** On a map that takes every update *)
Section effects.
Context {K : Type} `{!BpfSys K, !BpfLaws K}.
Implicit Types w : bpf_world K.

Lemma update_limit_exist w key v :
  fd_good w ->
  match lmap w !! key with
  | Some _ => exists w', update_limit key v BPF_EXIST w = (None, w') /\ fd_good w' /\
      bw_s w' = bw_s w /\ lmap w' = <[key := v]> (lmap w) /\ lkeys w' = lkeys w
  | None => update_limit key v BPF_EXIST w = (Some ENOENT, w)
  end.
Proof.
  intros Hfd. unfold update_limit, mbind, st_bind, get_s, st_get, call_k, lmap, lkeys, fd_good in *.
  destruct (limit_map (bw_k w) !! key) as [v0|] eqn:E.
  - destruct (update_exist (bw_k w) _ key v v0 Hfd E) as (k' & -> & Hm & Hk & Hf). eauto 10.
  - rewrite update_absent by done. by destruct w.
Qed.

Lemma bpf_disable_upstream_effect w ifindex :
  0 < ifindex -> fd_known w ->
  exists r w', bpf_disable_upstream ifindex w = (r, w') /\
    (r = OFFLOAD_OK /\ upstream_done w w' ifindex BPF_LIMIT_ZERO (disabled_set_add ifindex) \/
     exists e, upstream_failed w w' r e /\ (open_fails w e \/ lmap w !! u32 ifindex = None)).
Proof.
  intros Hi Hfd. destruct (disable_upstream_run w ifindex Hi Hfd) as (r & w' & Hrun & Hres).
  exists r, w'. split; [done|]. destruct Hres as [?|(e & Hf & Hres)]; [by left|]. right. exists e. split; [done|].
  destruct Hres as [?|[Hg Hres]]; [by left|]. right. destruct Hf as (_ & _ & Hm & _). rewrite <- Hm.
  pose proof (update_limit_exist w' (u32 ifindex) BPF_LIMIT_ZERO Hg) as Hu.
  destruct (lmap w' !! u32 ifindex); [|done]. destruct Hu as (w2 & Hu & _). rewrite Hu in Hres. naive_solver.
Qed.

(** Restoring one upstream: an absent entry counts as restored. *)
Lemma restore_attempt w w0 ifindex :
  fd_good w -> same_effect w0 w ->
  exists w', (r0 ← update_limit (u32 ifindex) BPF_LIMIT_NONE BPF_EXIST;
                match r0 with
                | None => remove_disabled ifindex
                | Some e => restore_absent ifindex e
                end) w = (OFFLOAD_OK, w') /\
    lmap w' = alter (fun _ => BPF_LIMIT_NONE) (u32 ifindex) (lmap w0) /\
    bs_disabled (bw_s w') = disabled_set_remove ifindex (bs_disabled (bw_s w0)).
Proof.
  intros Hfd (S1 & S2 & S3 & S4 & S5). pose proof (update_limit_exist w (u32 ifindex) BPF_LIMIT_NONE Hfd) as Hu.
  unfold mbind, st_bind. destruct (lmap w !! u32 ifindex) as [v|] eqn:Hk.
  - destruct Hu as (w1 & -> & Hg & Hb & Hm & _). eexists. split; [reflexivity|].
    unfold lmap in *. cbn. rewrite Hb, Hm, S3, <- S1. split; [|done].
    apply map_eq. intros i. destruct (decide (i = u32 ifindex)) as [->|].
    + by rewrite lookup_insert_eq, lookup_alter_eq, Hk.
    + by rewrite lookup_insert_ne, lookup_alter_ne.
  - rewrite Hu. eexists. split; [reflexivity|]. unfold lmap in *. cbn. rewrite S1, S3 in *.
    split; [|done]. apply map_eq. intros i. destruct (decide (i = u32 ifindex)) as [->|].
    + by rewrite lookup_alter_eq, Hk.
    + by rewrite lookup_alter_ne.
Qed.

(** With a working descriptor a restore always succeeds. *)
Lemma bpf_restore_good w ifindex :
  fd_good w -> 0 <= bs_fd_limit (bw_s w) -> 0 < ifindex ->
  exists w', bpf_restore_upstream ifindex w = (OFFLOAD_OK, w') /\
    lmap w' = alter (fun _ => BPF_LIMIT_NONE) (u32 ifindex) (lmap w) /\
    bs_disabled (bw_s w') = disabled_set_remove ifindex (bs_disabled (bw_s w)).
Proof.
  intros Hg Hfd Hi. destruct (restore_attempt w w ifindex Hg (same_effect_refl w)) as (w' & Hr & Hm & Hd).
  exists w'. split; [|done].
  unfold bpf_restore_upstream. rewrite (proj2 (Z.leb_gt _ _)) by done.
  unfold mbind at 1, st_bind at 1.
  assert (He : ensure_limit_fd w = (None, w)).
  { unfold ensure_limit_fd, mbind, st_bind, get_s, st_get, mret, st_ret.
    by rewrite (proj2 (Z.leb_le _ _)) by done. }
  rewrite He. pose proof (update_limit_exist w (u32 ifindex) BPF_LIMIT_NONE Hg) as Hu.
  unfold mbind, st_bind in *. destruct (lmap w !! u32 ifindex).
  - destruct Hu as (w3 & Hu & _). by rewrite Hu in *.
  - by rewrite Hu in *.
Qed.

(** ** The sweeps *)
Lemma sweep_loop val on_ok w fuel done rest wd :
  lkeys w = done ++ rest -> (length rest < fuel)%nat ->
  fd_good wd -> lkeys wd = lkeys w ->
  (forall i, lmap wd !! i = if decide (i ∈ done) then Some val else lmap w !! i) ->
  bw_s wd = set_disabled (fold_left (fun l key => on_ok (s32 key) l) done (bs_disabled (bw_s w)))
              (bw_s w) ->
  exists w', loop (sweep_step val on_ok) fuel (Sweep (last done) (length done) 0 0 wd)
      = Some (Sweep (last (lkeys w)) (length (lkeys w)) 0 0 w') /\
    (forall i, lmap w' !! i = if decide (i ∈ lkeys w) then Some val else lmap w !! i) /\
    lkeys w' = lkeys w /\
    bw_s w' = set_disabled (fold_left (fun l key => on_ok (s32 key) l) (lkeys w) (bs_disabled (bw_s w)))
                (bw_s w) /\ fd_good w'.
Proof.
  revert done wd fuel. induction rest as [|key rest IH]; intros done wd fuel Hkeys Hfuel Hfd Hk Hm Hs;
    (destruct fuel as [|fuel]; [simpl in Hfuel; lia|]); rewrite loop_S; unfold sweep_step at 1;
    cbn [sw_world sw_prev sw_touched sw_errs sw_iter_errno].
  - rewrite (next_key_order _ _ done []); [|done|by rewrite <- Hkeys].
    cbn [Z.eqb]. change (ENOENT =? ENOENT) with true. cbv iota.
    rewrite app_nil_r in Hkeys. rewrite Hkeys. exists wd.
    split_and!; try done; congruence.
  - rewrite (next_key_order _ _ done (key :: rest)); [|done|by rewrite <- Hkeys].
    destruct (limit_keys_spec (bw_k wd)) as [Hnd Hdom].
    assert (Hin : key ∈ lkeys wd) by (rewrite Hk, Hkeys; set_solver).
    apply Hdom in Hin as [v0 Hv0].
    destruct (update_exist (bw_k wd) _ key val v0 Hfd Hv0) as (k' & Hu & Hm' & Hk' & Hf').
    rewrite Hu. cbv iota.
    set (wd' := BpfWorld (set_disabled (on_ok (s32 key) (bs_disabled (bw_s wd))) (bw_s wd)) k').
    destruct (IH (done ++ [key]) wd' fuel) as (w' & Hl & Hres).
    + by rewrite Hkeys, <- app_assoc.
    + simpl in Hfuel. lia.
    + done.
    + unfold lkeys, wd' in *. cbn. congruence.
    + intros i. unfold lmap, wd'. cbn. rewrite Hm'. destruct (decide (i = key)) as [->|Hne].
      * rewrite lookup_insert_eq, decide_True; [done|set_solver].
      * rewrite lookup_insert_ne by done. fold (lmap wd). rewrite Hm.
        repeat case_decide; set_solver.
    + unfold wd'. cbn. rewrite fold_left_app. cbn. by rewrite Hs.
    + exists w'. rewrite last_snoc, length_app, Nat.add_1_r in Hl. by split.
Qed.

Lemma sweep_limit_effect val on_ok w :
  fd_good w ->
  exists w', sweep_limit val on_ok w
      = Sweep (last (lkeys w)) (length (lkeys w)) 0 0 w' /\
    lmap w' = (fun _ => val) <$> lmap w /\ lkeys w' = lkeys w /\
    bw_s w' = set_disabled (fold_left (fun l key => on_ok (s32 key) l) (lkeys w) (bs_disabled (bw_s w)))
                (bw_s w) /\ fd_good w'.
Proof.
  intros Hfd. unfold sweep_limit.
  destruct (sweep_loop val on_ok w (sys_map_steps (bw_k w)) [] (lkeys w) w)
    as (w' & Hl & Hm & Hk & Hs & Hf); try done.
  - apply limit_steps.
  - destruct w as [[] k]. done.
  - exists w'. cbn in Hl. rewrite Hl. cbn. split_and!; try done.
    apply map_eq. intros i. rewrite Hm, lookup_fmap.
    destruct (limit_keys_spec (bw_k w)) as [_ Hdom]. fold (lkeys w) (lmap w) in Hdom.
    case_decide as Hi.
    + apply Hdom in Hi as [v ->]. done.
    + destruct (lmap w !! i) eqn:E; [|done]. destruct Hi. apply Hdom. eauto.
Qed.

(** When the descriptor works, making sure of it changes nothing. *)
Lemma ensure_limit_good w :
  0 <= bs_fd_limit (bw_s w) -> ensure_limit_fd w = (None, w).
Proof.
  intros H. unfold ensure_limit_fd, mbind, st_bind, get_s, st_get, mret, st_ret.
  by rewrite (proj2 (Z.leb_le _ _)) by done.
Qed.

(** The descriptor the global operations sweep with. *)
Definition fd_ready w : Prop := bs_fd_limit (bw_s w) < 0 \/ fd_good w.

Lemma ensure_limit_ready w :
  fd_ready w ->
  match ensure_limit_fd w with
  | (None, w') => fd_good w' /\ same_effect w w'
  | (Some e, w') => open_fails w e /\ same_effect w w'
  end.
Proof.
  intros Hfd. pose proof (reopen_limit_effect w) as Hr.
  unfold ensure_limit_fd, mbind, st_bind, get_s, st_get, mret, st_ret.
  destruct (0 <=? bs_fd_limit (bw_s w)) eqn:E; bool_simpl.
  - split; [|done]. destruct Hfd; [lia|done].
  - destruct (reopen_limit w) as [[e|] w']; destruct_and!; auto.
Qed.

Lemma fold_add_elem keys l x :
  x ∈ fold_left (fun l key => disabled_set_add (s32 key) l) keys l ->
  x ∈ l \/ x ∈ (s32 <$> keys).
Proof.
  revert l. induction keys as [|k keys IH]; intros l; simpl; [auto|].
  intros [H|H]%IH; [|set_solver]. apply disabled_set_add_elem in H. set_solver.
Qed.

Lemma fold_add_mono keys l x :
  x ∈ l -> x ∈ fold_left (fun l key => disabled_set_add (s32 key) l) keys l.
Proof.
  revert l. induction keys as [|k keys IH]; intros l Hx; simpl; [done|].
  apply IH. apply disabled_set_add_elem. auto.
Qed.

Lemma disabled_set_add_length x l : (length (disabled_set_add x l) <= S (length l))%nat.
Proof. unfold disabled_set_add. repeat case_goal; rewrite ?length_app; simpl; lia. Qed.

Lemma fold_add_all keys l x :
  (length l + length keys <= MAX_DISABLED_UPSTREAMS)%nat -> x ∈ (s32 <$> keys) ->
  x ∈ fold_left (fun l key => disabled_set_add (s32 key) l) keys l.
Proof.
  revert l. induction keys as [|k keys IH]; intros l Hlen; simpl in *; [by intros ?%elem_of_nil|].
  intros [->|Hx]%elem_of_cons.
  - apply fold_add_mono, disabled_set_add_elem. right. split; [done|]. right. lia.
  - apply IH; [|done]. pose proof (disabled_set_add_length (s32 k) l). lia.
Qed.
End effects.

(** ** Properties *)


(** Disabling an upstream that was not disabled and restoring it again
    always succeeds and gives back the adapter's records; the kernel's map is as
    before except that the entry of the upstream has the unlimited quota. *)
Lemma bpf_disable_restore_upstream {K} `{!BpfSys K, !BpfLaws K} (w w1 : bpf_world K) (ifindex : Z) :
  fd_known w -> 0 < ifindex -> ifindex ∉ bs_disabled (bw_s w) ->
  (length (bs_disabled (bw_s w)) < MAX_DISABLED_UPSTREAMS)%nat ->
  bpf_disable_upstream ifindex w = (OFFLOAD_OK, w1) -> 0 <= bs_fd_limit (bw_s w1) ->
  exists w2, bpf_restore_upstream ifindex w1 = (OFFLOAD_OK, w2) /\
    lmap w2 = <[u32 ifindex := BPF_LIMIT_NONE]> (lmap w) /\
    bs_disabled (bw_s w2) = bs_disabled (bw_s w).
Proof.
  intros Hfd Hi Hnotin Hroom Hrun Hfd1.
  destruct (bpf_disable_upstream_effect w ifindex Hi Hfd) as (r & w' & Hrun' & Hres).
  rewrite Hrun in Hrun'. injection Hrun' as <- <-.
  destruct Hres as [[_ (Hm & Hd & _ & Hg)]|(e & (_ & Hne & _) & _)]; [|done].
  destruct (bpf_restore_good w1 ifindex Hg Hfd1 Hi) as (w2 & Hr & Hm2 & Hd2).
  exists w2. split_and!; [exact Hr|..].
  - rewrite Hm2, Hm. apply map_eq. intros i. destruct (decide (i = u32 ifindex)) as [->|].
    + by rewrite lookup_alter_eq, !lookup_insert_eq.
    + by rewrite lookup_alter_ne, !lookup_insert_ne.
  - rewrite Hd2, Hd. unfold disabled_set_add.
    destruct (disabled_set_contains ifindex (bs_disabled (bw_s w))) eqn:Ec.
    { apply disabled_set_contains_spec in Ec. done. }
    rewrite (proj2 (Nat.leb_gt _ _)) by done. unfold disabled_set_remove.
    replace (find_idx (Z.eqb ifindex) (bs_disabled (bw_s w) ++ [ifindex]))
      with (Some (length (bs_disabled (bw_s w)))).
    + unfold swap_remove. rewrite last_snoc, length_app. cbn [length].
      rewrite list_insert_id by by rewrite lookup_app_r, Nat.sub_diag.
      rewrite Nat.add_sub. by rewrite take_app_length.
    + symmetry. apply find_idx_Some. exists ifindex. split_and!; [|apply Z.eqb_refl|].
      * by rewrite lookup_app_r, Nat.sub_diag.
      * intros j y Hj Hlt. rewrite lookup_app_l in Hj by done. apply Z.eqb_neq. intros ->.
        by apply list_elem_of_lookup_2 in Hj.
Qed.

(** C5: [bpf_disable_global] sets every entry of the kernel's limit map to 0.
    When the descriptor works or can be opened it returns [OFFLOAD_OK], no key
    appears or disappears, the records only grow by swept interfaces and hold all of them when they fit, and the
    global flag is raised exactly when the map was not empty. *)
Theorem bpf_disable_global_spec {K} `{!BpfSys K, !BpfLaws K} (w : bpf_world K) :
  fd_ready w -> limit_pinned (bw_k w) ->
  exists w', bpf_disable_global w = (OFFLOAD_OK, w') /\
    lmap w' = (fun _ => BPF_LIMIT_ZERO) <$> lmap w /\ lkeys w' = lkeys w /\ fd_good w' /\
    (forall x, x ∈ bs_disabled (bw_s w') ->
       x ∈ bs_disabled (bw_s w) \/ x ∈ (s32 <$> lkeys w)) /\
    (forall x, (length (bs_disabled (bw_s w)) + length (lkeys w) <= MAX_DISABLED_UPSTREAMS)%nat ->
       x ∈ (s32 <$> lkeys w) -> x ∈ bs_disabled (bw_s w')) /\
    bs_globally_disabled (bw_s w')
      = (negb (bool_decide (lkeys w = [])) || bs_globally_disabled (bw_s w)).
Proof.
  intros Hfd Hopen. unfold bpf_disable_global, mbind at 1, st_bind at 1.
  pose proof (ensure_limit_ready w Hfd) as He. destruct (ensure_limit_fd w) as [[e|] w1].
  { destruct He as [Ho _]. by destruct Ho as [_ []]. }
  destruct He as [Hg (S1 & S2 & S3 & S4 & S5)].
  destruct (sweep_limit_effect BPF_LIMIT_ZERO disabled_set_add w1 Hg)
    as (w2 & -> & Hm & Hk & Hs & Hg2).
  eexists. split; [reflexivity|]. cbn [sw_world sw_touched sw_errs].
  unfold lmap, lkeys, fd_good in *. cbn. rewrite Hm, Hk, Hs, <- S1, <- S2, <- S3, <- S4. cbn.
  rewrite Hs in Hg2. split_and!; try done.
  - intros x. apply fold_add_elem.
  - intros x. apply fold_add_all.
  - destruct (limit_keys (bw_k w1)); done.
Qed.

(** A global disable followed by a global restore leaves no trace in the
    adapter and lifts every quota: all entries of the map are unlimited, the set
    of disabled upstreams is empty and the global flag is down, whatever was
    disabled before. *)
Lemma bpf_global_roundtrip {K} `{!BpfSys K, !BpfLaws K} (w : bpf_world K) :
  fd_good w -> 0 <= bs_fd_limit (bw_s w) ->
  exists w1 w2, bpf_disable_global w = (OFFLOAD_OK, w1) /\
    bpf_restore_global w1 = (OFFLOAD_OK, w2) /\
    lmap w2 = (fun _ => BPF_LIMIT_NONE) <$> lmap w /\ lkeys w2 = lkeys w /\
    bs_disabled (bw_s w2) = [] /\ bs_globally_disabled (bw_s w2) = false.
Proof.
  intros Hg Hfd. unfold bpf_disable_global, mbind at 1, st_bind at 1.
  rewrite ensure_limit_good by done.
  destruct (sweep_limit_effect BPF_LIMIT_ZERO disabled_set_add w Hg) as (w1 & -> & Hm & Hk & Hs & Hg1).
  cbn [sw_world sw_touched sw_errs].
  match goal with |- exists _ _, (_, ?x) = _ /\ _ => set (w1' := x); exists w1' end.
  unfold bpf_restore_global, mbind at 1, st_bind at 1.
  assert (Hfd1 : bs_fd_limit (bw_s w1') = bs_fd_limit (bw_s w)) by (unfold w1'; cbn; by rewrite Hs).
  assert (Hg1' : fd_good w1') by exact Hg1.
  destruct (sweep_limit_effect BPF_LIMIT_NONE disabled_set_remove w1' Hg1')
    as (w2 & Hsw & Hm2 & Hk2 & Hs2 & Hg2).
  eexists. split_and!; [reflexivity|rewrite ensure_limit_good by (rewrite Hfd1; lia); rewrite Hsw; reflexivity|..].
  - unfold lmap in *. cbn. rewrite Hm2. unfold w1'. cbn. rewrite Hm.
    apply map_eq. intros i. rewrite !lookup_fmap. by destruct (_ !! i).
  - unfold lkeys in *. cbn. rewrite Hk2. exact Hk.
  - done.
  - done.
Qed.

(** The global operations do not repair a descriptor that was closed behind
    the adapter's back: both fail with [OFFLOAD_EINTERNAL] and leave the adapter and the
    kernel exactly as they are, so they fail again at every later call, while a disable
    of one upstream repairs the descriptor unless the map cannot be opened. *)
Lemma bpf_global_stale_fd {K} `{!BpfSys K, !BpfLaws K} (w : bpf_world K) (ifindex : Z) :
  0 <= bs_fd_limit (bw_s w) -> fd_closed (bw_k w) (bs_fd_limit (bw_s w)) ->
  bpf_disable_global w = (OFFLOAD_EINTERNAL, w) /\
  bpf_restore_global w = (OFFLOAD_EINTERNAL, w) /\
  (limit_pinned (bw_k w) -> 0 < ifindex -> is_Some (lmap w !! u32 ifindex) ->
   exists w', bpf_disable_upstream ifindex w = (OFFLOAD_OK, w') /\ fd_good w').
Proof.
  intros Hfd Hc.
  assert (Hsweep : forall val on_ok, sweep_limit val on_ok w = Sweep None 0 1 EBADF w).
  { intros val on_ok. unfold sweep_limit.
    pose proof (limit_steps (bw_k w)) as Hst. destruct (sys_map_steps (bw_k w)); [lia|].
    rewrite loop_S. unfold sweep_step at 1. cbn. by rewrite next_key_badf. }
  split_and!.
  - unfold bpf_disable_global, mbind, st_bind. rewrite ensure_limit_good, Hsweep by done.
    by destruct w as [[] k].
  - unfold bpf_restore_global, mbind, st_bind. rewrite ensure_limit_good, Hsweep by done.
    by destruct w as [[] k].
  - intros Hopen Hi [v Hv].
    destruct (bpf_disable_upstream_effect w ifindex Hi) as (r & w' & Hrun & Hres).
    { right. by right. }
    destruct Hres as [[-> (_ & _ & _ & Hg)]|(e & _ & [[_ []]|Hn])]; [|done|congruence].
    by exists w'.
Qed.

(** ** Witnesses on the concrete kernel *)
Definition kern0 : kern := Kern {[5 := BPF_LIMIT_NONE; 7 := 3]} ∅ true ∅ 0.
Definition world0 : bpf_world kern := BpfWorld bpf_state_init kern0.
Definition world_open : bpf_world kern := (bpf_init world0).2.
(** The descriptors are closed behind the adapter's back. *)
Definition world_stale : bpf_world kern :=
  BpfWorld (bw_s world_open) (Kern (kk_limit kern0) ∅ true ∅ 0).

(** The same state over a map that was frozen. *)
Definition world_frozen : bpf_world frozen := BpfWorld bpf_state_init (Frozen kern0).
Lemma disable_frozen :
  (bpf_disable_upstream 5 world_frozen).1 = OFFLOAD_EPERM /\
  bs_disabled (bw_s (bpf_disable_upstream 5 world_frozen).2) = [].
Proof. by vm_compute. Qed.


Lemma bpf_disable_restore_upstream_witness :
  exists w2, bpf_restore_upstream 9 (bpf_disable_upstream 9 world_stale).2 = (OFFLOAD_OK, w2) /\
    lmap w2 = <[u32 9 := BPF_LIMIT_NONE]> (lmap world_stale) /\
    bs_disabled (bw_s w2) = bs_disabled (bw_s world_stale).
Proof.
  apply (bpf_disable_restore_upstream world_stale _ 9).
  - right. right. by vm_compute.
  - lia.
  - vm_compute. by intros ?%elem_of_nil.
  - vm_compute. lia.
  - vm_compute. reflexivity.
  - vm_compute. discriminate.
Defined.

Lemma bpf_disable_global_spec_witness :
  exists w', bpf_disable_global world0 = (OFFLOAD_OK, w') /\
    lmap w' = (fun _ => BPF_LIMIT_ZERO) <$> lmap world0 /\ lkeys w' = lkeys world0 /\ fd_good w' /\
    (forall x, x ∈ bs_disabled (bw_s w') ->
       x ∈ bs_disabled (bw_s world0) \/ x ∈ (s32 <$> lkeys world0)) /\
    (forall x, (length (bs_disabled (bw_s world0)) + length (lkeys world0)
                <= MAX_DISABLED_UPSTREAMS)%nat ->
       x ∈ (s32 <$> lkeys world0) -> x ∈ bs_disabled (bw_s w')) /\
    bs_globally_disabled (bw_s w')
      = (negb (bool_decide (lkeys world0 = [])) || bs_globally_disabled (bw_s world0)).
Proof. apply (bpf_disable_global_spec world0); [left; by vm_compute|by vm_compute]. Defined.

Lemma bpf_global_roundtrip_witness :
  exists w1 w2, bpf_disable_global world_open = (OFFLOAD_OK, w1) /\
    bpf_restore_global w1 = (OFFLOAD_OK, w2) /\
    lmap w2 = (fun _ => BPF_LIMIT_NONE) <$> lmap world_open /\ lkeys w2 = lkeys world_open /\
    bs_disabled (bw_s w2) = [] /\ bs_globally_disabled (bw_s w2) = false.
Proof. apply (bpf_global_roundtrip world_open); [by vm_compute|vm_compute; discriminate]. Defined.

Lemma bpf_global_stale_fd_witness :
  bpf_disable_global world_stale = (OFFLOAD_EINTERNAL, world_stale) /\
  bpf_restore_global world_stale = (OFFLOAD_EINTERNAL, world_stale) /\
  (limit_pinned (bw_k world_stale) -> 0 < 5 -> is_Some (lmap world_stale !! u32 5) ->
   exists w', bpf_disable_upstream 5 world_stale = (OFFLOAD_OK, w') /\ fd_good w').
Proof. apply (bpf_global_stale_fd world_stale 5); [vm_compute; discriminate|by vm_compute]. Defined.
