(* ===== verification/BpfFrame.v ===== *)
(** * What every operation of the BPF adapter leaves alone

    The adapter acts on the kernel through a few system calls only; a preorder on the
    kernel that these calls respect is respected by every operation. *)
From S2P Require Import Prelude CStr Offload BpfAdapter.
Local Open Scope Z_scope.

Section frame.
Context {K : Type} `{!BpfSys K} (R : K -> K -> Prop) `{!PreOrder R}.
Hypothesis R_open : forall path k, R k (sys_obj_get path k).2.
Hypothesis R_close : forall fd k, R k (sys_close fd k).
Hypothesis R_update : forall fd key v flags k, R k (sys_update fd key v flags k).2.
Hypothesis R_sleep : forall d k, R k (sys_sleep d k).

Definition framed {A} (m : st (bpf_world K) A) : Prop := forall w, R (bw_k w) (bw_k (m w).2).

Lemma framed_ret {A} (x : A) : framed (mret x).
Proof using PreOrder0. by intros w. Qed.
Lemma framed_get {A} (f : bpf_world K -> A) : framed (st_get f).
Proof using PreOrder0. by intros w. Qed.
Lemma framed_modify f : framed (modify_s f).
Proof using PreOrder0. by intros w. Qed.
Lemma framed_bind {A B} (m : st (bpf_world K) A) (f : A -> st (bpf_world K) B) :
  framed m -> (forall x, framed (f x)) -> framed (m ≫= f).
Proof using PreOrder0.
  intros Hm Hf w. unfold mbind, st_bind. specialize (Hm w). destruct (m w) as [x w1].
  etransitivity; [exact Hm|apply Hf].
Qed.
Lemma framed_call {A} (m : st K A) : (forall k, R k (m k).2) -> framed (call_k m).
Proof using Type. intros Hm w. unfold call_k. specialize (Hm (bw_k w)). by destruct (m (bw_k w)). Qed.

Local Ltac framed_step :=
  first [ apply framed_bind; [|intros ?] | apply framed_ret | apply framed_get | apply framed_modify
        | apply framed_call; intros ?; eauto | case_match ].
Local Ltac framed_op := repeat framed_step.

Lemma framed_init : framed bpf_init.
Proof using All. unfold bpf_init, ensure_stats_fd. framed_op. Qed.
Lemma framed_shutdown : framed bpf_shutdown.
Proof using All. unfold bpf_shutdown, close_fd. framed_op. Qed.
Lemma framed_self_check : framed bpf_self_check.
Proof using All. unfold bpf_self_check. framed_op. Qed.
Lemma framed_refresh : framed bpf_refresh_active.
Proof using All. unfold bpf_refresh_active, refresh_first, refresh_second. framed_op. Qed.

Lemma framed_disable_upstream n : framed (bpf_disable_upstream n).
Proof using All. unfold bpf_disable_upstream, disable_absent, add_disabled, reopen_limit. framed_op. Qed.
Lemma framed_restore_upstream n : framed (bpf_restore_upstream n).
Proof using All. unfold bpf_restore_upstream, restore_absent, remove_disabled, reopen_limit. framed_op. Qed.

Lemma framed_sweep val on_ok w : R (bw_k w) (bw_k (sw_world (sweep_limit val on_ok w))).
Proof using PreOrder0 R_update.
  unfold sweep_limit. destruct (loop _ _ _) as [r|] eqn:E; [|by cbn].
  revert E. apply (loop_inv (sweep_step val on_ok) (fun x => R (bw_k w) (bw_k (sw_world x)))
                     (fun x => R (bw_k w) (bw_k (sw_world x)))); [| |by cbn].
  - intros x x' Hx. unfold sweep_step. destruct (sys_next_key _ _ _) as [key|y]; [|by case_match].
    pose proof (R_update (bs_fd_limit (bw_s (sw_world x))) key val BPF_EXIST (bw_k (sw_world x))) as Hu.
    destruct (sys_update _ _ _ _ _) as [r' k']. by destruct r'; intros [= <-]; (etransitivity; [exact Hx|]).
  - intros x x' Hx. unfold sweep_step. destruct (sys_next_key _ _ _) as [key|y].
    + destruct (sys_update _ _ _ _ _) as [[?|] k']; done.
    + case_match; intros [= <-]; done.
Qed.
Lemma framed_disable_global : framed bpf_disable_global.
Proof using All.
  unfold bpf_disable_global. framed_op. intros w. apply framed_sweep.
Qed.
Lemma framed_restore_global : framed bpf_restore_global.
Proof using All.
  unfold bpf_restore_global. framed_op. intros w. apply framed_sweep.
Qed.
End frame.
