(* ===== verification/BpfEffects.v ===== *)
(** * What the BPF adapter leaves ready

    Effects of the adapter's operations that its clients need: none of them unpins the limit
    map or loses a descriptor that works, and those that do not switch anything leave the map
    as it is. *)
From S2P Require Import Prelude CStr Offload BpfAdapter BpfFrame BpfKernel BpfSpec.
Local Open Scope Z_scope.

(** Opening any pinned object leaves the limit map and the open descriptors alone, and a
    map that may be opened can be seen by [stat]; neither does time. *)
Class BpfOpens (K : Type) `{!BpfSys K, !BpfLaws K} := {
  open_other k path :
    let k' := (sys_obj_get path k).2 in
    limit_map k' = limit_map k /\ limit_keys k' = limit_keys k /\ (limit_pinned k' <-> limit_pinned k) /\
    forall fd, limit_fd k fd -> limit_fd k' fd;
  update_pinned k fd key v flags : limit_pinned (sys_update fd key v flags k).2 <-> limit_pinned k;
  stat_limit k : limit_pinned k -> sys_stat_ok BPF_LIMIT_MAP k = true;
  sleep_limit d k :
    let k' := sys_sleep d k in
    limit_map k' = limit_map k /\ (limit_pinned k' <-> limit_pinned k) /\
    forall fd, limit_fd k fd -> limit_fd k' fd
}.

#[export] Instance kern_opens : BpfOpens kern.
Proof.
  constructor; [| |done|done].
  2:{ intros k fd key v flags. cbn. repeat case_match; simplify_eq/=; done. }
  intros k path. cbn. unfold kk_open. destruct (kk_pinned k) eqn:E; cbn; [|by rewrite E].
  split_and!; [done..|]. intros fd. unfold kk_file. cbn. destruct (0 <=? fd) eqn:Ef; [|done].
  intros Hf. rewrite lookup_insert_ne; [done|].
  intros Heq. assert (Hin : Z.to_N fd ∈ dom (kk_fds k)) by (apply elem_of_dom; by eexists).
  rewrite <- Heq in Hin. by apply is_fresh in Hin.
Defined.

Section effects.
Context {K : Type} `{!BpfSys K, !BpfLaws K, !BpfOpens K}.
Implicit Types w : bpf_world K.

(** A new process. *)
Definition process (k : K) : bpf_world K := BpfWorld bpf_state_init k.
Lemma bpf_init_effect k :
  limit_pinned k ->
  exists w, bpf_init (process k) = (OFFLOAD_OK, w) /\ fd_good w /\ 0 <= bs_fd_limit (bw_s w) /\
    same_effect (process k) w.
Proof.
  intros Hp. assert (He : bpf_init (process k) =
    (let '(e, w) := reopen_limit (process k) in
     match e with
     | Some e => (errno_to_offload e, w)
     | None => (ensure_stats_fd;; r ← call_k (sys_obj_get BPF_ERROR_MAP);
                modify_s (set_fd_error (match r with inl fd => fd | inr _ => -1 end));;
                modify_s (set_initialized true);; mret OFFLOAD_OK) w
     end)).
  { unfold bpf_init, ensure_limit_fd, mbind, st_bind, get_s, st_get, mret, st_ret. cbn [process bw_s bs_initialized
      bs_fd_limit bpf_state_init Z.leb]. change (0 <=? -1) with false. cbv iota beta.
    by destruct (reopen_limit _) as [[?|] ?]. }
  rewrite He. clear He.
  pose proof (reopen_limit_effect (process k)) as Hr. destruct (reopen_limit (process k)) as [[x|] w1].
  { destruct Hr as [[_ []] _]. exact Hp. }
  destruct Hr as (Hg & Hfd & Hs). unfold ensure_stats_fd, reopen_fd, mbind, st_bind, get_s, st_get, call_k, modify_s,
    st_mod, mret, st_ret.
  assert (Hopen : forall w path, fd_good w -> same_effect (process k) w ->
    let w' := BpfWorld (bw_s w) (sys_obj_get path (bw_k w)).2 in fd_good w' /\ same_effect (process k) w').
  { intros w path Hgw (S1 & S2 & S3 & S4 & S5). pose proof (open_other (bw_k w) path) as (H1 & H2 & H3 & H4).
    unfold fd_good, same_effect, lmap, lkeys in *. cbn. split; [by apply H4|].
    cbn in S1, S2, S3, S4, S5. split_and!; try congruence; tauto. }
  destruct (0 <=? bs_fd_stats (bw_s w1)) eqn:Est.
  - destruct (Hopen w1 BPF_ERROR_MAP Hg Hs) as [H1 H2]. cbn.
    destruct (sys_obj_get BPF_ERROR_MAP (bw_k w1)) as [r k1]. cbn in *. by eexists; split_and!.
  - destruct (Hopen w1 BPF_STATS_MAP Hg Hs) as [H1 H2]. cbn. rewrite ?Est.
    destruct (sys_obj_get BPF_STATS_MAP (bw_k w1)) as [[fd|x] k1]; cbn in *.
    + destruct (Hopen _ BPF_ERROR_MAP H1 H2) as [H3 H4]. cbn in *.
      destruct (sys_obj_get BPF_ERROR_MAP k1) as [r k2]. cbn in *. by eexists; split_and!.
    + destruct (Hopen _ BPF_ERROR_MAP H1 H2) as [H3 H4]. cbn in *.
      destruct (sys_obj_get BPF_ERROR_MAP k1) as [r k2]. cbn in *. by eexists; split_and!.
Qed.

Lemma bpf_shutdown_effect w :
  let k' := bw_k (bpf_shutdown w).2 in
  limit_map k' = lmap w /\ (limit_pinned k' <-> limit_pinned (bw_k w)).
Proof.
  assert (Hc : forall get set v, let v' := (close_fd get set v).2 in
    lmap v' = lmap v /\ (limit_pinned (bw_k v') <-> limit_pinned (bw_k v))).
  { intros get set v. unfold close_fd, mbind, st_bind, get_s, st_get, call_k, modify_s, st_mod, mret, st_ret, lmap.
    destruct (0 <=? get (bw_s v)); [|done]. cbn. destruct (close_limit (bw_k v) (get (bw_s v))) as (-> & _ & ?). done. }
  unfold bpf_shutdown, mbind, st_bind, get_s, st_get, mret, st_ret. cbn beta iota.
  destruct (bs_initialized (bw_s w)); [|done]. cbn [negb].
  pose proof (Hc bs_fd_limit set_fd_limit w) as H1. destruct (close_fd bs_fd_limit set_fd_limit w) as [[] w1].
  pose proof (Hc bs_fd_stats set_fd_stats w1) as H2. destruct (close_fd bs_fd_stats set_fd_stats w1) as [[] w2].
  pose proof (Hc bs_fd_error set_fd_error w2) as H3. destruct (close_fd bs_fd_error set_fd_error w2) as [[] w3].
  unfold modify_s, st_mod. cbn in *. unfold lmap in *. destruct H1, H2, H3. split; [congruence|tauto].
Qed.

(** No system call pins or unpins the map, hence no operation of the adapter does. *)
Definition same_pin (k k' : K) : Prop := limit_pinned k' <-> limit_pinned k.
#[local] Instance same_pin_preorder : PreOrder same_pin.
Proof. split; unfold same_pin; red; tauto. Qed.

Lemma pins_disable n w : limit_pinned (bw_k (bpf_disable_upstream n w).2) <-> limit_pinned (bw_k w).
Proof.
  apply (framed_disable_upstream same_pin); unfold same_pin.
  - intros path k. apply open_other.
  - intros fd k. apply close_limit.
  - intros fd key v flags k. apply update_pinned.
  - intros d k. apply sleep_limit.
Qed.

(** ** Readiness *)

(** The map is pinned, and the descriptor is unopened or works. *)
Definition limit_ready w : Prop := fd_ready w /\ limit_pinned (bw_k w).
Definition readies {A} (m : st (bpf_world K) A) : Prop := forall w, limit_ready w -> limit_ready (m w).2.
(** The map keeps its content too. *)
Definition keeps_limits w w' : Prop := lmap w' = lmap w /\ (limit_ready w -> limit_ready w').
Definition gentle {A} (m : st (bpf_world K) A) : Prop := forall w, keeps_limits w (m w).2.

Lemma keeps_limits_refl w : keeps_limits w w.
Proof. done. Qed.
Lemma keeps_limits_trans w1 w2 w3 : keeps_limits w1 w2 -> keeps_limits w2 w3 -> keeps_limits w1 w3.
Proof. intros [H1 H2] [H3 H4]. split; [congruence|auto]. Qed.
Lemma gentle_readies {A} (m : st (bpf_world K) A) : gentle m -> readies m.
Proof. intros H w. apply H. Qed.

Lemma gentle_ret {A} (x : A) : gentle (mret x).
Proof. done. Qed.
Lemma gentle_bind {A B} (m : st (bpf_world K) A) (f : A -> st (bpf_world K) B) :
  gentle m -> (forall x, gentle (f x)) -> gentle (m ≫= f).
Proof.
  intros Hm Hf w. unfold mbind, st_bind. specialize (Hm w). destruct (m w) as [x w1].
  eapply keeps_limits_trans; [exact Hm|apply Hf].
Qed.
Lemma gentle_get {A} (f : bpf_world K -> A) : gentle (st_get f).
Proof. done. Qed.
Lemma gentle_modify f : (forall s, bs_fd_limit (f s) = bs_fd_limit s) -> gentle (modify_s f).
Proof.
  intros Hf w. split; [done|]. unfold limit_ready, fd_ready, fd_good. cbn. by rewrite Hf.
Qed.
(** A system call that neither touches the map nor closes anything. *)
Lemma gentle_call {A} (m : st K A) :
  (forall k, limit_map (m k).2 = limit_map k /\ (limit_pinned (m k).2 <-> limit_pinned k) /\
             forall fd, limit_fd k fd -> limit_fd (m k).2 fd) ->
  gentle (call_k m).
Proof.
  intros Hm w. unfold call_k. specialize (Hm (bw_k w)). destruct (m (bw_k w)) as [x k']. cbn in *.
  destruct Hm as (H1 & H2 & H3). split; [exact H1|]. unfold limit_ready, fd_ready, fd_good. cbn.
  intros [[?|?] ?]; split; auto; tauto.
Qed.
Lemma gentle_open path : gentle (call_k (sys_obj_get path)).
Proof. apply gentle_call. intros k. pose proof (open_other k path) as (? & _ & ? & ?). done. Qed.
Lemma gentle_reopen : gentle reopen_limit.
Proof.
  intros w. pose proof (reopen_limit_effect w) as Hr. destruct (reopen_limit w) as [[x|] w']; cbn [snd].
  - destruct Hr as [[_ Hn] (S1 & _)]. split; [exact S1|]. by intros [_ ?].
  - destruct Hr as (Hg & _ & S1 & _ & _ & _ & S5). split; [exact S1|]. intros [_ ?]. split; [by right|tauto].
Qed.
Lemma gentle_ensure : gentle ensure_limit_fd.
Proof.
  apply gentle_bind; [apply gentle_get|]. intros fd. destruct (0 <=? fd); [apply gentle_ret|apply gentle_reopen].
Qed.
Lemma gentle_ensure_stats : gentle ensure_stats_fd.
Proof.
  intros w. unfold ensure_stats_fd, reopen_fd, mbind at 1, st_bind at 1, get_s at 1, st_get at 1.
  destruct (0 <=? bs_fd_stats (bw_s w)) eqn:E; [done|].
  unfold mbind at 1, st_bind at 1, get_s, st_get. rewrite E. unfold mbind at 1, st_bind at 1, mret at 1, st_ret.
  apply (gentle_bind _ (fun r => match r with inr e => mret (Some e) | inl fd => modify_s (set_fd_stats fd);; mret None end)).
  - apply gentle_open.
  - intros [fd|x]; [|apply gentle_ret]. apply gentle_bind; [by apply gentle_modify|]. intros _. apply gentle_ret.
Qed.

Lemma gentle_self_check : gentle bpf_self_check.
Proof.
  apply gentle_bind; [apply gentle_ensure|]. intros [x|]; [apply gentle_ret|].
  apply gentle_bind; [apply gentle_get|]. intros fd. apply gentle_bind; [apply gentle_get|].
  intros [[? ?]|?]; [destruct (_ || _)|]; apply gentle_ret.
Qed.
Lemma gentle_init : gentle bpf_init.
Proof.
  apply gentle_bind; [apply gentle_get|]. intros [|]; [apply gentle_ret|].
  apply gentle_bind; [apply gentle_ensure|]. intros [x|]; [apply gentle_ret|].
  apply gentle_bind; [apply gentle_ensure_stats|]. intros _. apply gentle_bind; [apply gentle_open|].
  intros r. apply gentle_bind; [by apply gentle_modify|]. intros _.
  apply gentle_bind; [by apply gentle_modify|]. intros _. apply gentle_ret.
Qed.
Lemma gentle_stats_total : gentle stats_total_bytes.
Proof.
  apply gentle_bind; [apply gentle_ensure_stats|]. intros [x|]; [apply gentle_ret|].
  apply gentle_bind; [apply gentle_get|]. intros fd. apply gentle_get.
Qed.
Lemma gentle_refresh : gentle bpf_refresh_active.
Proof.
  apply gentle_bind.
  - apply gentle_bind; [apply gentle_stats_total|]. intros t1. apply gentle_bind; [apply gentle_get|]. intros fd.
    destruct (_ && _); [|apply gentle_ret]. apply gentle_bind; [by apply gentle_modify|]. intros _. apply gentle_ret.
  - intros [t1|]; [|apply gentle_ret]. apply gentle_bind.
    + apply gentle_call. intros k. apply sleep_limit.
    + intros _. apply gentle_bind; [apply gentle_stats_total|]. intros t2. apply gentle_bind; [apply gentle_get|].
      intros now. apply gentle_bind; [by apply gentle_modify|]. intros _. apply gentle_ret.
Qed.

(** After a shutdown the descriptor is unopened. *)
Lemma ready_shutdown : readies bpf_shutdown.
Proof.
  assert (Hc : forall get set w, (forall s, bs_fd_limit (set (-1) s) = -1 \/ bs_fd_limit (set (-1) s) = bs_fd_limit s) ->
    bs_fd_limit (bw_s w) < 0 \/ bs_fd_limit (set (-1) (bw_s w)) = -1 /\ get = bs_fd_limit ->
    bs_fd_limit (bw_s (close_fd get set w).2) < 0).
  { intros get set w Hset Hw. unfold close_fd, mbind, st_bind, get_s, st_get, call_k, modify_s, st_mod, mret, st_ret.
    destruct (0 <=? get (bw_s w)) eqn:E; cbn.
    - destruct Hw as [Hw|[-> _]]; [|lia]. destruct (Hset (bw_s w)) as [->| ->]; lia.
    - destruct Hw as [?|[_ ->]]; bool_simpl; lia. }
  intros w [Hfd Hp]. split; [|by apply bpf_shutdown_effect].
  unfold bpf_shutdown, mbind, st_bind, get_s, st_get. destruct (bs_initialized (bw_s w)); [|done]. cbn [negb].
  left. pose proof (Hc bs_fd_limit set_fd_limit w ltac:(by left) ltac:(by right)) as H1.
  destruct (close_fd bs_fd_limit set_fd_limit w) as [[] w1]. cbn [snd] in H1.
  pose proof (Hc bs_fd_stats set_fd_stats w1 ltac:(by right) ltac:(by left)) as H2.
  destruct (close_fd bs_fd_stats set_fd_stats w1) as [[] w2]. cbn [snd] in H2.
  pose proof (Hc bs_fd_error set_fd_error w2 ltac:(by right) ltac:(by left)) as H3.
  destruct (close_fd bs_fd_error set_fd_error w2) as [[] w3]. exact H3.
Qed.

(** ** Switching *)

(** Switching one upstream off leaves no quota for it, and nothing else changes. *)
Lemma disable_run w n :
  limit_ready w -> 0 < n ->
  exists r w', bpf_disable_upstream n w = (r, w') /\ fd_good w' /\
    (lmap w' = <[u32 n := BPF_LIMIT_ZERO]> (lmap w) \/ lmap w' = lmap w /\ lmap w !! u32 n = None).
Proof.
  intros [Hfd Hp] Hn.
  destruct (disable_upstream_run w n Hn) as (r & w' & Hrun & Hres); [by destruct Hfd; [left|right; left]|].
  exists r, w'. split; [done|]. destruct Hres as [[_ (Hm & _ & _ & Hg)]|(e & (_ & _ & Hm & _) & Hres)]; [by split; [|left]|].
  destruct Hres as [[_ []]|[Hg Hres]]; [done|]. split; [done|]. right. split; [done|]. rewrite <- Hm.
  pose proof (update_limit_exist w' (u32 n) BPF_LIMIT_ZERO Hg) as Hu.
  destruct (lmap w' !! u32 n); [|done]. destruct Hu as (w2 & Hu & _). rewrite Hu in Hres. naive_solver.
Qed.

Lemma disable_effect w n :
  limit_ready w -> 0 < n ->
  let w' := (bpf_disable_upstream n w).2 in
  limit_ready w' /\ default 0 (lmap w' !! u32 n) = 0 /\ forall j, j <> u32 n -> lmap w' !! j = lmap w !! j.
Proof.
  intros Hw Hn. pose proof (pins_disable n w) as Hp. destruct (disable_run w n Hw Hn) as (r & w' & E & Hg & Hm).
  rewrite E in *. cbn [snd] in *. split; [split; [by right|by apply Hp, Hw]|].
  destruct Hm as [->|[-> Hn0]].
  - split; [by rewrite lookup_insert_eq|]. intros j Hj. by rewrite lookup_insert_ne by congruence.
  - by rewrite Hn0.
Qed.

Lemma sweep_pinned val on_ok w :
  limit_pinned (bw_k w) -> limit_pinned (bw_k (sw_world (sweep_limit val on_ok w))).
Proof. apply (framed_sweep same_pin). intros fd key v flags k. apply update_pinned. Qed.

(** Both global operations write every entry. *)
Lemma global_effect w val on_ok :
  limit_ready w ->
  exists w1, ensure_limit_fd w = (None, w1) /\ let y := sweep_limit val on_ok w1 in
    limit_ready (sw_world y) /\ lmap (sw_world y) = (fun _ => val) <$> lmap w.
Proof.
  intros [Hfd Hp]. pose proof (ensure_limit_ready w Hfd) as He.
  destruct (ensure_limit_fd w) as [[e|] w1]; [by destruct He as [[_ []] _]|]. exists w1. split; [done|].
  destruct He as [Hg (S1 & _ & _ & _ & S5)].
  pose proof (sweep_pinned val on_ok w1 (proj2 S5 Hp)) as Hp1.
  destruct (sweep_limit_effect val on_ok w1 Hg) as (w2 & Hs & Hm & _ & _ & Hg2). rewrite Hs in *. cbn in *.
  rewrite Hm, S1. split; [split; [by right|done]|done].
Qed.
Lemma disable_global_effect w :
  limit_ready w ->
  let w' := (bpf_disable_global w).2 in limit_ready w' /\ lmap w' = (fun _ => BPF_LIMIT_ZERO) <$> lmap w.
Proof.
  intros Hw. unfold bpf_disable_global, mbind, st_bind.
  destruct (global_effect w BPF_LIMIT_ZERO disabled_set_add Hw) as (w1 & -> & Hr & Hm). by split.
Qed.
Lemma restore_global_effect w :
  limit_ready w ->
  let w' := (bpf_restore_global w).2 in limit_ready w' /\ lmap w' = (fun _ => BPF_LIMIT_NONE) <$> lmap w.
Proof.
  intros Hw. unfold bpf_restore_global, mbind, st_bind.
  destruct (global_effect w BPF_LIMIT_NONE disabled_set_remove Hw) as (w1 & -> & Hr & Hm).
  cbn [snd]. destruct (sw_errs _ =? 0)%nat; by split.
Qed.
End effects.
