(* ===== verification/Upstream.v ===== *)
(** * Detection of the primary upstream ([upstream.c])

    Four ways to find the interface over which the phone reaches the internet,
    tried in a fixed order.  What they read (the interface table, two BPF maps, the
    output of [ip route get] and [/proc/net/route]) is a [net_view]. *)
From S2P Require Import Prelude CStr Stdio.
From S2P Require Import BpfAdapter.
Local Open Scope Z_scope.

(** ** The surroundings *)

(** A BPF map that could be opened: [BPF_MAP_GET_NEXT_KEY] after a key ([None] is
    the null pointer), with its errno, and [BPF_MAP_LOOKUP_ELEM]. *)
Record bpf_map (K V : Type) := BpfMap {
  bm_next : option K -> K + Z;
  bm_lookup : K -> option V
}.
Arguments BpfMap {K V}. Arguments bm_next {K V}. Arguments bm_lookup {K V}.

(** [nv_index] is [if_nametoindex] (0: no such interface), [nv_name] is
    [if_indextoname].  Keys and values of the upstream4 map are the 128-byte buffers
    of the source, of which the kernel uses the first bytes; keys of the limit map
    are interface indices.  A map or text that cannot be opened is [None]. *)
Record net_view := NetView {
  nv_index : bytes -> Z;
  nv_name : Z -> option bytes;
  nv_upstream4 : option (bpf_map bytes bytes);
  nv_limit : option (bpf_map Z Z);
  nv_ip_route : option bytes;
  nv_proc_route : option bytes
}.

(** The objects the two output parameters point at. *)
Definition outs : Type := Z * bytes.

(** What a tier does with its result: on success the index and the name, cut to
    the caller's buffer, are stored; otherwise the objects keep their values. *)
Definition publish (ifname_size : nat) (r : option (Z * bytes)) (o : outs) : Z * outs :=
  match r with
  | Some (idx, name) => (0, (s32 idx, c_trunc ifname_size name))
  | None => (-1, o)
  end.

(** [strncmp(name, p, strlen(p)) == 0] for one of the prefixes. *)
Definition has_prefix (ps : list bytes) (name : bytes) : bool :=
  existsb (fun p => starts_with p name) ps.

Definition IFNAMSIZ : nat := 16.
Definition LINE_SIZE : nat := Z.to_nat 512.

(** ** Tier 1: [ip route get] *)

Definition vpn_prefixes : list bytes :=
  [str "tun"; str "tap"; str "ppp"; str "wg"; str "gre"; str "ipsec"].
Definition DEV : bytes := str " dev ".

(** The interface named in one line of the output. *)
Definition line_iface (line : bytes) : option bytes :=
  match strstr DEV line with
  | None => None
  | Some (_, at_dev) =>
      let iface := take (IFNAMSIZ - 1) (take_while not_space (drop 5 at_dev)) in
      if bool_decide (iface = []) then None else Some iface
  end.

Fixpoint ip_route_lines (nv : net_view) (lines : list bytes) : option (Z * bytes) :=
  match lines with
  | [] => None
  | line :: lines =>
      match line_iface line with
      | None => ip_route_lines nv lines
      | Some iface =>
          if has_prefix vpn_prefixes iface then ip_route_lines nv lines
          else
            let idx := nv_index nv iface in
            if idx =? 0 then ip_route_lines nv lines else Some (idx, iface)
      end
  end.
Definition upstream_detect_via_ip_route (nv : net_view) (ifname_size : nat) (o : outs) : Z * outs :=
  if (ifname_size <? 2)%nat then (-1, o)
  else publish ifname_size
         (match nv_ip_route nv with
          | None => None
          | Some text => ip_route_lines nv (fgets_lines LINE_SIZE text)
          end) o.

(** ** Tier 2: [/proc/net/route] *)

Definition looks_like_uplink_iface (name : bytes) : bool :=
  if has_prefix [str "wlan2"; str "ap"; str "swlan"] name then false
  else has_prefix [str "rmnet"; str "wwan"; str "eth"; str "ppp"; str "wlan0"; str "wlan1"] name.

(** [sscanf(line, "%15s %15s %*s %x", iface, dest, &flags) == 3] *)
Definition scan_route (line : bytes) : option (bytes * Z) :=
  '(iface, line) ← scan_s 15 line;
  '(_, line) ← scan_s 15 line;
  '(_, line) ← scan_s (length line) line;
  '(flags, _) ← scan_x line;
  Some (iface, flags).

Fixpoint proc_route_lines (nv : net_view) (lines : list bytes) : option (Z * bytes) :=
  match lines with
  | [] => None
  | line :: lines =>
      match scan_route line with
      | None => proc_route_lines nv lines
      | Some (iface, flags) =>
          if Z.land flags 1 =? 0 then proc_route_lines nv lines
          else if negb (looks_like_uplink_iface iface) then proc_route_lines nv lines
          else
            let idx := nv_index nv iface in
            if idx =? 0 then proc_route_lines nv lines else Some (idx, iface)
      end
  end.
Definition upstream_detect_via_proc_route (nv : net_view) (ifname_size : nat) (o : outs) : Z * outs :=
  if (ifname_size <? 2)%nat then (-1, o)
  else publish ifname_size
         (match nv_proc_route nv with
          | None => None
          | Some text =>
              match fgets_lines LINE_SIZE text with
              | [] => None
              | _header :: lines => proc_route_lines nv lines
              end
          end) o.

(** ** Tier 3: the upstream4 map *)

Definition KEY_SIZE : nat := Z.to_nat 128.

(** [value[i]] of a zeroed buffer. *)
Definition byte_at (i : nat) (value : bytes) : Z := nth i value 0.
Definition value_oif (value : bytes) : Z :=
  Z.lor (Z.lor (Z.lor (byte_at 0 value) (Z.shiftl (byte_at 1 value) 8))
               (Z.shiftl (byte_at 2 value) 16))
        (Z.shiftl (byte_at 3 value) 24).

(** The first key: after an all-zero key, and after the null pointer when that
    gives [ENOENT]. *)
Definition first_key {K V} (m : bpf_map K V) (zero : K) : K + Z :=
  match bm_next m (Some zero) with
  | inl k => inl k
  | inr e => if e =? ENOENT then bm_next m None else inr e
  end.

Definition bpf_upstream (nv : net_view) (m : bpf_map bytes bytes) : option (Z * bytes) :=
  match first_key m (replicate KEY_SIZE 0) with
  | inr _ => None
  | inl next_key =>
      match bm_lookup m next_key with
      | None => None
      | Some value =>
          let oif := value_oif value in
          if (oif =? 0) || (65535 <? oif) then None
          else match nv_name nv oif with
               | None => None
               | Some name => Some (oif, name)
               end
      end
  end.
Definition upstream_detect_via_bpf (nv : net_view) (ifname_size : nat) (o : outs) : Z * outs :=
  if (ifname_size <? 2)%nat then (-1, o)
  else publish ifname_size
         (match nv_upstream4 nv with None => None | Some m => bpf_upstream nv m end) o.

(** ** Tier 4: the limit map *)

Definition MAX_UPSTREAMS : nat := 16.

(** The keys the loop collects, with room for [room] more. *)
Fixpoint collect_keys {V} (m : bpf_map Z V) (room : nat) (first : bool) (prev_key : Z) : list Z :=
  match room with
  | O => []
  | S room =>
      match (if first then first_key m 0 else bm_next m (Some prev_key)) with
      | inr _ => []
      | inl next_key => next_key :: collect_keys m room false next_key
      end
  end.

Definition downstream_prefixes : list bytes :=
  [str "wlan2"; str "tun"; str "tap"; str "wg"; str "ppp"; str "ap"; str "swlan"; str "lo"].

(** [unsigned w; ... if (w && idx == w) continue;] *)
Definition is_iface (nv : net_view) (name : bytes) (idx : Z) : bool :=
  negb (nv_index nv name =? 0) && (idx =? nv_index nv name).

Fixpoint limit_map_indices (nv : net_view) (ifindexes : list Z) : option (Z * bytes) :=
  match ifindexes with
  | [] => None
  | idx :: rest =>
      if idx =? 0 then limit_map_indices nv rest
      else if is_iface nv (str "wlan2") idx then limit_map_indices nv rest
      else if is_iface nv (str "ap0") idx then limit_map_indices nv rest
      else if is_iface nv (str "swlan0") idx then limit_map_indices nv rest
      else match nv_name nv idx with
           | None => limit_map_indices nv rest
           | Some name =>
               if has_prefix downstream_prefixes name then limit_map_indices nv rest
               else Some (idx, name)
           end
  end.
Definition upstream_detect_via_limit_map (nv : net_view) (ifname_size : nat) (o : outs) : Z * outs :=
  if (ifname_size <? 2)%nat then (-1, o)
  else publish ifname_size
         (match nv_limit nv with
          | None => None
          | Some m => limit_map_indices nv (collect_keys m MAX_UPSTREAMS true 0)
          end) o.

(** ** The entry point *)
Definition upstream_detect_primary (nv : net_view) (ifname_size : nat) (o : outs) : Z * outs :=
  let '(rc, o) := upstream_detect_via_bpf nv ifname_size o in
  if rc =? 0 then (0, o) else
  let '(rc, o) := upstream_detect_via_limit_map nv ifname_size o in
  if rc =? 0 then (0, o) else
  let '(rc, o) := upstream_detect_via_ip_route nv ifname_size o in
  if rc =? 0 then (0, o) else
  let '(rc, o) := upstream_detect_via_proc_route nv ifname_size o in
  if rc =? 0 then (0, o) else (-1, o).
