(* ===== verification/Scheduler.v ===== *)
(** * The offload scheduler ([scheduler.c])

    The scheduler keeps the set of rate-limited devices, the primary upstream and
    the elected adapter.  Its promise: while some device is limited, the fast path
    of the current primary upstream (or every fast path, while no upstream is
    known) has been switched off since the last restore.  The main thread and the worker share the state
    under [sched.lock]; every locked region is one function here, and
    [SchedulerSpec.v] interleaves them. *)
From S2P Require Import Prelude CStr JsonText Offload.
Local Open Scope Z_scope.

Definition HNC_SCHED_MAX_LIMITED_DEVICES : nat := 256.
Definition HNC_SCHED_IFNAME_LEN : nat := 16.

(** ** MACs and the limited set *)

(** [normalize_mac]: [n] characters are left, [i] have been read. *)
Fixpoint normalize_mac_from (n i : nat) (inp : bytes) : option bytes :=
  match n with
  | O => match inp with
         | [] => Some []
         | c :: _ => if (c =? NL) || (c =? 32) then Some [] else None
         end
  | S n' =>
      match inp with
      | [] => None
      | c :: rest =>
          if (i mod 3 =? 2)%nat then
            if negb (c =? COLON) then None
            else cons COLON <$> normalize_mac_from n' (S i) rest
          else if negb (isxdigit c) then None
          else cons (tolower c) <$> normalize_mac_from n' (S i) rest
      end
  end.
Definition normalize_mac (inp : bytes) : option bytes := normalize_mac_from 17 0 inp.

(** The set is the first [limited_count] slots of [limited_macs]. *)
Definition limited_set_find (mac : bytes) (l : list bytes) : option nat :=
  find_idx (strcmp_eq mac) l.
Definition limited_set_add (mac : bytes) (l : list bytes) : option (list bytes) :=
  match limited_set_find mac l with
  | Some _ => None
  | None => if (HNC_SCHED_MAX_LIMITED_DEVICES <=? length l)%nat then None
            else Some (l ++ [c_trunc 18 mac])
  end.
Definition limited_set_remove (mac : bytes) (l : list bytes) : option (list bytes) :=
  match limited_set_find mac l with
  | None => None
  | Some idx => Some (swap_remove idx l)
  end.

(** ** Reading [rules.json] *)

(** [json_bool_true_in_block] *)
Definition bool_step (needle p : bytes) : bytes + bool :=
  match strstr needle p with
  | None => inr false
  | Some (_, at_) =>
      let q := drop_while isspace (drop (length needle) at_) in
      match q with
      | c :: q =>
          if negb (c =? COLON) then inl (c :: q)
          else
            let q := drop_while isspace q in
            match strip_prefix (str "true") q with
            | Some rest =>
                match rest with
                | [] => inr true
                | e :: _ => if (e =? 44) || (e =? 125) || isspace e then inr true else inl q
                end
            | None => inl q
            end
      | [] => inl []
      end
  end.
Definition json_bool_true_in_block (block key : bytes) : bool :=
  let needle := c_trunc 96 (QUOTE :: key ++ [QUOTE]) in
  default false (loop (bool_step needle) (S (length block)) block).

(** The brace counting of both scans: what stands before the brace that closes
    depth [d] and what follows it; braces in JSON strings do not count. *)
Fixpoint match_brace (d : nat) (in_string escape : bool) (p : bytes) : option (bytes * bytes) :=
  match p with
  | [] => None
  | c :: r =>
      let skip d in_string escape :=
        '(inside, rest) ← match_brace d in_string escape r; Some (c :: inside, rest) in
      if escape then skip d in_string false
      else if c =? BSLASH then skip d in_string true
      else if c =? QUOTE then skip d (negb in_string) false
      else if in_string then skip d in_string false
      else if c =? 123 then skip (S d) in_string false
      else if c =? 125 then
        match d with
        | S (S d') => skip (S d') in_string false
        | _ => Some ([], r)
        end
      else skip d in_string false
  end.

(** A key of 17 characters with the colons of a MAC; [q] starts at its quote. *)
Definition is_mac_key (q : bytes) : bool :=
  (18 <? Z.of_nat (length q)) &&
  (nth 3 q 0 =? COLON) && (nth 6 q 0 =? COLON) && (nth 9 q 0 =? COLON) &&
  (nth 12 q 0 =? COLON) && (nth 15 q 0 =? COLON) && (nth 18 q 0 =? QUOTE).

(** One turn of the scan of the devices object: the rest of the text, the set
    and the number of devices added. *)
Definition rules_state : Type := bytes * list bytes * nat.
Definition rules_step (s : rules_state) : rules_state + (list bytes * nat) :=
  let '(p, macs, added) := s in
  match split_at QUOTE p with
  | None => inr (macs, added)
  | Some (_, q) =>
      if negb (is_mac_key q) then
        match split_at QUOTE (drop 1 q) with
        | None => inr (macs, added)
        | Some (_, p') => inl (drop 1 p', macs, added)
        end
      else
        let mac_raw := take 17 (drop 1 q) in
        match split_at 123 (drop 19 q) with
        | None => inr (macs, added)
        | Some (_, block_open) =>
            match match_brace 1 false false (drop 1 block_open) with
            | None => inr (macs, added)
            | Some (inside, p') =>
                let block := 123 :: inside ++ [125] in
                if json_bool_true_in_block block (str "limit_enabled") then
                  match normalize_mac mac_raw with
                  | Some norm =>
                      match limited_set_add norm macs with
                      | Some macs' => inl (p', macs', S added)
                      | None => inl (p', macs, added)
                      end
                  | None => inl (p', macs, added)
                  end
                else inl (p', macs, added)
            end
        end
  end.

(** The text between the braces of the devices object. *)
Definition devices_section (buf : bytes) : option bytes :=
  match strstr (QUOTE :: str "devices" ++ [QUOTE]) buf with
  | None => None
  | Some (_, dev_start) =>
      match split_at 123 dev_start with
      | None => None
      | Some (_, obj_start) => fst <$> match_brace 1 false false (drop 1 obj_start)
      end
  end.

Definition RULES_BUF : nat := Z.to_nat 16384.

(** [rebuild_from_rules] on the content of [rules.json] ([None]: no file): the
    new set and the number of devices added. *)
Definition rebuild_from_rules (rules : option bytes) (macs : list bytes) : list bytes * nat :=
  match rules with
  | None => (macs, 0%nat)
  | Some content =>
      match devices_section (cut_nul (take (RULES_BUF - 1) content)) with
      | None => (macs, 0%nat)
      | Some body => default (macs, 0%nat) (loop rules_step (S (length body)) (body, macs, 0%nat))
      end
  end.

(** ** The scheduler's surroundings *)

(** What the scheduler calls outside its file: the detection of the primary
    upstream ([upstream.c]), the LSM guard ([hnc_lsm_loader.c]), the rules file,
    the creation of the worker thread and the clock. *)
Class SchedEnv (W : Type) := {
  env_detect_upstream : st W (option (Z * bytes));
  env_lsm_init : Z -> st W Z;
  env_lsm_update : Z -> W -> W;
  env_lsm_shutdown : W -> W;
  env_rules : W -> option bytes;
  env_thread_create : W -> Z;
  env_time : W -> Z
}.

(** The contract of the detection: a success names an existing interface. *)
Class UpstreamPromise (W : Type) `{!SchedEnv W} := {
  upstream_positive w idx name w' :
    env_detect_upstream w = (Some (idx, name), w') -> 0 < idx
}.

(** The worker's fields of [sched]. *)
Record worker_state := WorkerState {
  wk_started : bool;
  wk_should_stop : bool;
  wk_refresh_requested : bool;
  wk_last_refresh_ts : Z;
  wk_refresh_count : Z
}.

(** [sched]; [sc_active] is the cached choice of the adapter registry. *)
Record sched (W : Type) := Sched {
  sc_initialized : bool;
  sc_adapter : option (offload_adapter W);
  sc_active : option (offload_adapter W);
  sc_limited : list bytes;
  sc_ifindex : Z;
  sc_ifname : bytes;
  sc_worker : worker_state
}.
Arguments Sched {W}. Arguments sc_initialized {W}. Arguments sc_adapter {W}.
Arguments sc_active {W}. Arguments sc_limited {W}. Arguments sc_ifindex {W}.
Arguments sc_ifname {W}. Arguments sc_worker {W}.

Definition sched_zero {W} : sched W :=
  Sched false None None [] 0 [] (WorkerState false false false 0 0).

(** [hnc_offload_summary_t] *)
Record offload_summary := OffloadSummary {
  su_adapter_name : bytes; su_adapter_type : Z; su_adapter_gran : Z;
  su_status : offload_status;
  su_limited_device_count : Z;
  su_primary_upstream_ifindex : Z;
  su_primary_upstream_ifname : bytes;
  su_worker_running : bool; su_worker_last_refresh_ts : Z; su_worker_refresh_count : Z
}.

Record sworld (W : Type) := SWorld { sw_sched : sched W; sw_w : W }.
Arguments SWorld {W}. Arguments sw_sched {W}. Arguments sw_w {W}.

Section scheduler.
Context {W : Type} `{!SchedEnv W}.
(** The adapters compiled in, without the null adapter. *)
Context (compiled_in : list (offload_adapter W)).

Abbreviation M := (st (sworld W)).

Definition sget {A} (f : sched W -> A) : M A := st_get (fun x => f (sw_sched x)).
Definition smod (f : sched W -> sched W) : M unit :=
  st_mod (fun x => SWorld (f (sw_sched x)) (sw_w x)).
(** A call that leaves the file: an adapter operation, the LSM guard, ... *)
Definition call {A} (m : st W A) : M A :=
  fun x => let '(a, w) := m (sw_w x) in (a, SWorld (sw_sched x) w).
Definition callw (f : W -> W) : M unit := call (fun w => (tt, f w)).
Definition wget {A} (f : W -> A) : M A := st_get (fun x => f (sw_w x)).

Definition set_adapter (a : option (offload_adapter W)) (act : option (offload_adapter W)) (s : sched W) :=
  Sched (sc_initialized s) a act (sc_limited s) (sc_ifindex s) (sc_ifname s) (sc_worker s).
Definition set_initialized (b : bool) (s : sched W) :=
  Sched b (sc_adapter s) (sc_active s) (sc_limited s) (sc_ifindex s) (sc_ifname s) (sc_worker s).
Definition set_limited (l : list bytes) (s : sched W) :=
  Sched (sc_initialized s) (sc_adapter s) (sc_active s) l (sc_ifindex s) (sc_ifname s) (sc_worker s).
Definition set_primary (idx : Z) (name : bytes) (s : sched W) :=
  Sched (sc_initialized s) (sc_adapter s) (sc_active s) (sc_limited s) idx name (sc_worker s).
Definition set_worker (f : worker_state -> worker_state) (s : sched W) :=
  Sched (sc_initialized s) (sc_adapter s) (sc_active s) (sc_limited s) (sc_ifindex s) (sc_ifname s)
    (f (sc_worker s)).

(** [refresh_primary_upstream_locked] *)
Definition refresh_primary_upstream_locked : M unit :=
  r ← call env_detect_upstream;
  match r with
  | Some (idx, name) => smod (set_primary idx (c_trunc HNC_SCHED_IFNAME_LEN name))
  | None => smod (fun s => if sc_ifindex s =? 0 then set_primary (sc_ifindex s) [] s else s)
  end.

(** [trigger_adapter_disable_locked] *)
Definition trigger_adapter_disable_locked : M unit :=
  a ← sget sc_adapter;
  match a with
  | None => mret tt
  | Some a =>
      match ad_granularity a with
      | OFFLOAD_GRAN_PER_UPSTREAM =>
          idx ← sget sc_ifindex;
          if idx <=? 0 then
            match ad_disable_global a with
            | Some disable_global => call disable_global;; mret tt
            | None => mret tt
            end
          else
            match ad_disable_upstream a with
            | None => mret tt
            | Some disable_upstream => call (disable_upstream idx);; mret tt
            end
      | OFFLOAD_GRAN_GLOBAL =>
          match ad_disable_global a with
          | None => mret tt
          | Some disable_global => call disable_global;; mret tt
          end
      | OFFLOAD_GRAN_NONE | OFFLOAD_GRAN_PER_DEVICE => mret tt
      end
  end.

(** [trigger_adapter_restore_locked] *)
Definition trigger_adapter_restore_locked : M unit :=
  a ← sget sc_adapter;
  match a with
  | None => mret tt
  | Some a =>
      match ad_granularity a with
      | OFFLOAD_GRAN_PER_UPSTREAM =>
          match ad_restore_global a with
          | Some restore_global => call restore_global;; mret tt
          | None =>
              idx ← sget sc_ifindex;
              match ad_restore_upstream a with
              | Some restore_upstream =>
                  if 0 <? idx then call (restore_upstream idx);; mret tt else mret tt
              | None => mret tt
              end
          end
      | OFFLOAD_GRAN_GLOBAL =>
          match ad_restore_global a with
          | None => mret tt
          | Some restore_global => call restore_global;; mret tt
          end
      | OFFLOAD_GRAN_NONE | OFFLOAD_GRAN_PER_DEVICE => mret tt
      end
  end.

(** ** The worker thread ([worker_main]), one function per region between locks *)

(** The wait is over: [false] means that the worker leaves its loop. *)
Definition worker_wake : M bool :=
  wk ← sget sc_worker;
  if wk_should_stop wk then mret false
  else
    smod (set_worker (fun wk => WorkerState (wk_started wk) (wk_should_stop wk) false
                                  (wk_last_refresh_ts wk) (wk_refresh_count wk)));;
    mret true.

(** The periodic probe under [sched.lock]: the indices before and after. *)
Definition worker_reprobe : M (Z * Z) :=
  prev_ifindex ← sget sc_ifindex;
  refresh_primary_upstream_locked;;
  now_ifindex ← sget sc_ifindex;
  macs ← sget sc_limited;
  let limited := (0 <? length macs)%nat in
  let need_retrigger :=
    ((prev_ifindex =? 0) && (0 <? now_ifindex) && limited) ||
    ((0 <? prev_ifindex) && (0 <? now_ifindex) && negb (prev_ifindex =? now_ifindex) && limited) in
  (if need_retrigger then trigger_adapter_disable_locked else mret tt);;
  mret (prev_ifindex, now_ifindex).

Definition worker_notify_lsm (prev_ifindex now_ifindex : Z) : M unit :=
  if (0 <? now_ifindex) && negb (now_ifindex =? prev_ifindex)
  then callw (env_lsm_update (u32 now_ifindex)) else mret tt.

Definition worker_refresh : M unit :=
  a ← sget sc_adapter;
  match a with
  | Some a => match ad_refresh_active a with
              | Some refresh_active => call refresh_active;; mret tt
              | None => mret tt
              end
  | None => mret tt
  end;;
  now ← wget env_time;
  smod (set_worker (fun wk => WorkerState (wk_started wk) (wk_should_stop wk)
                                (wk_refresh_requested wk) now (wk_refresh_count wk + 1))).

(** One turn of the worker's loop without interleaving. *)
Definition worker_turn : M bool :=
  go ← worker_wake;
  if go : bool then
    p ← worker_reprobe;
    worker_notify_lsm p.1 p.2;;
    worker_refresh;;
    mret true
  else mret false.

(** ** Initialisation and shutdown *)

Definition fall_back_to_null : M unit :=
  smod (fun s => set_adapter (Some adapter_null) (offload_set_active_adapter (Some adapter_null) (sc_active s)) s);;
  call (ad_init adapter_null);; mret tt.

(** The first part of [hnc_scheduler_init]: election, [init], self-check. *)
Definition init_adapter (a : offload_adapter W) : M unit :=
  e ← call (ad_init a);
  if negb (bool_decide (e = OFFLOAD_OK)) then fall_back_to_null
  else
    match ad_self_check a with
    | None => mret tt
    | Some self_check =>
        sc ← call self_check;
        if negb (bool_decide (sc = OFFLOAD_OK)) then
          call (ad_shutdown a);; fall_back_to_null
        else mret tt
    end.

(** The part up to the end of the start of the worker; [true] when it succeeds. *)
Definition init_start (a : offload_adapter W) : M bool :=
  init_adapter a;;
  refresh_primary_upstream_locked;;
  smod (set_worker (fun wk => WorkerState (wk_started wk) false false
                                (wk_last_refresh_ts wk) (wk_refresh_count wk)));;
  rc ← wget env_thread_create;
  if negb (rc =? 0) then
    a ← sget sc_adapter;
    match a with Some a => call (ad_shutdown a) | None => mret tt end;;
    mret false
  else
    smod (set_worker (fun wk => WorkerState true (wk_should_stop wk) (wk_refresh_requested wk)
                                  (wk_last_refresh_ts wk) (wk_refresh_count wk)));;
    smod (set_initialized true);;
    mret true.

(** The call of [hnc_lsm_init], which is outside of the lock: its argument is read first. *)
Definition init_lsm_with (idx : Z) : M unit :=
  a ← sget sc_adapter;
  match a with
  | Some a => if bool_decide (ad_name a = "bpf"%string)
              then call (env_lsm_init (u32 idx));; mret tt else mret tt
  | None => mret tt
  end.
Definition init_lsm : M unit := idx ← sget sc_ifindex; init_lsm_with idx.

(** The additions of [rebuild_from_rules], then the trigger under the lock. *)
Definition init_rebuild : M nat :=
  rules ← wget env_rules;
  macs ← sget sc_limited;
  let '(macs', added) := rebuild_from_rules rules macs in
  smod (set_limited macs');; mret added.
Definition init_trigger (rebuilt : nat) : M unit :=
  if (0 <? rebuilt)%nat then
    refresh_primary_upstream_locked;; trigger_adapter_disable_locked
  else mret tt.

(** [hnc_scheduler_init]; the result is the return value. *)
Definition hnc_scheduler_init : M Z :=
  initialized ← sget sc_initialized;
  if initialized : bool then mret 0
  else
    w ← wget (fun w => w);
    act ← sget sc_active;
    let '(elected, act') := offload_select_adapter (g_adapters compiled_in) w act in
    smod (set_adapter elected act');;
    match elected with
    | None => mret (-1)
    | Some a =>
        started ← init_start a;
        if negb started then mret (-1)
        else init_lsm;; rebuilt ← init_rebuild; init_trigger rebuilt;; mret 0
    end.

(** [hnc_scheduler_shutdown]; joining the worker is part of it. *)
Definition hnc_scheduler_shutdown : M unit :=
  initialized ← sget sc_initialized;
  if negb initialized then mret tt
  else
    wk ← sget sc_worker;
    (if wk_started wk then
       smod (set_worker (fun wk => WorkerState false true (wk_refresh_requested wk)
                                     (wk_last_refresh_ts wk) (wk_refresh_count wk)))
     else mret tt);;
    a ← sget sc_adapter;
    match a with Some a => call (ad_shutdown a) | None => mret tt end;;
    callw env_lsm_shutdown;;
    smod (set_initialized false).

(** ** Notifications and commands *)

(** [hnc_scheduler_request_refresh] *)
Definition hnc_scheduler_request_refresh : M unit :=
  initialized ← sget sc_initialized;
  wk ← sget sc_worker;
  if negb initialized || negb (wk_started wk) then mret tt
  else smod (set_worker (fun wk => WorkerState (wk_started wk) (wk_should_stop wk) true
                                     (wk_last_refresh_ts wk) (wk_refresh_count wk))).

(** The locked region of the notification: whether it triggered something. *)
Definition notify_locked (norm : bytes) (is_limited : bool) : M bool :=
  macs ← sget sc_limited;
  let macs' := if is_limited then default macs (limited_set_add norm macs)
               else default macs (limited_set_remove norm macs) in
  smod (set_limited macs');;
  let old_count := length macs in
  let new_count := length macs' in
  if (old_count =? 0)%nat && (0 <? new_count)%nat then
    refresh_primary_upstream_locked;; trigger_adapter_disable_locked;; mret true
  else if (0 <? old_count)%nat && (new_count =? 0)%nat then
    trigger_adapter_restore_locked;; mret true
  else mret false.

(** [hnc_scheduler_notify_device_limit_changed]; a NULL MAC is [None]. *)
Definition hnc_scheduler_notify_device_limit_changed (mac : option bytes) (is_limited : bool) : M unit :=
  initialized ← sget sc_initialized;
  if negb initialized then mret tt
  else
    match m ← mac; normalize_mac m with
    | None => mret tt
    | Some norm =>
        triggered ← notify_locked norm is_limited;
        if triggered : bool then hnc_scheduler_request_refresh else mret tt
    end.

(** [hnc_scheduler_force_disable_global] *)
Definition hnc_scheduler_force_disable_global : M offload_err :=
  initialized ← sget sc_initialized;
  a ← sget sc_adapter;
  match a with
  | None => mret OFFLOAD_EINTERNAL
  | Some a =>
      if negb initialized then mret OFFLOAD_EINTERNAL
      else match ad_disable_global a with
           | None => mret OFFLOAD_ENOTSUP
           | Some disable_global => call disable_global
           end
  end.

(** [hnc_scheduler_force_restore_global]: the set is cleared under the lock, the
    adapter is called after the lock is released. *)
Definition force_restore_clear : M unit := smod (set_limited []).
Definition hnc_scheduler_force_restore_global : M offload_err :=
  initialized ← sget sc_initialized;
  a ← sget sc_adapter;
  match a with
  | None => mret OFFLOAD_EINTERNAL
  | Some a =>
      if negb initialized then mret OFFLOAD_EINTERNAL
      else match ad_restore_global a with
           | None => mret OFFLOAD_ENOTSUP
           | Some restore_global => force_restore_clear;; call restore_global
           end
  end.

(** [hnc_scheduler_get_summary] *)
Definition hnc_scheduler_get_summary (x : sworld W) : offload_summary :=
  let s := sw_sched x in
  match sc_adapter s with
  | Some a =>
      if negb (sc_initialized s)
      then OffloadSummary (c_trunc 32 (str "uninitialized")) 0 0 status_zero 0 0 [] false 0 0
      else
        let stat := match ad_status a with Some status => status (sw_w x) | None => status_zero end in
        OffloadSummary (c_trunc 32 (str (ad_name a))) (offload_type_val (ad_type a))
          (offload_gran_val (ad_granularity a)) stat (Z.of_nat (length (sc_limited s)))
          (sc_ifindex s) (c_trunc HNC_SCHED_IFNAME_LEN (sc_ifname s))
          (wk_started (sc_worker s)) (wk_last_refresh_ts (sc_worker s)) (wk_refresh_count (sc_worker s))
  | None => OffloadSummary (c_trunc 32 (str "uninitialized")) 0 0 status_zero 0 0 [] false 0 0
  end.
End scheduler.

(** ** [hnc_scheduler_summary_to_json] *)
Definition jfield (name : string) (value : bytes) : bytes :=
  key name ++ value ++ [44].

(** The array text in its 128 bytes; [None] when it does not fit. *)
Fixpoint dis_arr_loop (acc : bytes) (first : bool) (l : list Z) : option bytes :=
  match l with
  | [] => Some acc
  | x :: rest =>
      let piece := (if first then [] else [44]) ++ dec x in
      if (128 <=? length acc + length piece)%nat then None
      else dis_arr_loop (acc ++ piece) false rest
  end.
Definition dis_arr (count : Z) (ifindex : list Z) : bytes :=
  if 0 <? count then
    match dis_arr_loop [91] true (take (Z.to_nat count) ifindex) with
    | Some acc => acc ++ take (127 - length acc) [93]
    | None => str "[]"
    end
  else str "[]".

(** The object without its end, as the first [snprintf] writes it. *)
Definition summary_base (s : offload_summary) : bytes :=
  let stat := su_status s in
  [123] ++ key "adapter" ++ str "{" ++
  jfield "name" (quoted (su_adapter_name s)) ++
  jfield "type" (dec (su_adapter_type s)) ++
  key "granularity" ++ dec (su_adapter_gran s) ++ str "}," ++
  jfield "active" (jbool (st_active stat)) ++
  jfield "last_refresh_ts" (dec (st_last_refresh_ts stat)) ++
  jfield "last_delta_bytes" (dec (st_last_delta_bytes stat)) ++
  jfield "globally_disabled" (jbool (st_globally_disabled stat)) ++
  jfield "disabled_upstream_count" (dec (st_disabled_upstream_count stat)) ++
  jfield "disabled_upstream_ifindex"
    (dis_arr (st_disabled_upstream_count stat) (st_disabled_upstream_ifindex stat)) ++
  jfield "limited_device_count" (dec (su_limited_device_count s)) ++
  jfield "primary_upstream_ifindex" (dec (su_primary_upstream_ifindex s)) ++
  jfield "primary_upstream_ifname" (quoted (su_primary_upstream_ifname s)) ++
  jfield "worker_running" (jbool (su_worker_running s)) ++
  jfield "worker_last_refresh_ts" (dec (su_worker_last_refresh_ts s)) ++
  jfield "worker_refresh_count" (dec (su_worker_refresh_count s)).

(** [lsm_fragment room] is the text [hnc_lsm_status_to_json_fragment] writes into
    [room] bytes, [None] when it reports a truncation.  The result is the text
    written, [None] for -1. *)
Definition hnc_scheduler_summary_to_json (s : offload_summary) (lsm_fragment : nat -> option bytes)
  (buf_size : nat) : option bytes :=
  let base := summary_base s in
  if (buf_size <=? length base)%nat then None
  else
    let body := match lsm_fragment (buf_size - length base)%nat with
                | Some fragment => base ++ fragment
                | None => if bool_decide (last base = Some 44) then removelast base else base
                end in
    if (buf_size <=? length body + 2)%nat then None else Some (body ++ [125]).
