(* ===== verification/Platform.v ===== *)
(** * Platform probing ([platform.c])

    What the daemon finds out about the phone when it starts: the system
    properties, [uname], some paths and one bpf(2) call, put into [platform_info].
    Every read of a property goes into a buffer of the function that reads, and a
    value that does not fit is written behind it: then the probe has no result
    ([None]). *)
From S2P Require Import Prelude CStr JsonText Stdio.
Local Open Scope Z_scope.

Inductive plat_soc_vendor :=
  | PLAT_SOC_UNKNOWN | PLAT_SOC_QCOM | PLAT_SOC_MTK | PLAT_SOC_SAMSUNG | PLAT_SOC_HISI
  | PLAT_SOC_GOOGLE | PLAT_SOC_OTHER.
Inductive plat_rom :=
  | PLAT_ROM_UNKNOWN | PLAT_ROM_AOSP | PLAT_ROM_COLOROS | PLAT_ROM_HYPEROS | PLAT_ROM_ONEUI
  | PLAT_ROM_EMUI | PLAT_ROM_HARMONY | PLAT_ROM_VIVO | PLAT_ROM_OTHER.

#[export] Instance plat_soc_vendor_eq : EqDecision plat_soc_vendor.
Proof. solve_decision. Defined.
#[export] Instance plat_rom_eq : EqDecision plat_rom.
Proof. solve_decision. Defined.

Definition HNC_PLATFORM_STR_LEN : nat := 64.

Record platform_info := PlatformInfo {
  pi_soc_vendor : plat_soc_vendor;
  pi_soc_vendor_raw : bytes; pi_soc_model : bytes; pi_soc_hardware : bytes;
  pi_android_api : Z; pi_android_release : bytes;
  pi_rom : plat_rom; pi_rom_name : bytes; pi_rom_version : bytes;
  pi_kernel_release : bytes; pi_kernel_major : Z; pi_kernel_minor : Z; pi_kernel_patch : Z;
  pi_has_bpf_tethering : bool; pi_has_bpf_tethering_partial : bool; pi_has_mtk_ppe : bool;
  pi_has_samsung_nss : bool; pi_bpf_syscall_ok : bool;
  pi_apex_connectivity_version : Z
}.

(** [g_platform] after the [memset]. *)
Definition platform_zero : platform_info :=
  PlatformInfo PLAT_SOC_UNKNOWN [] [] [] 0 [] PLAT_ROM_UNKNOWN [] [] [] 0 0 0
    false false false false false 0.

(** What the phone answers: [__system_property_get] (the value, empty for a property
    that is not set), [stat], the release of [uname], and [BPF_OBJ_GET] of a path.
    Without bionic the first is a stub that answers nothing. *)
Record plat_env := PlatEnv {
  pe_prop : string -> bytes;
  pe_exists : string -> bool;
  pe_uname : option bytes;
  pe_obj_get : string -> bool
}.
Definition host_prop (_ : string) : bytes := [].

(** ** Stores into the parts of [g_platform] *)
Definition set_soc (v : plat_soc_vendor) (raw model hardware : bytes) (g : platform_info) : platform_info :=
  PlatformInfo v raw model hardware (pi_android_api g) (pi_android_release g) (pi_rom g) (pi_rom_name g)
    (pi_rom_version g) (pi_kernel_release g) (pi_kernel_major g) (pi_kernel_minor g) (pi_kernel_patch g)
    (pi_has_bpf_tethering g) (pi_has_bpf_tethering_partial g) (pi_has_mtk_ppe g) (pi_has_samsung_nss g)
    (pi_bpf_syscall_ok g) (pi_apex_connectivity_version g).
Definition set_android (api : Z) (release : bytes) (g : platform_info) : platform_info :=
  PlatformInfo (pi_soc_vendor g) (pi_soc_vendor_raw g) (pi_soc_model g) (pi_soc_hardware g) api release
    (pi_rom g) (pi_rom_name g)
    (pi_rom_version g) (pi_kernel_release g) (pi_kernel_major g) (pi_kernel_minor g) (pi_kernel_patch g)
    (pi_has_bpf_tethering g) (pi_has_bpf_tethering_partial g) (pi_has_mtk_ppe g) (pi_has_samsung_nss g)
    (pi_bpf_syscall_ok g) (pi_apex_connectivity_version g).
Definition set_rom (rom : plat_rom) (name version : bytes) (g : platform_info) : platform_info :=
  PlatformInfo (pi_soc_vendor g) (pi_soc_vendor_raw g) (pi_soc_model g) (pi_soc_hardware g)
    (pi_android_api g) (pi_android_release g) rom name
    version (pi_kernel_release g) (pi_kernel_major g) (pi_kernel_minor g) (pi_kernel_patch g)
    (pi_has_bpf_tethering g) (pi_has_bpf_tethering_partial g) (pi_has_mtk_ppe g) (pi_has_samsung_nss g)
    (pi_bpf_syscall_ok g) (pi_apex_connectivity_version g).
Definition set_kernel (release : bytes) (v : Z * Z * Z) (g : platform_info) : platform_info :=
  PlatformInfo (pi_soc_vendor g) (pi_soc_vendor_raw g) (pi_soc_model g) (pi_soc_hardware g)
    (pi_android_api g) (pi_android_release g) (pi_rom g) (pi_rom_name g)
    (pi_rom_version g) release v.1.1 v.1.2 v.2
    (pi_has_bpf_tethering g) (pi_has_bpf_tethering_partial g) (pi_has_mtk_ppe g) (pi_has_samsung_nss g)
    (pi_bpf_syscall_ok g) (pi_apex_connectivity_version g).
Definition set_offload (bpf partial mtk nss syscall_ok : bool) (g : platform_info) : platform_info :=
  PlatformInfo (pi_soc_vendor g) (pi_soc_vendor_raw g) (pi_soc_model g) (pi_soc_hardware g)
    (pi_android_api g) (pi_android_release g) (pi_rom g) (pi_rom_name g)
    (pi_rom_version g) (pi_kernel_release g) (pi_kernel_major g) (pi_kernel_minor g) (pi_kernel_patch g)
    bpf partial mtk nss syscall_ok (pi_apex_connectivity_version g).
Definition set_apex (version : Z) (g : platform_info) : platform_info :=
  PlatformInfo (pi_soc_vendor g) (pi_soc_vendor_raw g) (pi_soc_model g) (pi_soc_hardware g)
    (pi_android_api g) (pi_android_release g) (pi_rom g) (pi_rom_name g)
    (pi_rom_version g) (pi_kernel_release g) (pi_kernel_major g) (pi_kernel_minor g) (pi_kernel_patch g)
    (pi_has_bpf_tethering g) (pi_has_bpf_tethering_partial g) (pi_has_mtk_ppe g) (pi_has_samsung_nss g)
    (pi_bpf_syscall_ok g) version.

(** ** Properties *)
Section probe.
Context (e : plat_env).

(** [__system_property_get] into a buffer of [size] bytes: the value and a NUL. *)
Definition getprop (size : nat) (name : string) : option bytes :=
  let v := pe_prop e name in
  if (length v <? size)%nat then Some v else None.

(** The string in [dst] and the result. *)
Definition prop_get (name : string) (dst_size : nat) : option (bytes * Z) :=
  buf ← getprop 128 name;
  let n := Z.of_nat (length buf) in
  if n <=? 0 then Some ([], 0)
  else
    let n := if Z.of_nat dst_size <=? n then Z.of_nat dst_size - 1 else n in
    Some (take (Z.to_nat n) buf, n).

Definition prop_exists (name : string) : option bool :=
  buf ← getprop 8 name; Some (0 <? Z.of_nat (length buf)).

(** [atoi] *)
Definition atoi (s : bytes) : Z := s32 (strtol s).

Definition prop_get_int (name : string) (dflt : Z) : option Z :=
  buf ← getprop 32 name;
  if Z.of_nat (length buf) <=? 0 then Some dflt else Some (atoi buf).

(** [a || b] on properties *)
Definition prop_exists2 (a b : string) : option bool :=
  x ← prop_exists a; if x : bool then Some true else prop_exists b.

(** A property, and when it is empty another one. *)
Definition prop_get2 (a b : string) (dst_size : nat) : option bytes :=
  '(v, _) ← prop_get a dst_size;
  if bool_decide (v = []) then '(v, _) ← prop_get b dst_size; Some v else Some v.

(** ** SoC *)

(** [strncasecmp(s, p, strlen(p)) == 0] *)
Definition strncasecmp_prefix (s : bytes) (p : string) : bool := starts_with (lower (str p)) (lower s).

Definition qcom_codenames : list string :=
  ["kona"; "lahaina"; "taro"; "kalama"; "pineapple"; "sun"; "msmnile"; "sdm"; "sm6"; "sm7"; "sm8"]%string.

Definition soc_of_manuf (manuf : bytes) : option plat_soc_vendor :=
  if bool_decide (manuf = []) then None
  else if strcasecmp_eq manuf (str "QTI") || strcasecmp_eq manuf (str "Qualcomm") then Some PLAT_SOC_QCOM
  else if strcasecmp_eq manuf (str "Mediatek") then Some PLAT_SOC_MTK
  else if strcasecmp_eq manuf (str "Samsung") then Some PLAT_SOC_SAMSUNG
  else if strcasecmp_eq manuf (str "HiSilicon") then Some PLAT_SOC_HISI
  else if strcasecmp_eq manuf (str "Google") then Some PLAT_SOC_GOOGLE
  else None.

Definition soc_of_hw (hw : bytes) : option plat_soc_vendor :=
  if bool_decide (hw = []) then None
  else if strncasecmp_prefix hw "qcom" then Some PLAT_SOC_QCOM
  else if strncasecmp_prefix hw "mt" then Some PLAT_SOC_MTK
  else if strncasecmp_prefix hw "exynos" then Some PLAT_SOC_SAMSUNG
  else if strncasecmp_prefix hw "kirin" then Some PLAT_SOC_HISI
  else if strncasecmp_prefix hw "gs" then Some PLAT_SOC_GOOGLE
  else None.

Definition soc_of_board (board : bytes) : option plat_soc_vendor :=
  if bool_decide (board = []) then None
  else if existsb (strncasecmp_prefix board) qcom_codenames then Some PLAT_SOC_QCOM
  else if strncasecmp_prefix board "mt" then Some PLAT_SOC_MTK
  else if strncasecmp_prefix board "exynos" then Some PLAT_SOC_SAMSUNG
  else None.

Definition classify_soc_vendor (manuf hw board : bytes) : plat_soc_vendor :=
  match soc_of_manuf manuf with
  | Some v => v
  | None => match soc_of_hw hw with
            | Some v => v
            | None => default PLAT_SOC_UNKNOWN (soc_of_board board)
            end
  end.

Definition probe_soc (g : platform_info) : option platform_info :=
  '(manuf, _) ← prop_get "ro.soc.manufacturer" HNC_PLATFORM_STR_LEN;
  '(hw, _) ← prop_get "ro.hardware" HNC_PLATFORM_STR_LEN;
  '(board, _) ← prop_get "ro.product.board" HNC_PLATFORM_STR_LEN;
  '(model, _) ← prop_get "ro.soc.model" HNC_PLATFORM_STR_LEN;
  let vendor := classify_soc_vendor manuf hw board in
  let raw := c_trunc HNC_PLATFORM_STR_LEN (if bool_decide (manuf = []) then hw else manuf) in
  let soc_model := c_trunc HNC_PLATFORM_STR_LEN (if bool_decide (model = []) then board else model) in
  Some (set_soc vendor raw soc_model (c_trunc HNC_PLATFORM_STR_LEN hw) g).

(** ** ROM *)

Definition classify_rom : option plat_rom :=
  oplus ← prop_exists2 "ro.build.version.oplusrom" "ro.oplus.os.version_id";
  if oplus : bool then Some PLAT_ROM_COLOROS
  else
    mi ← prop_exists2 "ro.mi.os.version.code" "ro.miui.ui.version.name";
    if mi : bool then Some PLAT_ROM_HYPEROS
    else
      oneui ← prop_exists2 "ro.build.version.oneui" "sys.oneui.version";
      if oneui : bool then Some PLAT_ROM_ONEUI
      else
        harmony ← prop_exists2 "ro.build.version.magic" "ro.huawei.harmonyos.version";
        if harmony : bool then Some PLAT_ROM_HARMONY
        else
          emui ← prop_exists "ro.build.version.emui";
          if emui : bool then Some PLAT_ROM_EMUI
          else
            vivo ← prop_exists "ro.vivo.os.version";
            if vivo : bool then Some PLAT_ROM_VIVO
            else
              '(brand, _) ← prop_get "ro.product.brand" 64;
              if strcasecmp_eq brand (str "google") || strcasecmp_eq brand (str "lineage") ||
                 strcasecmp_eq brand (str "graphene")
              then Some PLAT_ROM_AOSP else Some PLAT_ROM_UNKNOWN.

(** The name and the version of a ROM. *)
Definition rom_details (rom : plat_rom) : option (bytes * bytes) :=
  let version (name : string) (v : option bytes) := v ← v; Some (c_trunc HNC_PLATFORM_STR_LEN (str name), v) in
  let get (prop : string) := '(v, _) ← prop_get prop HNC_PLATFORM_STR_LEN; Some v in
  match rom with
  | PLAT_ROM_COLOROS =>
      version "ColorOS"%string
        (prop_get2 "ro.build.version.oplusrom" "ro.oplus.os.version_id" HNC_PLATFORM_STR_LEN)
  | PLAT_ROM_HYPEROS =>
      version "HyperOS"%string (prop_get2 "ro.mi.os.version.name" "ro.miui.ui.version.name" HNC_PLATFORM_STR_LEN)
  | PLAT_ROM_ONEUI => version "OneUI"%string (get "ro.build.version.oneui"%string)
  | PLAT_ROM_HARMONY =>
      version "HarmonyOS"%string
        (prop_get2 "ro.build.version.magic" "ro.huawei.harmonyos.version" HNC_PLATFORM_STR_LEN)
  | PLAT_ROM_EMUI => version "EMUI"%string (get "ro.build.version.emui"%string)
  | PLAT_ROM_VIVO => version "OriginOS"%string (get "ro.vivo.os.version"%string)
  | PLAT_ROM_AOSP => version "AOSP"%string (get "ro.build.version.release"%string)
  | PLAT_ROM_UNKNOWN | PLAT_ROM_OTHER => version "unknown"%string (get "ro.build.version.release"%string)
  end.

Definition probe_rom (g : platform_info) : option platform_info :=
  rom ← classify_rom;
  '(name, version) ← rom_details rom;
  Some (set_rom rom name version g).

(** ** Android and the kernel *)

Definition probe_android (g : platform_info) : option platform_info :=
  api ← prop_get_int "ro.build.version.sdk" 0;
  '(release, _) ← prop_get "ro.build.version.release" 16;
  Some (set_android api release g).

(** [sscanf(release, "%d.%d.%d", ...)] into variables that hold 0. *)
Definition scan_version (release : bytes) : Z * Z * Z :=
  match scan_d release with
  | None => (0, 0, 0)
  | Some (maj, r) =>
      match r' ← strip_prefix [46] r; scan_d r' with
      | None => (maj, 0, 0)
      | Some (min, r) =>
          match r' ← strip_prefix [46] r; scan_d r' with
          | None => (maj, min, 0)
          | Some (pat, _) => (maj, min, pat)
          end
      end
  end.

Definition probe_kernel (g : platform_info) : platform_info :=
  match pe_uname e with
  | None => set_kernel (c_trunc HNC_PLATFORM_STR_LEN (str "unknown"))
              (pi_kernel_major g, pi_kernel_minor g, pi_kernel_patch g) g
  | Some release => set_kernel (c_trunc HNC_PLATFORM_STR_LEN release) (scan_version release) g
  end.

(** ** Offload subsystems and the APEX *)

Definition TETHER_DIR : string := "/sys/fs/bpf/tethering".
Definition LIMIT_MAP_PATH : string := "/sys/fs/bpf/tethering/map_offload_tether_limit_map".

Definition probe_offload (g : platform_info) : platform_info :=
  let has_tether_dir := pe_exists e TETHER_DIR in
  let has_limit_map := pe_exists e LIMIT_MAP_PATH in
  let mtk := pe_exists e "/sys/kernel/debug/hnat" || pe_exists e "/proc/sys/net/nf_conntrack_hnat_offload" ||
             pe_exists e "/sys/module/mtk_ppe" || pe_exists e "/sys/module/mtk_hnat" in
  let syscall_ok := if has_limit_map then pe_obj_get e LIMIT_MAP_PATH else false in
  set_offload has_limit_map (has_tether_dir && negb has_limit_map) mtk false syscall_ok g.

Definition probe_apex (g : platform_info) : platform_info :=
  set_apex (if pe_exists e "/apex/com.android.tethering" then -1 else 0) g.

(** ** [platform_probe]

    It ignores what [g_platform] held and always returns 0. *)
Definition platform_probe (_ : platform_info) : option (Z * platform_info) :=
  let g := platform_zero in
  g ← probe_soc g;
  g ← probe_android g;
  g ← probe_rom g;
  let g := probe_apex (probe_offload (probe_kernel g)) in
  Some (0, g).
End probe.

(** ** Texts *)

Definition platform_soc_vendor_str (v : plat_soc_vendor) : bytes :=
  match v with
  | PLAT_SOC_UNKNOWN => str "unknown" | PLAT_SOC_QCOM => str "qcom" | PLAT_SOC_MTK => str "mtk"
  | PLAT_SOC_SAMSUNG => str "samsung" | PLAT_SOC_HISI => str "hisi" | PLAT_SOC_GOOGLE => str "google"
  | PLAT_SOC_OTHER => str "other"
  end.

Definition platform_rom_str (r : plat_rom) : bytes :=
  match r with
  | PLAT_ROM_UNKNOWN => str "unknown" | PLAT_ROM_AOSP => str "aosp" | PLAT_ROM_COLOROS => str "coloros"
  | PLAT_ROM_HYPEROS => str "hyperos" | PLAT_ROM_ONEUI => str "oneui" | PLAT_ROM_EMUI => str "emui"
  | PLAT_ROM_HARMONY => str "harmony" | PLAT_ROM_VIVO => str "vivo" | PLAT_ROM_OTHER => str "other"
  end.

Definition platform_text (g : platform_info) : bytes :=
  [123] ++
  key "soc" ++ [123] ++ key "vendor" ++ quoted (platform_soc_vendor_str (pi_soc_vendor g)) ++ [44] ++
    key "model" ++ quoted (pi_soc_model g) ++ [44] ++ key "hardware" ++ quoted (pi_soc_hardware g) ++ [44] ++
    key "raw" ++ quoted (pi_soc_vendor_raw g) ++ [125; 44] ++
  key "android" ++ [123] ++ key "api" ++ dec (pi_android_api g) ++ [44] ++
    key "release" ++ quoted (pi_android_release g) ++ [125; 44] ++
  key "rom" ++ [123] ++ key "id" ++ quoted (platform_rom_str (pi_rom g)) ++ [44] ++
    key "name" ++ quoted (pi_rom_name g) ++ [44] ++ key "version" ++ quoted (pi_rom_version g) ++ [125; 44] ++
  key "kernel" ++ [123] ++ key "release" ++ quoted (pi_kernel_release g) ++ [44] ++
    key "major" ++ dec (pi_kernel_major g) ++ [44] ++ key "minor" ++ dec (pi_kernel_minor g) ++ [44] ++
    key "patch" ++ dec (pi_kernel_patch g) ++ [125; 44] ++
  key "offload" ++ [123] ++ key "bpf_tethering" ++ jbool (pi_has_bpf_tethering g) ++ [44] ++
    key "bpf_tethering_partial" ++ jbool (pi_has_bpf_tethering_partial g) ++ [44] ++
    key "mtk_ppe" ++ jbool (pi_has_mtk_ppe g) ++ [44] ++ key "samsung_nss" ++ jbool (pi_has_samsung_nss g) ++ [44] ++
    key "bpf_syscall_ok" ++ jbool (pi_bpf_syscall_ok g) ++ [125; 44] ++
  key "apex_connectivity" ++ dec (pi_apex_connectivity_version g) ++ [125].

(** The text, or [None] for -1. *)
Definition platform_dump_json (g : platform_info) (buf_size : nat) : option bytes :=
  if (buf_size =? 0)%nat then None
  else if (buf_size <=? length (platform_text g))%nat then None else Some (platform_text g).
