(* ===== verification/PlatformSpec.v ===== *)
(** * Theorems about platform probing

    The probe equals a reading of three tables (manufacturers and chips, ROMs) and
    of the properties they name, unless a property is longer than the buffer of the
    function that asks for it; the report is JSON. *)
From S2P Require Import Prelude CStr JsonText Stdio Platform.
Local Open Scope Z_scope.

(** ** The reference *)

(** The first row one of whose patterns matches. *)
Definition first_match {A} (test : bytes -> string -> bool) (table : list (A * list string)) (s : bytes) : option A :=
  '(v, _) ← List.find (fun row => existsb (test s) row.2) table; Some v.

Definition same_ci (s : bytes) (p : string) : bool := strcasecmp_eq s (str p).

Definition manuf_table : list (plat_soc_vendor * list string) := [
  (PLAT_SOC_QCOM, ["QTI"; "Qualcomm"]); (PLAT_SOC_MTK, ["Mediatek"]); (PLAT_SOC_SAMSUNG, ["Samsung"]);
  (PLAT_SOC_HISI, ["HiSilicon"]); (PLAT_SOC_GOOGLE, ["Google"])]%string.
Definition hw_table : list (plat_soc_vendor * list string) := [
  (PLAT_SOC_QCOM, ["qcom"]); (PLAT_SOC_MTK, ["mt"]); (PLAT_SOC_SAMSUNG, ["exynos"]);
  (PLAT_SOC_HISI, ["kirin"]); (PLAT_SOC_GOOGLE, ["gs"])]%string.
Definition board_table : list (plat_soc_vendor * list string) := [
  (PLAT_SOC_QCOM, qcom_codenames); (PLAT_SOC_MTK, ["mt"]); (PLAT_SOC_SAMSUNG, ["exynos"])]%string.

(** The manufacturer decides, then the hardware, then the board. *)
Definition soc_ref (manuf hw board : bytes) : plat_soc_vendor :=
  default PLAT_SOC_UNKNOWN
    (first_match same_ci manuf_table manuf ∪ (first_match strncasecmp_prefix hw_table hw ∪
     first_match strncasecmp_prefix board_table board)).

(** A ROM is known by its markers, and its version is the first of the sources that is set. *)
Record rom_row := RomRow {
  rr_rom : plat_rom; rr_name : string; rr_markers : list string; rr_version : list string
}.
Definition rom_table : list rom_row := [
  RomRow PLAT_ROM_COLOROS "ColorOS" ["ro.build.version.oplusrom"; "ro.oplus.os.version_id"]
    ["ro.build.version.oplusrom"; "ro.oplus.os.version_id"];
  RomRow PLAT_ROM_HYPEROS "HyperOS" ["ro.mi.os.version.code"; "ro.miui.ui.version.name"]
    ["ro.mi.os.version.name"; "ro.miui.ui.version.name"];
  RomRow PLAT_ROM_ONEUI "OneUI" ["ro.build.version.oneui"; "sys.oneui.version"] ["ro.build.version.oneui"];
  RomRow PLAT_ROM_HARMONY "HarmonyOS" ["ro.build.version.magic"; "ro.huawei.harmonyos.version"]
    ["ro.build.version.magic"; "ro.huawei.harmonyos.version"];
  RomRow PLAT_ROM_EMUI "EMUI" ["ro.build.version.emui"] ["ro.build.version.emui"];
  RomRow PLAT_ROM_VIVO "OriginOS" ["ro.vivo.os.version"] ["ro.vivo.os.version"]]%string.
Definition aosp_row : rom_row := RomRow PLAT_ROM_AOSP "AOSP" [] ["ro.build.version.release"]%string.
Definition unknown_row : rom_row := RomRow PLAT_ROM_UNKNOWN "unknown" [] ["ro.build.version.release"]%string.

Section spec.
Context (e : plat_env).

(** What a buffer of [size] bytes holds of a property. *)
Definition value (size : nat) (name : string) : bytes := c_trunc size (pe_prop e name).
Definition is_set (name : string) : bool := negb (bool_decide (pe_prop e name = [])).

Definition is_aosp : bool :=
  existsb (same_ci (value 64 "ro.product.brand")) ["google"; "lineage"; "graphene"]%string.
Definition ref_row : rom_row :=
  match List.find (fun r => existsb is_set (rr_markers r)) rom_table with
  | Some r => r
  | None => if is_aosp then aosp_row else unknown_row
  end.
Definition ref_version (sources : list string) : bytes :=
  match List.find is_set sources with
  | Some p => value 64 p
  | None => []
  end.

Definition or_else (a b : bytes) : bytes := if bool_decide (a = []) then b else a.

Definition ref_kernel : bytes * (Z * Z * Z) :=
  match pe_uname e with
  | Some release => (c_trunc 64 release, scan_version release)
  | None => (str "unknown", (0, 0, 0))
  end.

Definition platform_ref : platform_info :=
  let manuf := value 64 "ro.soc.manufacturer" in
  let hw := value 64 "ro.hardware" in
  let board := value 64 "ro.product.board" in
  let limit_map := pe_exists e LIMIT_MAP_PATH in
  PlatformInfo (soc_ref manuf hw board) (or_else manuf hw) (or_else (value 64 "ro.soc.model") board) hw
    (atoi (pe_prop e "ro.build.version.sdk")) (value 16 "ro.build.version.release")
    (rr_rom ref_row) (str (rr_name ref_row)) (ref_version (rr_version ref_row))
    ref_kernel.1 ref_kernel.2.1.1 ref_kernel.2.1.2 ref_kernel.2.2
    limit_map (pe_exists e TETHER_DIR && negb limit_map)
    (existsb (pe_exists e) ["/sys/kernel/debug/hnat"; "/proc/sys/net/nf_conntrack_hnat_offload";
                            "/sys/module/mtk_ppe"; "/sys/module/mtk_hnat"]%string)
    false (limit_map && pe_obj_get e LIMIT_MAP_PATH)
    (if pe_exists e "/apex/com.android.tethering" then -1 else 0).

(** The only values that can be too long: the marker that is found first, for 8 bytes, and
    the API level, for 32. *)
Definition first_marker : option string := List.find is_set (concat (map rr_markers rom_table)).
Definition probe_fits : bool :=
  match first_marker with
  | Some m => (length (pe_prop e m) <? 8)%nat
  | None => true
  end && (length (pe_prop e "ro.build.version.sdk") <? 32)%nat.

(** Bionic's limit on a value. *)
Definition PROP_VALUE_MAX : nat := 92.
Hypothesis prop_max : forall name, (length (pe_prop e name) < PROP_VALUE_MAX)%nat.

(** ** Reading properties *)

Lemma prop_get_value name size :
  (0 < size)%nat -> exists n, prop_get e name size = Some (value size name, n).
Proof.
  intros Hs. unfold prop_get, getprop, value, c_trunc. pose proof (prop_max name) as Hm.
  unfold PROP_VALUE_MAX in Hm. rewrite (proj2 (Nat.ltb_lt _ _)) by lia. cbn [mbind option_bind].
  destruct (Z.leb_spec (Z.of_nat (length (pe_prop e name))) 0) as [H|H].
  - destruct (pe_prop e name); [|cbn in H; lia]. eexists. by rewrite take_nil.
  - destruct (Z.leb_spec (Z.of_nat size) (Z.of_nat (length (pe_prop e name)))).
    + eexists. do 3 f_equal. lia.
    + eexists. rewrite Nat2Z.id. rewrite !take_ge by lia. done.
Qed.

Lemma prop_exists_value name :
  prop_exists e name = if is_set name then if (length (pe_prop e name) <? 8)%nat then Some true else None
                       else Some false.
Proof.
  unfold prop_exists, getprop, is_set. destruct (pe_prop e name) as [|c v]; [done|].
  cbn [bool_decide negb]. by destruct (_ <? 8)%nat.
Qed.

Lemma value_nil size name : (1 < size)%nat -> bool_decide (value size name = []) = negb (is_set name).
Proof.
  intros Hs. unfold value, is_set, c_trunc. rewrite negb_involutive.
  destruct size as [|[|size]]; [lia|lia|]. by destruct (pe_prop e name).
Qed.

Lemma value_unset size name : is_set name = false -> value size name = [].
Proof.
  unfold is_set, value, c_trunc. destruct (pe_prop e name); [|done]. by rewrite take_nil.
Qed.

Ltac get_value :=
  repeat match goal with
    | |- context [prop_get e ?n ?s] =>
        let H := fresh in destruct (prop_get_value n s) as [? H]; [unfold HNC_PLATFORM_STR_LEN; lia|];
        rewrite H; clear H; cbn [mbind option_bind]
    end.

Lemma prop_get2_value a b : prop_get2 e a b 64 = Some (ref_version [a; b]).
Proof.
  unfold prop_get2, ref_version. get_value. rewrite value_nil by lia. cbn [List.find].
  destruct (is_set a) eqn:Ea; cbn [negb]; [done|]. get_value.
  destruct (is_set b) eqn:Eb; [done|]. by rewrite value_unset.
Qed.

Lemma value_version p : value 64 p = ref_version [p].
Proof.
  unfold ref_version. cbn [List.find]. destruct (is_set p) eqn:E; [done|].
  by apply value_unset.
Qed.

(** ** The classifications *)

Lemma classify_soc_ref manuf hw board : classify_soc_vendor manuf hw board = soc_ref manuf hw board.
Proof.
  unfold classify_soc_vendor, soc_ref.
  assert (H1 : soc_of_manuf manuf = first_match same_ci manuf_table manuf).
  { unfold soc_of_manuf, first_match, manuf_table, same_ci. cbn [List.find snd existsb].
    rewrite !orb_false_r. case_bool_decide as E; [by subst|].
    repeat (case_match; [done|]). done. }
  assert (H2 : soc_of_hw hw = first_match strncasecmp_prefix hw_table hw).
  { unfold soc_of_hw, first_match, hw_table. cbn [List.find snd existsb].
    rewrite !orb_false_r. case_bool_decide as E; [by subst|].
    repeat (case_match; [done|]). done. }
  assert (H3 : soc_of_board board = first_match strncasecmp_prefix board_table board).
  { unfold soc_of_board, first_match, board_table. cbn [List.find snd].
    case_bool_decide as E; [by subst|]. destruct (existsb _ qcom_codenames); [done|].
    cbn [existsb]. rewrite !orb_false_r. repeat (case_match; [done|]). done. }
  rewrite H1, H2, H3. by destruct (first_match _ manuf_table _), (first_match _ hw_table _), (first_match _ board_table _).
Qed.

Definition marker_fits : bool :=
  match first_marker with
  | Some m => (length (pe_prop e m) <? 8)%nat
  | None => true
  end.

Lemma classify_rom_ref : classify_rom e = if marker_fits then Some (rr_rom ref_row) else None.
Proof.
  unfold classify_rom, prop_exists2, marker_fits, first_marker, ref_row.
  cbn [rom_table map concat app rr_markers List.find existsb].
  rewrite !prop_exists_value.
  repeat match goal with
    | |- context [is_set ?m] => destruct (is_set m); cbn [mbind option_bind orb existsb List.find];
        [by destruct (length (pe_prop e m) <? 8)%nat|]
    end.
  get_value. unfold is_aosp, same_ci. cbn [existsb]. rewrite orb_false_r, orb_assoc. by case_match.
Qed.

Lemma rom_details_rows :
  Forall (fun row => rom_details e (rr_rom row) = Some (str (rr_name row), ref_version (rr_version row)))
    (aosp_row :: unknown_row :: rom_table).
Proof.
  repeat constructor; unfold rom_details; cbn [rr_rom rr_name rr_version aosp_row unknown_row];
    rewrite ?prop_get2_value; get_value; by rewrite <- ?value_version.
Qed.

Lemma ref_row_in : ref_row ∈ aosp_row :: unknown_row :: rom_table.
Proof.
  unfold ref_row. destruct (List.find _ rom_table) as [r|] eqn:E.
  - apply find_some in E as [Hin%list_elem_of_In _]. by do 2 right.
  - destruct is_aosp; [left|right; left].
Qed.

Lemma rom_details_ref : rom_details e (rr_rom ref_row) = Some (str (rr_name ref_row), ref_version (rr_version ref_row)).
Proof. exact (proj1 (Forall_forall _ _) rom_details_rows _ ref_row_in). Qed.

(** ** The probe *)

Lemma or_else_trunc a b : c_trunc 64 (or_else (value 64 a) (value 64 b)) = or_else (value 64 a) (value 64 b).
Proof. unfold or_else, value. case_match; apply c_trunc_idem. Qed.

Lemma probe_soc_ref g :
  probe_soc e g =
  let manuf := value 64 "ro.soc.manufacturer" in
  let hw := value 64 "ro.hardware" in
  let board := value 64 "ro.product.board" in
  Some (set_soc (soc_ref manuf hw board) (or_else manuf hw) (or_else (value 64 "ro.soc.model") board) hw g).
Proof.
  unfold probe_soc. get_value. rewrite classify_soc_ref. unfold HNC_PLATFORM_STR_LEN.
  fold (or_else (value 64 "ro.soc.manufacturer") (value 64 "ro.hardware")).
  fold (or_else (value 64 "ro.soc.model") (value 64 "ro.product.board")).
  rewrite !or_else_trunc. by rewrite (c_trunc_idem 64 (pe_prop e "ro.hardware") : c_trunc 64 (value 64 "ro.hardware") = _).
Qed.

Lemma probe_android_ref g :
  probe_android e g =
  if (length (pe_prop e "ro.build.version.sdk") <? 32)%nat
  then Some (set_android (atoi (pe_prop e "ro.build.version.sdk")) (value 16 "ro.build.version.release") g)
  else None.
Proof.
  unfold probe_android, prop_get_int, getprop. destruct (_ <? 32)%nat; [|done]. cbn [mbind option_bind].
  destruct (Z.leb_spec (Z.of_nat (length (pe_prop e "ro.build.version.sdk"))) 0) as [H|H].
  - destruct (pe_prop e "ro.build.version.sdk") as [|c v]; [|cbn in H; lia]. get_value. done.
  - get_value. done.
Qed.

Lemma probe_rom_ref g :
  probe_rom e g = if marker_fits then Some (set_rom (rr_rom ref_row) (str (rr_name ref_row))
                                              (ref_version (rr_version ref_row)) g) else None.
Proof.
  unfold probe_rom. rewrite classify_rom_ref. destruct marker_fits; [|done]. cbn [mbind option_bind].
  by rewrite rom_details_ref.
Qed.

Lemma platform_probe_ref g : platform_probe e g = if probe_fits then Some (0, platform_ref) else None.
Proof.
  unfold platform_probe, probe_fits. fold marker_fits.
  rewrite probe_soc_ref. cbn [mbind option_bind]. rewrite probe_android_ref.
  destruct (_ <? 32)%nat; [|by rewrite andb_false_r]. cbn [mbind option_bind]. rewrite probe_rom_ref.
  destruct marker_fits; [|done]. cbn [mbind option_bind andb]. do 2 f_equal.
  unfold platform_ref. cbn [existsb]. rewrite orb_false_r, !orb_assoc.
  unfold probe_kernel, ref_kernel. by destruct (pe_uname e).
Qed.

(** C29: the probe looks the vendor of the chip and the ROM up in the tables, with the given
    precedence, and stores every value cut to its field, whatever [g_platform] held before;
    it has a result exactly if the marker that tells the ROM has at most 7 characters and
    the API level at most 31: a longer value is written behind a buffer. *)
Theorem platform_probe_spec (g : platform_info) :
  platform_probe e g = if probe_fits then Some (0, platform_ref) else None.
Proof. exact (platform_probe_ref g). Qed.
End spec.

(** ** The report *)

(** What a reader is to see. *)
Definition platform_value (g : platform_info) : json :=
  JObj [
    jfld "soc" (JObj [
      jfld "vendor" (JStr (platform_soc_vendor_str (pi_soc_vendor g)));
      jfld "model" (JStr (pi_soc_model g)); jfld "hardware" (JStr (pi_soc_hardware g));
      jfld "raw" (JStr (pi_soc_vendor_raw g))]);
    jfld "android" (JObj [
      jfld "api" (JNum (pi_android_api g)); jfld "release" (JStr (pi_android_release g))]);
    jfld "rom" (JObj [
      jfld "id" (JStr (platform_rom_str (pi_rom g))); jfld "name" (JStr (pi_rom_name g));
      jfld "version" (JStr (pi_rom_version g))]);
    jfld "kernel" (JObj [
      jfld "release" (JStr (pi_kernel_release g)); jfld "major" (JNum (pi_kernel_major g));
      jfld "minor" (JNum (pi_kernel_minor g)); jfld "patch" (JNum (pi_kernel_patch g))]);
    jfld "offload" (JObj [
      jfld "bpf_tethering" (JBool (pi_has_bpf_tethering g));
      jfld "bpf_tethering_partial" (JBool (pi_has_bpf_tethering_partial g));
      jfld "mtk_ppe" (JBool (pi_has_mtk_ppe g)); jfld "samsung_nss" (JBool (pi_has_samsung_nss g));
      jfld "bpf_syscall_ok" (JBool (pi_bpf_syscall_ok g))]);
    jfld "apex_connectivity" (JNum (pi_apex_connectivity_version g))].

Definition texts (g : platform_info) : list bytes :=
  [pi_soc_model g; pi_soc_hardware g; pi_soc_vendor_raw g; pi_android_release g; pi_rom_name g;
   pi_rom_version g; pi_kernel_release g].
Definition numbers (g : platform_info) : list Z :=
  [pi_android_api g; pi_kernel_major g; pi_kernel_minor g; pi_kernel_patch g; pi_apex_connectivity_version g].

(** The C types of the fields, and texts that need no escapes. *)
Record platform_wf (g : platform_info) : Prop := PlatformWf {
  pw_texts : Forall (fun s => (length s < 64)%nat) (texts g);
  pw_numbers : Forall (fun z => - 2 ^ 31 <= z < 2 ^ 31) (numbers g)
}.
Definition platform_plain (g : platform_info) : Prop := Forall (fun s => plain s = true) (texts g).

Lemma vendor_str_plain v : plain (platform_soc_vendor_str v) = true.
Proof. by destruct v. Qed.
Lemma rom_str_plain r : plain (platform_rom_str r) = true.
Proof. by destruct r. Qed.

Lemma platform_text_print g : platform_plain g -> platform_text g = print_json (platform_value g).
Proof.
  intros H. unfold platform_plain, texts in H.
  repeat (apply Forall_cons in H as [? H]).
  pose proof (vendor_str_plain (pi_soc_vendor g)). pose proof (rom_str_plain (pi_rom g)).
  unfold platform_text, platform_value. json_text.
Qed.

Lemma platform_value_ok g : platform_plain g -> json_ok (platform_value g).
Proof.
  intros H. unfold platform_plain, texts in H.
  repeat (apply Forall_cons in H as [? H]).
  pose proof (vendor_str_plain (pi_soc_vendor g)). pose proof (rom_str_plain (pi_rom g)).
  unfold platform_value. json_wf.
Qed.

Lemma platform_text_length g : platform_wf g -> (length (platform_text g) <= 7 * 63 + 5 * 11 + 5 * 5 + 16 + 400)%nat.
Proof.
  intros [Ht Hn]. unfold texts, numbers in *.
  repeat (apply Forall_cons in Ht as [? Ht]).
  repeat match type of Hn with Forall _ (?z :: _) =>
    apply Forall_cons in Hn as [? Hn]; pose proof (dec_length_32 z ltac:(lia)) end.
  pose proof (jbool_length (pi_has_bpf_tethering g)). pose proof (jbool_length (pi_has_bpf_tethering_partial g)).
  pose proof (jbool_length (pi_has_mtk_ppe g)). pose proof (jbool_length (pi_has_samsung_nss g)).
  pose proof (jbool_length (pi_bpf_syscall_ok g)).
  assert (length (platform_soc_vendor_str (pi_soc_vendor g)) <= 8)%nat by (destruct (pi_soc_vendor g); vm_compute; lia).
  assert (length (platform_rom_str (pi_rom g)) <= 8)%nat by (destruct (pi_rom g); vm_compute; lia).
  unfold platform_text. rewrite !length_app, !key_length, !quoted_length. cbn [length String.length]. lia.
Qed.

Lemma scan_d_range s v r : scan_d s = Some (v, r) -> - 2 ^ 31 <= v < 2 ^ 31.
Proof.
  unfold scan_d. destruct (scan_ld s) as [[w rest]|]; [|done]. cbn. intros [= <- <-]. apply s32_range.
Qed.

Definition int_range (z : Z) : Prop := - 2 ^ 31 <= z < 2 ^ 31.

Lemma scan_version_range release :
  let v := scan_version release in int_range v.1.1 /\ int_range v.1.2 /\ int_range v.2.
Proof.
  assert (H0 : int_range 0) by (unfold int_range; lia).
  unfold scan_version. destruct (scan_d release) as [[a r]|] eqn:E1; [apply scan_d_range in E1|done].
  destruct (r' ← strip_prefix [46] r; scan_d r') as [[b r2]|] eqn:E2; [|done].
  destruct (strip_prefix [46] r) as [r'|]; [apply scan_d_range in E2|done].
  destruct (r' ← strip_prefix [46] r2; scan_d r') as [[c r3]|] eqn:E3; [|done].
  destruct (strip_prefix [46] r2) as [r2'|]; [apply scan_d_range in E3; done|done].
Qed.

Section report.
Context (e : plat_env).

Lemma value_length size name : (0 < size)%nat -> (length (value e size name) < size)%nat.
Proof. apply c_trunc_length. Qed.

Lemma ref_version_cases l : ref_version e l = [] \/ exists p, ref_version e l = value e 64 p.
Proof. unfold ref_version. destruct (List.find _ l); [right; by eexists|by left]. Qed.

Lemma or_else_cases (P : bytes -> Prop) a b : P a -> P b -> P (or_else a b).
Proof. unfold or_else. by case_bool_decide. Qed.

Lemma row_name_ok : plain (str (rr_name (ref_row e))) = true /\ (length (str (rr_name (ref_row e))) < 64)%nat.
Proof.
  assert (H : forallb (fun r => plain (str (rr_name r)) && (length (str (rr_name r)) <? 64)%nat)
                (aosp_row :: unknown_row :: rom_table) = true) by by vm_compute.
  pose proof (forallb_elem _ _ _ H (ref_row_in e)) as Hr. cbn beta in Hr. apply andb_prop in Hr as [? ?%Nat.ltb_lt]. done.
Qed.

Lemma platform_ref_wf : platform_wf (platform_ref e).
Proof.
  assert (Hk : (length (ref_kernel e).1 < 64)%nat /\
    int_range (ref_kernel e).2.1.1 /\ int_range (ref_kernel e).2.1.2 /\ int_range (ref_kernel e).2.2).
  { unfold ref_kernel. destruct (pe_uname e) as [release|]; cbn [fst snd].
    - split; [by apply c_trunc_length; lia|apply scan_version_range].
    - split; [vm_compute; lia|]. unfold int_range. lia. }
  destruct Hk as (Hr & H1 & H2 & H3). constructor; unfold texts, numbers, platform_ref; cbn [pi_soc_model pi_soc_hardware
    pi_soc_vendor_raw pi_android_release pi_rom_name pi_rom_version pi_kernel_release pi_android_api
    pi_kernel_major pi_kernel_minor pi_kernel_patch pi_apex_connectivity_version].
  - assert (Hv : forall p, (length (value e 64 p) < 64)%nat) by (intros; apply value_length; lia).
    repeat (apply Forall_cons; split);
      try (apply (or_else_cases (fun s => (length s < 64)%nat)); apply Hv); try apply Hv; try apply row_name_ok;
      try done; try (by constructor).
    + pose proof (value_length 16 "ro.build.version.release"). lia.
    + destruct (ref_version_cases (rr_version (ref_row e))) as [->|[p ->]]; [cbn; lia|apply Hv].
  - apply Forall_cons. split; [apply s32_range|].
    repeat (apply Forall_cons; split); try done; try (by constructor); by case_match.
Qed.

(** What the phone answers needs no escapes. *)
Hypothesis plain_props : forall name, plain (pe_prop e name) = true.
Hypothesis plain_uname : forall release, pe_uname e = Some release -> plain release = true.

Lemma plain_take n s : plain s = true -> plain (take n s) = true.
Proof.
  unfold plain. rewrite !forallb_forall. intros H c Hc. apply H. apply list_elem_of_In in Hc.
  apply list_elem_of_In. by eapply elem_of_take in Hc as (i & ? & _); eapply list_elem_of_lookup_2.
Qed.

Lemma platform_ref_plain : platform_plain (platform_ref e).
Proof.
  assert (Hv : forall n p, plain (value e n p) = true) by (intros; by apply plain_take).
  unfold platform_plain, texts, platform_ref; cbn [pi_soc_model pi_soc_hardware
    pi_soc_vendor_raw pi_android_release pi_rom_name pi_rom_version pi_kernel_release].
  repeat (apply Forall_cons; split);
    try (apply (or_else_cases (fun s => plain s = true)); apply Hv); try apply Hv; try apply row_name_ok;
    try (by constructor).
  - destruct (ref_version_cases (rr_version (ref_row e))) as [->|[p ->]]; [done|apply Hv].
  - unfold ref_kernel. destruct (pe_uname e) eqn:E; [|done]. by apply plain_take, plain_uname.
Qed.

(** The buffer of the command [platform_probe]. *)
Definition REPORT_BUF : nat := Z.to_nat 4096.

(** The report on a phone whose answers need no escapes always fits the buffer of the
    command that prints it, and is a JSON object that shows every field of what the probe
    found; the probe's numbers are in the range of [int] and its texts in their fields. *)
Lemma platform_report_readable (g g' : platform_info) :
  (forall name, (length (pe_prop e name) < PROP_VALUE_MAX)%nat) ->
  platform_probe e g = Some (0, g') ->
  platform_wf g' /\
  exists text, platform_dump_json g' REPORT_BUF = Some text /\ parse_json text = Some (platform_value g').
Proof.
  intros Hmax Hp. rewrite platform_probe_ref in Hp by done. destruct (probe_fits e); [|done].
  injection Hp as <-. pose proof platform_ref_wf as Hwf. split; [done|].
  pose proof (platform_text_length _ Hwf) as Hl. pose proof platform_ref_plain as Hpl.
  assert (Hb : REPORT_BUF = (2048 + 2048)%nat) by by vm_compute. rewrite Hb.
  unfold platform_dump_json. rewrite (proj2 (Nat.eqb_neq _ _)) by lia.
  rewrite (proj2 (Nat.leb_gt _ _)) by lia. eexists. split; [done|].
  rewrite platform_text_print by done. by apply parse_print_json, platform_value_ok.
Qed.
End report.

(** A release of the usual form is taken apart. *)
Lemma kernel_version_read a b c rest :
  int_range a -> int_range b -> int_range c -> (forall x, head rest = Some x -> is_digit x = false) ->
  scan_version (dec a ++ [46] ++ dec b ++ [46] ++ dec c ++ rest) = (a, b, c).
Proof.
  unfold int_range. intros Ha Hb Hc Hr.
  assert (H : forall z r, - 2 ^ 31 <= z < 2 ^ 31 -> (forall x, head r = Some x -> is_digit x = false) ->
    scan_d (dec z ++ r) = Some (z, r)).
  { intros z r Hz Hh. unfold scan_d. pose proof (scan_ld_dec z [] r eq_refl) as Hd. cbn [app] in Hd.
    rewrite Hd by (unfold LONG_MIN, LONG_MAX; done || lia). cbn. by rewrite s32_id. }
  unfold scan_version. rewrite H by (done || by intros ? [= <-]).
  rewrite (strip_prefix_app [46]). cbn [mbind option_bind]. rewrite H by (done || by intros ? [= <-]).
  rewrite (strip_prefix_app [46]). cbn [mbind option_bind]. by rewrite H.
Qed.

(** ** Phones *)

Definition props_of (l : list (string * bytes)) (name : string) : bytes :=
  match List.find (fun kv => String.eqb kv.1 name) l with Some kv => kv.2 | None => [] end.

Lemma props_of_all (P : bytes -> bool) l name :
  P [] = true -> forallb (fun kv => P kv.2) l = true -> P (props_of l name) = true.
Proof.
  intros H0 Hl. unfold props_of. destruct (List.find _ l) as [kv|] eqn:E; [|done].
  apply find_some in E as [Hin _]. rewrite forallb_forall in Hl. by apply Hl.
Qed.

Definition coloros_props : list (string * bytes) := [
  ("ro.soc.manufacturer", str "QTI"); ("ro.hardware", str "qcom"); ("ro.product.board", str "sun");
  ("ro.soc.model", str "SM8750"); ("ro.build.version.sdk", str "36"); ("ro.build.version.release", str "16");
  ("ro.build.version.oplusrom", str "V16.0.0")]%string.
Definition coloros : plat_env :=
  PlatEnv (props_of coloros_props) (fun p => String.eqb p LIMIT_MAP_PATH || String.eqb p TETHER_DIR)
    (Some (str "6.6.102-android16-8")) (fun _ => true).

(** The version of EMUI has more than seven characters: the test whether it is set writes
    nine bytes behind a buffer on the stack. *)
Definition emui : plat_env :=
  PlatEnv (props_of [("ro.build.version.emui", str "EmotionUI_13.0.0")]%string) (fun _ => false) None (fun _ => false).

Lemma emui_overruns g : platform_probe emui g = None.
Proof. by vm_compute. Qed.

(** On OneUI the version stays empty when only the second marker is set. *)
Lemma oneui_without_version :
  exists g, platform_probe (PlatEnv (props_of [("sys.oneui.version", str "70000")]%string) (fun _ => false) None
                              (fun _ => false)) platform_zero = Some (0, g) /\
    pi_rom g = PLAT_ROM_ONEUI /\ pi_rom_version g = [].
Proof. eexists. split; [by vm_compute|]. split; [by vm_compute|by vm_compute]. Qed.

(** A quote in a property breaks the report. *)
Lemma quote_breaks_report :
  exists g text, platform_probe (PlatEnv (props_of [("ro.soc.model"%string, str "SM" ++ [QUOTE])]) (fun _ => false) None
                              (fun _ => false)) platform_zero = Some (0, g) /\
    platform_dump_json g REPORT_BUF = Some text /\ parse_json text = None.
Proof. eexists _, _. split; [vm_compute; reflexivity|]. split; [vm_compute; reflexivity|by vm_compute]. Qed.

Lemma coloros_max name : (length (pe_prop coloros name) < PROP_VALUE_MAX)%nat.
Proof.
  apply Nat.ltb_lt. cbn [pe_prop coloros].
  by apply (props_of_all (fun v => length v <? PROP_VALUE_MAX)%nat); vm_compute.
Qed.

Lemma platform_probe_spec_witness :
  platform_probe coloros platform_zero = Some (0, platform_ref coloros) /\
  pi_soc_vendor (platform_ref coloros) = PLAT_SOC_QCOM /\ pi_rom_version (platform_ref coloros) = str "V16.0.0".
Proof.
  split; [|by vm_compute]. assert (Hf : probe_fits coloros = true) by by vm_compute.
  rewrite (platform_probe_spec coloros coloros_max platform_zero). by rewrite Hf.
Defined.

Lemma platform_report_readable_witness :
  exists text, platform_dump_json (platform_ref coloros) REPORT_BUF = Some text /\
    parse_json text = Some (platform_value (platform_ref coloros)).
Proof.
  assert (Hp : platform_probe coloros platform_zero = Some (0, platform_ref coloros)) by (vm_compute; reflexivity).
  assert (Hpl : forall name, plain (pe_prop coloros name) = true)
    by (intros name; cbn [pe_prop coloros]; apply props_of_all; vm_compute; reflexivity).
  assert (Hu : forall r, pe_uname coloros = Some r -> plain r = true) by (intros r [= <-]; vm_compute; reflexivity).
  exact (proj2 (platform_report_readable coloros Hpl Hu platform_zero (platform_ref coloros) coloros_max Hp)).
Defined.
