(* ===== verification/UpstreamSpec.v ===== *)
(** * What the upstream detection finds

    The detection against the tables it reads: lists of map entries, of routes and
    of the words of [ip route get].  The scheduler's interface to it is discharged
    at the end. *)
From S2P Require Import Prelude CStr Stdio.
From S2P Require Import BpfAdapter Upstream Scheduler.
Local Open Scope Z_scope.
#[local] Arguments c_trunc : simpl never.

(** ** The tables *)

(** The first key of a list of entries, as [BPF_MAP_GET_NEXT_KEY] gives it. *)
Definition head_key {K V} (es : list (K * V)) : K + Z :=
  match es with [] => inr ENOENT | (k, _) :: _ => inl k end.

(** A map holds the entries [es], in the order the kernel walks them.  One of the two
    ways to ask for the first key may answer [ENOENT]: old kernels do for the
    all-zero key when they want the null pointer, newer ones the other way round. *)
Record map_shows {K V} (m : bpf_map K V) (zero : K) (es : list (K * V)) : Prop := MapShows {
  ms_seed : bm_next m (Some zero) = head_key es \/
            (bm_next m (Some zero) = inr ENOENT /\ bm_next m None = head_key es);
  ms_null : bm_next m None = head_key es \/ bm_next m None = inr ENOENT;
  ms_next l1 k v l2 : es = l1 ++ (k, v) :: l2 -> bm_next m (Some k) = head_key l2;
  ms_lookup k v : (k, v) ∈ es -> bm_lookup m k = Some v
}.

(** One route of [/proc/net/route], as the kernel prints it (["%s\t%08X\t%08X\t%04X\t..."]). *)
Record route_entry := RouteEntry {
  re_iface : bytes; re_dest : Z; re_gateway : Z; re_flags : Z; re_rest : bytes
}.
Definition hex_upper (n : Z) : Z := if n <? 10 then 48 + n else 55 + n.
Fixpoint hexU (w : nat) (n : Z) : bytes :=
  match w with O => [] | S w => hexU w (n / 16) ++ [hex_upper (n mod 16)] end.
Definition route_line (e : route_entry) : bytes :=
  re_iface e ++ TAB :: hexU 8 (re_dest e) ++ TAB :: hexU 8 (re_gateway e)
  ++ TAB :: hexU 4 (re_flags e) ++ TAB :: re_rest e.

(** One line of [ip route get]: pieces without blanks (empty ones where blanks follow
    each other), with one blank between them. *)
Fixpoint join (ws : list bytes) : bytes :=
  match ws with
  | [] => []
  | w :: ws => w ++ match ws with [] => [] | _ => 32 :: join ws end
  end.

Definition text_of (ls : list bytes) : bytes := concat (map (fun l => l ++ [NL]) ls).

(** A line that one [fgets] reads. *)
Definition line_ok (l : bytes) : Prop :=
  Forall is_cchar l /\ NL ∉ l /\ (length l + 2 < LINE_SIZE)%nat.

Record route_ok (e : route_entry) : Prop := RouteOk {
  ro_iface : is_word (re_iface e) = true;
  ro_iface_len : (length (re_iface e) < IFNAMSIZ)%nat;
  ro_flags : 0 <= re_flags e < 2 ^ 16;
  ro_line : line_ok (route_line e)
}.
Definition words_ok (ws : list bytes) : Prop :=
  Forall (fun w => forallb not_space w = true) ws /\ line_ok (join ws).

(** What the phone's tables say; an absent one cannot be opened. *)
Record tables := Tables {
  tb_upstream4 : option (list (bytes * bytes));
  tb_limit : option (list (Z * Z));
  tb_ip_route : option (list (list bytes));
  tb_routes : option (bytes * list route_entry)
}.

(** A view that shows the tables. *)
Record shows (nv : net_view) (t : tables) : Prop := Shows {
  sh_upstream4 : option_Forall2 (fun es m => map_shows m (replicate KEY_SIZE 0) es)
                   (tb_upstream4 t) (nv_upstream4 nv);
  sh_values : Forall (fun e => Forall is_byte e.2) (default [] (tb_upstream4 t));
  sh_limit : option_Forall2 (fun es m => map_shows m 0 es) (tb_limit t) (nv_limit nv);
  sh_ip_route : Forall words_ok (default [] (tb_ip_route t)) /\
                nv_ip_route nv = (fun ls => text_of (map join ls)) <$> tb_ip_route t;
  sh_routes : match tb_routes t with
              | Some (header, es) => line_ok header /\ Forall route_ok es
              | None => True
              end /\
              nv_proc_route nv = (fun '(header, es) => text_of (header :: map route_line es)) <$> tb_routes t
}.

(** ** What is to be found *)

Definition first_of {A B} (f : A -> option B) (l : list A) : option B := head (omap f l).

(** The little-endian number at the start of a value. *)
Definition le_oif (value : bytes) : Z :=
  byte_at 0 value + 256 * byte_at 1 value + 65536 * byte_at 2 value + 16777216 * byte_at 3 value.

Definition viable_oif (nv : net_view) (value : bytes) : option (Z * bytes) :=
  let oif := le_oif value in
  if (1 <=? oif) && (oif <=? 65535) then name ← nv_name nv oif; Some (oif, name) else None.

(** An index that the hotspot does not use itself, with a name that is neither the
    hotspot's nor a tunnel's. *)
Definition viable_key (nv : net_view) (idx : Z) : option (Z * bytes) :=
  if (idx =? 0) || existsb (fun n => negb (nv_index nv n =? 0) && (idx =? nv_index nv n))
                     [str "wlan2"; str "ap0"; str "swlan0"]
  then None
  else name ← nv_name nv idx;
       if has_prefix downstream_prefixes name then None else Some (idx, name).

Definition known (nv : net_view) (name : bytes) : option (Z * bytes) :=
  if nv_index nv name =? 0 then None else Some (nv_index nv name, name).

(** The piece after the first [dev] that has a blank on both sides. *)
Fixpoint after_dev (ws : list bytes) : option bytes :=
  match ws with
  | [] => None
  | _ :: r => match r with
              | d :: x :: _ => if bool_decide (d = str "dev") then Some x else after_dev r
              | _ => None
              end
  end.
Definition viable_words (nv : net_view) (ws : list bytes) : option (Z * bytes) :=
  x ← after_dev ws;
  let name := take (IFNAMSIZ - 1) x in
  if bool_decide (name = []) || has_prefix vpn_prefixes name then None else known nv name.

Definition viable_route (nv : net_view) (e : route_entry) : option (Z * bytes) :=
  if Z.odd (re_flags e) && looks_like_uplink_iface (re_iface e) then known nv (re_iface e) else None.

(** The detection by the tables: the upstream of the first flow, else the first of 16
    upstreams with a quota that is viable, else the device of the route, else the first
    route that is up and goes to an interface with an uplink's name. *)
Definition detected (nv : net_view) (t : tables) : option (Z * bytes) :=
  (es ← tb_upstream4 t; '(_, value) ← head es; viable_oif nv value)
  ∪ (es ← tb_limit t; first_of (viable_key nv) (fst <$> take MAX_UPSTREAMS es))
  ∪ (ls ← tb_ip_route t; first_of (viable_words nv) ls)
  ∪ ('(_, es) ← tb_routes t; first_of (viable_route nv) es).

(** ** The tiers in order *)

Lemma none_union {A} (r : option A) : None ∪ r = r.
Proof. by destruct r. Qed.
Lemma first_of_cons {A B} (f : A -> option B) x l : first_of f (x :: l) = f x ∪ first_of f l.
Proof.
  unfold first_of. cbn. destruct (f x); cbn; [|by destruct (head _)].
  by destruct (head (omap f l)).
Qed.

Definition tier3 (nv : net_view) : option (Z * bytes) := m ← nv_upstream4 nv; bpf_upstream nv m.
Definition tier4 (nv : net_view) : option (Z * bytes) :=
  m ← nv_limit nv; limit_map_indices nv (collect_keys m MAX_UPSTREAMS true 0).
Definition tier1 (nv : net_view) : option (Z * bytes) :=
  text ← nv_ip_route nv; ip_route_lines nv (fgets_lines LINE_SIZE text).
Definition tier2 (nv : net_view) : option (Z * bytes) :=
  text ← nv_proc_route nv; proc_route_lines nv (tail (fgets_lines LINE_SIZE text)).

Lemma detect_tiers nv size o :
  (2 <= size)%nat ->
  upstream_detect_primary nv size o
  = publish size (tier3 nv ∪ tier4 nv ∪ tier1 nv ∪ tier2 nv) o.
Proof.
  intros Hs. unfold upstream_detect_primary, upstream_detect_via_bpf,
    upstream_detect_via_limit_map, upstream_detect_via_ip_route, upstream_detect_via_proc_route.
  rewrite (proj2 (Nat.ltb_ge _ _) Hs). 
  change (match nv_upstream4 nv with None => None | Some m => bpf_upstream nv m end) with (tier3 nv).
  change (match nv_limit nv with
          | None => None
          | Some m => limit_map_indices nv (collect_keys m MAX_UPSTREAMS true 0)
          end) with (tier4 nv).
  change (match nv_ip_route nv with
          | None => None
          | Some text => ip_route_lines nv (fgets_lines LINE_SIZE text)
          end) with (tier1 nv).
  assert (Ht : match nv_proc_route nv with
               | Some text => match fgets_lines LINE_SIZE text with
                              | [] => None
                              | _ :: lines => proc_route_lines nv lines
                              end
               | None => None
               end = tier2 nv).
  { unfold tier2. destruct (nv_proc_route nv) as [text|]; [|done]. cbn [mbind option_bind].
    by destruct (fgets_lines LINE_SIZE text). }
  rewrite Ht. clear Ht.
  by destruct (tier3 nv) as [[]|], (tier4 nv) as [[]|], (tier1 nv) as [[]|], (tier2 nv) as [[]|].
Qed.

(** *** The maps *)

Lemma first_key_shows {K V} (m : bpf_map K V) zero es :
  map_shows m zero es -> first_key m zero = head_key es.
Proof.
  intros [Hs Hn _ _]. unfold first_key. destruct Hs as [Hs|[Hs Hs']]; rewrite Hs.
  - destruct es as [|[k v] es]; [|done]. cbn. by destruct Hn as [->| ->].
  - done.
Qed.

Lemma byte_at_range value i : Forall is_byte value -> 0 <= byte_at i value < 256.
Proof.
  intros Hv. unfold byte_at. destruct (nth_in_or_default i value 0) as [H|H].
  - apply list_elem_of_In in H. by apply (proj1 (Forall_forall _ _) Hv).
  - rewrite H. lia.
Qed.

Lemma value_oif_le value : Forall is_byte value -> value_oif value = le_oif value.
Proof.
  intros Hv. unfold value_oif, le_oif.
  pose proof (byte_at_range value 0 Hv). pose proof (byte_at_range value 1 Hv).
  pose proof (byte_at_range value 2 Hv). pose proof (byte_at_range value 3 Hv).
  rewrite (Z.lor_comm _ (Z.shiftl (byte_at 3 value) 24)), (Z.lor_comm _ (Z.shiftl (byte_at 2 value) 16)),
    (Z.lor_comm (byte_at 0 value)).
  rewrite (lor_shiftl_add (byte_at 1 value)) by lia.
  rewrite (lor_shiftl_add (byte_at 2 value)) by lia. rewrite lor_shiftl_add by lia. lia.
Qed.

Lemma tier3_detected nv t :
  shows nv t -> tier3 nv = es ← tb_upstream4 t; '(_, value) ← head es; viable_oif nv value.
Proof.
  intros [Hu Hb _ _ _]. unfold tier3. destruct Hu as [es m Hm|]; [|done].
  cbn [mbind option_bind]. unfold bpf_upstream.
  rewrite (first_key_shows _ _ _ Hm). destruct es as [|[k v] es]; [done|].
  cbn [default] in Hb. apply Forall_cons in Hb as [Hv _]. cbn [snd] in Hv.
  cbn [head_key head mbind option_bind]. rewrite (ms_lookup _ _ _ Hm k v) by left.
  unfold viable_oif. rewrite value_oif_le by done.
  assert (0 <= le_oif v) by (unfold le_oif; pose proof (byte_at_range v 0 Hv);
    pose proof (byte_at_range v 1 Hv); pose proof (byte_at_range v 2 Hv);
    pose proof (byte_at_range v 3 Hv); lia).
  destruct (nv_name nv (le_oif v)); zcases.
Qed.

Lemma collect_keys_next {V} (m : bpf_map Z V) zero es : map_shows m zero es ->
  forall room l1 k v l2, es = l1 ++ (k, v) :: l2 -> collect_keys m room false k = take room (fst <$> l2).
Proof.
  intros Hm. induction room as [|room IH]; intros l1 k v l2 Hes; [done|].
  cbn [collect_keys]. rewrite (ms_next _ _ _ Hm l1 k v l2 Hes).
  destruct l2 as [|[k' v'] l2]; [done|]. cbn. f_equal.
  apply (IH (l1 ++ [(k, v)]) k' v'). by rewrite <- app_assoc.
Qed.

(** The loop collects the first keys of the map. *)
Lemma collect_keys_shows {V} (m : bpf_map Z V) es room :
  map_shows m 0 es -> collect_keys m room true 0 = take room (fst <$> es).
Proof.
  intros Hm. destruct room as [|room]; [done|]. cbn [collect_keys].
  rewrite (first_key_shows _ _ _ Hm). destruct es as [|[k v] es]; [done|]. cbn. f_equal.
  by apply (collect_keys_next m 0 ((k, v) :: es) Hm room [] k v).
Qed.

Lemma limit_map_first nv idxs : limit_map_indices nv idxs = first_of (viable_key nv) idxs.
Proof.
  induction idxs as [|idx idxs IH]; [done|]. rewrite first_of_cons, <- IH. cbn [limit_map_indices].
  unfold viable_key, is_iface. cbn [existsb]. generalize (limit_map_indices nv idxs). intros r.
  destruct (idx =? 0); [symmetry; apply none_union|]. cbn [orb].
  destruct (negb _ && (idx =? nv_index nv (str "wlan2"))); [symmetry; apply none_union|].
  destruct (negb _ && (idx =? nv_index nv (str "ap0"))); [symmetry; apply none_union|].
  destruct (negb _ && (idx =? nv_index nv (str "swlan0"))); [symmetry; apply none_union|].
  destruct (nv_name nv idx) as [name|]; [|by destruct r].
  cbn [orb mbind option_bind]. destruct (has_prefix downstream_prefixes name); by destruct r.
Qed.

Lemma tier4_detected nv t :
  shows nv t -> tier4 nv = es ← tb_limit t; first_of (viable_key nv) (fst <$> take MAX_UPSTREAMS es).
Proof.
  intros [_ _ Hl _ _]. unfold tier4. destruct Hl as [es m Hm|]; [|done]. cbn [mbind option_bind].
  by rewrite limit_map_first, (collect_keys_shows _ _ _ Hm), fmap_take.
Qed.

(** *** The output of [ip route get] *)

(** A word without blanks before a blank is the prefix [p] only when it is [p]. *)
Lemma starts_with_word p : forall d c x,
  forallb not_space p = true -> forallb not_space d = true -> isspace c = true ->
  starts_with (p ++ [32]) (d ++ c :: x) = bool_decide (d = p) && (c =? 32).
Proof.
  unfold starts_with. induction p as [|a p IH]; intros [|b d] c x Hp Hd Hc;
    cbn [app strip_prefix forallb] in Hp, Hd |- *; bool_simpl.
  - rewrite (Z.eqb_sym 32). by destruct (c =? 32).
  - destruct (Z.eqb_spec 32 b) as [<-|]; [done|]. by rewrite bool_decide_eq_false_2.
  - destruct (Z.eqb_spec a c) as [->|]; [|by rewrite bool_decide_eq_false_2].
    unfold not_space in *. by rewrite Hc in *.
  - destruct (Z.eqb_spec a b) as [->|Hne].
    + rewrite IH by done. f_equal. apply bool_decide_ext. naive_solver.
    + rewrite bool_decide_eq_false_2 by congruence. done.
Qed.

(** What follows the first [DEV] of a text. *)
Definition behind_dev (s : bytes) : option bytes := '(_, q) ← strstr DEV s; Some (drop 5 q).

Lemma behind_dev_step c s :
  behind_dev (c :: s) = if starts_with DEV (c :: s) then Some (drop 4 s) else behind_dev s.
Proof.
  unfold behind_dev. cbn [strstr]. destruct (starts_with DEV (c :: s)); [done|].
  by destruct (strstr DEV s) as [[]|].
Qed.

Lemma behind_dev_word w s :
  forallb not_space w = true -> behind_dev (w ++ s) = behind_dev s.
Proof.
  induction w as [|c w IH]; intros Hw; [done|]. cbn in Hw. bool_simpl.
  cbn [app]. rewrite behind_dev_step, IH by done.
  assert (Hs : starts_with DEV (c :: w ++ s) = false); [|by rewrite Hs].
  change DEV with (32 :: str "dev" ++ [32]). unfold starts_with. cbn [strip_prefix].
  destruct (Z.eqb_spec 32 c) as [<-|]; done.
Qed.

Lemma behind_dev_blank s :
  behind_dev (32 :: s) = if starts_with (str "dev" ++ [32]) s then Some (drop 4 s) else behind_dev s.
Proof.
  rewrite behind_dev_step.
  assert (Hs : starts_with DEV (32 :: s) = starts_with (str "dev" ++ [32]) s) by done.
  by rewrite Hs.
Qed.

Lemma behind_dev_nl : behind_dev [NL] = None.
Proof. done. Qed.

(** The rest of the line after a piece: a blank and the next pieces, or the end. *)
Definition more (ws : list bytes) : bytes := match ws with [] => [NL] | _ => 32 :: join ws ++ [NL] end.
Lemma join_nl w ws : join (w :: ws) ++ [NL] = w ++ more ws.
Proof. cbn [join]. rewrite <- app_assoc. by destruct ws. Qed.

Lemma more_blank ws : exists c r, more ws = c :: r /\ isspace c = true /\ (c =? 32) = negb (bool_decide (ws = [])).
Proof.
  destruct ws as [|w ws]; [by exists NL, []|]. exists 32, (join (w :: ws) ++ [NL]).
  by rewrite bool_decide_eq_false_2.
Qed.

Lemma behind_dev_join ws :
  Forall (fun w => forallb not_space w = true) ws ->
  match after_dev ws with
  | None => behind_dev (join ws ++ [NL]) = None
  | Some x => forallb not_space x = true /\
              exists ws', behind_dev (join ws ++ [NL]) = Some (x ++ more ws')
  end.
Proof.
  induction ws as [|w [|d ws] IH]; intros Hws; [done| |]; apply Forall_cons in Hws as [Hw Hws];
    rewrite join_nl, behind_dev_word by done; [done|].
  specialize (IH Hws). apply Forall_cons in Hws as [Hd Hws].
  cbn [more]. rewrite behind_dev_blank, join_nl.
  destruct (more_blank ws) as (c & r & Hm & Hc & Hn).
  rewrite Hm, starts_with_word, Hn, <- Hm, <- join_nl by done.
  destruct ws as [|x ws]; cbn [after_dev negb bool_decide].
  { rewrite andb_false_r. exact IH. }
  rewrite (bool_decide_eq_false_2 (x :: ws = [])), andb_true_r by done.
  destruct (bool_decide_reflect (d = str "dev")) as [Hdev|]; [|exact IH].
  apply Forall_cons in Hws as [Hx _]. split; [done|]. exists ws. subst d.
  rewrite join_nl. cbn [more]. by rewrite (join_nl x ws).
Qed.

Lemma line_iface_words ws :
  Forall (fun w => forallb not_space w = true) ws ->
  line_iface (join ws ++ [NL])
  = x ← after_dev ws;
    if bool_decide (take (IFNAMSIZ - 1) x = []) then None else Some (take (IFNAMSIZ - 1) x).
Proof.
  intros Hws%behind_dev_join. unfold line_iface, behind_dev in *.
  destruct (strstr DEV (join ws ++ [NL])) as [[pre q]|]; cbn [mbind option_bind] in Hws;
    destruct (after_dev ws) as [x|]; cbn [mbind option_bind]; try done; [|by destruct Hws as (_ & ? & ?)].
  destruct Hws as (Hx & ws' & [= ->]). destruct (more_blank ws') as (c & r & -> & Hc & _).
  destruct (take_while_app not_space x (c :: r)) as [-> _]; [|by intros ? [= <-]; unfold not_space; rewrite Hc|done].
  intros y Hy. by eapply forallb_elem in Hx.
Qed.

Lemma ip_route_first nv ls :
  Forall (Forall (fun w => forallb not_space w = true)) ls ->
  ip_route_lines nv (map (fun l => l ++ [NL]) (map join ls)) = first_of (viable_words nv) ls.
Proof.
  induction 1 as [|ws ls Hws _ IH]; [done|]. rewrite first_of_cons, <- IH. cbn [map ip_route_lines].
  rewrite line_iface_words by done. unfold viable_words.
  generalize (ip_route_lines nv (map (fun l => l ++ [NL]) (map join ls))). intros r.
  destruct (after_dev ws) as [x|]; cbn [mbind option_bind]; [|by destruct r].
  generalize (take (IFNAMSIZ - 1) x). intros name.
  destruct (bool_decide (name = [])); [by destruct r|]. cbn [orb].
  destruct (has_prefix vpn_prefixes name); [by destruct r|]. unfold known.
  destruct (nv_index nv name =? 0); by destruct r.
Qed.

Lemma tier1_detected nv t :
  shows nv t -> tier1 nv = ls ← tb_ip_route t; first_of (viable_words nv) ls.
Proof.
  intros [_ _ _ [Hok Ht] _]. unfold tier1. rewrite Ht. destruct (tb_ip_route t) as [ls|]; [|done].
  cbn [fmap option_fmap option_map mbind option_bind default] in *. unfold text_of.
  rewrite fgets_lines_text.
  - apply ip_route_first. eapply Forall_impl; [exact Hok|]. by intros ws [? _].
  - apply Forall_map. eapply Forall_impl; [exact Hok|]. by intros ws [_ ?].
Qed.

(** *** [/proc/net/route] *)

Lemma hex_upper_range n : 48 <= hex_upper (n mod 16) <= 57 \/ 65 <= hex_upper (n mod 16) <= 70.
Proof. unfold hex_upper. pose proof (Z.mod_pos_bound n 16). zcases. Qed.
Lemma hex_upper_val n : hex_val (hex_upper (n mod 16)) = n mod 16.
Proof.
  pose proof (Z.mod_pos_bound n 16). unfold hex_upper, hex_val, is_digit, is_lower_hex, is_upper_hex. zcases.
Qed.

(** A digit is no blank, no sign and no [x]. *)
Lemma hexU_char w n c :
  c ∈ hexU w n -> isxdigit c = true /\ not_space c = true /\ c <> 45 /\ c <> 43 /\ tolower c <> 120.
Proof.
  revert n. induction w as [|w IH]; intros n; [by intros ?%elem_of_nil|].
  cbn [hexU]. intros [Hc| ->%list_elem_of_singleton]%elem_of_app; [by eapply IH|].
  pose proof (hex_upper_range n). generalize dependent (hex_upper (n mod 16)). intros c Hc.
  unfold isxdigit, not_space, isspace, tolower, is_digit, is_lower_hex, is_upper_hex, is_upper.
  repeat apply conj; zcases.
Qed.
Lemma hexU_length w n : length (hexU w n) = w.
Proof. revert n. induction w as [|w IH]; intros n; [done|]. cbn. rewrite length_app, IH. cbn. lia. Qed.

Lemma hexU_value w : forall n v,
  0 <= n -> fold_left (fun v d => 16 * v + hex_val d) (hexU w n) v = v * 16 ^ Z.of_nat w + n mod 16 ^ Z.of_nat w.
Proof.
  induction w as [|w IH]; intros n v Hn; cbn [hexU]; [rewrite Z.mod_1_r; cbn; lia|].
  rewrite fold_left_app, IH by (apply Z.div_pos; lia). cbn [fold_left]. rewrite hex_upper_val.
  rewrite Nat2Z.inj_succ, Z.pow_succ_r by lia.
  rewrite (Z.rem_mul_r n 16) by lia. lia.
Qed.

Lemma hexU_word w n : is_word (hexU (S w) n) = true.
Proof.
  unfold is_word. rewrite bool_decide_eq_false_2.
  - apply forallb_forall. intros c Hc%list_elem_of_In. by apply hexU_char in Hc as (_ & ? & _).
  - intros H. apply (f_equal length) in H. by rewrite hexU_length in H.
Qed.

Lemma scan_x_hexU w n rest :
  0 <= n < 16 ^ Z.of_nat (S w) -> 16 ^ Z.of_nat (S w) <= 2 ^ 32 ->
  (forall c, head rest = Some c -> isspace c = true) ->
  scan_x (TAB :: hexU (S w) n ++ rest) = Some (n, rest).
Proof.
  intros Hn Hw Hr. unfold scan_x.
  pose proof (hexU_char (S w) n) as Hc. pose proof (hexU_value (S w) n 0 ltac:(lia)) as Hv.
  rewrite Z.mod_small in Hv by lia. destruct (hexU (S w) n) as [|d ds] eqn:E.
  { apply (f_equal length) in E. by rewrite hexU_length in E. }
  destruct (Hc d ltac:(left)) as (Hd & Hs & Hm & Hp & _). unfold not_space in Hs. bool_simpl.
  change (TAB :: (d :: ds) ++ rest) with ([TAB] ++ (d :: ds) ++ rest).
  rewrite drop_while_blanks; [|done|by intros ? [= <-]]. cbn [app].
  rewrite (proj2 (Z.eqb_neq d 45)), (proj2 (Z.eqb_neq d 43)) by done.
  assert (Hx : match d :: ds ++ rest with
               | z :: x :: h :: r =>
                   if (z =? 48) && (tolower x =? 120) && isxdigit h then h :: r else d :: ds ++ rest
               | _ => d :: ds ++ rest
               end = (d :: ds) ++ rest).
  { destruct ds as [|x ds]; cbn [app].
    - destruct rest as [|c rest]; [done|]. specialize (Hr c eq_refl). destruct rest; [done|].
      assert (tolower c =? 120 = false) as -> by
        (unfold tolower, is_upper; unfold isspace in Hr; zcases).
      by rewrite andb_false_r.
    - destruct (Hc x) as (_ & _ & _ & _ & Hx); [by right; left|].
      rewrite (proj2 (Z.eqb_neq _ 120) Hx), andb_false_r. cbn [andb]. by destruct (ds ++ rest). }
  rewrite Hx. destruct (take_while_app isxdigit (d :: ds) rest) as [-> _].
  { intros c Hc'. by apply Hc in Hc' as (? & _). }
  { intros c Hc'. specialize (Hr c Hc'). unfold isspace in Hr.
    unfold isxdigit, is_digit, is_lower_hex, is_upper_hex. zcases. }
  rewrite bool_decide_eq_false_2 by done. rewrite Hv, Z.add_0_l, drop_app_length.
  unfold ULONG_MAX. rewrite (proj2 (Z.ltb_ge _ _)) by lia. by rewrite u32_small by lia.
Qed.

Lemma scan_route_line e :
  route_ok e -> scan_route (route_line e ++ [NL]) = Some (re_iface e, re_flags e).
Proof.
  intros [Hi Hil Hf _]. unfold scan_route, route_line.
  repeat (rewrite <- app_assoc; cbn [app]).
  pose proof (scan_s_word 15 [] (re_iface e)) as H1. cbn [app] in H1.
  unfold IFNAMSIZ in Hil. rewrite H1; [|done|done|lia|by intros ? [= <-]]. cbn [mbind option_bind].
  pose proof (hexU_word 7 (re_dest e)) as Hd. pose proof (hexU_length 8 (re_dest e)) as Hdl.
  pose proof (hexU_word 7 (re_gateway e)) as Hg.
  pose proof (scan_s_word 15 [TAB] (hexU 8 (re_dest e))) as H2. cbn [app] in H2.
  rewrite H2; [|done|done|lia|by intros ? [= <-]]. cbn [mbind option_bind].
  pose proof (fun n => scan_s_word n [TAB] (hexU 8 (re_gateway e))) as H3. cbn [app] in H3.
  rewrite H3; [|done|done|cbn [length]; rewrite length_app; lia|by intros ? [= <-]].
  cbn [mbind option_bind].
  rewrite (scan_x_hexU 3) by (lia || by intros ? [= <-]). done.
Qed.

Lemma land_1_odd z : (Z.land z 1 =? 0) = negb (Z.odd z).
Proof.
  pose proof (land_pow2_testbit z 0 ltac:(lia)) as H. rewrite Z.bit0_odd in H. change (2 ^ 0) with 1 in H.
  rewrite <- H. by rewrite negb_involutive.
Qed.

Lemma proc_route_first nv es :
  Forall route_ok es ->
  proc_route_lines nv (map (fun l => l ++ [NL]) (map route_line es)) = first_of (viable_route nv) es.
Proof.
  induction 1 as [|e es He _ IH]; [done|]. rewrite first_of_cons, <- IH.
  cbn [map proc_route_lines]. rewrite scan_route_line by done. unfold viable_route. rewrite land_1_odd.
  generalize (proc_route_lines nv (map (fun l => l ++ [NL]) (map route_line es))). intros r.
  destruct (Z.odd (re_flags e)); [|by destruct r].
  destruct (looks_like_uplink_iface (re_iface e)); [|by destruct r]. unfold known. cbn [andb negb].
  destruct (nv_index nv (re_iface e) =? 0); by destruct r.
Qed.

Lemma tier2_detected nv t :
  shows nv t -> tier2 nv = '(_, es) ← tb_routes t; first_of (viable_route nv) es.
Proof.
  intros [_ _ _ _ [Hok Ht]]. unfold tier2. rewrite Ht.
  destruct (tb_routes t) as [[header es]|]; [|done]. destruct Hok as [Hh Hes].
  cbn [fmap option_fmap option_map mbind option_bind]. unfold text_of. rewrite fgets_lines_text.
  - cbn [map tail]. by apply proc_route_first.
  - constructor; [done|]. apply Forall_map. eapply Forall_impl; [exact Hes|]. by intros e [_ _ _ ?].
Qed.

Lemma tiers_detected nv t :
  shows nv t -> tier3 nv ∪ tier4 nv ∪ tier1 nv ∪ tier2 nv = detected nv t.
Proof.
  intros H. unfold detected.
  by rewrite (tier3_detected nv t), (tier4_detected nv t), (tier1_detected nv t), (tier2_detected nv t).
Qed.

(** ** The contract *)

(** The interface table: an index is positive and fits an [int], and a name is a
    non-empty string of at most 15 characters. *)
Record net_ok (nv : net_view) : Prop := NetOk {
  no_index name : 0 <= nv_index nv name < 2 ^ 31;
  no_name idx name : nv_name nv idx = Some name ->
    0 < idx < 2 ^ 31 /\ name <> [] /\ (length name < IFNAMSIZ)%nat
}.

Definition found_ok (r : option (Z * bytes)) : Prop :=
  match r with
  | Some (idx, name) => 0 < idx < 2 ^ 31 /\ name <> [] /\ (length name < IFNAMSIZ)%nat
  | None => True
  end.

Lemma found_union r r' : found_ok r -> found_ok r' -> found_ok (r ∪ r').
Proof. by destruct r as [[]|], r' as [[]|]. Qed.

Section contract.
Context (nv : net_view) (Hnv : net_ok nv).

Lemma tier3_found : found_ok (tier3 nv).
Proof.
  unfold tier3, bpf_upstream. destruct (nv_upstream4 nv) as [m|]; [|done]. cbn [mbind option_bind].
  destruct (first_key _ _); [|done]. destruct (bm_lookup _ _); [|done].
  destruct (_ || _); [done|]. destruct (nv_name nv _) eqn:E; [|done]. by apply no_name in E.
Qed.

Lemma tier4_found : found_ok (tier4 nv).
Proof.
  unfold tier4. destruct (nv_limit nv) as [m|]; [|done]. cbn [mbind option_bind].
  generalize (collect_keys m MAX_UPSTREAMS true 0). intros l.
  induction l as [|idx l IH]; [done|]. cbn [limit_map_indices].
  repeat case_match; try done. cbn. by eapply no_name.
Qed.

Lemma found_index name :
  name <> [] -> (length name < IFNAMSIZ)%nat -> nv_index nv name =? 0 = false ->
  found_ok (Some (nv_index nv name, name)).
Proof. intros Hn Hl Hi. bool_simpl. pose proof (no_index nv Hnv name). cbn. split; [lia|done]. Qed.

Lemma line_iface_ok line iface :
  line_iface line = Some iface -> iface <> [] /\ (length iface < IFNAMSIZ)%nat.
Proof.
  unfold line_iface. destruct (strstr DEV line) as [[]|]; [|done].
  case_bool_decide; [done|]. intros [= <-]. split; [done|]. rewrite length_take. unfold IFNAMSIZ. lia.
Qed.

Lemma tier1_found : found_ok (tier1 nv).
Proof.
  unfold tier1. destruct (nv_ip_route nv) as [text|]; [|done]. cbn [mbind option_bind].
  induction (fgets_lines LINE_SIZE text) as [|line lines IH]; [done|]. cbn [ip_route_lines].
  destruct (line_iface line) as [iface|] eqn:E; [|done]. apply line_iface_ok in E as [Hn Hl].
  destruct (has_prefix _ _); [done|]. destruct (nv_index nv iface =? 0) eqn:E0; [done|].
  by apply found_index.
Qed.

Lemma scan_route_ok line iface flags :
  scan_route line = Some (iface, flags) -> iface <> [] /\ (length iface < IFNAMSIZ)%nat.
Proof.
  unfold scan_route. destruct (scan_s 15 line) as [[w r]|] eqn:E; [|done]. apply scan_s_length in E as [Hn Hl].
  cbn [mbind option_bind]. destruct (scan_s 15 r) as [[w2 r2]|]; [|done]. cbn [mbind option_bind].
  destruct (scan_s (length r2) r2) as [[w3 r3]|]; [|done]. cbn [mbind option_bind].
  destruct (scan_x r3) as [[f r4]|]; [|done]. intros [= <- <-]. unfold IFNAMSIZ. split; [done|lia].
Qed.

Lemma tier2_found : found_ok (tier2 nv).
Proof.
  unfold tier2. destruct (nv_proc_route nv) as [text|]; [|done]. cbn [mbind option_bind].
  induction (tail (fgets_lines LINE_SIZE text)) as [|line lines IH]; [done|]. cbn [proc_route_lines].
  destruct (scan_route line) as [[iface flags]|] eqn:E; [|done]. apply scan_route_ok in E as [Hn Hl].
  destruct (_ =? 0); [done|]. destruct (negb _); [done|].
  destruct (nv_index nv iface =? 0) eqn:E0; [done|]. by apply found_index.
Qed.

Lemma tiers_found : found_ok (tier3 nv ∪ tier4 nv ∪ tier1 nv ∪ tier2 nv).
Proof. auto using found_union, tier1_found, tier2_found, tier3_found, tier4_found. Qed.
End contract.

(** The interface of the scheduler to the detection, discharged: the other parts of its
    surroundings are taken from [base], the network from [net]. *)
Class NetLaws {W : Type} (net : W -> net_view) := net_laws w : net_ok (net w).

Section environment.
Context {W : Type} (base : SchedEnv W) (net : W -> net_view).

#[export] Instance detecting_env : SchedEnv W := {|
  env_detect_upstream := fun w =>
    match upstream_detect_primary (net w) HNC_SCHED_IFNAME_LEN (0, []) with
    | (rc, o) => (if rc =? 0 then Some o else None, w)
    end;
  env_lsm_init := env_lsm_init;
  env_lsm_update := env_lsm_update;
  env_lsm_shutdown := env_lsm_shutdown;
  env_rules := env_rules;
  env_thread_create := env_thread_create;
  env_time := env_time
|}.

#[export] Instance detecting_promise `{!NetLaws net} : UpstreamPromise W.
Proof.
  constructor. intros w idx name w'. unfold env_detect_upstream, detecting_env.
  rewrite detect_tiers by (unfold HNC_SCHED_IFNAME_LEN; lia).
  pose proof (tiers_found (net w) (net_laws w)) as Hf.
  destruct (_ ∪ _) as [[i n]|]; [|done]. cbn. intros [= <- _ _]. destruct Hf as [Hi _].
  rewrite <- (u32_small i) by lia. rewrite s32_u32; lia.
Qed.
End environment.

(** ** A map given by its entries *)

Section list_map.
Context {K V : Type} `{!EqDecision K}.

Fixpoint entries_after (k : K) (es : list (K * V)) : option (list (K * V)) :=
  match es with
  | [] => None
  | (k', _) :: es => if decide (k = k') then Some es else entries_after k es
  end.
Fixpoint entry_of (k : K) (es : list (K * V)) : option V :=
  match es with
  | [] => None
  | (k', v) :: es => if decide (k = k') then Some v else entry_of k es
  end.

(** The map of a recent kernel: a key that is absent is before all others, and the
    null pointer is refused. *)
Definition list_map (es : list (K * V)) : bpf_map K V := {|
  bm_next := fun k => match k with
                      | None => inr ENOENT
                      | Some k => head_key (default es (entries_after k es))
                      end;
  bm_lookup := fun k => entry_of k es
|}.

Lemma list_map_shows zero es :
  NoDup es.*1 -> zero ∉ es.*1 -> map_shows (list_map es) zero es.
Proof.
  intros Hnd Hz. split.
  - left. cbn. assert (entries_after zero es = None) as ->; [|done]. clear Hnd.
    induction es as [|[k v] es IH]; [done|]. cbn in Hz |- *. apply not_elem_of_cons in Hz as [Hz Hr].
    rewrite decide_False by done. auto.
  - by right.
  - intros l1 k v l2 ->. cbn. assert (entries_after k (l1 ++ (k, v) :: l2) = Some l2) as ->; [|done].
    clear Hz. induction l1 as [|[k' v'] l1 IH]; cbn in Hnd |- *; [by rewrite decide_True|].
    apply NoDup_cons in Hnd as [Hn Hnd]. rewrite decide_False; [auto|].
    intros ->. apply Hn. rewrite fmap_app. set_solver.
  - intros k v Hkv. cbn. clear Hz. induction es as [|[k' v'] es IH]; [by apply elem_of_nil in Hkv|].
    cbn in Hnd |- *. apply NoDup_cons in Hnd as [Hn Hnd]. apply elem_of_cons in Hkv as [[= -> ->]|Hkv].
    + by rewrite decide_True.
    + rewrite decide_False; [auto|]. intros ->. apply Hn. by apply (list_elem_of_fmap_2 fst es (k', v)).
Qed.
End list_map.

#[global] Instance line_ok_dec l : Decision (line_ok l).
Proof. unfold line_ok, is_cchar. apply _. Defined.

(** ** The theorem *)

(** C12: whatever the kernel answers to a question for the first key, and however the
    tables are filled, [upstream_detect_primary] finds exactly what the tables say: the
    upstream of the first flow in the upstream4 map, else the first of 16 viable
    entries of the limit map, else the device of [ip route get] unless it is a tunnel,
    else the first route that is up and goes to an interface with an uplink's name.
    On success the index is positive and the name is not empty and fits the buffer; on
    failure the caller's objects keep their values. *)
Theorem upstream_detect_spec (nv : net_view) (t : tables) (o : outs) :
  shows nv t -> net_ok nv ->
  let '(rc, o') := upstream_detect_primary nv HNC_SCHED_IFNAME_LEN o in
  match detected nv t with
  | Some (idx, name) => rc = 0 /\ o' = (idx, name) /\ 0 < idx /\ name <> []
  | None => rc = -1 /\ o' = o
  end.
Proof.
  intros Hs Hn. rewrite detect_tiers by (unfold HNC_SCHED_IFNAME_LEN; lia).
  pose proof (tiers_found nv Hn) as Hf. rewrite (tiers_detected nv t Hs) in *.
  destruct (detected nv t) as [[idx name]|]; [|done]. destruct Hf as (Hi & Hne & Hl).
  cbn [publish]. rewrite c_trunc_id by (unfold IFNAMSIZ, HNC_SCHED_IFNAME_LEN in *; lia).
  rewrite <- (u32_small idx), s32_u32 by lia. rewrite u32_small by lia. split_and!; [done..|lia|done].
Qed.

(** A phone with its hotspot on [wlan2], a tunnel and a modem: every tier but the last
    one finds nothing that may be used. *)
Definition sample_tables : tables := {|
  tb_upstream4 := Some [];
  tb_limit := Some [(31, BPF_LIMIT_NONE)];
  tb_ip_route := Some [[str "8.8.8.8"; str "dev"; str "tun0"; str "src"; str "10.8.0.2"]];
  tb_routes := Some (str "Iface Destination Gateway Flags",
    [RouteEntry (str "wlan2") 0 0 1 (str "0"); RouteEntry (str "rmnet_data3") 172646666 0 3 (str "0")])
|}.
Definition sample_net : net_view := {|
  nv_index := fun name => if bool_decide (name = str "wlan2") then 31
                          else if bool_decide (name = str "tun0") then 40
                          else if bool_decide (name = str "rmnet_data3") then 30 else 0;
  nv_name := fun idx => if idx =? 31 then Some (str "wlan2") else if idx =? 40 then Some (str "tun0")
                        else if idx =? 30 then Some (str "rmnet_data3") else None;
  nv_upstream4 := Some (list_map []);
  nv_limit := Some (list_map [(31, BPF_LIMIT_NONE)]);
  nv_ip_route := Some (str "8.8.8.8 dev tun0 src 10.8.0.2" ++ [NL]);
  nv_proc_route := Some (str "Iface Destination Gateway Flags" ++ [NL] ++
    str "wlan2" ++ [TAB] ++ str "00000000" ++ [TAB] ++ str "00000000" ++ [TAB] ++ str "0001" ++ [TAB; 48; NL] ++
    str "rmnet_data3" ++ [TAB] ++ str "0A4A610A" ++ [TAB] ++ str "00000000" ++ [TAB] ++ str "0003" ++ [TAB; 48; NL])
|}.

Lemma sample_net_ok : net_ok sample_net.
Proof.
  split; cbn [sample_net nv_index nv_name].
  - intros name. repeat case_bool_decide; lia.
  - intros idx name. repeat case_match; intros [= <-]; bool_simpl; subst; (split; [lia|by split; [|vm_compute; lia]]).
Qed.

Lemma upstream_detect_spec_witness :
  shows sample_net sample_tables /\ detected sample_net sample_tables = Some (30, str "rmnet_data3") /\
  upstream_detect_primary sample_net HNC_SCHED_IFNAME_LEN (0, []) = (0, (30, str "rmnet_data3")).
Proof.
  assert (Hs : shows sample_net sample_tables).
  { split.
    - constructor. apply list_map_shows; [constructor|by intros ?%elem_of_nil].
    - constructor.
    - constructor. apply list_map_shows; [apply NoDup_singleton|].
      cbn. rewrite list_elem_of_singleton. done.
    - split; [|by vm_compute]. apply Forall_singleton. split; [by repeat constructor|].
      apply (bool_decide_eq_true_1 _). by vm_compute.
    - split; [|by vm_compute]. split; [apply (bool_decide_eq_true_1 _); by vm_compute|].
      repeat apply Forall_cons_2; [| |constructor]; (split; [done|vm_compute; lia|cbn; lia|]);
        apply (bool_decide_eq_true_1 _); by vm_compute. }
  assert (Hd : detected sample_net sample_tables = Some (30, str "rmnet_data3")) by by vm_compute.
  split_and!; [exact Hs|exact Hd|].
  pose proof (upstream_detect_spec sample_net sample_tables (0, []) Hs sample_net_ok) as H.
  rewrite Hd in H. destruct (upstream_detect_primary _ _ _) as [rc o']. by destruct H as (-> & -> & _ & _).
Defined.
