(* ===== verification/SchedulerSpec.v ===== *)
(** * Correctness of the scheduler

    The limited set as a finite set, the MAC normalisation, the notification's
    effect on the adapter, and the scheduler's promise along every interleaving
    of the main thread and the worker. *)
From S2P Require Import Prelude CStr JsonText Offload BpfAdapter BpfKernel Scheduler.
Local Open Scope Z_scope.

(** ** [normalize_mac] *)
Lemma normalize_mac_from_Some n i inp out :
  normalize_mac_from n i inp = Some out ->
  out = lower (take n inp) /\ length out = n /\
  (forall j c, out !! j = Some c -> if ((i + j) mod 3 =? 2)%nat then c = COLON else isxdigit c = true).
Proof.
  revert i inp out. induction n as [|n IH]; intros i inp out; cbn [normalize_mac_from].
  { destruct inp as [|c r]; [|destruct (_ || _); [|done]]; by intros [= <-]. }
  destruct inp as [|c r]; [done|]. destruct (i mod 3 =? 2)%nat eqn:Ei.
  - destruct (negb (c =? COLON)) eqn:Ec; [done|]. bool_simpl. subst c.
    destruct (normalize_mac_from n (S i) r) as [o|] eqn:E; [|done]. intros [= <-].
    destruct (IH _ _ _ E) as (-> & Hl & Hj). split_and!; [done|simpl; by rewrite Hl|].
    intros [|j] x Hx; simpl in Hx; [injection Hx as <-; by rewrite Nat.add_0_r, Ei|].
    specialize (Hj j x Hx). by rewrite Nat.add_succ_r.
  - destruct (negb (isxdigit c)) eqn:Ec; [done|]. bool_simpl.
    destruct (normalize_mac_from n (S i) r) as [o|] eqn:E; [|done]. intros [= <-].
    destruct (IH _ _ _ E) as (-> & Hl & Hj). split_and!; [done|simpl; by rewrite Hl|].
    intros [|j] x Hx; simpl in Hx.
    + injection Hx as <-. rewrite Nat.add_0_r, (proj2 (Nat.eqb_neq _ _) Ei). revert Ec.
      unfold isxdigit, is_digit, is_lower_hex, is_upper_hex, tolower, is_upper.
      destruct (Z.leb_spec 65 c), (Z.leb_spec c 90); cbn [andb]; zcases.
    + specialize (Hj j x Hx). by rewrite Nat.add_succ_r.
Qed.

Lemma normalize_mac_from_id n i out :
  length out = n -> lower out = out ->
  (forall j c, out !! j = Some c -> if ((i + j) mod 3 =? 2)%nat then c = COLON else isxdigit c = true) ->
  normalize_mac_from n i out = Some out.
Proof.
  revert i out. induction n as [|n IH]; intros i out Hl Hlow Hj; [by destruct out|].
  destruct out as [|c r]; [done|]. injection Hlow as Hc Hr. injection Hl as Hl.
  assert (IHr : normalize_mac_from n (S i) r = Some r).
  { apply IH; [done|done|]. intros j x Hx. specialize (Hj (S j) x Hx).
    by rewrite Nat.add_succ_r in Hj. }
  specialize (Hj 0%nat c eq_refl). rewrite Nat.add_0_r in Hj.
  cbn [normalize_mac_from]. destruct (i mod 3 =? 2)%nat.
  - subst c. cbn [negb]. rewrite Z.eqb_refl. cbn [negb]. by rewrite IHr.
  - rewrite Hj. cbn [negb]. by rewrite IHr, Hc.
Qed.

(** C38: [normalize_mac] is a canonical form: its output is the lower-case copy of
    the first 17 characters, has a hexadecimal digit or a colon in every place,
    is its own normal form, and two strings have the same one exactly when their
    first 17 characters agree up to case. *)
Lemma normalize_mac_canonical (a b x y : bytes) :
  normalize_mac a = Some x -> normalize_mac b = Some y ->
  x = lower (take 17 a) /\ length x = 17%nat /\
  (forall j c, x !! j = Some c -> if (j mod 3 =? 2)%nat then c = COLON else isxdigit c = true) /\
  normalize_mac x = Some x /\ (x = y <-> lower (take 17 a) = lower (take 17 b)).
Proof.
  intros (Ex & Hlx & Hjx)%normalize_mac_from_Some (Ey & Hly & Hjy)%normalize_mac_from_Some.
  split_and!; [done|done|exact Hjx| |by rewrite Ex, Ey].
  apply normalize_mac_from_id; [done|by rewrite Ex, lower_idem|done].
Qed.

Lemma normalize_mac_canonical_witness :
  normalize_mac (str "aa:bb:cc:0d:ee:ff") = Some (str "aa:bb:cc:0d:ee:ff").
Proof.
  apply (normalize_mac_canonical (str "AA:bb:CC:0d:EE:ff ") (str "aa:bb:cc:0d:ee:ff")
    (str "aa:bb:cc:0d:ee:ff") (str "aa:bb:cc:0d:ee:ff")); by vm_compute.
Defined.

(** ** The limited set *)
Definition limited_ok (l : list bytes) : Prop :=
  NoDup l /\ (length l <= HNC_SCHED_MAX_LIMITED_DEVICES)%nat.

Lemma limited_find_Some mac l i : limited_set_find mac l = Some i -> l !! i = Some mac.
Proof.
  intros (x & Hx & Hm)%find_idx_lookup. unfold strcmp_eq in Hm. bool_simpl. by subst.
Qed.
Lemma limited_find_None mac l : limited_set_find mac l = None <-> mac ∉ l.
Proof.
  unfold limited_set_find. rewrite find_idx_None. split.
  - intros H Hin. specialize (H mac Hin). unfold strcmp_eq in H. by bool_simpl.
  - intros H x Hx. unfold strcmp_eq. apply bool_decide_eq_false. by intros ->.
Qed.

Lemma limited_add_spec mac l l' :
  limited_ok l -> (length mac < 18)%nat -> limited_set_add mac l = Some l' ->
  limited_ok l' /\ (mac ∉ l) /\ l' = l ++ [mac].
Proof.
  intros [Hnd Hlen] Hm. unfold limited_set_add.
  destruct (limited_set_find mac l) eqn:E; [done|]. apply limited_find_None in E.
  destruct (_ <=? _)%nat eqn:El; [done|]. bool_simpl. intros [= <-].
  rewrite c_trunc_id by done. split_and!; try done. split.
  - apply NoDup_app. split_and!; [done| |apply NoDup_singleton].
    by intros x Hx ->%list_elem_of_singleton.
  - rewrite length_app. simpl. lia.
Qed.

Lemma limited_add_None mac l :
  limited_set_add mac l = None ->
  mac ∈ l \/ (HNC_SCHED_MAX_LIMITED_DEVICES <= length l)%nat.
Proof.
  unfold limited_set_add. destruct (limited_set_find mac l) eqn:E.
  - intros _. left. apply limited_find_Some in E. by eapply list_elem_of_lookup_2.
  - destruct (_ <=? _)%nat eqn:El; [|done]. bool_simpl. auto.
Qed.

Lemma limited_set_add_length mac l l' : limited_set_add mac l = Some l' -> length l' = S (length l).
Proof.
  unfold limited_set_add. destruct (limited_set_find mac l); [done|].
  destruct (_ <=? _)%nat; [done|]. intros [= <-]. rewrite length_app. simpl. lia.
Qed.

Lemma limited_remove_Some mac l l' : limited_set_remove mac l = Some l' -> l ≡ₚ mac :: l'.
Proof.
  unfold limited_set_remove. destruct (limited_set_find mac l) as [i|] eqn:E; [|done].
  intros [= <-]. apply swap_remove_perm. by apply limited_find_Some.
Qed.
Lemma limited_remove_None mac l : limited_set_remove mac l = None -> mac ∉ l.
Proof.
  unfold limited_set_remove. destruct (limited_set_find mac l) eqn:E; [done|].
  intros _. by apply limited_find_None.
Qed.

(** A change of the set as the notification makes it. *)
Definition set_change (mac : bytes) (is_limited : bool) (l : list bytes) : list bytes :=
  if is_limited then default l (limited_set_add mac l) else default l (limited_set_remove mac l).

Definition spec_change (s : gset bytes) (op : bytes * bool) : gset bytes :=
  if op.2 then
    if decide (op.1 ∈ s \/ (size s < HNC_SCHED_MAX_LIMITED_DEVICES)%nat) then {[op.1]} ∪ s else s
  else s ∖ {[op.1]}.

Lemma size_limited l : NoDup l -> size (list_to_set l : gset bytes) = length l.
Proof. apply size_list_to_set. Qed.

Lemma set_change_refines mac b l :
  limited_ok l -> (length mac < 18)%nat ->
  limited_ok (set_change mac b l) /\
  (list_to_set (set_change mac b l) : gset bytes) = spec_change (list_to_set l) (mac, b).
Proof.
  intros Hok Hm. pose proof Hok as [Hnd Hlen]. unfold set_change, spec_change. cbn [fst snd].
  rewrite size_limited by done. destruct b.
  - destruct (limited_set_add mac l) as [l'|] eqn:E; cbn [default from_option id].
    + destruct (limited_add_spec _ _ _ Hok Hm E) as (Hok' & Hnin & ->). split; [done|].
      rewrite decide_True.
      * rewrite list_to_set_app_L. simpl. set_solver.
      * right. destruct Hok' as [_ H]. rewrite length_app in H. simpl in H. lia.
    + split; [done|]. apply limited_add_None in E. case_decide as Hd; [|done].
      destruct E as [E|E]; [|destruct Hd as [Hd|Hd]; [|lia]]; set_solver.
  - destruct (limited_set_remove mac l) as [l'|] eqn:E; cbn [default from_option id].
    + apply limited_remove_Some in E. rewrite E in Hnd.
      pose proof (Permutation_length E) as Hl. simpl in Hl. apply NoDup_cons in Hnd as [Hn Hnd].
      split; [split; [done|lia]|]. rewrite E. simpl. set_solver.
    + split; [done|]. apply limited_remove_None in E. set_solver.
Qed.

(** The array of limited MACs refines a finite set of at most 256 elements:
    along every sequence of additions and removals it never holds a MAC twice,
    never exceeds its slots, and holds exactly the elements of the set that adds
    (when there is room) and removes the same MACs, whatever order the removals
    leave in the array. *)
Lemma limited_set_refines (ops : list (bytes * bool)) :
  Forall (fun op => (length op.1 < 18)%nat) ops ->
  let l := fold_left (fun l op => set_change op.1 op.2 l) ops [] in
  limited_ok l /\ (list_to_set l : gset bytes) = fold_left spec_change ops ∅.
Proof.
  intros Hops. cbv zeta.
  enough (Hgen : forall s l, limited_ok l -> (list_to_set l : gset bytes) = s ->
    limited_ok (fold_left (fun l op => set_change op.1 op.2 l) ops l) /\
    (list_to_set (fold_left (fun l op => set_change op.1 op.2 l) ops l) : gset bytes)
    = fold_left spec_change ops s).
  { apply Hgen; [|done]. split; [apply NoDup_nil_2|simpl; lia]. }
  induction Hops as [|[mac b] ops Hm _ IH]; intros s l Hok <-; [done|].
  destruct (set_change_refines mac b l Hok Hm) as [Hok' Hs]. simpl. by apply IH.
Qed.

Lemma limited_set_refines_witness :
  let ops := [(str "a", true); (str "b", true); (str "a", false); (str "b", true)] in
  let l := fold_left (fun l op => set_change op.1 op.2 l) ops [] in
  limited_ok l /\ (list_to_set l : gset bytes) = fold_left spec_change ops ∅.
Proof.
  apply (limited_set_refines [(str "a", true); (str "b", true); (str "a", false); (str "b", true)]).
  repeat constructor; vm_compute; lia.
Defined.

(** ** Recording what the scheduler asks of an adapter *)
Inductive adapter_call :=
| CDisableGlobal | CRestoreGlobal | CDisableUpstream (ifindex : Z) | CRestoreUpstream (ifindex : Z).

Definition is_restore (c : adapter_call) : bool :=
  match c with CRestoreGlobal | CRestoreUpstream _ => true | _ => false end.

(** A world with the calls made so far, oldest first. *)
Abbreviation tworld W := (W * list adapter_call)%type.

Section traced.
Context {W : Type}.

Definition quiet {A} (m : st W A) : st (tworld W) A :=
  fun t => let '(x, w) := m t.1 in (x, (w, t.2)).
Definition logged {A} (c : adapter_call) (m : st W A) : st (tworld W) A :=
  fun t => let '(x, w) := m t.1 in (x, (w, t.2 ++ [c])).

(** The adapter [a] with its four switching operations recorded. *)
Definition traced (a : offload_adapter W) : offload_adapter (tworld W) :=
  OffloadAdapter (ad_name a) (ad_type a) (ad_granularity a)
    ((fun p t => p t.1) <$> ad_probe a)
    (quiet (ad_init a)) (quiet (ad_shutdown a)) (quiet <$> ad_self_check a)
    ((fun s t => s t.1) <$> ad_status a) (quiet <$> ad_refresh_active a)
    (logged CDisableGlobal <$> ad_disable_global a)
    (logged CRestoreGlobal <$> ad_restore_global a)
    ((fun f i => logged (CDisableUpstream i) (f i)) <$> ad_disable_upstream a)
    ((fun f i => logged (CRestoreUpstream i) (f i)) <$> ad_restore_upstream a).

#[export] Instance traced_env `{!SchedEnv W} : SchedEnv (tworld W) := {|
  env_detect_upstream := quiet env_detect_upstream;
  env_lsm_init := fun i => quiet (env_lsm_init i);
  env_lsm_update := fun i t => (env_lsm_update i t.1, t.2);
  env_lsm_shutdown := fun t => (env_lsm_shutdown t.1, t.2);
  env_rules := fun t => env_rules t.1;
  env_thread_create := fun t => env_thread_create t.1;
  env_time := fun t => env_time t.1
|}.

#[export] Instance traced_promise `{!SchedEnv W, !UpstreamPromise W} : UpstreamPromise (tworld W).
Proof.
  constructor. intros [w l] idx name t'. cbn. unfold quiet. cbn.
  destruct (env_detect_upstream w) as [r w'] eqn:E. intros [= -> _]. by eapply upstream_positive.
Qed.
End traced.

(** An adapter that implements what its granularity calls for. *)
Definition adapter_complete {W} (a : offload_adapter W) : Prop :=
  match ad_granularity a with
  | OFFLOAD_GRAN_PER_UPSTREAM =>
      is_Some (ad_disable_global a) /\ is_Some (ad_disable_upstream a) /\ is_Some (ad_restore_global a)
  | OFFLOAD_GRAN_GLOBAL => is_Some (ad_disable_global a) /\ is_Some (ad_restore_global a)
  | _ => True
  end.

(** The call that switches the fast path off for upstream [idx]. *)
Definition wanted (g : offload_granularity) (idx : Z) : option adapter_call :=
  match g with
  | OFFLOAD_GRAN_PER_UPSTREAM => Some (if idx <=? 0 then CDisableGlobal else CDisableUpstream idx)
  | OFFLOAD_GRAN_GLOBAL => Some CDisableGlobal
  | _ => None
  end.

(** That call has been made and no restore since. *)
Definition covered (log : list adapter_call) (c : adapter_call) : Prop :=
  exists l1 l2, log = l1 ++ c :: l2 /\ forallb (fun c => negb (is_restore c)) l2 = true.

Lemma covered_last log c : covered (log ++ [c]) c.
Proof. by exists log, []. Qed.
Lemma covered_app log c c' : is_restore c' = false -> covered log c -> covered (log ++ [c']) c.
Proof.
  intros Hc (l1 & l2 & -> & Hl2). exists l1, (l2 ++ [c']). rewrite <- app_assoc. split; [done|].
  rewrite forallb_app, Hl2. simpl. by rewrite Hc.
Qed.

(** ** Effects of the scheduler's parts on a traced world *)

(** Close the goal of an effect once the calls are evaluated. *)
Ltac effect_done :=
  cbn; rewrite ?app_nil_r; by split_and?.
Section promise.
Context {W : Type} `{!SchedEnv W, !UpstreamPromise W}.
Abbreviation TW := (tworld W).
Abbreviation X := (sworld TW).
Implicit Types x : X.

Definition log_of x : list adapter_call := (sw_w x).2.
Definition adapter_of x := sc_adapter (sw_sched x).
Definition limited_of x := sc_limited (sw_sched x).
Definition ifindex_of x := sc_ifindex (sw_sched x).
Definition initialized_of x := sc_initialized (sw_sched x).

(** The elected adapter is a complete traced one or the null adapter. *)
Definition adapter_good x : Prop :=
  match adapter_of x with
  | None => True
  | Some a => a = adapter_null \/ exists b, a = traced b /\ adapter_complete b
  end.

(** The promise for a state. *)
Definition promise x : Prop :=
  forall a c, adapter_of x = Some a -> wanted (ad_granularity a) (ifindex_of x) = Some c ->
    covered (log_of x) c.

(** What the restores and the disables leave alone. *)
Definition frame x x' : Prop :=
  adapter_of x' = adapter_of x /\ limited_of x' = limited_of x /\
  ifindex_of x' = ifindex_of x /\ initialized_of x' = initialized_of x.

Lemma frame_refl x : frame x x.
Proof. done. Qed.

Lemma refresh_effect x :
  let x' := (refresh_primary_upstream_locked x).2 in
  adapter_of x' = adapter_of x /\ limited_of x' = limited_of x /\
  initialized_of x' = initialized_of x /\ log_of x' = log_of x /\
  sc_worker (sw_sched x') = sc_worker (sw_sched x) /\
  (ifindex_of x' = ifindex_of x \/ 0 < ifindex_of x').
Proof.
  unfold refresh_primary_upstream_locked, mbind, st_bind, call, smod, st_mod.
  destruct (env_detect_upstream (sw_w x)) as [[[idx name]|] t] eqn:E; cbn.
  - pose proof (upstream_positive _ _ _ _ E) as Hp.
    unfold env_detect_upstream, traced_env, quiet in E. cbn in E.
    destruct (env_detect_upstream (sw_w x).1) as [r w] eqn:E'. injection E as -> <-.
    unfold ifindex_of, log_of. cbn. auto 10.
  - unfold env_detect_upstream, traced_env, quiet in E. cbn in E.
    destruct (env_detect_upstream (sw_w x).1) as [r w] eqn:E'. injection E as -> <-.
    unfold adapter_of, limited_of, ifindex_of, initialized_of, log_of. cbn.
    destruct (sc_ifindex (sw_sched x) =? 0); cbn; auto 10.
Qed.

(** The disable trigger makes the wanted call, and only that. *)
Lemma trigger_disable_effect x :
  adapter_good x ->
  let x' := (trigger_adapter_disable_locked x).2 in
  frame x x' /\ sc_worker (sw_sched x') = sc_worker (sw_sched x) /\
  log_of x' = log_of x ++
    match adapter_of x with
    | Some a => match wanted (ad_granularity a) (ifindex_of x) with Some c => [c] | None => [] end
    | None => []
    end.
Proof.
  destruct x as [[ini ad act lim idx nm wk] [w l]].
  unfold trigger_adapter_disable_locked, mbind, st_bind, sget, st_get, mret, st_ret,
    adapter_good, adapter_of, frame, log_of, ifindex_of, limited_of, initialized_of. cbn.
  destruct ad as [a|]; [|effect_done]. intros [->|(b & -> & Hb)]; [effect_done|].
  unfold adapter_complete in Hb. unfold traced. cbn. destruct (ad_granularity b).
  - effect_done.
  - destruct Hb as [[dg ->] _]. unfold call, logged. cbn. destruct (dg w). effect_done.
  - destruct Hb as ([dg ->] & [du ->] & _). unfold wanted. cbn.
    destruct (idx <=? 0); unfold call, logged; cbn; [destruct (dg w)|destruct (du idx w)]; effect_done.
  - effect_done.
Qed.

Lemma trigger_disable_promise x :
  adapter_good x -> promise (trigger_adapter_disable_locked x).2.
Proof.
  intros Hg a c Ha Hw. destruct (trigger_disable_effect x Hg) as ((Hfa & _ & Hfi & _) & _ & Hl).
  rewrite Hl. rewrite Hfa in Ha. rewrite Hfi in Hw. rewrite Ha, Hw. apply covered_last.
Qed.

(** The restore trigger restores globally when the adapter can switch at all. *)
Lemma trigger_restore_effect x :
  adapter_good x ->
  let x' := (trigger_adapter_restore_locked x).2 in
  frame x x' /\ sc_worker (sw_sched x') = sc_worker (sw_sched x) /\
  log_of x' = log_of x ++
    match adapter_of x with
    | Some a => match wanted (ad_granularity a) (ifindex_of x) with
                | Some _ => [CRestoreGlobal] | None => [] end
    | None => []
    end.
Proof.
  destruct x as [[ini ad act lim idx nm wk] [w l]].
  unfold trigger_adapter_restore_locked, mbind, st_bind, sget, st_get, mret, st_ret,
    adapter_good, adapter_of, frame, log_of, ifindex_of, limited_of, initialized_of. cbn.
  destruct ad as [a|]; [|effect_done]. intros [->|(b & -> & Hb)]; [effect_done|].
  unfold adapter_complete in Hb. unfold traced. cbn. destruct (ad_granularity b).
  - effect_done.
  - destruct Hb as [_ [rg ->]]. unfold call, logged. cbn. destruct (rg w). effect_done.
  - destruct Hb as (_ & _ & [rg ->]). unfold call, logged, wanted. cbn.
    destruct (rg w), (idx <=? 0); effect_done.
  - effect_done.
Qed.

(** ** The interleaving of the main thread and the worker *)

(** Where the main thread stands: in [hnc_scheduler_init] before the start of the guard,
    inside of it (with the interface it was given), before the rebuild or
    between the rebuild and its trigger, between two requests, or in
    [hnc_scheduler_force_restore_global] between the cleared set and the call. *)
Inductive main_pc := MInit | MLsm (idx : Z) | MRebuild | MTrigger (rebuilt : nat) | MIdle | MRestoring.
(** Where the worker stands: waiting, or before one of the parts of its turn. *)
Inductive worker_pc := WWait | WProbe | WLsm (prev now : Z) | WRefresh | WGone.

Record cstate := CState { c_x : X; c_main : main_pc; c_worker : worker_pc }.

Inductive step : cstate -> cstate -> Prop :=
| step_lsm_read x wk : step (CState x MInit wk) (CState x (MLsm (ifindex_of x)) wk)
| step_lsm_init x idx wk : step (CState x (MLsm idx) wk) (CState (init_lsm_with idx x).2 MRebuild wk)
| step_rebuild x wk :
    let r := init_rebuild x in
    step (CState x MRebuild wk) (CState r.2 (MTrigger r.1) wk)
| step_trigger x n wk :
    step (CState x (MTrigger n) wk) (CState (init_trigger n x).2 MIdle wk)
| step_notify x mac b wk :
    step (CState x MIdle wk) (CState (hnc_scheduler_notify_device_limit_changed mac b x).2 MIdle wk)
| step_request x wk :
    step (CState x MIdle wk) (CState (hnc_scheduler_request_refresh x).2 MIdle wk)
| step_force_disable x wk :
    step (CState x MIdle wk) (CState (hnc_scheduler_force_disable_global x).2 MIdle wk)
| step_restore_clear x wk :
    step (CState x MIdle wk) (CState (force_restore_clear x).2 MRestoring wk)
| step_restore_call x a f wk :
    adapter_of x = Some a -> ad_restore_global a = Some f ->
    step (CState x MRestoring wk) (CState (call f x).2 MIdle wk)
| step_wake x m :
    let r := worker_wake x in
    step (CState x m WWait) (CState r.2 m (if r.1 then WProbe else WGone))
| step_probe x m :
    let r := worker_reprobe x in
    step (CState x m WProbe) (CState r.2 m (WLsm r.1.1 r.1.2))
| step_lsm x m prev now :
    step (CState x m (WLsm prev now)) (CState (worker_notify_lsm prev now x).2 m WRefresh)
| step_refresh x m :
    step (CState x m WRefresh) (CState (worker_refresh x).2 m WWait).

(** A part that neither moves the scheduler's records nor switches anything. *)
Definition silent x x' : Prop := frame x x' /\ log_of x' = log_of x.

Lemma silent_trans x1 x2 x3 : silent x1 x2 -> silent x2 x3 -> silent x1 x3.
Proof.
  intros [(? & ? & ? & ?) ?] [(? & ? & ? & ?) ?]. split; [split_and!|]; congruence.
Qed.
Lemma promise_silent x x' : silent x x' -> promise x -> promise x'.
Proof.
  intros [(Ha & _ & Hi & _) Hl] Hp a c Hc Hw. rewrite Ha in Hc. rewrite Hi in Hw. rewrite Hl. eauto.
Qed.
Lemma good_frame x x' : frame x x' -> adapter_good x -> adapter_good x'.
Proof. intros (Ha & _) Hg. unfold adapter_good. by rewrite Ha. Qed.

Lemma request_silent x : silent x (hnc_scheduler_request_refresh x).2.
Proof.
  unfold hnc_scheduler_request_refresh, mbind, st_bind, sget, st_get, smod, st_mod, mret, st_ret.
  by destruct (_ || _).
Qed.
Lemma init_lsm_silent x idx : silent x (init_lsm_with idx x).2.
Proof.
  destruct x as [[ini ad act lim ifx nm wk] [w l]].
  unfold init_lsm_with, mbind, st_bind, sget, st_get, mret, st_ret, call. cbn.
  destruct ad as [a|]; [|done]. destruct (bool_decide _); [|done]. cbn. unfold quiet. cbn.
  by destruct (env_lsm_init _ w).
Qed.
Lemma notify_lsm_silent x prev now : silent x (worker_notify_lsm prev now x).2.
Proof. unfold worker_notify_lsm. by destruct (_ && _). Qed.
Lemma wake_silent x : silent x (worker_wake x).2.
Proof.
  unfold worker_wake, mbind, st_bind, sget, st_get, smod, st_mod, mret, st_ret.
  by destruct (wk_should_stop _).
Qed.
Lemma refresh_silent x : adapter_good x -> silent x (worker_refresh x).2.
Proof.
  destruct x as [[ini ad act lim idx nm wk] [w l]].
  unfold adapter_good, adapter_of, worker_refresh, mbind, st_bind, sget, st_get, smod, st_mod,
    mret, st_ret, wget, call. cbn.
  destruct ad as [a|]; [|done]. intros [->|(b & -> & _)]; [done|].
  unfold traced. cbn. destruct (ad_refresh_active b) as [f|]; [|done]. cbn. unfold quiet. cbn.
  by destruct (f w).
Qed.

(** The invariant of the interleaving. *)
Definition sched_inv (c : cstate) : Prop :=
  let x := c_x c in
  adapter_good x /\ 0 <= ifindex_of x /\
  match c_main c with
  | MInit | MLsm _ | MRebuild | MRestoring => limited_of x = []
  | MTrigger n => n = 0%nat -> limited_of x = []
  | MIdle => limited_of x <> [] -> promise x
  end.

Lemma sched_inv_silent x x' m wk wk' :
  silent x x' -> sched_inv (CState x m wk) -> sched_inv (CState x' m wk').
Proof.
  intros Hs (Hg & Hi & Hm). pose proof Hs as [Hf Hl]. pose proof Hf as (Ha & Hlim & Hidx & _).
  unfold sched_inv. cbn in *. split; [by eapply good_frame|]. rewrite Hidx. split; [done|].
  rewrite Hlim. destruct m; try done. intros Hne. eapply promise_silent; eauto.
Qed.

Lemma rules_step_count s r :
  (forall s', rules_step s = inl s' -> (length s'.1.2 + s.2 = length s.1.2 + s'.2)%nat) /\
  (rules_step s = inr r -> r = (s.1.2, s.2)).
Proof.
  destruct s as [[p macs] added]. unfold rules_step. cbn [fst snd]. split.
  - intros s'. repeat case_goal; intros [= <-]; cbn; try lia.
    match goal with H : limited_set_add _ _ = Some _ |- _ => apply limited_set_add_length in H end.
    lia.
  - repeat case_goal; try done; by intros [= <-].
Qed.

Lemma rebuild_count rules macs :
  let r := rebuild_from_rules rules macs in length r.1 = (length macs + r.2)%nat.
Proof.
  unfold rebuild_from_rules. destruct rules as [content|]; [|simpl; lia].
  destruct (devices_section _) as [body|]; [|simpl; lia].
  destruct (loop _ _ _) as [r|] eqn:E; [|simpl; lia]. cbn [default].
  eapply (loop_inv rules_step (fun s => length s.1.2 = length macs + s.2)%nat
                              (fun r => length r.1 = length macs + r.2)%nat); [| | |exact E].
  - intros s s' Hs Hstep. apply (rules_step_count s r) in Hstep. lia.
  - intros s r' Hs Hstep. apply rules_step_count in Hstep as ->. simpl. lia.
  - simpl. lia.
Qed.

Lemma init_trigger_inv x n wk :
  sched_inv (CState x (MTrigger n) wk) -> sched_inv (CState (init_trigger n x).2 MIdle wk).
Proof.
  intros (Hg & Hi & Hm). cbn in *. unfold init_trigger. destruct n as [|n].
  { cbn. split; [done|]. split; [done|]. intros H. by destruct H; apply Hm. }
  cbn [Nat.ltb Nat.leb]. unfold mbind, st_bind.
  pose proof (refresh_effect x) as (Ha & Hl & _ & _ & _ & Hidx).
  destruct (refresh_primary_upstream_locked x) as [[] x1]. cbn in *.
  assert (Hg1 : adapter_good x1) by (unfold adapter_good; by rewrite Ha).
  destruct (trigger_disable_effect x1 Hg1) as [(Hf1 & Hf2 & Hf3 & Hf4) _].
  split; [by eapply good_frame; [split_and!|]|]. cbn. rewrite Hf3. split; [lia|].
  intros _. by apply trigger_disable_promise.
Qed.

(** What a notification comes to: the first device switches off, the last one lifts. *)
Lemma notify_split x norm b :
  let macs' := set_change norm b (limited_of x) in
  let x1 := SWorld (set_limited macs' (sw_sched x)) (sw_w x) in
  let x' := (notify_locked norm b x).2 in
  limited_of x = [] /\ macs' <> [] /\
    x' = (trigger_adapter_disable_locked (refresh_primary_upstream_locked x1).2).2 \/
  limited_of x <> [] /\ macs' = [] /\ x' = (trigger_adapter_restore_locked x1).2 \/
  (limited_of x = [] <-> macs' = []) /\ x' = x1.
Proof.
  intros macs' x1 x'. unfold x', notify_locked, mbind, st_bind, sget, st_get, smod, st_mod.
  fold (limited_of x). fold (set_change norm b (limited_of x)). fold macs' x1.
  destruct (limited_of x) as [|m l] eqn:El, macs' as [|m' l'] eqn:Em; cbn [length Nat.eqb Nat.ltb Nat.leb andb];
    [right; right|left|right; left|right; right]; try done.
  - split_and!; [done..|]. destruct (refresh_primary_upstream_locked x1) as [[] x2]. cbn [snd].
    by destruct (trigger_adapter_disable_locked x2).
  - split_and!; [done..|]. by destruct (trigger_adapter_restore_locked x1).
Qed.

Lemma notify_records x norm b :
  adapter_good x ->
  let x' := (notify_locked norm b x).2 in
  limited_of x' = set_change norm b (limited_of x) /\ adapter_of x' = adapter_of x.
Proof.
  intros Hg. pose proof (notify_split x norm b) as Hs. cbv zeta in *.
  set (x1 := SWorld (set_limited (set_change norm b (limited_of x)) (sw_sched x)) (sw_w x)) in *.
  destruct Hs as [(_ & _ & ->)|[(_ & _ & ->)|[_ ->]]]; [| |done].
  - pose proof (refresh_effect x1) as (Ha & Hl & _).
    assert (Hg2 : adapter_good (refresh_primary_upstream_locked x1).2) by (unfold adapter_good; by rewrite Ha).
    destruct (trigger_disable_effect _ Hg2) as [(-> & -> & _) _]. by rewrite Hl, Ha.
  - by destruct (trigger_restore_effect x1 Hg) as [(-> & -> & _) _].
Qed.

Lemma notify_locked_inv x norm b wk :
  sched_inv (CState x MIdle wk) -> sched_inv (CState (notify_locked norm b x).2 MIdle wk).
Proof.
  intros (Hg & Hi & Hm). cbn [c_x c_main] in *.
  pose proof (notify_split x norm b) as Hs. cbv zeta in Hs.
  set (macs' := set_change norm b (limited_of x)) in *.
  set (x1 := SWorld (set_limited macs' (sw_sched x)) (sw_w x)) in *.
  assert (Hg1 : adapter_good x1) by done. assert (Hi1 : ifindex_of x1 = ifindex_of x) by done.
  destruct Hs as [(_ & Hne & ->)|[(_ & He & ->)|[He ->]]].
  - pose proof (refresh_effect x1) as (Ha & Hl & _ & _ & _ & Hidx).
    destruct (refresh_primary_upstream_locked x1) as [[] x2]. cbn [snd] in *.
    assert (Hg2 : adapter_good x2) by (unfold adapter_good; by rewrite Ha).
    destruct (trigger_disable_effect x2 Hg2) as [Hf _]. pose proof (trigger_disable_promise x2 Hg2) as Hp.
    split; [by eapply good_frame|]. cbn. destruct Hf as (_ & _ & -> & _). split; [lia|done].
  - destruct (trigger_restore_effect x1 Hg1) as [Hf _]. split; [by eapply good_frame|]. cbn.
    destruct Hf as (_ & -> & -> & _). split; [by rewrite Hi1|]. intros Hne. by destruct Hne.
  - split; [done|]. split; [done|]. cbn. intros Hne a c. apply Hm. intros H0. by apply Hne, He.
Qed.

(** A probe of the worker switches off unless nothing is limited or the upstream stayed. *)
Lemma reprobe_split x :
  0 <= ifindex_of x ->
  let x1 := (refresh_primary_upstream_locked x).2 in
  let x' := (worker_reprobe x).2 in
  x' = (trigger_adapter_disable_locked x1).2 \/
  x' = x1 /\ (limited_of x = [] \/ ifindex_of x1 = ifindex_of x).
Proof.
  intros Hi. cbv zeta. unfold worker_reprobe, mbind, st_bind, sget, st_get, mret, st_ret.
  pose proof (refresh_effect x) as (_ & Hl & _ & _ & _ & Hidx).
  destruct (refresh_primary_upstream_locked x) as [[] x1]. cbn [snd] in *.
  fold (ifindex_of x) (ifindex_of x1) (limited_of x1).
  set (need := ((ifindex_of x =? 0) && _ && _) || _).
  assert (Hneed : need = false -> limited_of x = [] \/ ifindex_of x1 = ifindex_of x).
  { unfold need. rewrite Hl. destruct (limited_of x); [by left|]. cbn [length Nat.ltb Nat.leb].
    rewrite !andb_true_r. intros H. right.
    destruct Hidx as [?|?]; [done|]. revert H. zcases. }
  destruct need.
  - left. by destruct (trigger_adapter_disable_locked x1) as [[] x2].
  - right. by split; [|apply Hneed].
Qed.

Lemma reprobe_inv x m wk wk' :
  sched_inv (CState x m wk) -> sched_inv (CState (worker_reprobe x).2 m wk').
Proof.
  intros (Hg & Hi & Hm). cbn [c_x c_main] in *. pose proof (reprobe_split x Hi) as Hs. cbv zeta in Hs.
  pose proof (refresh_effect x) as (Ha & Hl & _ & Hlog & _ & Hidx).
  destruct (refresh_primary_upstream_locked x) as [[] x1]. cbn [snd] in *.
  assert (Hg1 : adapter_good x1) by (unfold adapter_good; by rewrite Ha).
  destruct Hs as [->|[-> Hs]].
  - destruct (trigger_disable_effect x1 Hg1) as [Hf _]. pose proof (trigger_disable_promise x1 Hg1) as Hp.
    split; [by eapply good_frame|]. cbn. destruct Hf as (_ & -> & -> & _). rewrite Hl. split; [lia|].
    by destruct m.
  - split; [done|]. cbn. split; [lia|]. rewrite Hl. destruct m; try done. intros Hne.
    destruct Hs as [?|He]; [done|]. specialize (Hm Hne).
    intros a c Hac Hw. rewrite Ha in Hac. rewrite He in Hw. rewrite Hlog. eauto.
Qed.

Lemma force_disable_inv x wk :
  sched_inv (CState x MIdle wk) ->
  sched_inv (CState (hnc_scheduler_force_disable_global x).2 MIdle wk).
Proof.
  destruct x as [[ini ad act lim idx nm wkr] [w l]]. intros (Hg & Hi & Hm).
  unfold sched_inv, hnc_scheduler_force_disable_global, mbind, st_bind, sget, st_get, mret, st_ret,
    adapter_good, promise, adapter_of, log_of, ifindex_of, limited_of in *. cbn in *.
  destruct ad as [a|]; [|done]. destruct (negb ini); [done|].
  destruct Hg as [->|(b & -> & Hb)].
  { cbn. split_and!; [by left|done|]. intros Hne a c [= <-]. done. }
  unfold traced at 1 3. cbn. destruct (ad_disable_global b) as [f|] eqn:Ef; cbn.
  2:{ split_and!; [by right; exists b|done|done]. }
  unfold call, logged. cbn. destruct (f w) as [e w']. cbn.
  split_and!; [by right; exists b|done|]. intros Hne a c [= <-] Hw.
  apply covered_app; [done|]. by eapply Hm.
Qed.

(** Every step keeps the invariant. *)
Lemma step_inv c c' : sched_inv c -> step c c' -> sched_inv c'.
Proof.
  intros Hinv Hstep. destruct Hstep.
  - exact Hinv.
  - exact (sched_inv_silent x _ (MLsm idx) wk wk (init_lsm_silent x idx) Hinv).
  - destruct Hinv as (Hg & Hi & Hm). cbn in Hm.
    pose proof (rebuild_count (env_rules (sw_w x)) (sc_limited (sw_sched x))) as Hc.
    unfold r, init_rebuild, mbind, st_bind, wget, sget, st_get, smod, st_mod, mret, st_ret in *.
    destruct (rebuild_from_rules _ _) as [macs' added]. cbn in *.
    split; [exact Hg|]. split; [exact Hi|]. intros ->.
    unfold limited_of in *. cbn in *. rewrite Hm in Hc. by destruct macs'.
  - by apply init_trigger_inv.
  - unfold hnc_scheduler_notify_device_limit_changed, mbind at 1, st_bind at 1, sget at 1, st_get at 1.
    destruct (negb _); [done|]. destruct (m ← mac; normalize_mac m) as [norm|]; [|done].
    unfold mbind, st_bind. pose proof (notify_locked_inv x norm b wk Hinv) as Hn.
    destruct (notify_locked norm b x) as [[] x1]; [|done].
    eapply sched_inv_silent; [apply request_silent|exact Hn].
  - eapply sched_inv_silent; [apply request_silent|exact Hinv].
  - by apply force_disable_inv.
  - destruct Hinv as (Hg & Hi & _). done.
  - destruct Hinv as (Hg & Hi & Hm). unfold call. destruct (f (sw_w x)) as [e w].
    split; [exact Hg|]. split; [exact Hi|]. cbn in *. intros Hne. by destruct Hne.
  - eapply sched_inv_silent; [apply wake_silent|exact Hinv].
  - by eapply reprobe_inv.
  - eapply sched_inv_silent; [apply notify_lsm_silent|exact Hinv].
  - eapply sched_inv_silent; [apply refresh_silent, Hinv|exact Hinv].
Qed.

(** ** The start *)

(** What holds from the election to the rebuild. *)
Definition fresh_state x : Prop := adapter_good x /\ 0 <= ifindex_of x /\ limited_of x = [].
Definition pres {A} (m : st X A) : Prop := forall x, fresh_state x -> fresh_state (m x).2.

Lemma pres_bind {A B} (m : st X A) (f : A -> st X B) :
  pres m -> (forall a, pres (f a)) -> pres (m ≫= f).
Proof.
  intros Hm Hf x Hx. unfold mbind, st_bind. specialize (Hm x Hx).
  destruct (m x) as [a x1]. by apply Hf.
Qed.
Lemma pres_ret {A} (a : A) : pres (mret a).
Proof. by intros x. Qed.
Lemma pres_call {A} (m : st TW A) : pres (call m).
Proof. intros x Hx. unfold call. by destruct (m (sw_w x)). Qed.
Lemma pres_sget {A} (f : sched TW -> A) : pres (sget f).
Proof. by intros x. Qed.
Lemma pres_wget {A} (f : TW -> A) : pres (wget f).
Proof. by intros x. Qed.
Lemma pres_worker f : pres (smod (set_worker f)).
Proof. by intros x. Qed.
Lemma pres_initialized b : pres (smod (set_initialized b)).
Proof. by intros x. Qed.
Lemma pres_refresh : pres refresh_primary_upstream_locked.
Proof.
  intros x (Hg & Hi & Hl). pose proof (refresh_effect x) as (Ha & Hl' & _ & _ & _ & Hidx).
  unfold fresh_state, adapter_good. rewrite Ha, Hl'. split_and!; [done|lia|done].
Qed.
Lemma pres_fall_back : pres fall_back_to_null.
Proof.
  unfold fall_back_to_null. apply pres_bind; [|intros _; apply pres_bind].
  - intros x (_ & Hi & Hl). split_and!; [by left|done|done].
  - apply pres_call.
  - intros. apply pres_ret.
Qed.

Lemma pres_init_start a : pres (init_start a).
Proof.
  unfold init_start, init_adapter.
  repeat first
    [ apply pres_refresh | apply pres_fall_back
    | apply pres_bind; [|intros ?] | apply pres_call | apply pres_ret | apply pres_sget
    | apply pres_wget | apply pres_worker | apply pres_initialized
    | match goal with
      | |- pres (if ?b then _ else _) => destruct b
      | |- pres (match ?o with _ => _ end) => destruct o
      end ].
Qed.

(** The scheduler has elected an adapter and started its worker. *)
Definition started (bs : list (offload_adapter W)) (w : W) (x1 : X) : Prop :=
  exists a, offload_select_adapter (g_adapters (traced <$> bs)) (w, []) None = (Some a, Some a) /\
    init_start a (SWorld (set_adapter (Some a) (Some a) sched_zero) (w, [])) = (true, x1).

Lemma elected_good (bs : list (offload_adapter W)) (w : W) a :
  Forall adapter_complete bs ->
  offload_select_adapter (g_adapters (traced <$> bs)) (w, []) None = (Some a, Some a) ->
  a = adapter_null \/ exists b, a = traced b /\ adapter_complete b.
Proof.
  intros Hbs. unfold offload_select_adapter, g_adapters. rewrite select_from_find.
  destruct (list_find _ _) as [[i a']|] eqn:E; cbn; [|done]. intros [= ->].
  apply list_find_Some in E as (Hi & _). apply list_elem_of_lookup_2 in Hi.
  rewrite elem_of_app, list_elem_of_fmap, list_elem_of_singleton in Hi.
  destruct Hi as [(b & -> & Hb)| ->]; [|by left]. right. exists b. split; [done|].
  by eapply Forall_forall in Hbs.
Qed.

Lemma started_inv (bs : list (offload_adapter W)) (w : W) x1 :
  Forall adapter_complete bs -> started bs w x1 -> sched_inv (CState x1 MInit WWait).
Proof.
  intros Hbs (a & Hsel & Hs). pose proof (elected_good _ _ _ Hbs Hsel) as Hg.
  pose proof (pres_init_start a (SWorld (set_adapter (Some a) (Some a) sched_zero) (w, []))) as Hp.
  rewrite Hs in Hp. apply Hp. split_and!; done.
Qed.

(** The sequential initialisation is one of the runs. *)
Lemma init_steps x wk :
  let r := init_rebuild (init_lsm x).2 in
  rtc step (CState x MInit wk) (CState (init_trigger r.1 r.2).2 MIdle wk).
Proof.
  eapply rtc_l; [apply step_lsm_read|]. eapply rtc_l; [apply step_lsm_init|].
  eapply rtc_l; [apply step_rebuild|]. apply rtc_once. apply step_trigger.
Qed.
Lemma init_is_a_run (bs : list (offload_adapter W)) (w : W) x1 :
  started bs w x1 ->
  exists x2, hnc_scheduler_init (traced <$> bs) (SWorld sched_zero (w, [])) = (0, x2) /\
    rtc step (CState x1 MInit WWait) (CState x2 MIdle WWait).
Proof.
  intros (a & Hsel & Hs).
  exists (init_trigger (init_rebuild (init_lsm x1).2).1 (init_rebuild (init_lsm x1).2).2).2.
  split.
  - unfold hnc_scheduler_init, mbind, st_bind, wget, sget, st_get. cbn [sw_sched sc_initialized sched_zero sw_w sc_active].
    rewrite Hsel. unfold smod, st_mod. cbn [sw_sched sw_w]. rewrite Hs. cbn [negb].
    destruct (init_lsm x1) as [u x2]. cbn [snd]. destruct (init_rebuild x2) as [n x3]. cbn [fst snd].
    by destruct (init_trigger n x3).
  - apply init_steps.
Qed.
End promise.

(** C1: the scheduler keeps its promise along every interleaving of the main
    thread and the worker.  Start it over any adapters that implement what their
    granularity calls for, any network, rules file and kernel; let notifications, forced
    operations, refresh requests and worker turns happen in any order and interleave at the
    locks.  Whenever the main thread is between two requests and some device is limited, the
    call that switches off the fast path of the current primary upstream (of all
    upstreams while none is known or the adapter is global) has been made, and nothing has been
    restored since.  The sequential initialisation is one of these runs. *)
Theorem scheduler_promise {W} `{!SchedEnv W, !UpstreamPromise W}
    (bs : list (offload_adapter W)) (w : W) (x1 : sworld (tworld W)) :
  Forall adapter_complete bs -> started bs w x1 ->
  (exists x2, hnc_scheduler_init (traced <$> bs) (SWorld sched_zero (w, [])) = (0, x2) /\
     rtc step (CState x1 MInit WWait) (CState x2 MIdle WWait)) /\
  forall c, rtc step (CState x1 MInit WWait) c ->
    c_main c = MIdle -> limited_of (c_x c) <> [] ->
    forall a act, adapter_of (c_x c) = Some a ->
      wanted (ad_granularity a) (ifindex_of (c_x c)) = Some act ->
      covered (log_of (c_x c)) act.
Proof.
  intros Hbs Hst. split; [by apply init_is_a_run|]. intros c Hrun Hm Hne.
  assert (Hinv : sched_inv c).
  { eapply (rtc_invariant step sched_inv); [apply step_inv|exact Hrun|by eapply started_inv]. }
  destruct Hinv as (_ & _ & Hp). rewrite Hm in Hp. exact (Hp Hne).
Qed.

Lemma notify_unfold {W} `{!SchedEnv W} (x : sworld W) mac b :
  hnc_scheduler_notify_device_limit_changed mac b x
  = match (if sc_initialized (sw_sched x) then m ← mac; normalize_mac m else None) with
    | None => (tt, x)
    | Some norm => let '(t, x1) := notify_locked norm b x in
                   if t then hnc_scheduler_request_refresh x1 else (tt, x1)
    end.
Proof.
  unfold hnc_scheduler_notify_device_limit_changed, sget.
  unfold mbind at 1, st_bind at 1, st_get at 1.
  destruct (sc_initialized (sw_sched x)); [|done]. cbn [negb].
  destruct (m ← mac; normalize_mac m) as [norm|]; [|done].
  unfold mbind, st_bind. by destruct (notify_locked norm b x) as [[] x1].
Qed.

(** C11: a notification changes the set as the finite set does and asks the
    adapter for exactly what the change calls for: when the set becomes
    non-empty one switch-off for the upstream detected then, when it becomes empty one global restore,
    otherwise nothing; an invalid MAC or an uninitialised scheduler changes nothing. *)
Theorem notify_effect {W} `{!SchedEnv W, !UpstreamPromise W} (x : sworld (tworld W))
    (mac : option bytes) (b : bool) :
  adapter_good x ->
  let x' := (hnc_scheduler_notify_device_limit_changed mac b x).2 in
  match (if initialized_of x then m ← mac; normalize_mac m else None) with
  | None => x' = x
  | Some norm =>
      let macs := limited_of x in
      let macs' := set_change norm b macs in
      limited_of x' = macs' /\
      log_of x' = log_of x ++
        (if (length macs =? 0)%nat && (0 <? length macs')%nat then
           match adapter_of x with
           | Some a => match wanted (ad_granularity a) (ifindex_of x') with
                       | Some c => [c] | None => [] end
           | None => []
           end
         else if (0 <? length macs)%nat && (length macs' =? 0)%nat then
           match adapter_of x with
           | Some a => match wanted (ad_granularity a) (ifindex_of x) with
                       | Some _ => [CRestoreGlobal] | None => [] end
           | None => []
           end
         else [])
  end.
Proof.
  intros Hg x'. unfold x'. rewrite notify_unfold. unfold initialized_of.
  destruct (if sc_initialized (sw_sched x) then _ else _) as [norm|]; [|done]. clear x'.
  unfold notify_locked, set_change, mbind, st_bind, sget, st_get, smod, st_mod.
  set (macs := sc_limited (sw_sched x)). change (limited_of x) with macs.
  set (macs' := if b then _ else _). clearbody macs'.
  set (x1 := SWorld (set_limited macs' (sw_sched x)) (sw_w x)).
  assert (Hg1 : adapter_good x1) by done.
  destruct ((length macs =? 0)%nat && (0 <? length macs')%nat) eqn:E1.
  - pose proof (refresh_effect x1) as (Ha & Hl & _ & Hlog & _ & _).
    destruct (refresh_primary_upstream_locked x1) as [[] x2]. cbn [fst snd] in *.
    assert (Hg2 : adapter_good x2) by (unfold adapter_good; by rewrite Ha).
    destruct (trigger_disable_effect x2 Hg2) as [(Hf1 & Hf2 & Hf3 & Hf4) [_ Hlg]].
    destruct (trigger_adapter_disable_locked x2) as [[] x3]. cbn [fst snd] in *.
    unfold mret, st_ret.
    destruct (request_silent x3) as [(Hr1 & Hr2 & Hr3 & Hr4) Hr5].
    rewrite Hr2, Hr3, Hr5, Hf2, Hf3, Hl, Hlg, Hlog, Ha. done.
  - destruct ((0 <? length macs)%nat && (length macs' =? 0)%nat) eqn:E2.
    + destruct (trigger_restore_effect x1 Hg1) as [(Hf1 & Hf2 & Hf3 & Hf4) [_ Hlg]].
      destruct (trigger_adapter_restore_locked x1) as [[] x3]. cbn [fst snd] in *.
      unfold mret, st_ret.
      destruct (request_silent x3) as [(Hr1 & Hr2 & Hr3 & Hr4) Hr5].
      rewrite Hr2, Hr5, Hf2, Hlg. done.
    + unfold mret, st_ret. cbn. rewrite app_nil_r. done.
Qed.

(** ** Witnesses: the BPF adapter on the concrete kernel *)
Definition demo_rules : bytes :=
  [123] ++ quoted (str "devices") ++ [COLON; 123] ++ quoted (str "AA:bb:cc:dd:ee:01") ++ [COLON; 123] ++
  quoted (str "limit_enabled") ++ str ": true}}}".

(** The upstream changes from interface 5 to interface 7 after ten seconds. *)
#[export] Instance demo_env : SchedEnv (bpf_world kern) := {|
  env_detect_upstream := fun w =>
    (Some (if kk_clock (bw_k w) <? 10 then (5, str "rmnet0") else (7, str "rmnet1")), w);
  env_lsm_init := fun _ w => (0, w);
  env_lsm_update := fun _ w => w;
  env_lsm_shutdown := fun w => w;
  env_rules := fun _ => Some demo_rules;
  env_thread_create := fun _ => 0;
  env_time := fun w => kk_clock (bw_k w)
|}.
#[export] Instance demo_promise : UpstreamPromise (bpf_world kern).
Proof.
  constructor. intros w idx name w'. cbn. intros [= Hi _]. revert Hi.
  destruct (_ <? _); intros [= <- _]; lia.
Qed.

Definition demo_kern : kern := Kern {[5 := BPF_LIMIT_NONE; 7 := BPF_LIMIT_NONE]} ∅ true ∅ 0.
Definition demo_world : bpf_world kern := BpfWorld bpf_state_init demo_kern.
Definition demo_adapters : list (offload_adapter (bpf_world kern)) := [adapter_bpf].
Definition demo_adapter : offload_adapter (tworld (bpf_world kern)) := traced adapter_bpf.

Definition demo_start : sworld (tworld (bpf_world kern)) :=
  (init_start demo_adapter
     (SWorld (set_adapter (Some demo_adapter) (Some demo_adapter) sched_zero) (demo_world, []))).2.

Lemma demo_started : started demo_adapters demo_world demo_start.
Proof. exists demo_adapter. split; reflexivity. Qed.
Lemma demo_complete : Forall adapter_complete demo_adapters.
Proof. repeat constructor; eexists; reflexivity. Qed.

Definition demo_rebuilt : nat * sworld (tworld (bpf_world kern)) :=
  init_rebuild (init_lsm demo_start).2.
Definition demo_x2 : sworld (tworld (bpf_world kern)) :=
  (init_trigger demo_rebuilt.1 demo_rebuilt.2).2.

Lemma demo_run : rtc step (CState demo_start MInit WWait) (CState demo_x2 MIdle WWait).
Proof. apply init_steps. Qed.

Lemma scheduler_promise_witness :
  limited_of demo_x2 = [str "aa:bb:cc:dd:ee:01"] /\ covered (log_of demo_x2) (CDisableUpstream 5).
Proof.
  split; [by vm_compute|].
  refine (proj2 (scheduler_promise demo_adapters demo_world demo_start demo_complete demo_started)
    (CState demo_x2 MIdle WWait) demo_run eq_refl _ demo_adapter (CDisableUpstream 5) eq_refl _).
  - intros H. vm_compute in H. discriminate H.
  - vm_compute. reflexivity.
Defined.

(** The promise does not survive a restart of the scheduler inside the same
    process: the set outlives [hnc_scheduler_shutdown], so the rebuild at the next
    [hnc_scheduler_init] adds nothing and triggers nothing; after a change of the upstream the
    initialisation reports success with a device limited and no switch-off asked for the
    upstream it has just detected. *)
Lemma restart_gap :
  exists (x3 x4 : sworld (tworld (bpf_world kern))),
    x3 = (hnc_scheduler_shutdown demo_x2).2 /\
    (** ten seconds pass *)
    let later := SWorld (sw_sched x3)
      (BpfWorld (bw_s (sw_w x3).1) (sys_sleep 10 (bw_k (sw_w x3).1)), log_of x3) in
    hnc_scheduler_init (traced <$> demo_adapters) later = (0, x4) /\
    limited_of x4 = [str "aa:bb:cc:dd:ee:01"] /\ ifindex_of x4 = 7 /\
    log_of x4 = [CDisableUpstream 5].
Proof.
  eexists _, _. split; [reflexivity|]. cbv zeta. split_and!.
  - apply surjective_pairing.
  - vm_compute. reflexivity.
  - vm_compute. reflexivity.
  - vm_compute. reflexivity.
Qed.

Lemma notify_effect_witness :
  log_of (hnc_scheduler_notify_device_limit_changed (Some (str "AA:bb:cc:dd:ee:02")) true demo_start).2
  = [CDisableUpstream 5].
Proof.
  pose proof (notify_effect demo_start (Some (str "AA:bb:cc:dd:ee:02")) true) as H.
  assert (Hg : adapter_good demo_start).
  { right. exists adapter_bpf. split; [reflexivity|]. repeat split; eexists; reflexivity. }
  specialize (H Hg). cbv zeta in H.
  assert (Hn : (if initialized_of demo_start then
      m ← Some (str "AA:bb:cc:dd:ee:02"); normalize_mac m else None) = Some (str "aa:bb:cc:dd:ee:02"))
    by (vm_compute; reflexivity).
  rewrite Hn in H. destruct H as [_ H]. rewrite H. vm_compute. reflexivity.
Defined.
