(* ===== verification/KernelPromise.v ===== *)
(** * The scheduler's promise in the kernel

    The scheduler, the BPF adapter and the limit map together: while a device is limited, the
    tethering program finds no quota for the upstream.  [SchedulerSpec] shows which calls are
    made, [BpfEffects] what they do; here the two meet, over every interleaving of the main
    thread and the worker. *)
From S2P Require Import Prelude CStr Offload BpfAdapter BpfKernel BpfSpec BpfEffects Scheduler SchedulerSpec.
From S2P Require Import Upstream UpstreamSpec.
Local Open Scope Z_scope.

(** Surroundings of the scheduler that do not write the limit map: the detection reads it
    only, and the guard closes and opens other objects. *)
Class QuietEnv (K : Type) `{!BpfSys K, !BpfLaws K, !SchedEnv (bpf_world K)} := {
  quiet_detect : gentle (K:=K) env_detect_upstream;
  quiet_lsm_init i : gentle (K:=K) (env_lsm_init i);
  quiet_lsm_update i (w : bpf_world K) : keeps_limits w (env_lsm_update i w)
}.

Section kernel.
Context {K : Type} `{!BpfSys K, !BpfLaws K, !BpfOpens K, !SchedEnv (bpf_world K), !UpstreamPromise (bpf_world K),
  !QuietEnv K}.
Abbreviation X := (sworld (tworld (bpf_world K))).
Implicit Types (x : X) (w : bpf_world K).

Definition bpf : offload_adapter (tworld (bpf_world K)) := traced adapter_bpf.
Definition world_of x : bpf_world K := (sw_w x).1.

(** The tethering program forwards nothing to upstream [idx]; to none, while none is known. *)
Definition throttled (idx : Z) w : Prop :=
  if 0 <? idx then default 0 (lmap w !! u32 idx) = 0 else forall j q, lmap w !! j = Some q -> q = 0.

Definition elected_ok x : Prop := adapter_of x = Some bpf \/ adapter_of x = Some adapter_null \/ adapter_of x = None.

Lemma elected_good_one x : elected_ok x -> adapter_good x.
Proof.
  unfold elected_ok, adapter_good. intros [->|[->| ->]]; [right|by left|done]. exists adapter_bpf. split; [done|].
  by split_and!; eexists.
Qed.

Lemma null_not_bpf : Some adapter_null <> Some bpf.
Proof. intros H. by apply (f_equal (fmap ad_name)) in H. Qed.

Lemma throttled_keeps idx w w' : keeps_limits w w' -> throttled idx w -> throttled idx w'.
Proof. intros [Hm _]. unfold throttled. by rewrite Hm. Qed.

(** ** What the scheduler's parts do to the map *)

#[local] Opaque bpf_disable_upstream bpf_disable_global bpf_restore_global bpf_refresh_active.

Lemma refresh_world x : keeps_limits (world_of x) (world_of (refresh_primary_upstream_locked x).2).
Proof.
  unfold refresh_primary_upstream_locked, mbind, st_bind, call, world_of. destruct x as [s [w l]]. cbn [sw_w fst].
  unfold env_detect_upstream, traced_env, quiet. cbn [fst snd]. pose proof (quiet_detect w) as Hq.
  destruct (env_detect_upstream w) as [[[idx name]|] w']; exact Hq.
Qed.

Lemma trigger_disable_world x :
  elected_ok x -> 0 <= ifindex_of x -> limit_ready (world_of x) ->
  let x' := (trigger_adapter_disable_locked x).2 in
  limit_ready (world_of x') /\ (adapter_of x = Some bpf -> throttled (ifindex_of x) (world_of x')).
Proof.
  destruct x as [[ini ad act lim idx nm wk] [w l]].
  unfold elected_ok, adapter_of, ifindex_of, world_of. cbn [sw_sched sw_w sc_adapter sc_ifindex fst].
  unfold trigger_adapter_disable_locked, mbind, st_bind, sget, st_get, mret, st_ret.
  cbn [sw_sched sw_w sc_adapter sc_ifindex]. intros [->|[->| ->]] Hi Hw; [|by split; [|intros []%null_not_bpf]|by split].
  unfold throttled. cbn. destruct (Z.leb_spec idx 0) as [Hle|Hlt].
  - rewrite (proj2 (Z.ltb_ge 0 idx)) by done. unfold call, logged. cbn.
    pose proof (disable_global_effect w Hw) as [Hr Hm]. destruct (bpf_disable_global w) as [r w'].
    split; [exact Hr|]. cbn in *. intros _ j q. rewrite Hm, lookup_fmap. destruct (lmap w !! j); [|done]. by intros [= <-].
  - rewrite (proj2 (Z.ltb_lt 0 idx)) by done. unfold call, logged. cbn.
    pose proof (disable_effect w idx Hw Hlt) as (Hr & Hz & _). destruct (bpf_disable_upstream idx w) as [r w'].
    by split.
Qed.

Lemma trigger_restore_world x :
  elected_ok x -> limit_ready (world_of x) ->
  let x' := (trigger_adapter_restore_locked x).2 in
  limit_ready (world_of x') /\
  (adapter_of x = Some bpf -> lmap (world_of x') = (fun _ => BPF_LIMIT_NONE) <$> lmap (world_of x)).
Proof.
  destruct x as [[ini ad act lim idx nm wk] [w l]].
  unfold elected_ok, adapter_of, world_of. cbn [sw_sched sw_w sc_adapter fst].
  unfold trigger_adapter_restore_locked, mbind, st_bind, sget, st_get, mret, st_ret.
  cbn [sw_sched sw_w sc_adapter]. intros [->|[->| ->]] Hw; [|by split; [|intros []%null_not_bpf]|by split].
  cbn. unfold call, logged. cbn. pose proof (restore_global_effect w Hw) as [Hr Hm].
  destruct (bpf_restore_global w) as [r w']. split; [exact Hr|intros _; exact Hm].
Qed.

(** The parts that switch nothing. *)
Lemma request_world x : world_of (hnc_scheduler_request_refresh x).2 = world_of x.
Proof.
  unfold hnc_scheduler_request_refresh, mbind, st_bind, sget, st_get, smod, st_mod, mret, st_ret.
  by destruct (_ || _).
Qed.
Lemma init_lsm_world x i : keeps_limits (world_of x) (world_of (init_lsm_with i x).2).
Proof.
  destruct x as [[ini ad act lim idx nm wk] [w l]].
  unfold init_lsm_with, mbind, st_bind, sget, st_get, mret, st_ret, call, world_of. cbn.
  destruct ad as [a|]; [|done]. destruct (bool_decide _); [|done]. cbn. unfold quiet. cbn.
  pose proof (quiet_lsm_init (u32 i) w) as Hq. by destruct (env_lsm_init (u32 i) w).
Qed.
Lemma notify_lsm_world x prev now : keeps_limits (world_of x) (world_of (worker_notify_lsm prev now x).2).
Proof. unfold worker_notify_lsm. destruct (_ && _); [|done]. apply quiet_lsm_update. Qed.
Lemma wake_world x : world_of (worker_wake x).2 = world_of x.
Proof.
  unfold worker_wake, mbind, st_bind, sget, st_get, smod, st_mod, mret, st_ret. by destruct (wk_should_stop _).
Qed.
Lemma worker_refresh_world x : elected_ok x -> keeps_limits (world_of x) (world_of (worker_refresh x).2).
Proof.
  destruct x as [[ini ad act lim idx nm wk] [w l]].
  unfold elected_ok, adapter_of, worker_refresh, mbind, st_bind, sget, st_get, smod, st_mod, mret, st_ret, wget,
    call, world_of. cbn [sw_sched sw_w sc_adapter fst]. intros [->|[->| ->]]; [|done|done].
  cbn. unfold quiet. cbn.
  pose proof (gentle_refresh w) as Hg. by destruct (bpf_refresh_active w).
Qed.

(** ** The start *)

Definition sound x : Prop := elected_ok x /\ limit_ready (world_of x).
Definition kpres {A} (m : st X A) : Prop := forall x, sound x -> sound (m x).2.

Lemma kpres_bind {A B} (m : st X A) (f : A -> st X B) : kpres m -> (forall a, kpres (f a)) -> kpres (m ≫= f).
Proof.
  intros Hm Hf x Hx. unfold mbind, st_bind. specialize (Hm x Hx). destruct (m x) as [a x1]. by apply Hf.
Qed.
Lemma kpres_ret {A} (a : A) : kpres (mret a).
Proof. by intros x. Qed.
Lemma kpres_wget {A} (f : _ -> A) : kpres (wget f).
Proof. by intros x. Qed.
Lemma kpres_worker f : kpres (smod (set_worker f)).
Proof. by intros x. Qed.
Lemma kpres_initialized b : kpres (smod (set_initialized b)).
Proof. by intros x. Qed.
Lemma kpres_quiet {A} (m : st (bpf_world K) A) : readies m -> kpres (call (quiet m)).
Proof.
  intros Hm [s [w l]] [He Hr]. unfold call, quiet. cbn in *. specialize (Hm w Hr).
  by destruct (m w) as [a w'].
Qed.
Lemma kpres_refresh : kpres refresh_primary_upstream_locked.
Proof.
  intros x [He Hr]. split; [|by apply refresh_world]. unfold elected_ok.
  pose proof (refresh_effect x) as (-> & _). exact He.
Qed.
Lemma kpres_fall_back : kpres fall_back_to_null.
Proof.
  unfold fall_back_to_null. apply kpres_bind; [|intros _; apply kpres_bind].
  - intros x [_ Hr]. split; [|exact Hr]. right. by left.
  - by intros [s [w l]].
  - intros. apply kpres_ret.
Qed.
Lemma kpres_shutdown {A} (m : st X A) :
  kpres m ->
  kpres (a ← sget sc_adapter; match a with Some a => call (ad_shutdown a) | None => mret tt end;; m).
Proof.
  intros Hm x [He Hr]. unfold mbind at 1, st_bind at 1, sget, st_get.
  change (sc_adapter (sw_sched x)) with (adapter_of x).
  enough (Hk : kpres (match adapter_of x with Some a => call (ad_shutdown a) | None => mret tt end;; m)) by by apply Hk.
  apply kpres_bind; [|by intros _]. destruct He as [->|[->| ->]].
  - apply (kpres_quiet bpf_shutdown ready_shutdown).
  - by intros [s [w l]].
  - apply kpres_ret.
Qed.

Lemma kpres_init_adapter a : a = bpf \/ a = adapter_null -> kpres (init_adapter a).
Proof.
  unfold init_adapter. intros [->| ->]; apply kpres_bind.
  - apply (kpres_quiet bpf_init), gentle_readies, gentle_init.
  - intros e. destruct (negb _); [apply kpres_fall_back|]. apply kpres_bind.
    + apply (kpres_quiet bpf_self_check), gentle_readies, gentle_self_check.
    + intros sc. destruct (negb _); [|apply kpres_ret]. apply kpres_bind; [|intros _; apply kpres_fall_back].
      apply (kpres_quiet bpf_shutdown ready_shutdown).
  - by intros [s [w l]].
  - intros e. destruct (negb _); [apply kpres_fall_back|]. cbn. apply kpres_bind; [by intros [s [w l]]|].
    intros sc. destruct (negb _); [|apply kpres_ret]. apply kpres_bind; [by intros [s [w l]]|].
    intros _. apply kpres_fall_back.
Qed.

Lemma started_sound k x1 :
  limit_pinned k -> started [adapter_bpf] (process k) x1 -> sound x1.
Proof.
  intros Hp (a & Hsel & Hs).
  assert (Ha : a = bpf \/ a = adapter_null).
  { revert Hsel. unfold offload_select_adapter, g_adapters. cbn. fold bpf.
    destruct (bpf_probe (process k)); intros Hi; injection Hi as <- _; [by left|by right]. }
  enough (Hk : kpres (init_start a)).
  { specialize (Hk (SWorld (set_adapter (Some a) (Some a) sched_zero) (process k, []))). rewrite Hs in Hk.
    apply Hk. split; [destruct Ha as [->| ->]; [by left|by right; left]|]. split; [by left|exact Hp]. }
  unfold init_start. apply kpres_bind; [by apply kpres_init_adapter|]. intros _.
  apply kpres_bind; [apply kpres_refresh|]. intros _. apply kpres_bind; [apply kpres_worker|]. intros _.
  apply kpres_bind; [apply kpres_wget|]. intros rc. destruct (negb (rc =? 0)).
  - apply kpres_shutdown, kpres_ret.
  - apply kpres_bind; [apply kpres_worker|]. intros _. apply kpres_bind; [apply kpres_initialized|].
    intros _. apply kpres_ret.
Qed.

(** ** The invariant *)

(** What is to hold of the upstream and the world while a device is limited: something the
    disable trigger brings about, and that depends on the content of the map only. *)
Section kept.
Context (Q : Z -> bpf_world K -> Prop).
Hypothesis Q_throttled : forall idx w, throttled idx w -> Q idx w.
Hypothesis Q_keeps : forall idx w w', keeps_limits w w' -> Q idx w -> Q idx w'.

Definition kept (c : cstate) : Prop :=
  c_main c = MIdle -> limited_of (c_x c) <> [] -> adapter_of (c_x c) = Some bpf ->
  Q (ifindex_of (c_x c)) (world_of (c_x c)).
Definition kernel_inv (c : cstate) : Prop := sched_inv c /\ sound (c_x c) /\ kept c.

(** Parts that neither move the records nor write the map. *)
Lemma sound_keeps x x' :
  adapter_of x' = adapter_of x -> keeps_limits (world_of x) (world_of x') -> sound x -> sound x'.
Proof. intros Ha [_ Hk] [He Hr]. split; [|by apply Hk]. unfold elected_ok. by rewrite Ha. Qed.
Lemma part_silent x x' m wk wk' :
  frame x x' -> keeps_limits (world_of x) (world_of x') ->
  sound x /\ kept (CState x m wk) -> sound x' /\ kept (CState x' m wk').
Proof.
  intros (Ha & Hl & Hi & _) Hk [Hs Ht]. split; [by eapply sound_keeps|]. unfold kept in *. cbn in *.
  rewrite Ha, Hl, Hi. intros Hm Hne Hb. eapply Q_keeps; [exact Hk|auto].
Qed.

(** After the disable trigger the promise holds. *)
Lemma part_disable x m wk :
  sound x -> 0 <= ifindex_of x ->
  let x' := (trigger_adapter_disable_locked x).2 in sound x' /\ kept (CState x' m wk).
Proof.
  intros [He Hr] Hi. destruct (trigger_disable_effect x (elected_good_one x He)) as [(Ha & _ & Hidx & _) _].
  destruct (trigger_disable_world x He Hi Hr) as [Hr' Ht]. cbv zeta. split.
  - split; [|exact Hr']. unfold elected_ok. by rewrite Ha.
  - intros _ _. cbn. rewrite Ha, Hidx. intros Hb. by apply Q_throttled, Ht.
Qed.
Lemma sound_refresh x : sound x -> sound (refresh_primary_upstream_locked x).2.
Proof. apply kpres_refresh. Qed.
Lemma refresh_nonneg x : 0 <= ifindex_of x -> 0 <= ifindex_of (refresh_primary_upstream_locked x).2.
Proof. pose proof (refresh_effect x) as (_ & _ & _ & _ & _ & [->|?]); lia. Qed.

Lemma part_trigger x n wk :
  sched_inv (CState x (MTrigger n) wk) -> sound x ->
  let x' := (init_trigger n x).2 in sound x' /\ kept (CState x' MIdle wk).
Proof.
  intros (_ & Hi & Hm) Hs. unfold init_trigger. destruct n as [|n].
  { split; [exact Hs|]. intros _ Hne. by destruct Hne; apply Hm. }
  cbn [Nat.ltb Nat.leb]. unfold mbind, st_bind. pose proof (sound_refresh x Hs) as Hs1.
  pose proof (refresh_nonneg x Hi) as Hi1. destruct (refresh_primary_upstream_locked x) as [[] x1].
  by apply part_disable.
Qed.

Lemma part_notify x norm b wk :
  sched_inv (CState x MIdle wk) -> sound x /\ kept (CState x MIdle wk) ->
  let x' := (notify_locked norm b x).2 in sound x' /\ kept (CState x' MIdle wk).
Proof.
  intros (_ & Hi & _) [Hs Ht]. pose proof (notify_split x norm b) as Hn. cbv zeta in *.
  set (x1 := SWorld (set_limited (set_change norm b (limited_of x)) (sw_sched x)) (sw_w x)) in *.
  assert (Hs1 : sound x1) by exact Hs. assert (Hi1 : 0 <= ifindex_of x1) by exact Hi.
  destruct Hn as [(_ & _ & ->)|[(_ & He & ->)|[He ->]]].
  - apply part_disable; [by apply sound_refresh|by apply refresh_nonneg].
  - destruct Hs1 as [He1 Hr1]. destruct (trigger_restore_effect x1 (elected_good_one x1 He1)) as [(Ha & Hl & _) _].
    destruct (trigger_restore_world x1 He1 Hr1) as [Hr' _]. split; [split; [|exact Hr']|].
    + unfold elected_ok. by rewrite Ha.
    + intros _ Hne. cbn in Hne. rewrite Hl in Hne. by destruct Hne.
  - split; [exact Hs1|]. intros _ Hne Hb. apply Ht; [done| |exact Hb]. intros H0. by apply Hne, He.
Qed.

Lemma part_reprobe x m wk wk' :
  sched_inv (CState x m wk) -> sound x /\ kept (CState x m wk) ->
  let x' := (worker_reprobe x).2 in sound x' /\ kept (CState x' m wk').
Proof.
  intros (_ & Hi & _) [Hs Ht]. pose proof (reprobe_split x Hi) as Hr. cbv zeta in *.
  pose proof (refresh_effect x) as (Ha & Hl & _ & _ & _ & _).
  pose proof (refresh_world x) as Hw. pose proof (sound_refresh x Hs) as Hs1. pose proof (refresh_nonneg x Hi) as Hi1.
  destruct Hr as [->|[-> Hr]]; [by apply part_disable|]. split; [exact Hs1|].
  unfold kept in *. cbn in *. rewrite Ha, Hl. intros Hm Hne Hb.
  destruct Hr as [?| ->]; [done|]. eapply Q_keeps; [exact Hw|auto].
Qed.

Lemma part_force_disable x wk :
  sound x /\ kept (CState x MIdle wk) ->
  let x' := (hnc_scheduler_force_disable_global x).2 in sound x' /\ kept (CState x' MIdle wk).
Proof.
  destruct x as [[ini ad act lim idx nm wkr] [w l]]. intros [[He Hr] Ht].
  unfold hnc_scheduler_force_disable_global, mbind, st_bind, sget, st_get, mret, st_ret.
  unfold elected_ok, adapter_of in He. cbn in He. unfold sound, elected_ok, kept, world_of, adapter_of,
    limited_of, ifindex_of in *. cbn in *.
  destruct He as [->|[->| ->]]; [|by destruct (negb ini); eauto|by eauto].
  destruct (negb ini); [by eauto|]. cbn. unfold call, logged. cbn.
  pose proof (disable_global_effect w Hr) as [Hr' Hm]. destruct (bpf_disable_global w) as [r w']. cbn in *.
  split; [by eauto|]. intros _ _ _. apply Q_throttled. unfold throttled. rewrite Hm.
  destruct (0 <? idx).
  - rewrite lookup_fmap. by destruct (lmap w !! u32 idx).
  - intros j q. rewrite lookup_fmap. destruct (lmap w !! j); [|done]. by intros [= <-].
Qed.

Lemma part_notify_all x mac b wk :
  sched_inv (CState x MIdle wk) -> sound x /\ kept (CState x MIdle wk) ->
  let x' := (hnc_scheduler_notify_device_limit_changed mac b x).2 in
  sound x' /\ kept (CState x' MIdle wk).
Proof.
  intros Hi Hx. rewrite notify_unfold. destruct (if sc_initialized (sw_sched x) then _ else _) as [norm|]; [|exact Hx].
  pose proof (part_notify x norm b wk Hi Hx) as Hn. destruct (notify_locked norm b x) as [[] x1]; [|exact Hn].
  cbv zeta. eapply (part_silent x1); [apply request_silent| |exact Hn]. rewrite request_world. done.
Qed.

Lemma kernel_step c c' : kernel_inv c -> step c c' -> kernel_inv c'.
Proof.
  intros (Hinv & Hx) Hstep. split; [by eapply step_inv|]. destruct Hstep; cbn [c_x] in *.
  - destruct Hx as [Hs _]. by split.
  - destruct (init_lsm_silent x idx) as [Hf _].
    destruct (part_silent _ _ (MLsm idx) wk wk Hf (init_lsm_world x idx) Hx) as [Hs _]. by split.
  - destruct Hx as [[He Hr] _].
    unfold r, init_rebuild, mbind, st_bind, wget, sget, st_get, smod, st_mod, mret, st_ret in *.
    destruct (rebuild_from_rules _ _) as [macs' added]. cbn in *. by split.
  - destruct Hx as [Hs _]. exact (part_trigger x n wk Hinv Hs).
  - exact (part_notify_all x mac b wk Hinv Hx).
  - eapply part_silent; [apply request_silent| |exact Hx]. by rewrite request_world.
  - by apply part_force_disable.
  - destruct Hx as [Hs _]. by split.
  - destruct Hx as [[He Hr] _]. unfold call. destruct x as [s [w l]]. cbn in *.
    destruct Hinv as (_ & _ & Hm). cbn in Hm.
    assert (Hs : sound (SWorld s ((f (w, l)).2))).
    { split; [exact He|]. unfold elected_ok in He. rewrite H in He. destruct He as [Hb|[Hb|Hb]]; [| |done].
      - injection Hb as ->. injection H0 as <-. unfold logged. cbn.
        pose proof (restore_global_effect w Hr) as [Hr' _]. by destruct (bpf_restore_global w).
      - injection Hb as ->. injection H0 as <-. exact Hr. }
    destruct (f (w, l)) as [e w']. split; [exact Hs|]. intros _ Hne. by destruct Hne.
  - eapply part_silent; [apply wake_silent| |exact Hx]. unfold r. by rewrite wake_world.
  - exact (part_reprobe x m _ _ Hinv Hx).
  - eapply part_silent; [apply notify_lsm_silent|apply notify_lsm_world|exact Hx].
  - eapply part_silent; [apply refresh_silent, Hinv|apply worker_refresh_world, Hx|exact Hx].
Qed.

End kept.

Lemma kernel_run k x1 c :
  limit_pinned k -> started [adapter_bpf] (process k) x1 ->
  rtc step (CState x1 MInit WWait) c -> kernel_inv throttled c.
Proof.
  intros Hp Hst Hrun. eapply (rtc_invariant step (kernel_inv throttled));
    [intros ? ?; apply kernel_step; [done|apply throttled_keeps]|exact Hrun|].
  split; [|split; [by eapply started_sound|done]]. eapply started_inv; [|exact Hst].
  repeat constructor; by eexists.
Qed.

(** The notification that takes the last device out lifts every quota. *)
Lemma last_lifts x mac b :
  sound x -> adapter_of x = Some bpf -> limited_of x <> [] ->
  let x' := (hnc_scheduler_notify_device_limit_changed mac b x).2 in
  limited_of x' = [] -> lmap (world_of x') = (fun _ => BPF_LIMIT_NONE) <$> lmap (world_of x).
Proof.
  intros [He Hr] Hb Hne. cbv zeta. rewrite notify_unfold.
  destruct (if sc_initialized (sw_sched x) then _ else _) as [norm|]; [|done].
  assert (Hn : limited_of (notify_locked norm b x).2 = [] ->
    lmap (world_of (notify_locked norm b x).2) = (fun _ => BPF_LIMIT_NONE) <$> lmap (world_of x)).
  { destruct (notify_split x norm b) as [[? _]|[(_ & _ & ->)|[Hi ->]]]; [done| |].
    - intros _. set (x1 := SWorld _ _). by apply (proj2 (trigger_restore_world x1 He Hr)).
    - intros H0. by destruct Hne; apply Hi. }
  destruct (notify_locked norm b x) as [[] x1]; [|exact Hn]. cbn [snd] in *. rewrite request_world.
  destruct (request_silent x1) as [(_ & -> & _) _]. exact Hn.
Qed.
End kernel.

(** The detection of [upstream.c] only looks. *)
#[export] Instance detecting_quiet {K} `{!BpfSys K, !BpfLaws K} (base : SchedEnv (bpf_world K))
  (net : bpf_world K -> net_view) (Hb : @QuietEnv K _ _ base) : @QuietEnv K _ _ (detecting_env base net).
Proof.
  constructor; [|exact (@quiet_lsm_init K _ _ base Hb)|exact (@quiet_lsm_update K _ _ base Hb)].
  intros w. unfold env_detect_upstream, detecting_env. by destruct (upstream_detect_primary _ _ _).
Qed.

(** C2: in the kernel the promise means this.  Start the scheduler with the BPF adapter; let
    notifications, forced operations, requests and the worker's turns interleave in any way,
    in surroundings that do not write the limit map.  Whenever the main thread is between two
    requests and some device is limited, the map holds no quota for the upstream
    (for no upstream while none is known), whatever it held at the start and whichever of
    the adapter's calls failed. *)
Theorem quota_promise {K} `{!BpfSys K, !BpfLaws K, !BpfOpens K, !SchedEnv (bpf_world K),
    !UpstreamPromise (bpf_world K), !QuietEnv K} (k : K) (x1 : sworld (tworld (bpf_world K))) (c : cstate) :
  limit_pinned k -> started [adapter_bpf] (process k) x1 ->
  rtc step (CState x1 MInit WWait) c -> c_main c = MIdle ->
  limited_of (c_x c) <> [] -> adapter_of (c_x c) = Some bpf ->
  throttled (ifindex_of (c_x c)) (world_of (c_x c)).
Proof. intros Hp Hst Hrun. by apply (kernel_run k x1 c). Qed.

(** ** Witness: the run of [SchedulerSpec] on the concrete kernel *)
#[export] Instance demo_quiet : QuietEnv kern.
Proof. constructor; done. Qed.

Lemma quota_promise_witness :
  ifindex_of demo_x2 = 5 /\ limited_of demo_x2 = [str "aa:bb:cc:dd:ee:01"] /\ throttled 5 (world_of demo_x2).
Proof.
  split; [by vm_compute|]. split; [by vm_compute|].
  refine (quota_promise demo_kern demo_start (CState demo_x2 MIdle WWait) eq_refl demo_started demo_run eq_refl _ _).
  - intros H. vm_compute in H. discriminate H.
  - reflexivity.
Defined.

(** ** What the adapter leaves for the detection

    The fourth tier takes any interface the limit map has an entry for, whatever the quota.
    The adapter inserts the entry when it is missing, and restoring keeps it: an upstream
    that is closed is found again, although the route now goes over another interface. *)
Definition seen_by (k : kern) : net_view := {|
  nv_index := fun name => if bool_decide (name = str "wlan0") then 20
                          else if bool_decide (name = str "rmnet0") then 5 else 0;
  nv_name := fun idx => if idx =? 20 then Some (str "wlan0") else if idx =? 5 then Some (str "rmnet0") else None;
  nv_upstream4 := None;
  nv_limit := Some (list_map (map_to_list (kk_limit k)));
  nv_ip_route := Some (str "8.8.8.8 via 192.168.0.1 dev wlan0 src 192.168.0.7" ++ [NL]);
  nv_proc_route := None
|}.

Lemma own_entry_detected :
  let k0 := Kern ∅ ∅ true ∅ 0 in
  let k1 := bw_k (bpf_restore_upstream 5 (bpf_disable_upstream 5 (process k0)).2).2 in
  upstream_detect_primary (seen_by k0) 16 (0, []) = (0, (20, str "wlan0")) /\
  kk_limit k1 = {[5 := BPF_LIMIT_NONE]} /\
  upstream_detect_primary (seen_by k1) 16 (0, []) = (0, (5, str "rmnet0")).
Proof. split_and!; by vm_compute. Qed.
