(* ===== verification/HostnameCache.v ===== *)
(** * The persistent hostname cache ([hostname_cache.c])

    1024 slots of (MAC, hostname, source, time), looked up by MAC up to case,
    replaced oldest first when full, and saved to and loaded from a JSON file.
    Model, refinement of update and lookup, and the round trip through the file. *)
From S2P Require Import Prelude CStr Slots Helpers.
Local Open Scope Z_scope.

Definition HNC_CACHE_MAX_ENTRIES : nat := Z.to_nat 1024.
Definition CACHE_FILE_MAX : Z := 256 * 1024.

(** [hnc_cache_entry_t] *)
Record hnc_cache_entry := CacheEntry {
  ce_active : bool;
  ce_mac : bytes;
  ce_hostname : bytes;
  ce_src : bytes;
  ce_updated_at : Z
}.
Definition cache_zero : hnc_cache_entry := CacheEntry false [] [] [] 0.

(** The globals of the file. *)
Record cache_state := CacheState {
  g_cache : list hnc_cache_entry;
  g_cache_dirty : bool;
  g_cache_path : bytes
}.

(** [mac_eq]: [n] characters are left to compare. *)
Fixpoint mac_eq_from (n : nat) (a b : bytes) : bool :=
  match n with
  | O => match a, b with [], [] => true | _, _ => false end
  | S n' =>
      match a, b with
      | [], [] => true
      | x :: a', y :: b' => if tolower x =? tolower y then mac_eq_from n' a' b' else false
      | _, _ => false
      end
  end.
Definition mac_eq (a b : bytes) : bool := mac_eq_from 17 a b.

Definition hnc_cache_init (cache_path : option bytes) : cache_state :=
  CacheState (replicate HNC_CACHE_MAX_ENTRIES cache_zero) false
    (match cache_path with Some p => c_trunc 256 p | None => [] end).
Definition hnc_cache_reset (st : cache_state) : cache_state :=
  CacheState (replicate HNC_CACHE_MAX_ENTRIES cache_zero) false (g_cache_path st).
Definition hnc_cache_count (st : cache_state) : nat :=
  length (filter (fun e => ce_active e = true) (g_cache st)).
Definition hnc_cache_is_dirty (st : cache_state) : bool := g_cache_dirty st.

Definition cache_hit (mac : bytes) (e : hnc_cache_entry) : bool :=
  ce_active e && mac_eq (ce_mac e) mac.

(** [hnc_cache_lookup]: [None] for 0. *)
Definition hnc_cache_lookup (st : cache_state) (mac : bytes) (hn_len src_len : nat)
  : option (bytes * bytes) :=
  if (hn_len =? 0)%nat || (src_len =? 0)%nat then None
  else match list_find (fun e => cache_hit mac e = true) (g_cache st) with
       | Some (_, e) => Some (c_trunc hn_len (ce_hostname e), c_trunc src_len (ce_src e))
       | None => None
       end.

(** [strncmp(a, b, n) != 0] *)
Definition strncmp_ne (n : nat) (a b : bytes) : bool := negb (bool_decide (take n a = take n b)).

(** The index of the oldest slot: the first of the smallest times. *)
Definition oldest_idx (l : list hnc_cache_entry) : nat := min_idx ce_updated_at l.

Definition new_entry (mac hostname src : bytes) (now : Z) : hnc_cache_entry :=
  CacheEntry true (c_trunc 18 mac) (c_trunc 64 hostname) (c_trunc 12 src) now.

(** [hnc_cache_update] at time [now]: the return value and the new state. *)
Definition hnc_cache_update (mac hostname src : bytes) (now : Z) (st : cache_state)
  : bool * cache_state :=
  if bool_decide (mac = []) || bool_decide (hostname = []) || bool_decide (src = []) then (false, st)
  else
    match list_find (fun e => cache_hit mac e = true) (g_cache st) with
    | Some (i, e) =>
        if strncmp_ne 64 (ce_hostname e) hostname || strncmp_ne 12 (ce_src e) src then
          (true, CacheState
             (<[i := CacheEntry true (ce_mac e) (c_trunc 64 hostname) (c_trunc 12 src) now]> (g_cache st))
             true (g_cache_path st))
        else
          (false, CacheState
             (<[i := CacheEntry true (ce_mac e) (ce_hostname e) (ce_src e) now]> (g_cache st))
             (g_cache_dirty st) (g_cache_path st))
    | None =>
        match find_idx (fun e => negb (ce_active e)) (g_cache st) with
        | Some i =>
            (true, CacheState (<[i := new_entry mac hostname src now]> (g_cache st)) true (g_cache_path st))
        | None =>
            let i := oldest_idx (g_cache st) in
            (true, CacheState (<[i := new_entry mac hostname src now]> (g_cache st)) true (g_cache_path st))
        end
    end.

(** ** [hnc_cache_save] *)
Definition q (s : string) : bytes := QUOTE :: str s ++ [QUOTE].

Definition save_entry (e : hnc_cache_entry) : bytes :=
  QUOTE :: ce_mac e ++ [QUOTE; COLON; 123] ++ q "h" ++ [COLON; QUOTE] ++
  default [] (hnc_json_escape (ce_hostname e) 128) ++ [QUOTE; 44] ++ q "s" ++ [COLON; QUOTE] ++
  ce_src e ++ [QUOTE; 44] ++ q "t" ++ [COLON] ++ dec (ce_updated_at e) ++ [125].

Fixpoint save_entries (first : bool) (l : list hnc_cache_entry) : bytes :=
  match l with
  | [] => []
  | e :: r =>
      if negb (ce_active e) then save_entries first r
      else (if first then [] else [44]) ++ save_entry e ++ save_entries false r
  end.
(** The bytes written to the temporary file. *)
Definition cache_file (l : list hnc_cache_entry) : bytes :=
  123 :: save_entries true l ++ [125; NL].

(** How the system calls of the save end. *)
Record save_io := SaveIo { io_open : bool; io_flush : bool; io_rename : bool }.

(** The return value, the file that is at the cache path afterwards and the state. *)
Definition hnc_cache_save (io : save_io) (old_file : option bytes) (st : cache_state)
  : Z * option bytes * cache_state :=
  if bool_decide (g_cache_path st = []) then (-1, old_file, st)
  else if negb (io_open io) then (-1, old_file, st)
  else if negb (io_flush io) then (-1, old_file, st)
  else if negb (io_rename io) then (-1, old_file, st)
  else (0, Some (cache_file (g_cache st)), CacheState (g_cache st) false (g_cache_path st)).

(** ** [hnc_cache_load] *)

(** [strtoul(s, &end, 16)] when it consumes all of [s], [None] otherwise. *)
Definition strtoul_hex (s : bytes) : option Z :=
  let s := drop_while isspace s in
  let '(neg, s) := match s with
                   | c :: s' => if c =? 45 then (true, s') else if c =? 43 then (false, s')
                                else (false, s)
                   | [] => (false, s)
                   end in
  let s := match s with
           | z :: x :: h :: r => if (z =? 48) && (tolower x =? 120) && isxdigit h then h :: r else s
           | _ => s
           end in
  match s with
  | [] => None
  | _ => if forallb isxdigit s then
           let v := fold_left (fun v d => 16 * v + hex_val d) s 0 in
           Some (u64 (if neg : bool then - v else v))
         else None
  end.

Definition byte_of (z : Z) : Z := Z.land z 255.

(** The bytes a code point becomes when [j] bytes are written already. *)
Definition put_cp (cp : Z) (j : nat) : bytes :=
  if cp <? 128 then [byte_of cp]
  else if (cp <? 2048) && (j + 1 <? 63)%nat then
    [byte_of (Z.lor 192 (Z.shiftr cp 6)); byte_of (Z.lor 128 (Z.land cp 63))]
  else if (j + 2 <? 63)%nat then
    [byte_of (Z.lor 224 (Z.shiftr cp 12)); byte_of (Z.lor 128 (Z.land (Z.shiftr cp 6) 63));
     byte_of (Z.lor 128 (Z.land cp 63))]
  else [].

(** One turn of the loop that unescapes a hostname: [None] ends it. *)
Definition unescape_step (q hn : bytes) : option (bytes * bytes) :=
  match q with
  | [] => None
  | c :: r =>
      if (c =? QUOTE) || negb (length hn <? 63)%nat then None
      else if c =? BSLASH then
        match r with
        | [] => Some (r, hn ++ [c])
        | d :: r' =>
            if d =? 110 then Some (r', hn ++ [NL])
            else if d =? 114 then Some (r', hn ++ [CR])
            else if d =? 116 then Some (r', hn ++ [TAB])
            else if (d =? QUOTE) || (d =? BSLASH) || (d =? 47) then Some (r', hn ++ [d])
            else if d =? 98 then Some (r', hn ++ [8])
            else if d =? 102 then Some (r', hn ++ [12])
            else if (d =? 117) && (4 <=? length r')%nat then
              match strtoul_hex (take 4 r') with
              | Some cp => Some (drop 4 r', hn ++ put_cp cp (length hn))
              | None => Some (r', hn ++ [d])
              end
            else Some (r', hn ++ [d])
        end
      else Some (r, hn ++ [c])
  end.
Definition unescape_loop (s : bytes * bytes) : bytes * bytes + bytes * bytes :=
  match unescape_step s.1 s.2 with Some s' => inl s' | None => inr s end.
(** The rest of the text and the hostname. *)
Definition unescape_hn (q : bytes) : bytes * bytes :=
  default (q, []) (loop unescape_loop (S (length q)) (q, [])).

Fixpoint copy_src (r : bytes) (room : nat) : bytes * bytes :=
  match r, room with
  | c :: r', S room' => if c =? QUOTE then ([], r)
                        else let '(s, rest) := copy_src r' room' in (c :: s, rest)
  | _, _ => ([], r)
  end.

Definition H_MARK : bytes := [QUOTE; COLON; 123] ++ q "h" ++ [COLON; QUOTE].
Definition S_MARK : bytes := 44 :: q "s" ++ [COLON; QUOTE].
Definition T_MARK : bytes := 44 :: q "t" ++ [COLON].

(** The entry that starts at a mark: the bytes before the mark (last one first)
    hold the key, [m] starts at the mark.  The result is the entry, unless the
    fields are empty, and the text behind the source's quote. *)
Definition parse_entry (before m : bytes) : option (option hnc_cache_entry * bytes) :=
  if (length before <? 18)%nat then None
  else if negb (nth 17 before 0 =? QUOTE) then None
  else
    let mac := reverse (take 17 before) in
    let '(q, hn) := unescape_hn (drop (length H_MARK) m) in
    match q with
    | c :: _ =>
        if negb (c =? QUOTE) then None
        else
          match strstr S_MARK q with
          | None => None
          | Some (_, s) =>
              let '(src, r) := copy_src (drop (length S_MARK) s) 11 in
              match r with
              | d :: rest =>
                  if negb (d =? QUOTE) then None
                  else
                    let ts := match strstr T_MARK r with
                              | Some (_, t) => strtol (drop (length T_MARK) t)
                              | None => 0
                              end in
                    if bool_decide (hn = []) || bool_decide (src = []) then Some (None, rest)
                    else Some (Some (CacheEntry true (c_trunc 18 (cut_nul mac)) (c_trunc 64 (cut_nul hn))
                                       (c_trunc 12 src) ts), rest)
              | [] => None
              end
          end
    | [] => None
    end.

(** The scan: the bytes before the position (last one first), those from it on,
    the number of entries loaded and the slots. *)
Record cload := CLoad { cl_before : bytes; cl_p : bytes; cl_loaded : nat; cl_slots : list hnc_cache_entry }.

Definition cload_step (s : cload) : cload + (nat * list hnc_cache_entry) :=
  match strstr H_MARK (cl_p s) with
  | None => inr (cl_loaded s, cl_slots s)
  | Some (pre, m) =>
      let before := reverse pre ++ cl_before s in
      match parse_entry before m with
      | None => inl (CLoad (take 1 m ++ before) (drop 1 m) (cl_loaded s) (cl_slots s))
      | Some (e, rest) =>
          let before' := reverse (take (length m - length rest) m) ++ before in
          match e with
          | Some e =>
              if (cl_loaded s <? HNC_CACHE_MAX_ENTRIES)%nat
              then inl (CLoad before' rest (S (cl_loaded s)) (<[cl_loaded s := e]> (cl_slots s)))
              else inl (CLoad before' rest (cl_loaded s) (cl_slots s))
          | None => inl (CLoad before' rest (cl_loaded s) (cl_slots s))
          end
      end
  end.

(** [hnc_cache_load] on the content of the file ([None]: it cannot be opened). *)
Definition hnc_cache_load (content : option bytes) (st : cache_state) : nat * cache_state :=
  match content with
  | None => (0%nat, st)
  | Some content =>
      if bool_decide (g_cache_path st = []) then (0%nat, st)
      else if (length content =? 0)%nat || (CACHE_FILE_MAX <? Z.of_nat (length content)) then (0%nat, st)
      else
        let buf := cut_nul content in
        match loop cload_step (S (length buf)) (CLoad [] buf 0 (g_cache st)) with
        | Some (loaded, slots) => (loaded, CacheState slots false (g_cache_path st))
        | None => (0%nat, st)
        end
  end.

(** ** Lookup and update *)
Lemma mac_eq_from_spec n a b :
  (length a <= n)%nat -> mac_eq_from n a b = bool_decide (lower a = lower b).
Proof.
  revert a b. induction n as [|n IH]; intros [|x a] [|y b] Hlen; simpl in *; try done; try lia.
  destruct (tolower x =? tolower y) eqn:E; bool_simpl.
  - rewrite IH by lia. apply bool_decide_ext. rewrite E. split; congruence.
  - symmetry. apply bool_decide_false. congruence.
Qed.

Definition entry_sane (e : hnc_cache_entry) : Prop :=
  ce_active e = true ->
  (length (ce_mac e) <= 17)%nat /\ (length (ce_hostname e) <= 63)%nat /\ (length (ce_src e) <= 11)%nat.

(** No MAC twice, up to case. *)
Abbreviation uniq := (slots_uniq ce_active ce_mac).
Abbreviation holds_at := (slot_holds ce_active ce_mac).

Definition cache_ok (st : cache_state) : Prop :=
  length (g_cache st) = HNC_CACHE_MAX_ENTRIES /\ Forall entry_sane (g_cache st) /\ uniq (g_cache st).

Lemma cache_hit_spec mac e :
  entry_sane e -> cache_hit mac e = true <-> ce_active e = true /\ lower (ce_mac e) = lower mac.
Proof.
  intros Hs. unfold cache_hit, mac_eq. rewrite andb_true_iff. split.
  - intros [Ha Hm]. split; [done|]. rewrite mac_eq_from_spec in Hm; [by bool_simpl|]. by apply Hs.
  - intros [Ha Hm]. split; [done|]. rewrite mac_eq_from_spec by by apply Hs. by apply bool_decide_eq_true.
Qed.

(** The lookup in terms of the slots. *)
Definition cut_pair (n m : nat) (e : hnc_cache_entry) : bytes * bytes :=
  (c_trunc n (ce_hostname e), c_trunc m (ce_src e)).

Lemma cache_lookup_find st mac n m :
  hnc_cache_lookup st mac n m
  = if (n =? 0)%nat || (m =? 0)%nat then None
    else (fun x => cut_pair n m x.2) <$> list_find (fun e => cache_hit mac e = true) (g_cache st).
Proof. unfold hnc_cache_lookup. destruct (_ || _); [done|]. by destruct (list_find _ _) as [[]|]. Qed.

Lemma trunc_id_lt n s : (length s <= n - 1)%nat -> c_trunc n s = s.
Proof. intros. unfold c_trunc. by apply take_ge. Qed.

(** The three ways an update goes: an entry is overwritten (or only its time),
    a free slot is taken, or the oldest slot is. *)
Lemma cache_update_slot mac hostname src now st :
  cache_ok st -> mac <> [] -> hostname <> [] -> src <> [] ->
  (length mac <= 17)%nat -> (length hostname <= 63)%nat -> (length src <= 11)%nat ->
  exists i old e, g_cache st !! i = Some old /\ ce_active e = true /\
    lower (ce_mac e) = lower mac /\ (length (ce_mac e) <= 17)%nat /\
    ce_hostname e = hostname /\ ce_src e = src /\
    (forall j a, holds_at (g_cache st) j mac a -> j = i) /\
    (ce_active old = true -> lower (ce_mac old) = lower mac \/
       (forall a, a ∈ g_cache st -> ce_active a = true) /\
       (forall j a, ~ holds_at (g_cache st) j mac a) /\
       (forall a, a ∈ g_cache st -> ce_updated_at old <= ce_updated_at a)) /\
    exists r, hnc_cache_update mac hostname src now st
      = (r, CacheState (<[i := e]> (g_cache st)) (r || g_cache_dirty st) (g_cache_path st)) /\
      r = negb (bool_decide (hnc_cache_lookup st mac 64 12 = Some (hostname, src))).
Proof.
  intros (Hlen & Hs & Hu) Hm Hh Hsr Lm Lh Ls. unfold hnc_cache_update.
  rewrite !bool_decide_false by done. cbn [orb].
  rewrite cache_lookup_find. cbn [Nat.eqb orb].
  destruct (list_find (fun e => cache_hit mac e = true) (g_cache st)) as [[i e]|] eqn:E.
  - apply (slot_find_Some _ _ _ _ cache_hit_spec) in E as Hat; [|done..]. destruct Hat as (Hi & Ha & Hl).
    destruct (Forall_lookup_1 _ _ _ _ Hs Hi Ha) as (L1 & L2 & L3).
    assert (Honly : forall j a, holds_at (g_cache st) j mac a -> j = i).
    { intros j a (Hj & Hja & Hjl). eapply Hu; eauto. congruence. }
    cbn. unfold cut_pair. rewrite !trunc_id_lt by (simpl; lia). unfold strncmp_ne.
    rewrite !take_ge by lia.
    exists i, e, (CacheEntry true (ce_mac e) hostname src now).
    split_and!; [done..|exact Honly|by left|].
    repeat case_bool_decide; simplify_eq; cbn [negb orb]; try congruence; first [by exists true|by exists false].
  - assert (Hnone : forall j a, ~ holds_at (g_cache st) j mac a) by by apply (slot_find_None _ _ _ _ cache_hit_spec).
    assert (Hne : ce_mac (new_entry mac hostname src now) = mac)
      by (apply (trunc_id_lt 18); simpl; lia).
    cbn [fmap option_fmap option_map]. rewrite (bool_decide_false (None = _)) by done. cbn.
    assert (Hnew : ce_hostname (new_entry mac hostname src now) = hostname /\
                   ce_src (new_entry mac hostname src now) = src).
    { split; [apply (trunc_id_lt 64)|apply (trunc_id_lt 12)]; simpl; lia. }
    destruct (find_idx (fun e => negb (ce_active e)) (g_cache st)) as [i|] eqn:Ef.
    + apply find_idx_lookup in Ef as (old & Hi & Ho). bool_simpl.
      exists i, old, (new_entry mac hostname src now). rewrite Hne.
      split_and!; try done; try apply Hnew; try congruence.
      * intros j a Hj. by destruct (Hnone j a).
      * by exists true.
    + destruct (min_idx_spec ce_updated_at (g_cache st)) as (old & Hi & Hmin).
      { intros Hnil. rewrite Hnil in Hlen. done. }
      exists (oldest_idx (g_cache st)), old, (new_entry mac hostname src now). rewrite Hne.
      split_and!; try done; try apply Hnew; try congruence.
      * intros j a Hj. by destruct (Hnone j a).
      * intros _. right. split_and!; [|done|done]. intros a Hina.
        pose proof (proj1 (find_idx_None _ _) Ef a Hina) as Ha. cbn beta in Ha. by bool_simpl.
      * by exists true.
Qed.

(** C38: updating the cache is insertion into a map keyed by MAC up to case, with
    eviction of an oldest entry only when all 1024 slots are taken.  After an
    update the new name is found; every other MAC answers as before, except the
    one evicted entry, which had a smallest time and is no longer found; the
    return value tells whether the answer changed, and exactly then the cache is
    marked dirty; slots, field lengths and uniqueness of MACs are kept. *)
Theorem cache_update_spec (mac hostname src : bytes) (now : Z) (st : cache_state) :
  cache_ok st -> mac <> [] -> hostname <> [] -> src <> [] ->
  (length mac <= 17)%nat -> (length hostname <= 63)%nat -> (length src <= 11)%nat ->
  let r := hnc_cache_update mac hostname src now st in
  cache_ok r.2 /\
  hnc_cache_lookup r.2 mac 64 12 = Some (hostname, src) /\
  r.1 = negb (bool_decide (hnc_cache_lookup st mac 64 12 = Some (hostname, src))) /\
  g_cache_dirty r.2 = r.1 || g_cache_dirty st /\
  forall mac' n m, lower mac' <> lower mac ->
    hnc_cache_lookup r.2 mac' n m = hnc_cache_lookup st mac' n m \/
    ((forall a, a ∈ g_cache st -> ce_active a = true) /\
     hnc_cache_lookup st mac 64 12 = None /\
     exists old, old ∈ g_cache st /\ lower (ce_mac old) = lower mac' /\
       (forall a, a ∈ g_cache st -> ce_updated_at old <= ce_updated_at a) /\
       hnc_cache_lookup r.2 mac' n m = None).
Proof.
  intros Hok Hm Hh Hsr Lm Lh Ls r. pose proof Hok as (Hlen & Hs & Hu).
  destruct (cache_update_slot mac hostname src now st Hok Hm Hh Hsr Lm Lh Ls)
    as (i & old & e & Hi & Hae & Hle & Lme & Ehn & Esrc & Honly & Hold & b & Hupd & Hb).
  unfold r. rewrite Hupd. cbn [fst snd g_cache_dirty].
  assert (Hse : entry_sane e) by (intros _; split_and!; congruence || (rewrite ?Ehn, ?Esrc; done)).
  assert (Hfree : forall j a, holds_at (g_cache st) j (ce_mac e) a -> j = i).
  { intros j a (? & ? & ?). apply (Honly j a). split_and!; congruence. }
  split_and!; [|..|done|done|].
  - split_and!; cbn; [by rewrite length_insert|by apply insert_sane|by eapply (insert_uniq _ _ _ _ cache_hit_spec)].
  - rewrite cache_lookup_find. cbn [Nat.eqb orb g_cache].
    erewrite (insert_find_new _ _ _ _ cache_hit_spec) by done. cbn. unfold cut_pair.
    rewrite Ehn, Esrc, !trunc_id_lt by (simpl; lia). done.
  - intros mac' n m Hne. rewrite !cache_lookup_find. cbn [g_cache].
    destruct (ce_active old) eqn:Hao; [destruct (decide (lower (ce_mac old) = lower mac')) as [Hv|Hv]|].
    + destruct (Hold eq_refl) as [Hsame|(Hfull & Hnone & Hmin)]; [congruence|]. right.
      split; [done|]. split.
      { by rewrite (proj2 (slot_find_None _ _ _ _ cache_hit_spec _ _ Hs) Hnone). }
      exists old. split_and!; [by eapply list_elem_of_lookup_2|done|done|].
      assert (Hnf : list_find (fun x => cache_hit mac' x = true) (<[i := e]> (g_cache st)) = None).
      { apply (insert_find_victim _ _ _ _ cache_hit_spec (g_cache st) i e old); try done; congruence. }
      rewrite Hnf. destruct ((n =? 0)%nat || (m =? 0)%nat); reflexivity.
    + left. by rewrite (insert_find_other _ _ _ _ cache_hit_spec (g_cache st) i e old); try done; try congruence; intros _.
    + left. by rewrite (insert_find_other _ _ _ _ cache_hit_spec (g_cache st) i e old); try done; congruence.
Qed.

(** ** Searching in rendered text *)

(** Prepend to the part a search skipped. *)
Definition shift (pre : bytes) (r : option (bytes * bytes)) : option (bytes * bytes) :=
  '(a, b) ← r; Some (pre ++ a, b).

Lemma shift_app a b r : shift (a ++ b) r = shift a (shift b r).
Proof. destruct r as [[x y]|]; [|done]. simpl. by rewrite app_assoc. Qed.

Lemma strstr_unfold p s :
  strstr p s = if starts_with p s then Some ([], s)
               else match s with [] => None | c :: s' => shift [c] (strstr p s') end.
Proof. destruct s as [|c s]; [done|]. cbn [strstr]. by destruct (strstr p s) as [[]|]. Qed.

Lemma strstr_here p s : strstr p (p ++ s) = Some ([], p ++ s).
Proof.
  assert (H : starts_with p (p ++ s) = true) by (unfold starts_with; by rewrite strip_prefix_app).
  by rewrite strstr_unfold, H.
Qed.

Lemma strstr_skip1 p c s :
  starts_with p (c :: s) = false -> strstr p (c :: s) = shift [c] (strstr p s).
Proof. intros H. by rewrite strstr_unfold, H. Qed.

Lemma strstr_skip_plain a p pre s :
  Forall (fun c => c <> a) pre -> strstr (a :: p) (pre ++ s) = shift pre (strstr (a :: p) s).
Proof.
  induction 1 as [|c pre Hc _ IH]; [cbn; by destruct (strstr _ s) as [[]|]|].
  cbn [app]. rewrite strstr_skip1, IH.
  - by rewrite <- shift_app.
  - unfold starts_with. cbn. destruct (a =? c) eqn:E; bool_simpl; congruence.
Qed.

(** ** Unescaping what was escaped *)
Lemma hex4_strtoul c : 0 <= c < 32 -> strtoul_hex (hex4 c) = Some c.
Proof.
  intros Hc. assert (H : forallb (fun c => bool_decide (strtoul_hex (hex4 c) = Some c)) (seqZ 0 32) = true)
    by (vm_compute; reflexivity).
  apply (forallb_elem _ _ c) in H; [by apply bool_decide_eq_true in H|]. apply elem_of_seqZ. lia.
Qed.

Lemma unescape_esc1 c t hn :
  0 < c < 256 -> (length hn < 63)%nat -> unescape_step (json_esc1 c ++ t) hn = Some (t, hn ++ [c]).
Proof.
  intros Hc Hlt. unfold unescape_step. rewrite (proj2 (Nat.ltb_lt _ _) Hlt). unfold json_esc1.
  destruct (c =? QUOTE) eqn:E1; [bool_simpl; by subst|].
  destruct (c =? BSLASH) eqn:E2; [bool_simpl; by subst|]. cbn [orb].
  destruct (c =? NL) eqn:E3; [bool_simpl; by subst|].
  destruct (c =? CR) eqn:E4; [bool_simpl; by subst|].
  destruct (c =? TAB) eqn:E5; [bool_simpl; by subst|].
  destruct (c <? 32) eqn:E6; [|cbn [app]; by rewrite E1, E2].
  bool_simpl. transitivity (match strtoul_hex (hex4 c) with
    | Some cp => Some (t, hn ++ put_cp cp (length hn))
    | None => Some (hex4 c ++ t, hn ++ [117])
    end); [done|].
  rewrite hex4_strtoul by lia. unfold put_cp. rewrite (proj2 (Z.ltb_lt _ _)) by lia.
  unfold byte_of.
  change 255 with (Z.ones 8). by rewrite Z.land_ones, Z.mod_small by lia.
Qed.

Lemma unescape_loop_esc s rest hn fuel :
  Forall (fun c => 0 < c < 256) s -> (length hn + length s <= 63)%nat ->
  (length (json_esc s ++ QUOTE :: rest) < fuel)%nat ->
  loop unescape_loop fuel (json_esc s ++ QUOTE :: rest, hn) = Some (QUOTE :: rest, hn ++ s).
Proof.
  intros Hs. revert hn fuel. induction Hs as [|c s Hc Hs IH]; intros hn fuel Hlen Hfuel;
    (destruct fuel as [|fuel]; [lia|]); rewrite loop_S.
  - unfold unescape_loop, unescape_step. cbn [json_esc map concat app fst snd]. cbn. by rewrite app_nil_r.
  - rewrite json_esc_cons, <- app_assoc in *. unfold unescape_loop at 1. cbn [fst snd].
    simpl in Hlen. rewrite unescape_esc1 by (done || lia).
    rewrite length_app in Hfuel. pose proof (json_esc1_length c).
    rewrite IH; [by rewrite <- app_assoc|rewrite length_app; simpl; lia|lia].
Qed.

Lemma unescape_hn_esc s rest :
  Forall (fun c => 0 < c < 256) s -> (length s <= 63)%nat ->
  unescape_hn (json_esc s ++ QUOTE :: rest) = (QUOTE :: rest, s).
Proof. intros. unfold unescape_hn. by rewrite unescape_loop_esc by (done || simpl; lia). Qed.

Lemma copy_src_quote s rest room :
  Forall (fun c => c <> QUOTE) s -> (length s <= room)%nat ->
  copy_src (s ++ QUOTE :: rest) room = (s, QUOTE :: rest).
Proof.
  intros Hs. revert room. induction Hs as [|c s Hc _ IH]; intros room Hlen.
  - by destruct room.
  - destruct room as [|room]; simpl in *; [lia|]. apply Z.eqb_neq in Hc.
    by rewrite Hc, IH by lia.
Qed.

(** ** The round trip through the file *)

(** An entry the daemon can hold: a MAC in colon notation, a hostname of whole
    UTF-8 characters, a source such as ["dhcp"], a time that is a [long]. *)
Definition storable (e : hnc_cache_entry) : Prop :=
  is_mac (ce_mac e) = true /\
  (exists cs, forallb utf8_char cs = true /\ cs <> [] /\ ce_hostname e = concat cs) /\
  (length (ce_hostname e) <= 63)%nat /\
  ce_src e <> [] /\ (length (ce_src e) <= 11)%nat /\
  Forall (fun c => is_cchar c /\ c <> QUOTE) (ce_src e) /\
  LONG_MIN <= ce_updated_at e <= LONG_MAX.

(** What comes back: everything but the tail of a hostname whose escape does not
    fit the 128 bytes of the save. *)
Definition reloaded (e e' : hnc_cache_entry) : Prop :=
  ce_active e' = true /\ ce_mac e' = ce_mac e /\ ce_src e' = ce_src e /\
  ce_updated_at e' = ce_updated_at e /\ ce_hostname e' <> [] /\
  (exists cs n, forallb utf8_char cs = true /\ ce_hostname e = concat cs /\
     ce_hostname e' = concat (take n cs) /\
     (n = length cs \/ (n < length cs)%nat /\
        (128 <= length (json_esc (concat (take (S n) cs))))%nat)) /\
  ((length (json_esc (ce_hostname e)) < 128)%nat -> ce_hostname e' = ce_hostname e).

Lemma utf8_cchar cs : forallb utf8_char cs = true -> Forall is_cchar (concat cs).
Proof.
  induction cs as [|w cs IH]; cbn [forallb concat]; [constructor|].
  intros [Hw Hcs]%andb_true_iff. apply Forall_app. split; [|by apply IH].
  destruct w as [|l t]; [done|]. cbn [utf8_char] in Hw.
  rewrite !andb_true_iff in Hw. destruct Hw as [[[[[H1 H2] _] _] _] H6].
  constructor; [unfold is_cchar; bool_simpl; lia|].
  apply Forall_forall. intros x Hx. apply (forallb_elem _ _ _ H6) in Hx. cbn beta in Hx.
  unfold is_cchar. bool_simpl. lia.
Qed.

Lemma json_esc_length_app s t : (length (json_esc s) <= length (json_esc (s ++ t)))%nat.
Proof. rewrite json_esc_app, length_app. lia. Qed.

Lemma json_esc1_length_6 c : (length (json_esc1 c) <= 6)%nat.
Proof. unfold json_esc1. repeat case_match; simpl; lia. Qed.

Lemma json_esc_nonempty s : s <> [] -> json_esc s <> [].
Proof.
  destruct s as [|c s]; [done|]. intros _ H. rewrite json_esc_cons in H.
  pose proof (json_esc1_length c). destruct (json_esc1 c); [simpl in *; lia|done].
Qed.

Lemma json_esc_char w : utf8_char w = true -> (length (json_esc w) <= 9)%nat.
Proof.
  intros (lead & conts & -> & _ & _ & Hlen & _ & Hhi)%utf8_char_inv.
  rewrite json_esc_cons, length_app, json_esc_high by done.
  pose proof (json_esc1_length_6 lead).
  assert (utf8_needed lead <= 3)%nat by (unfold utf8_needed; repeat case_match; lia). lia.
Qed.

(** The hostname the save writes. *)
Lemma saved_hostname e :
  storable e -> exists h, hnc_json_escape (ce_hostname e) 128 = Some (json_esc h) /\
    (length (json_esc h) <= 127)%nat /\ (length h <= 63)%nat /\ Forall is_cchar h /\
    reloaded e (CacheEntry true (ce_mac e) h (ce_src e) (ce_updated_at e)).
Proof.
  intros (_ & (cs & Hcs & Hne & Hh) & Hlen & _).
  destruct (json_escape_prefix cs 128 Hcs) as (n & out & Ho & -> & Hfit & Hn); [lia|].
  rewrite Hh in *. exists (concat (take n cs)).
  assert (Htake : concat cs = concat (take n cs) ++ concat (drop n cs))
    by (rewrite <- concat_app; by rewrite take_drop).
  assert (Hcc : Forall is_cchar (concat (take n cs)))
    by (pose proof (utf8_cchar cs Hcs) as H; rewrite Htake in H; by apply Forall_app in H as [H _]).
  split_and!; [done|lia| |done|].
  - rewrite Htake, length_app in Hlen. lia.
  - split_and!; try done; cbn.
    + destruct cs as [|w cs]; [done|]. cbn [forallb] in Hcs. apply andb_true_iff in Hcs as [Hw _].
      pose proof (json_esc_char w Hw). destruct n as [|n].
      * destruct Hn as [Hn|[_ Hn]]; [done|]. simpl in Hn. rewrite app_nil_r in Hn. lia.
      * destruct w; done.
    + exists cs, n. by split_and!.
    + intros Hf. destruct Hn as [->|[Hn Hbig]]; [by rewrite firstn_all, Hh|].
      pose proof (json_esc_length_app (concat (take (S n) cs)) (concat (drop (S n) cs))) as Hl.
      rewrite <- concat_app, take_drop, <- Hh in Hl. lia.
Qed.

(** Text without the mark that opens an entry's fields. *)
Definition skips (pre : bytes) : Prop :=
  forall s, strstr H_MARK (pre ++ s) = shift pre (strstr H_MARK s).

Lemma skips_app a b : skips a -> skips b -> skips (a ++ b).
Proof. intros Ha Hb s. by rewrite <- app_assoc, Ha, Hb, shift_app. Qed.

Lemma skips_plain pre : Forall (fun c => c <> QUOTE) pre -> skips pre.
Proof. intros H s. by apply (strstr_skip_plain QUOTE). Qed.

Lemma skip_quote a b s :
  a <> COLON \/ b <> 123 ->
  strstr H_MARK (QUOTE :: a :: b :: s) = shift [QUOTE] (strstr H_MARK (a :: b :: s)).
Proof.
  intros H. apply strstr_skip1. unfold starts_with, H_MARK. cbn [app strip_prefix].
  change (QUOTE =? QUOTE) with true. cbn match.
  destruct (COLON =? a) eqn:E1; [|done]. destruct (123 =? b) eqn:E2; [|done]. bool_simpl. by destruct H.
Qed.

Lemma dec_char z c : c ∈ dec z -> is_digit c = true \/ c = 45.
Proof.
  unfold dec. destruct (z <? 0) eqn:E; bool_simpl.
  - intros [->|H]%elem_of_cons; [by right|]. left. by apply (dec_nat_digit (- z)); [lia|].
  - intros H. left. by apply (dec_nat_digit z).
Qed.

Lemma dec_cons z : exists d ds, dec z = d :: ds.
Proof. unfold dec. case_match; [by eauto|]. apply digits_nonempty. Qed.

Lemma dec_plain z c : c ∈ dec z -> c <> QUOTE /\ c <> 123.
Proof. intros [H| ->]%dec_char; [|done]. unfold is_digit in H. bool_simpl. unfold QUOTE. lia. Qed.

(** What is between two entries: the time of the first. *)
Lemma skips_time z : skips (T_MARK ++ dec z ++ [125]).
Proof.
  intros s. destruct (dec_cons z) as (d & ds & Hd).
  assert (Hp : Forall (fun c => c <> QUOTE /\ c <> 123) (d :: ds))
    by (apply Forall_forall; intros c Hc; apply (dec_plain z); by rewrite Hd).
  rewrite Hd. apply Forall_cons in Hp as [[Hq H1] Hp].
  assert (Hrest : skips ([COLON] ++ (d :: ds) ++ [125])).
  { apply skips_plain. repeat constructor; [done..|]. apply Forall_app. split; [|by repeat constructor].
    eapply Forall_impl; [exact Hp|]. by intros ? []. }
  assert (Htext : (T_MARK ++ (d :: ds) ++ [125]) ++ s
    = 44 :: QUOTE :: 116 :: QUOTE :: ([COLON] ++ (d :: ds) ++ [125]) ++ s) by done.
  rewrite Htext, strstr_skip1 by done. rewrite strstr_skip1 by done. rewrite strstr_skip1 by done.
  cbn [app]. rewrite skip_quote by by right.
  change (COLON :: d :: (ds ++ [125]) ++ s) with (([COLON] ++ (d :: ds) ++ [125]) ++ s).
  rewrite Hrest, <- !shift_app. done.
Qed.

(** The key of an entry up to its mark. *)
Lemma strstr_key mac s :
  is_mac mac = true ->
  strstr H_MARK (QUOTE :: mac ++ H_MARK ++ s) = Some (QUOTE :: mac, H_MARK ++ s).
Proof.
  intros [Hc Hl]%andb_true_iff. bool_simpl.
  assert (Hp : forall c, c ∈ mac -> c <> QUOTE /\ c <> 123).
  { intros c Hin. apply (forallb_elem _ _ _ Hc) in Hin. unfold mac_char, isxdigit, is_digit, is_lower_hex,
      is_upper_hex, COLON in Hin. unfold QUOTE. split; intros ->; done. }
  destruct mac as [|a [|b r]]; [done..|]. cbn [app].
  rewrite skip_quote by (right; apply (Hp b); set_solver).
  change (a :: b :: r ++ H_MARK ++ s) with ((a :: b :: r) ++ H_MARK ++ s).
  rewrite (skips_plain (a :: b :: r)); [rewrite strstr_here; cbn; by rewrite app_nil_r|].
  apply Forall_forall. intros c Hin. by apply Hp.
Qed.

(** The fields of an entry as the save writes them. *)
Definition fields (h src : bytes) (t : Z) (s : bytes) : bytes :=
  H_MARK ++ json_esc h ++ QUOTE :: S_MARK ++ src ++ QUOTE :: T_MARK ++ dec t ++ 125 :: s.

Lemma parse_saved mac h src t before s :
  is_mac mac = true -> Forall is_cchar h -> h <> [] -> (length h <= 63)%nat ->
  Forall (fun c => is_cchar c /\ c <> QUOTE) src -> src <> [] -> (length src <= 11)%nat ->
  LONG_MIN <= t <= LONG_MAX ->
  parse_entry (reverse (QUOTE :: mac) ++ before) (fields h src t s)
  = Some (Some (CacheEntry true mac h src t), T_MARK ++ dec t ++ 125 :: s).
Proof.
  intros Hm Hh Hne Hl Hs Hsne Hsl Ht.
  assert (Hlen : length mac = 17%nat) by (apply andb_true_iff in Hm as [_ Hm]; by bool_simpl).
  assert (Hmc : Forall is_cchar mac).
  { apply Forall_forall. intros c Hin. apply andb_true_iff in Hm as [Hm _].
    apply (forallb_elem _ _ _ Hm) in Hin.
    unfold mac_char, isxdigit, is_digit, is_lower_hex, is_upper_hex, COLON in Hin.
    unfold is_cchar. zcases. }
  apply Forall_and in Hs as [Hsc Hsq].
  unfold parse_entry, fields. rewrite reverse_cons, <- app_assoc, drop_app_length.
  rewrite (proj2 (Nat.ltb_ge _ _)) by (rewrite !length_app, length_reverse; simpl; lia).
  rewrite app_nth2 by (rewrite length_reverse; lia). rewrite length_reverse, Hlen, Nat.sub_diag.
  cbn [nth app]. change (QUOTE =? QUOTE) with true. cbn [negb].
  rewrite take_app_length' by (by rewrite length_reverse). rewrite reverse_involutive.
  rewrite unescape_hn_esc by done. change (QUOTE =? QUOTE) with true. cbn [negb].
  rewrite strstr_skip1 by done. rewrite strstr_here. cbn [shift mbind option_bind].
  rewrite drop_app_length, copy_src_quote by done. change (QUOTE =? QUOTE) with true. cbn [negb].
  rewrite strstr_skip1 by done. rewrite strstr_here. cbn [shift mbind option_bind].
  rewrite drop_app_length, strtol_dec; [|done|by intros c [= <-]].
  rewrite !bool_decide_false by done. cbn [orb].
  rewrite !cut_nul_id by done. by rewrite !c_trunc_id by lia.
Qed.

Lemma save_entry_fields e h s :
  hnc_json_escape (ce_hostname e) 128 = Some (json_esc h) ->
  save_entry e ++ s = QUOTE :: ce_mac e ++ fields h (ce_src e) (ce_updated_at e) s.
Proof.
  intros H. unfold save_entry, fields. rewrite H.
  repeat (cbn -[json_esc dec]; rewrite <- app_assoc). done.
Qed.

(** ** What the file is made of *)
Lemma json_esc_cchar s : Forall is_cchar s -> Forall is_cchar (json_esc s).
Proof.
  induction 1 as [|c s Hc _ IH]; [constructor|]. rewrite json_esc_cons. apply Forall_app. split; [|done].
  pose proof (byte_forall (fun c => (c =? 0) || forallb (fun d => (0 <? d) && (d <? 256)) (json_esc1 c)) c
    eq_refl) as H. unfold is_cchar in Hc. specialize (H ltac:(lia)). cbn beta in H.
  apply orb_true_iff in H as [H|H]; [bool_simpl; lia|].
  apply Forall_forall. intros d Hd. apply (forallb_elem _ _ _ H) in Hd. cbn beta in Hd.
  unfold is_cchar. bool_simpl. lia.
Qed.

Lemma dec_cchar z : Forall is_cchar (dec z).
Proof.
  apply Forall_forall. intros c [H| ->]%dec_char; [|done].
  unfold is_digit in H. bool_simpl. unfold is_cchar. lia.
Qed.

Lemma is_mac_cchar mac : is_mac mac = true -> Forall is_cchar mac /\ length mac = 17%nat.
Proof.
  intros [Hm Hl]%andb_true_iff. bool_simpl. split; [|done]. apply Forall_forall. intros c Hin.
  apply (forallb_elem _ _ _ Hm) in Hin.
  unfold mac_char, isxdigit, is_digit, is_lower_hex, is_upper_hex, COLON in Hin.
  unfold is_cchar. zcases.
Qed.

Lemma save_entry_shape e :
  storable e -> Forall is_cchar (save_entry e) /\ (1 <= length (save_entry e) <= 200)%nat.
Proof.
  intros Hst. destruct (saved_hostname e Hst) as (h & Hesc & Hl & _ & Hc & _).
  destruct Hst as (Hm & _ & _ & _ & Hsl & Hs & Ht).
  apply is_mac_cchar in Hm as [Hmc Hml]. apply Forall_and in Hs as [Hs _].
  unfold save_entry. rewrite Hesc. cbn [default]. pose proof (dec_length _ Ht).
  split; [|rewrite !length_cons, !length_app; simpl; lia].
  pose proof (dec_cchar (ce_updated_at e)). pose proof (json_esc_cchar h Hc).
  repeat first [apply Forall_app; split|apply Forall_cons; split]; try done; by constructor.
Qed.

Lemma save_entries_shape first l :
  Forall (fun e => ce_active e = true /\ storable e) l ->
  Forall is_cchar (save_entries first l) /\
  (length l <= length (save_entries first l) <= 201 * length l)%nat.
Proof.
  intros H. revert first. induction H as [|e l [Ha He] _ IH]; intros first; cbn [save_entries].
  { split; [constructor|simpl; lia]. }
  rewrite Ha. cbn [negb]. destruct (IH false) as [Hc Hl]. destruct (save_entry_shape e He) as [Hce Hle].
  split.
  - apply Forall_app. split; [destruct first; by repeat constructor|]. by apply Forall_app.
  - rewrite !length_app, length_cons. destruct first; cbn [length]; lia.
Qed.

Lemma save_entries_active first l :
  save_entries first l = save_entries first (filter (fun e => ce_active e = true) l).
Proof.
  revert first. induction l as [|e l IH]; intros first; [done|]. rewrite filter_cons. cbn [save_entries].
  destruct (ce_active e) eqn:E.
  - rewrite decide_True by done. cbn [save_entries]. rewrite E. cbn [negb]. by rewrite (IH false).
  - by rewrite decide_False, IH by done.
Qed.

(** One turn of the load over a saved entry. *)
Lemma cload_saved pre before e s n slots :
  skips pre -> storable e -> (n < HNC_CACHE_MAX_ENTRIES)%nat ->
  exists e' before', reloaded e e' /\
    cload_step (CLoad before (pre ++ save_entry e ++ s) n slots)
    = inl (CLoad before' ((T_MARK ++ dec (ce_updated_at e) ++ [125]) ++ s) (S n) (<[n := e']> slots)).
Proof.
  intros Hpre Hst Hn. destruct (saved_hostname e Hst) as (h & Hesc & _ & Hl & Hc & Hre).
  destruct Hst as (Hm & _ & _ & Hsne & Hsl & Hs & Ht).
  assert (Hne : h <> []) by by destruct Hre as (_ & _ & _ & _ & Hne & _).
  eexists _, _. split; [exact Hre|]. unfold cload_step. cbn [cl_p cl_before cl_loaded cl_slots].
  rewrite (save_entry_fields e h) by done. unfold fields at 1. rewrite Hpre, strstr_key by done.
  cbn [shift mbind option_bind]. rewrite reverse_app, <- app_assoc.
  change (H_MARK ++ _) with (fields h (ce_src e) (ce_updated_at e) s).
  rewrite parse_saved by done. cbn [fst snd]. rewrite (proj2 (Nat.ltb_lt _ _) Hn).
  by rewrite <- !app_assoc.
Qed.

(** The scan over all of them. *)
Lemma cload_loop_saved es : forall pre before first old fuel,
  Forall (fun e => ce_active e = true /\ storable e) es -> skips pre ->
  (length old + length es <= HNC_CACHE_MAX_ENTRIES)%nat -> (length es < fuel)%nat ->
  exists es', Forall2 reloaded es es' /\
    loop cload_step fuel (CLoad before (pre ++ save_entries first es ++ [125; NL]) (length old)
      (old ++ replicate (HNC_CACHE_MAX_ENTRIES - length old) cache_zero))
    = Some ((length old + length es)%nat,
        (old ++ es') ++ replicate (HNC_CACHE_MAX_ENTRIES - length (old ++ es')) cache_zero).
Proof.
  induction es as [|e es IH]; intros pre before first old fuel Hes Hpre Hroom Hfuel;
    (destruct fuel as [|fuel]; [lia|]); rewrite loop_S.
  { exists []. split; [constructor|]. unfold cload_step. cbn [cl_p cl_loaded cl_slots save_entries].
    rewrite Hpre, app_nil_r. simpl. by rewrite Nat.add_0_r. }
  apply Forall_cons in Hes as [[Ha He] Hes]. cbn [save_entries length] in *. rewrite Ha. cbn [negb].
  assert (Hpre' : skips (pre ++ if first then [] else [44])).
  { apply skips_app; [done|]. apply skips_plain. destruct first; by repeat constructor. }
  destruct (cload_saved _ before e (save_entries false es ++ [125; NL]) (length old)
    (old ++ replicate (HNC_CACHE_MAX_ENTRIES - length old) cache_zero) Hpre' He) as (e' & before' & Hre & Hstep);
    [lia|].
  rewrite <- !app_assoc in *. rewrite Hstep.
  destruct (HNC_CACHE_MAX_ENTRIES - length old)%nat as [|m] eqn:Em; [lia|]. cbn [replicate].
  rewrite insert_app_r_alt, Nat.sub_diag by lia. cbn [insert list_insert].
  destruct (IH (T_MARK ++ dec (ce_updated_at e) ++ [125]) before' false (old ++ [e']) fuel Hes)
    as (es' & Hes' & Hloop); [apply skips_time|rewrite length_app; simpl; lia|lia|].
  exists (e' :: es'). split; [by constructor|].
  assert (Happ : old ++ e' :: es' = (old ++ [e']) ++ es') by by rewrite <- app_assoc.
  assert (Hlen : length (old ++ [e']) = S (length old)) by (rewrite length_app; simpl; lia).
  assert (Hm : (HNC_CACHE_MAX_ENTRIES - S (length old))%nat = m) by lia.
  rewrite Happ. rewrite Hlen, Hm in Hloop. rewrite <- plus_n_Sm. etransitivity; [|exact Hloop].
  by rewrite <- !app_assoc.
Qed.

Abbreviation active_entries l := (filter (fun e => ce_active e = true) (l : list hnc_cache_entry)).

Lemma cache_lookup_head st mac n m :
  hnc_cache_lookup st mac n m
  = if (n =? 0)%nat || (m =? 0)%nat then None
    else cut_pair n m <$> head (filter (fun e => cache_hit mac e = true) (g_cache st)).
Proof.
  rewrite cache_lookup_find. destruct (_ || _); [done|]. induction (g_cache st) as [|e l IH]; [done|].
  rewrite filter_cons. cbn [list_find]. destruct (decide (cache_hit mac e = true)); [done|].
  rewrite <- IH. by destruct (list_find _ l) as [[]|].
Qed.

Lemma filter_hit_active mac l :
  filter (fun e => cache_hit mac e = true) (active_entries l) = filter (fun e => cache_hit mac e = true) l.
Proof.
  induction l as [|e l IH]; [done|]. rewrite (filter_cons _ e l), (filter_cons _ e l), <- IH.
  destruct (decide (ce_active e = true)) as [Ha|Ha]; [by rewrite filter_cons|].
  rewrite (decide_False (P := cache_hit mac e = true)); [done|].
  unfold cache_hit. by destruct (ce_active e).
Qed.

Lemma active_zeros n : active_entries (replicate n cache_zero) = [].
Proof. induction n as [|n IH]; [done|]. cbn [replicate]. by rewrite filter_cons_False by done. Qed.

Lemma reloaded_active es es' : Forall2 reloaded es es' -> active_entries es' = es'.
Proof.
  induction 1 as [|e e' es es' He _ IH]; [done|]. rewrite filter_cons_True by apply He. by rewrite IH.
Qed.

Lemma reloaded_exact es es' :
  Forall (fun e => ce_active e = true /\ (length (json_esc (ce_hostname e)) < 128)%nat) es ->
  Forall2 reloaded es es' -> es' = es.
Proof.
  intros Hes Hr. induction Hr as [|e e' es es' He _ IH]; [done|].
  apply Forall_cons in Hes as [[Ha Hf] Hes]. f_equal; [|by apply IH].
  destruct He as (Ha' & H1 & H2 & H3 & _ & _ & H4). specialize (H4 Hf).
  destruct e, e'; cbn in *. by subst.
Qed.

(** C21: what is saved is what is loaded.  A successful save leaves a file that a
    load into a freshly initialised cache accepts (it never exceeds the size limit
    of the load): the load returns the number of entries that were active, the
    cache holds them in the order of their slots with the same MAC, source and
    time and is not dirty, and each hostname is the longest prefix of whole UTF-8
    characters whose escape fits the 128-byte buffer of the save.  When all
    hostnames fit, every lookup answers as before. *)
Theorem cache_save_load (st : cache_state) (old_file : option bytes) :
  length (g_cache st) = HNC_CACHE_MAX_ENTRIES ->
  Forall (fun e => ce_active e = true -> storable e) (g_cache st) ->
  g_cache_path st <> [] ->
  exists file, hnc_cache_save (SaveIo true true true) old_file st
    = (0, Some file, CacheState (g_cache st) false (g_cache_path st)) /\
  let r := hnc_cache_load (Some file) (hnc_cache_init (Some (g_cache_path st))) in
  r.1 = hnc_cache_count st /\ hnc_cache_count r.2 = hnc_cache_count st /\
  hnc_cache_is_dirty r.2 = false /\
  (exists es, g_cache r.2 = es ++ replicate (HNC_CACHE_MAX_ENTRIES - length es) cache_zero /\
     Forall2 reloaded (active_entries (g_cache st)) es) /\
  ((forall e, e ∈ g_cache st -> ce_active e = true -> (length (json_esc (ce_hostname e)) < 128)%nat) ->
   forall mac n m, hnc_cache_lookup r.2 mac n m = hnc_cache_lookup st mac n m).
Proof.
  intros Hlen Hst Hpath. set (es := active_entries (g_cache st)).
  assert (Hes : Forall (fun e => ce_active e = true /\ storable e) es).
  { apply Forall_forall. intros e [Ha Hin]%list_elem_of_filter. split; [done|].
    rewrite Forall_forall in Hst. by apply Hst. }
  assert (Hle : (length es <= HNC_CACHE_MAX_ENTRIES)%nat) by (rewrite <- Hlen; apply length_filter).
  destruct (save_entries_shape true es Hes) as [Hc Hfl].
  assert (Hfile : cache_file (g_cache st) = [123] ++ save_entries true es ++ [125; NL])
    by (unfold cache_file; by rewrite save_entries_active).
  exists (cache_file (g_cache st)). split; [unfold hnc_cache_save; by rewrite bool_decide_false|].
  destruct (cload_loop_saved es [123] [] true [] (S (length (cache_file (g_cache st)))))
    as (es' & Hes' & Hloop); [done|by apply skips_plain; repeat constructor|done
      |rewrite Hfile, !length_app; simpl; lia|].
  assert (Hload : hnc_cache_load (Some (cache_file (g_cache st))) (hnc_cache_init (Some (g_cache_path st)))
    = (length es, CacheState (es' ++ replicate (HNC_CACHE_MAX_ENTRIES - length es') cache_zero) false
         (c_trunc 256 (g_cache_path st)))).
  { unfold hnc_cache_load, hnc_cache_init. cbn [g_cache g_cache_path].
    rewrite bool_decide_false by (by destruct (g_cache_path st)).
    rewrite (proj2 (Nat.eqb_neq _ _)) by (rewrite Hfile; done). cbn [orb].
    rewrite (proj2 (Z.ltb_ge _ _)).
    2:{ rewrite Hfile, !length_app. unfold CACHE_FILE_MAX. unfold HNC_CACHE_MAX_ENTRIES in Hle.
        cbn [length]. lia. }
    rewrite cut_nul_id by (rewrite Hfile; repeat constructor; apply Forall_app; split; [done|by repeat constructor]).
    rewrite <- Hfile in Hloop. cbn [length app] in Hloop.
    rewrite Nat.sub_0_r in Hloop. by rewrite Hloop. }
  rewrite Hload. cbn [fst snd]. unfold hnc_cache_count. cbn [g_cache].
  split_and!; [done| |done| |].
  - rewrite filter_app, active_zeros, app_nil_r, (reloaded_active es) by done.
    symmetry. by eapply Forall2_length.
  - by exists es'.
  - intros Hfit mac n m. assert (He : es' = es).
    { apply reloaded_exact; [|done]. apply Forall_forall. intros e Hin. split.
      - by apply list_elem_of_filter in Hin as [Ha _].
      - apply list_elem_of_filter in Hin as [Ha Hin]. by apply Hfit. }
    rewrite !cache_lookup_head. cbn [g_cache].
    rewrite <- (filter_hit_active mac (es' ++ _)), filter_app, active_zeros, app_nil_r.
    rewrite (reloaded_active es es') by done. rewrite He. unfold es.
    by rewrite filter_hit_active.
Qed.

(** A cache with one plain entry and one whose hostname has a quote and a control
    character. *)
Definition sample_cache : cache_state :=
  CacheState
    ([CacheEntry true (str "7a:d6:f7:ce:ba:76") (str "Mi-10") (str "dhcp") 1776102264;
      CacheEntry true (str "1c:ba:8c:11:22:33") [80; 34; 1; 195; 169] (str "mdns") 1776100000]
     ++ replicate 1022 cache_zero) true (str "/data/hnc/cache.json").

Lemma sample_active e :
  e ∈ g_cache sample_cache -> ce_active e = true ->
  e = CacheEntry true (str "7a:d6:f7:ce:ba:76") (str "Mi-10") (str "dhcp") 1776102264 \/
  e = CacheEntry true (str "1c:ba:8c:11:22:33") [80; 34; 1; 195; 169] (str "mdns") 1776100000.
Proof.
  intros [Hin|[-> _]%elem_of_replicate]%elem_of_app Ha; [|done]. set_solver.
Qed.

Lemma cache_save_load_witness :
  let file := cache_file (g_cache sample_cache) in
  let r := hnc_cache_load (Some file) (hnc_cache_init (Some (g_cache_path sample_cache))) in
  r.1 = 2%nat /\ hnc_cache_lookup r.2 (str "1C:BA:8C:11:22:33") 64 12
    = Some ([80; 34; 1; 195; 169], str "mdns").
Proof.
  destruct (cache_save_load sample_cache None) as (file & Hsave & H1 & _ & _ & _ & H5).
  - by vm_compute.
  - apply Forall_forall. intros e Hin Ha. destruct (sample_active e Hin Ha) as [->| ->];
      (split_and!; [done| |simpl; lia|done|simpl; lia| |done..];
       [|unfold is_cchar; eapply bool_decide_unpack; by vm_compute]).
    + by exists [[77]; [105]; [45]; [49]; [48]].
    + by exists [[80]; [34]; [1]; [195; 169]].
  - done.
  - assert (Hf : file = cache_file (g_cache sample_cache))
      by (injection Hsave; intros; symmetry; assumption).
    rewrite Hf in *. split; [rewrite H1; by vm_compute|].
    cbv zeta. rewrite H5; [by vm_compute|]. intros e Hin Ha.
    destruct (sample_active e Hin Ha) as [->| ->]; vm_compute; lia.
Defined.

Lemma cache_update_spec_witness :
  let r := hnc_cache_update (str "aa:bb:cc:dd:ee:ff") (str "tv") (str "mdns") 5 (hnc_cache_init None) in
  r.1 = true /\ hnc_cache_lookup r.2 (str "AA:bb:cc:dd:ee:ff") 64 12 = Some (str "tv", str "mdns").
Proof.
  assert (Hok : cache_ok (hnc_cache_init None)).
  { split_and!; [by vm_compute| |].
    - by apply Forall_replicate.
    - intros i j a b Ha. apply lookup_replicate in Ha as [-> _]. done. }
  destruct (cache_update_spec (str "aa:bb:cc:dd:ee:ff") (str "tv") (str "mdns") 5 (hnc_cache_init None) Hok)
    as (_ & H2 & H3 & _); [done|done|done|simpl; lia|simpl; lia|simpl; lia|].
  cbv zeta. split; [rewrite H3; by vm_compute|by vm_compute].
Defined.
