(* ===== verification/MdnsWorker.v ===== *)
(** * The asynchronous mDNS worker ([mdns_worker.c])

    Two ring buffers of 16 slots between the main thread and one worker thread.
    The rings refine bounded FIFO queues; over every interleaving of the two
    threads each accepted task is answered at most once, in order, and nothing
    is lost except what the code drops on purpose. *)
From S2P Require Import Prelude CStr.

Definition HNC_MDNS_QUEUE_SIZE : nat := 16.
Definition HNC_MDNS_MAC_LEN : nat := 18.
Definition HNC_MDNS_IP_LEN : nat := 40.
Definition HNC_MDNS_HOSTNAME_LEN : nat := 64.
Definition HNC_MDNS_SRC_LEN : nat := 16.

(** [hnc_mdns_task_t] and [hnc_mdns_result_t] *)
Record hnc_mdns_task := Task { t_mac : bytes; t_ip : bytes }.
Record hnc_mdns_result := Result { r_mac : bytes; r_hostname : bytes; r_src : bytes; r_success : Z }.

#[export] Instance task_inhabited : Inhabited hnc_mdns_task := populate (Task [] []).
#[export] Instance result_inhabited : Inhabited hnc_mdns_result := populate (Result [] [] [] 0).

(** ** Rings *)

(** A queue array with its head, tail and count: [g_task_q] and [g_res_q]. *)
Record ring (A : Type) := Ring { rq : list A; rhead : nat; rtail : nat; rcount : nat }.
Arguments Ring {A}. Arguments rq {A}. Arguments rhead {A}. Arguments rtail {A}. Arguments rcount {A}.

Section ring_ops.
Context {A : Type} `{!Inhabited A}.

(** [head = tail = count = 0] *)
Definition ring_reset (r : ring A) : ring A := Ring (rq r) 0 0 0.

(** Store at the tail; [None] when the ring is full. *)
Definition ring_push (x : A) (r : ring A) : option (ring A) :=
  if (HNC_MDNS_QUEUE_SIZE <=? rcount r)%nat then None
  else Some (Ring (<[rtail r := x]> (rq r)) (rhead r) ((rtail r + 1) mod HNC_MDNS_QUEUE_SIZE)
               (rcount r + 1)).

(** Read at the head; only called when the count is positive. *)
Definition ring_pop (r : ring A) : A * ring A :=
  (rq r !!! rhead r,
   Ring (rq r) ((rhead r + 1) mod HNC_MDNS_QUEUE_SIZE) (rtail r) (rcount r - 1)).

Fixpoint ring_drain (max : nat) (r : ring A) : list A * ring A :=
  match max with
  | O => ([], r)
  | S max' => if (rcount r =? 0)%nat then ([], r)
              else let '(x, r') := ring_pop r in
                   let '(xs, r'') := ring_drain max' r' in (x :: xs, r'')
  end.

(** The queue a ring stands for, and the rings that stand for one. *)
Definition ring_list (r : ring A) : list A :=
  map (fun i => rq r !!! ((rhead r + i) mod HNC_MDNS_QUEUE_SIZE)) (seq 0 (rcount r)).
Record ring_ok (r : ring A) : Prop := RingOk {
  ring_size : length (rq r) = HNC_MDNS_QUEUE_SIZE;
  ring_head : (rhead r < HNC_MDNS_QUEUE_SIZE)%nat;
  ring_count : (rcount r <= HNC_MDNS_QUEUE_SIZE)%nat;
  ring_tail : rtail r = (rhead r + rcount r) mod HNC_MDNS_QUEUE_SIZE
}.
End ring_ops.

(** ** The globals and the two threads *)

(** The resolve function: success and the hostname it wrote, for an address, a
    MAC and a buffer length. *)
Definition hnc_mdns_resolve_fn : Type := bytes -> bytes -> nat -> Z * bytes.

(** Where the worker thread is. *)
Inductive worker_pc :=
  | WNone
  | WWait
  | WResolve (t : hnc_mdns_task)
  | WPush (t : hnc_mdns_task) (r : hnc_mdns_result)
  | WExited.

Record mdns_state := MdnsState {
  g_task : ring hnc_mdns_task;
  g_res : ring hnc_mdns_result;
  g_stop : bool;
  g_started : bool;
  g_resolve_fn : option hnc_mdns_resolve_fn;
  g_worker_thread : worker_pc
}.

Definition mdns_zero : mdns_state :=
  MdnsState (Ring (replicate HNC_MDNS_QUEUE_SIZE (Task [] [])) 0 0 0)
    (Ring (replicate HNC_MDNS_QUEUE_SIZE (Result [] [] [] 0)) 0 0 0) false false None WNone.

Definition hnc_mdns_worker_set_resolve_fn (fn : option hnc_mdns_resolve_fn) (s : mdns_state) : mdns_state :=
  MdnsState (g_task s) (g_res s) (g_stop s) (g_started s) fn (g_worker_thread s).

(** The record [worker_push_result] stores. *)
Definition result_of (mac hostname src : bytes) (success : Z) : hnc_mdns_result :=
  Result (c_trunc HNC_MDNS_MAC_LEN mac) (c_trunc HNC_MDNS_HOSTNAME_LEN hostname)
    (c_trunc HNC_MDNS_SRC_LEN src) success.

(** [worker_push_result]: the result is dropped when the ring is full. *)
Definition worker_push_result (r : hnc_mdns_result) (s : mdns_state) : bool * mdns_state :=
  match ring_push r (g_res s) with
  | None => (false, s)
  | Some q => (true, MdnsState (g_task s) q (g_stop s) (g_started s) (g_resolve_fn s) (g_worker_thread s))
  end.

(** What the worker makes of a task. *)
Definition worker_answer (fn : option hnc_mdns_resolve_fn) (t : hnc_mdns_task) : hnc_mdns_result :=
  let '(success, hostname) := match fn with
                              | Some f => f (t_ip t) (t_mac t) HNC_MDNS_HOSTNAME_LEN
                              | None => (0%Z, [])
                              end in
  if negb (success =? 0)%Z then result_of (t_mac t) hostname (str "mdns") 1
  else result_of (t_mac t) [] (str "mac") 0.

(** [worker_fn], one critical section at a time; [None]: it waits on the
    condition variable, or there is no thread. *)
Definition worker_fn (s : mdns_state) : option mdns_state :=
  match g_worker_thread s with
  | WNone | WExited => None
  | WWait =>
      if (rcount (g_task s) =? 0)%nat && negb (g_stop s) then None
      else if g_stop s then
        Some (MdnsState (ring_reset (g_task s)) (g_res s) (g_stop s) (g_started s) (g_resolve_fn s) WExited)
      else
        let '(t, q) := ring_pop (g_task s) in
        Some (MdnsState q (g_res s) (g_stop s) (g_started s) (g_resolve_fn s) (WResolve t))
  | WResolve t =>
      Some (MdnsState (g_task s) (g_res s) (g_stop s) (g_started s) (g_resolve_fn s)
              (WPush t (worker_answer (g_resolve_fn s) t)))
  | WPush _ r =>
      let s' := (worker_push_result r s).2 in
      Some (MdnsState (g_task s') (g_res s') (g_stop s') (g_started s') (g_resolve_fn s') WWait)
  end.

(** [hnc_mdns_worker_start]: [rc] is what [pthread_create] returns. *)
Definition hnc_mdns_worker_start (rc : Z) (s : mdns_state) : Z * mdns_state :=
  if g_started s then (0%Z, s)
  else if negb (rc =? 0)%Z then
    (rc, MdnsState (ring_reset (g_task s)) (ring_reset (g_res s)) false false (g_resolve_fn s) (g_worker_thread s))
  else
    (0%Z, MdnsState (ring_reset (g_task s)) (ring_reset (g_res s)) false true (g_resolve_fn s) WWait).

(** [hnc_mdns_worker_stop] up to [pthread_join]; the flag tells whether it joins. *)
Definition hnc_mdns_worker_stop (s : mdns_state) : bool * mdns_state :=
  if negb (g_started s) then (false, s)
  else (true, MdnsState (g_task s) (g_res s) true false (g_resolve_fn s) (g_worker_thread s)).

Definition hnc_mdns_worker_enqueue (mac ip : bytes) (s : mdns_state) : Z * mdns_state :=
  if negb (g_started s) then (0%Z, s)
  else
    match ring_push (Task (c_trunc HNC_MDNS_MAC_LEN mac) (c_trunc HNC_MDNS_IP_LEN ip)) (g_task s) with
    | None => (0%Z, s)
    | Some q => (1%Z, MdnsState q (g_res s) (g_stop s) (g_started s) (g_resolve_fn s) (g_worker_thread s))
    end.

(** The results copied out; the return value is their number. *)
Definition hnc_mdns_worker_drain_results (out_max : Z) (s : mdns_state)
  : list hnc_mdns_result * mdns_state :=
  if (out_max <=? 0)%Z then ([], s)
  else
    let '(xs, q) := ring_drain (Z.to_nat out_max) (g_res s) in
    (xs, MdnsState (g_task s) q (g_stop s) (g_started s) (g_resolve_fn s) (g_worker_thread s)).

Definition hnc_mdns_worker_task_count (s : mdns_state) : nat := rcount (g_task s).
Definition hnc_mdns_worker_result_count (s : mdns_state) : nat := rcount (g_res s).

(** ** Rings are bounded queues *)
Lemma mod_size a :
  (a < 32)%nat ->
  a mod HNC_MDNS_QUEUE_SIZE = (if a <? HNC_MDNS_QUEUE_SIZE then a else a - HNC_MDNS_QUEUE_SIZE)%nat.
Proof.
  intros Ha. unfold HNC_MDNS_QUEUE_SIZE. destruct (Nat.ltb_spec a 16).
  - by apply Nat.mod_small.
  - rewrite (Nat.mod_eq a 16) by lia. assert (a / 16 = 1)%nat; [|lia].
    symmetry. apply (Nat.div_unique a 16 1 (a - 16)); lia.
Qed.

Section ring_spec.
Context {A : Type} `{!Inhabited A}.
Implicit Types (r : ring A) (x : A).

Lemma ring_list_length r : length (ring_list r) = rcount r.
Proof. unfold ring_list. by rewrite length_map, length_seq. Qed.

Lemma ring_reset_ok r : length (rq r) = HNC_MDNS_QUEUE_SIZE -> ring_ok (ring_reset r).
Proof. intros H. split; [done|simpl; unfold HNC_MDNS_QUEUE_SIZE; lia..|done]. Qed.

Lemma ring_push_spec x r :
  ring_ok r ->
  match ring_push x r with
  | Some r' => ring_ok r' /\ ring_list r' = ring_list r ++ [x]
  | None => length (ring_list r) = HNC_MDNS_QUEUE_SIZE
  end.
Proof.
  intros [Hl Hh Hc Ht]. unfold ring_push.
  destruct (Nat.leb_spec HNC_MDNS_QUEUE_SIZE (rcount r)); [rewrite ring_list_length; lia|].
  unfold HNC_MDNS_QUEUE_SIZE in *.
  assert (Htl : (rtail r < 16)%nat) by (rewrite Ht; apply Nat.mod_upper_bound; lia).
  split.
  - split; cbn [rq rhead rcount rtail]; unfold HNC_MDNS_QUEUE_SIZE; [by rewrite length_insert|done|lia|].
    rewrite Ht, Nat.Div0.add_mod_idemp_l. f_equal. lia.
  - unfold ring_list. cbn [rq rhead rcount]. rewrite Nat.add_1_r, seq_S, map_app. cbn [map Nat.add].
    f_equal.
    + apply map_ext_in. intros i Hi%in_seq. rewrite list_lookup_total_insert_ne; [done|].
      rewrite Ht, !mod_size by lia. unfold HNC_MDNS_QUEUE_SIZE.
      destruct (Nat.ltb_spec (rhead r + rcount r) 16), (Nat.ltb_spec (rhead r + i) 16); lia.
    + f_equal. unfold HNC_MDNS_QUEUE_SIZE. rewrite <- Ht. apply list_lookup_total_insert_eq. lia.
Qed.

Lemma ring_pop_spec r :
  ring_ok r -> (0 < rcount r)%nat ->
  let p := ring_pop r in ring_ok p.2 /\ ring_list r = p.1 :: ring_list p.2.
Proof.
  intros [Hl Hh Hc Ht] Hpos. unfold ring_pop. cbn [fst snd]. unfold HNC_MDNS_QUEUE_SIZE in *. split.
  - split; cbn [rq rhead rcount rtail]; unfold HNC_MDNS_QUEUE_SIZE; [done|apply Nat.mod_upper_bound; lia|lia|].
    rewrite Ht, Nat.Div0.add_mod_idemp_l. f_equal. lia.
  - unfold ring_list. cbn [rq rhead rcount]. destruct (rcount r) as [|n] eqn:En; [lia|].
    cbn [seq map]. rewrite Nat.add_0_r, mod_size by lia. unfold HNC_MDNS_QUEUE_SIZE.
    rewrite (proj2 (Nat.ltb_lt _ _)) by lia. f_equal.
    replace (S n - 1)%nat with n by lia. rewrite <- seq_shift, map_map. apply map_ext.
    intros i. f_equal. rewrite Nat.Div0.add_mod_idemp_l. f_equal. lia.
Qed.

Lemma ring_drain_spec max r :
  ring_ok r ->
  let d := ring_drain max r in
  ring_ok d.2 /\ d.1 = take max (ring_list r) /\ ring_list d.2 = drop max (ring_list r).
Proof.
  revert r. induction max as [|max IH]; intros r Hr; cbn -[ring_pop]; [done|].
  destruct (rcount r =? 0)%nat eqn:E; bool_simpl.
  - assert (Hnil : ring_list r = []) by (apply length_zero_iff_nil; by rewrite ring_list_length).
    rewrite Hnil. done.
  - destruct (ring_pop_spec r Hr) as [Hok Hl]; [lia|]. destruct (ring_pop r) as [x r'].
    cbn [fst snd] in *. destruct (IH r' Hok) as (H1 & H2 & H3).
    destruct (ring_drain max r') as [xs r'']. cbn [fst snd] in *. rewrite Hl. cbn. split_and!; [done|by f_equal|done].
Qed.
End ring_spec.

(** ** The two threads together *)

(** What has happened since the last start: the accepted tasks, the tasks the
    worker finished with their result and whether the result was queued, the
    results the main thread got, the tasks thrown away at the stop. *)
Record history := History {
  h_accepted : list hnc_mdns_task;
  h_done : list (hnc_mdns_task * hnc_mdns_result * bool);
  h_drained : list hnc_mdns_result;
  h_discarded : list hnc_mdns_task
}.
Definition no_history : history := History [] [] [] [].

(** The state, whether the main thread is inside [pthread_join], the history. *)
Record system := System { sy_st : mdns_state; sy_joining : bool; sy_hist : history }.

(** The history after a step of the worker. *)
Definition worker_history (s : mdns_state) (h : history) : history :=
  match g_worker_thread s with
  | WPush t r =>
      History (h_accepted h) (h_done h ++ [(t, r, (worker_push_result r s).1)]) (h_drained h) (h_discarded h)
  | WWait => if g_stop s then History (h_accepted h) (h_done h) (h_drained h) (ring_list (g_task s)) else h
  | _ => h
  end.

(** Every operation of the main thread and every step of the worker.  The main
    thread does nothing else while it joins. *)
Inductive mdns_step : system -> system -> Prop :=
  | mstep_set_fn s h fn :
      mdns_step (System s false h) (System (hnc_mdns_worker_set_resolve_fn fn s) false h)
  | mstep_start s h rc :
      mdns_step (System s false h)
        (System (hnc_mdns_worker_start rc s).2 false (if g_started s then h else no_history))
  | mstep_stop s h :
      mdns_step (System s false h) (System (hnc_mdns_worker_stop s).2 (hnc_mdns_worker_stop s).1 h)
  | mstep_joined s h :
      g_worker_thread s = WExited -> mdns_step (System s true h) (System s false h)
  | mstep_enqueue s h mac ip :
      let r := hnc_mdns_worker_enqueue mac ip s in
      mdns_step (System s false h)
        (System r.2 false
           (if (r.1 =? 1)%Z
            then History (h_accepted h ++ [Task (c_trunc HNC_MDNS_MAC_LEN mac) (c_trunc HNC_MDNS_IP_LEN ip)])
                   (h_done h) (h_drained h) (h_discarded h)
            else h))
  | mstep_drain s h n :
      let r := hnc_mdns_worker_drain_results n s in
      mdns_step (System s false h)
        (System r.2 false (History (h_accepted h) (h_done h) (h_drained h ++ r.1) (h_discarded h)))
  | mstep_worker s s' j h :
      worker_fn s = Some s' -> mdns_step (System s j h) (System s' j (worker_history s h)).

Definition mdns_init : system := System mdns_zero false no_history.

(** The task the worker is at. *)
Definition in_flight (s : mdns_state) : list hnc_mdns_task :=
  match g_worker_thread s with WResolve t | WPush t _ => [t] | _ => [] end.

Definition kept (d : list (hnc_mdns_task * hnc_mdns_result * bool)) : list hnc_mdns_result :=
  map (fun x => x.1.2) (filter (fun x => x.2 = true) d).
Arguments kept : simpl never.

Definition worker_running (s : mdns_state) : Prop :=
  match g_worker_thread s with WNone | WExited => False | _ => True end.

(** The control state: a started worker runs and is not stopped, a join waits
    for a stopped one, otherwise no worker runs. *)
Definition control_ok (s : mdns_state) (joining : bool) : Prop :=
  if g_started s then joining = false /\ g_stop s = false /\ worker_running s
  else if joining then g_stop s = true /\ g_worker_thread s <> WNone
  else ~ worker_running s.

Definition answers (t : hnc_mdns_task) (r : hnc_mdns_result) : Prop :=
  exists fn, r = worker_answer fn t.

Definition mdns_inv (x : system) : Prop :=
  let s := sy_st x in let h := sy_hist x in
  ring_ok (g_task s) /\ ring_ok (g_res s) /\ control_ok s (sy_joining x) /\
  h_accepted h = map (fun d => d.1.1) (h_done h) ++ in_flight s ++ ring_list (g_task s) ++ h_discarded h /\
  h_drained h ++ ring_list (g_res s) = kept (h_done h) /\
  Forall (fun d => answers d.1.1 d.1.2) (h_done h) /\
  (forall t r, g_worker_thread s = WPush t r -> answers t r) /\
  (worker_running s -> h_discarded h = []).

Lemma kept_snoc d t r b : kept (d ++ [(t, r, b)]) = kept d ++ (if b then [r] else []).
Proof. unfold kept. rewrite filter_app, map_app, filter_cons. by destruct b. Qed.

Lemma mdns_init_inv : mdns_inv mdns_init.
Proof.
  assert (H : forall A (x : A), ring_ok (Ring (replicate HNC_MDNS_QUEUE_SIZE x) 0 0 0)).
  { intros A x. split; [by apply length_replicate|cbn; unfold HNC_MDNS_QUEUE_SIZE; lia..|done]. }
  unfold mdns_inv. split_and!; try done; [apply H|apply H|by intros []].
Qed.

Lemma mdns_worker_inv s s' j h :
  worker_fn s = Some s' -> mdns_inv (System s j h) -> mdns_inv (System s' j (worker_history s h)).
Proof.
  unfold worker_fn, worker_history, mdns_inv, control_ok, worker_running, in_flight. cbn [sy_st sy_joining sy_hist].
  intros Hw (Ht & Hr & Hc & Hacc & Hdr & Hans & Hpush & Hdis).
  destruct (g_worker_thread s) as [| |t|t r|] eqn:Epc; try done.
  - destruct (rcount (g_task s) =? 0)%nat eqn:E0.
    + destruct (g_stop s) eqn:Es; [|done]. injection Hw as <-. cbn in *.
      rewrite Hdis in Hacc by done.
      split_and!; try done; [by apply ring_reset_ok, Ht|destruct (g_started s), j; naive_solver|by rewrite app_nil_r in Hacc].
    + destruct (g_stop s) eqn:Es; cbn [andb negb] in Hw.
      * injection Hw as <-. cbn in *. rewrite Hdis in Hacc by done.
        split_and!; try done; [by apply ring_reset_ok, Ht|destruct (g_started s), j; naive_solver|by rewrite app_nil_r in Hacc].
      * bool_simpl. destruct (ring_pop_spec (g_task s) Ht) as [Hok Hl]; [lia|].
        destruct (ring_pop (g_task s)) as [t q]. injection Hw as <-. cbn in *.
        rewrite Hl in Hacc. split_and!; try done; destruct (g_started s), j; naive_solver.
  - injection Hw as <-. cbn in *. split_and!; try done.
    + destruct (g_started s), j; naive_solver.
    + intros t' r [= <- <-]. by eexists.
  - injection Hw as <-. unfold worker_push_result. pose proof (ring_push_spec r (g_res s) Hr) as Hp.
    assert (Ha : answers t r) by by apply Hpush.
    destruct (ring_push r (g_res s)) as [q|]; cbn in *; rewrite kept_snoc, map_app, <- !app_assoc.
    + destruct Hp as [Hok Hl]. split_and!; try done.
      * destruct (g_started s), j; naive_solver.
      * by rewrite Hl, app_assoc, Hdr.
      * apply Forall_app. by repeat constructor.
    + rewrite app_nil_r. split_and!; try done; [destruct (g_started s), j; naive_solver|].
      apply Forall_app. by repeat constructor.
Qed.

Lemma mdns_step_inv x y : mdns_inv x -> mdns_step x y -> mdns_inv y.
Proof.
  intros Hx Hst. destruct Hst as [s h fn|s h rc|s h|s h He|s h mac ip r|s h n r|s s' j h Hw];
    [| | | | | |by eapply mdns_worker_inv];
    unfold mdns_inv, control_ok, worker_running, in_flight in *; cbn [sy_st sy_joining sy_hist] in *;
    destruct Hx as (Ht & Hr & Hc & Hacc & Hdr & Hans & Hpush & Hdis).
  - by split_and!.
  - unfold hnc_mdns_worker_start. destruct (g_started s) eqn:Eg; [cbn; rewrite Eg; split_and!; naive_solver|].
    pose proof (ring_reset_ok _ (ring_size _ Ht)). pose proof (ring_reset_ok _ (ring_size _ Hr)).
    destruct (rc =? 0)%Z; cbn; split_and!; try done; destruct (g_worker_thread s); naive_solver.
  - unfold hnc_mdns_worker_stop. destruct (g_started s) eqn:Eg; cbn; rewrite ?Eg; split_and!; try done.
    destruct Hc as (_ & _ & Hrun). by destruct (g_worker_thread s).
  - split_and!; try done. destruct (g_started s); [by destruct Hc|]. rewrite He. by intros [].
  - unfold r, hnc_mdns_worker_enqueue. destruct (g_started s) eqn:Eg; cbn [negb]; [|cbn; rewrite Eg; split_and!; naive_solver].
    pose proof (ring_push_spec (Task (c_trunc HNC_MDNS_MAC_LEN mac) (c_trunc HNC_MDNS_IP_LEN ip)) (g_task s) Ht) as Hp.
    destruct (ring_push _ (g_task s)) as [q|]; cbn; rewrite ?Eg; [|split_and!; naive_solver].
    destruct Hp as [Hok Hl]. destruct Hc as (_ & Hns & Hrun).
    assert (Hd : h_discarded h = []) by by apply Hdis.
    split_and!; try done. by rewrite Hacc, Hl, Hd, !app_nil_r, <- !app_assoc.
  - unfold r, hnc_mdns_worker_drain_results. destruct (n <=? 0)%Z.
    { cbn. rewrite app_nil_r. by split_and!. }
    pose proof (ring_drain_spec (Z.to_nat n) (g_res s) Hr) as Hd. cbv zeta in Hd.
    destruct (ring_drain (Z.to_nat n) (g_res s)) as [xs q]. cbn in *. destruct Hd as (Hok & -> & Hl).
    split_and!; try done. by rewrite Hl, <- app_assoc, take_drop.
Qed.

Lemma mdns_reachable x : rtc mdns_step mdns_init x -> mdns_inv x.
Proof. intros Hr. eapply rtc_invariant; [apply mdns_step_inv|exact Hr|apply mdns_init_inv]. Qed.

(** C26: over every interleaving of the main thread and the worker, a task is
    answered at most once and in the order of acceptance: the accepted tasks are
    exactly those finished, the one in work, those queued and those thrown away
    by a stop, in this order; what the main thread got followed by what is queued
    for it is exactly the results of the finished tasks, except those dropped;
    and a result is dropped only when 16 are waiting. *)
Theorem mdns_exactly_once (x : system) :
  rtc mdns_step mdns_init x ->
  let s := sy_st x in let h := sy_hist x in
  h_accepted h = map (fun d => d.1.1) (h_done h) ++ in_flight s ++ ring_list (g_task s) ++ h_discarded h /\
  h_drained h ++ ring_list (g_res s) = kept (h_done h) /\
  Forall (fun d => answers d.1.1 d.1.2) (h_done h) /\
  (length (ring_list (g_task s)) <= HNC_MDNS_QUEUE_SIZE)%nat /\
  (length (ring_list (g_res s)) <= HNC_MDNS_QUEUE_SIZE)%nat /\
  (forall t r, g_worker_thread s = WPush t r ->
     (worker_push_result r s).1 = false <-> length (ring_list (g_res s)) = HNC_MDNS_QUEUE_SIZE).
Proof.
  intros (Ht & Hr & _ & Hacc & Hdr & Hans & _)%mdns_reachable. cbv zeta.
  rewrite !ring_list_length. pose proof (ring_count _ Ht). pose proof (ring_count _ Hr).
  split_and!; try done. intros t r _. unfold worker_push_result, ring_push.
  destruct (Nat.leb_spec HNC_MDNS_QUEUE_SIZE (rcount (g_res (sy_st x)))); cbn; split; (done || lia).
Qed.

(** A run of the worker alone. *)
Fixpoint worker_run (n : nat) (s : mdns_state) : mdns_state :=
  match n with
  | O => s
  | S n' => match worker_fn s with Some s' => worker_run n' s' | None => s end
  end.

Definition pc_rank (s : mdns_state) : nat :=
  match g_worker_thread s with WResolve _ => 3 | WPush _ _ => 2 | WWait => 1 | _ => 0 end.

(** Once the stop flag is set, every step of the worker brings it closer to its
    end; the last one empties the task queue. *)
Lemma worker_stop_step s :
  g_stop s = true -> (0 < pc_rank s)%nat ->
  exists s', worker_fn s = Some s' /\ g_stop s' = true /\ g_started s' = g_started s /\
    pc_rank s' = (pc_rank s - 1)%nat /\
    (pc_rank s = 1%nat -> g_worker_thread s' = WExited /\ ring_list (g_task s') = []).
Proof.
  unfold pc_rank, worker_fn. intros Hs Hr. destruct (g_worker_thread s) as [| |t|t r|]; [lia| | | |lia].
  - rewrite Hs, andb_false_r. by eexists.
  - by eexists.
  - eexists. split; [reflexivity|]. unfold worker_push_result. by case_match.
Qed.

Lemma worker_stop_run n s :
  g_stop s = true -> (0 < pc_rank s <= n)%nat ->
  g_worker_thread (worker_run n s) = WExited /\ ring_list (g_task (worker_run n s)) = [] /\
  g_started (worker_run n s) = g_started s.
Proof.
  revert s. induction n as [|n IH]; intros s Hs Hr; [lia|]. cbn [worker_run].
  destruct (worker_stop_step s Hs) as (s' & -> & Hs' & Hg & Hrank & Hlast); [lia|].
  destruct (decide (pc_rank s = 1%nat)) as [H1|H1].
  - destruct (Hlast H1) as [He Hq]. assert (Hrun : worker_run n s' = s').
    { destruct n; [done|]. cbn [worker_run]. unfold worker_fn. by rewrite He. }
    by rewrite Hrun.
  - rewrite <- Hg. apply IH; [done|lia].
Qed.

(** The result that is still stored: the one of the task in work, if the ring has room. *)
Definition last_result (s : mdns_state) : list hnc_mdns_result :=
  if (HNC_MDNS_QUEUE_SIZE <=? rcount (g_res s))%nat then []
  else match g_worker_thread s with
       | WResolve t => [worker_answer (g_resolve_fn s) t]
       | WPush _ r => [r]
       | _ => []
       end.

Lemma worker_push_results r s :
  ring_ok (g_res s) ->
  ring_list (g_res (worker_push_result r s).2)
  = ring_list (g_res s) ++ (if (HNC_MDNS_QUEUE_SIZE <=? rcount (g_res s))%nat then [] else [r]).
Proof.
  intros Hok. pose proof (ring_push_spec r (g_res s) Hok) as Hp. unfold worker_push_result.
  unfold ring_push in *. destruct (_ <=? _)%nat; [by rewrite app_nil_r|]. by destruct Hp.
Qed.

Lemma worker_stop_results s :
  g_stop s = true -> ring_ok (g_res s) -> ring_list (g_res (worker_run 3 s)) = ring_list (g_res s) ++ last_result s.
Proof.
  intros Hs Hok. destruct s as [q res stop started fn pc]. cbn [g_stop g_res] in *. subst stop. unfold last_result.
  cbn [g_res g_worker_thread g_resolve_fn].
  destruct pc as [| |t|t r|]; cbn [worker_run worker_fn g_worker_thread g_stop g_task g_res g_resolve_fn];
    rewrite ?andb_false_r; cbn [worker_run worker_fn g_worker_thread g_stop g_task g_res g_resolve_fn];
    try (by destruct (_ <=? _)%nat; rewrite app_nil_r).
  - pose proof (worker_push_results (worker_answer fn t) (MdnsState q res true started fn (WPush t (worker_answer fn t))) Hok) as Hp.
    unfold worker_push_result in *. cbn [g_res g_stop g_task g_started g_resolve_fn] in *.
    destruct (ring_push _ res); cbn [snd g_res] in *; rewrite ?andb_false_r; exact Hp.
  - pose proof (worker_push_results r (MdnsState q res true started fn (WPush t r)) Hok) as Hp.
    unfold worker_push_result in *. cbn [g_res g_stop g_task g_started g_resolve_fn] in *.
    destruct (ring_push _ res); cbn [snd g_res] in *; rewrite ?andb_false_r; exact Hp.
Qed.

(** C40: [hnc_mdns_worker_stop] ends: wherever the worker is when the main thread
    joins, it exits after at most three of its own steps; the task in work is still
    resolved, and its result stored when there is room; the waiting tasks are discarded, not
    resolved: afterwards the task queue is empty and no other result is there.  Enqueueing is
    refused then. *)
Theorem mdns_stop_ends (x : system) :
  rtc mdns_step mdns_init x -> sy_joining x = true ->
  let s := worker_run 3 (sy_st x) in
  g_worker_thread s = WExited /\
  (g_worker_thread (sy_st x) <> WExited -> ring_list (g_task s) = []) /\
  ring_list (g_res s) = ring_list (g_res (sy_st x)) ++ last_result (sy_st x) /\
  forall mac ip, hnc_mdns_worker_enqueue mac ip s = (0%Z, s).
Proof.
  intros (_ & Hres & Hc & _)%mdns_reachable Hj s. unfold control_ok in Hc. rewrite Hj in Hc.
  destruct (g_started (sy_st x)) eqn:Eg; [by destruct Hc|]. destruct Hc as [Hs Hn].
  pose proof (worker_stop_results (sy_st x) Hs Hres) as Hrs. fold s in Hrs.
  unfold hnc_mdns_worker_enqueue. unfold s in *. clear s. destruct (decide (pc_rank (sy_st x) = 0%nat)) as [H0|H0].
  - assert (He : g_worker_thread (sy_st x) = WExited)
      by (unfold pc_rank in H0; by destruct (g_worker_thread (sy_st x))).
    assert (Hrun : worker_run 3 (sy_st x) = sy_st x) by (cbn [worker_run]; unfold worker_fn; by rewrite He).
    rewrite Hrun in *. by rewrite Eg.
  - destruct (worker_stop_run 3 (sy_st x) Hs) as (H1 & H2 & H3).
    { unfold pc_rank in *. destruct (g_worker_thread (sy_st x)); lia. }
    rewrite H3, Eg. by split_and!.
Qed.

(** A start, three tasks of which one fails, two worker rounds, and a stop while
    the third waits. *)
Definition sample_resolve : hnc_mdns_resolve_fn :=
  fun ip _ _ => if bool_decide (ip = str "10.0.0.2") then (1%Z, str "tv") else (0%Z, []).
Definition sample_running : system :=
  let s0 := hnc_mdns_worker_set_resolve_fn (Some sample_resolve) mdns_zero in
  let s1 := (hnc_mdns_worker_start 0 s0).2 in
  let s2 := (hnc_mdns_worker_enqueue (str "aa:bb:cc:dd:ee:01") (str "10.0.0.2") s1).2 in
  System s2 false (History [Task (str "aa:bb:cc:dd:ee:01") (str "10.0.0.2")] [] [] []).

Lemma sample_running_reachable : rtc mdns_step mdns_init sample_running.
Proof.
  eapply rtc_l; [apply (mstep_set_fn _ _ (Some sample_resolve))|].
  eapply rtc_l; [apply (mstep_start _ _ 0)|].
  apply rtc_once. exact (mstep_enqueue
    (hnc_mdns_worker_start 0 (hnc_mdns_worker_set_resolve_fn (Some sample_resolve) mdns_zero)).2
    no_history (str "aa:bb:cc:dd:ee:01") (str "10.0.0.2")).
Qed.

Lemma sample_answered_reachable :
  exists h, h_done h = [(Task (str "aa:bb:cc:dd:ee:01") (str "10.0.0.2"),
      Result (str "aa:bb:cc:dd:ee:01") (str "tv") (str "mdns") 1, true)] /\
    rtc mdns_step mdns_init (System (worker_run 3 (sy_st sample_running)) false h).
Proof.
  eexists. split; [|eapply rtc_r; [eapply rtc_r; [eapply rtc_r; [apply sample_running_reachable|]|]|];
    by apply mstep_worker]. by vm_compute.
Qed.

Lemma mdns_exactly_once_witness :
  exists x, h_done (sy_hist x) <> [] /\
    h_drained (sy_hist x) ++ ring_list (g_res (sy_st x)) = kept (h_done (sy_hist x)).
Proof.
  destruct sample_answered_reachable as (h & Hh & Hr).
  eexists. destruct (mdns_exactly_once _ Hr) as (_ & H & _). split; [|exact H]. cbn [sy_hist]. by rewrite Hh.
Defined.

(** Three tasks and an immediate stop: none of them is answered. *)
Lemma stop_discards :
  let enqueue n s := (hnc_mdns_worker_enqueue (str "aa:bb:cc:dd:ee:a" ++ [n]) (str "10.0.0.1") s).2 in
  let s := worker_run 3 (hnc_mdns_worker_stop
             (enqueue 51%Z (enqueue 50%Z (enqueue 49%Z
                (hnc_mdns_worker_start 0 (hnc_mdns_worker_set_resolve_fn (Some sample_resolve) mdns_zero)).2)))).2 in
  g_worker_thread s = WExited /\ (hnc_mdns_worker_drain_results 32 s).1 = [].
Proof. by vm_compute. Qed.

Lemma mdns_stop_ends_witness :
  g_worker_thread (worker_run 3 (hnc_mdns_worker_stop (sy_st sample_running)).2) = WExited.
Proof.
  apply (mdns_stop_ends (System (hnc_mdns_worker_stop (sy_st sample_running)).2 true (sy_hist sample_running))).
  - eapply rtc_r; [apply sample_running_reachable|]. apply mstep_stop.
  - done.
Defined.
