(* ===== verification/MdnsResolve.v ===== *)
(** * The mDNS reverse resolver ([mdns_resolve.c])

    The PTR query for an IPv4 address, the parser of the responses with DNS name
    compression, and the two attempts of the command.  Every access to a buffer is
    checked in the model: [Stuck] stands for a read or a write outside of it (or
    for a loop that does not end), and is shown not to occur. *)
From S2P Require Import Prelude CStr.
Local Open Scope Z_scope.

Definition MAX_NAME_JUMPS : nat := 16.
Definition MAX_NAME_LEN : nat := 256.
Definition MAX_PKT : nat := 1500.
Definition DEFAULT_TIMEOUT : Z := 800.
Definition DOT : Z := 46.

(** The outcome of a parser: a value, [-1], or an access that is not allowed. *)
Inductive res (A : Type) := Ok (a : A) | Fail | Stuck.
Arguments Ok {A}. Arguments Fail {A}. Arguments Stuck {A}.
#[export] Instance res_ret : MRet res := fun A a => Ok a.
#[export] Instance res_bind : MBind res := fun A B f m =>
  match m with Ok a => f a | Fail => Fail | Stuck => Stuck end.

(** ** The query *)

Definition not_dot (c : Z) : bool := negb (c =? DOT).

(** One turn of [encode_dns_name]: the rest of the name and the bytes written.
    [None] is [-1]. *)
Definition encode_step (outlen : nat) (s : bytes * bytes) : bytes * bytes + option bytes :=
  let '(rest, out) := s in
  match rest with
  | [] => inr (Some (out ++ [0]))
  | _ =>
      let label := take_while not_dot rest in
      let n := length label in
      if (n =? 0)%nat || (63 <? n)%nat then inr None
      else if (outlen <? length out + 1 + n + 1)%nat then inr None
      else
        let out := out ++ Z.of_nat n :: label in
        match drop n rest with
        | [] => inr (Some (out ++ [0]))
        | _ :: rest' => inl (rest', out)
        end
  end.
Definition encode_dns_name (name : bytes) (outlen : nat) : option bytes :=
  if (outlen <? length name + 2)%nat then None
  else default None (loop (encode_step outlen) (S (length name)) (name, [])).

(** ["%u"] of [sscanf]: blanks, a sign, digits; the value saturates at 64 bits
    and is stored in 32. *)
Definition scan_u (s : bytes) : option (Z * bytes) :=
  let s := drop_while isspace s in
  let '(neg, s) := match s with
                   | c :: s' => if c =? 45 then (true, s')
                                else if c =? 43 then (false, s') else (false, s)
                   | [] => (false, s)
                   end in
  match take_while is_digit s with
  | [] => None
  | ds => let v := digits_val ds in
          let v := if 2 ^ 64 <=? v then 2 ^ 64 - 1 else if neg : bool then u64 (- v) else v in
          Some (u32 v, drop_while is_digit s)
  end.
Definition scan_dot (s : bytes) : option bytes :=
  match s with c :: s' => if c =? DOT then Some s' else None | [] => None end.
(** [sscanf(s, "%u.%u.%u.%u", ...) == 4] *)
Definition sscanf_quad (s : bytes) : option (Z * Z * Z * Z) :=
  '(a, s) ← scan_u s; s ← scan_dot s;
  '(b, s) ← scan_u s; s ← scan_dot s;
  '(c, s) ← scan_u s; s ← scan_dot s;
  '(d, _) ← scan_u s; Some (a, b, c, d).

(** The reversed name, as [snprintf] leaves it in 64 bytes. *)
Definition reverse_name (q : Z * Z * Z * Z) : bytes :=
  let '(a, b, c, d) := q in
  c_trunc 64 (dec d ++ DOT :: dec c ++ DOT :: dec b ++ DOT :: dec a ++ str ".in-addr.arpa").

Definition query_header (txid : Z) : bytes :=
  [Z.shiftr txid 8; Z.land txid 255; 0; 0; 0; 1; 0; 0; 0; 0; 0; 0].

Definition build_query (ip_str : bytes) (buflen : nat) (txid : Z) : option bytes :=
  '(a, b, c, d) ← sscanf_quad ip_str;
  if (255 <? a) || (255 <? b) || (255 <? c) || (255 <? d) then None
  else if (buflen <? 12 + 64 + 4)%nat then None
  else
    n ← encode_dns_name (reverse_name (a, b, c, d)) (buflen - 12 - 4);
    Some (query_header txid ++ n ++ [0; 12; 0; 1]).

(** ** The response *)

(** The locals of [decode_dns_name]; [d_after] is [after_first_label] once
    [jumped] is set. *)
Record dstate := DState { d_cur : nat; d_out : bytes; d_jumps : nat; d_after : option nat }.

Definition decode_step (pkt : bytes) (outlen : nat) (s : dstate) : dstate + res (bytes * nat) :=
  let '(DState cur out jumps after) := s in
  let pktlen := length pkt in
  if (pktlen <=? cur)%nat then inr Fail
  else match pkt !! cur with
  | None => inr Stuck
  | Some len =>
    if len =? 0 then
      if (outlen <=? length out)%nat then inr Stuck
      else inr (Ok (out, match after with Some a => a | None => S cur end))
    else if Z.land len 192 =? 192 then
      if (pktlen <=? cur + 1)%nat then inr Fail
      else match pkt !! (cur + 1)%nat with
      | None => inr Stuck
      | Some lo =>
        let ptr := Z.to_nat (Z.lor (Z.shiftl (Z.land len 63) 8) lo) in
        let after := match after with None => Some (cur + 2)%nat | Some _ => after end in
        if (MAX_NAME_JUMPS <? jumps + 1)%nat then inr Fail
        else if (pktlen <=? ptr)%nat then inr Fail
        else inl (DState ptr out (jumps + 1) after)
      end
    else if 63 <? len then inr Fail
    else
      let n := Z.to_nat len in
      if (pktlen <? cur + 1 + n)%nat then inr Fail
      else if (outlen <=? length out + n + 1)%nat then inr Fail
      else
        let out := if (0 <? length out)%nat then out ++ [DOT] else out in
        let label := take n (drop (cur + 1) pkt) in
        let out' := out ++ label in
        if (length label <? n)%nat || (outlen <? length out')%nat then inr Stuck
        else inl (DState (cur + 1 + n) out' jumps after)
  end.

Definition decode_fuel (pkt : bytes) : nat := S ((MAX_NAME_JUMPS + 1) * S (length pkt)).
(** [decode_dns_name]: the name and the new offset. *)
Definition decode_dns_name (pkt : bytes) (off : nat) (outlen : nat) : res (bytes * nat) :=
  default Stuck (loop (decode_step pkt outlen) (decode_fuel pkt) (DState off [] 0 None)).

(** [(pkt[i] << 8) | pkt[i + 1]] *)
Definition be16 (pkt : bytes) (i : nat) : res Z :=
  match pkt !! i, pkt !! (i + 1)%nat with
  | Some hi, Some lo => Ok (Z.lor (Z.shiftl hi 8) lo)
  | _, _ => Stuck
  end.

Fixpoint skip_questions (n : nat) (pkt : bytes) (off : nat) : res nat :=
  match n with
  | O => Ok off
  | S n' =>
      '(_, off) ← decode_dns_name pkt off MAX_NAME_LEN;
      if (length pkt <? off + 4)%nat then Fail else skip_questions n' pkt (off + 4)
  end.

Definition rname_ok (expected_rname : option bytes) (rname : bytes) : bool :=
  match expected_rname with Some e => strcasecmp_eq (cut_nul rname) e | None => true end.

Fixpoint parse_answers (n : nat) (pkt : bytes) (off : nat) (expected_rname : option bytes) (outlen : nat)
  : res bytes :=
  match n with
  | O => Fail
  | S n' =>
      '(rname, off) ← decode_dns_name pkt off MAX_NAME_LEN;
      if (length pkt <? off + 10)%nat then Fail
      else
        rtype ← be16 pkt off; rdlen ← be16 pkt (off + 8);
        let off := (off + 10)%nat in
        let rdlen := Z.to_nat rdlen in
        if (length pkt <? off + rdlen)%nat then Fail
        else if negb (rname_ok expected_rname rname) then parse_answers n' pkt (off + rdlen) expected_rname outlen
        else if rtype =? 12 then '(name, _) ← decode_dns_name pkt off outlen; Ok name
        else parse_answers n' pkt (off + rdlen) expected_rname outlen
  end.

(** [parse_response]: the bytes of the PTR name. *)
Definition parse_response (pkt : bytes) (outlen : nat) (expected_rname : option bytes) : res bytes :=
  if (length pkt <? 12)%nat then Fail
  else
    flags ← be16 pkt 2;
    if Z.land flags 32768 =? 0 then Fail
    else
      qdcount ← be16 pkt 4; ancount ← be16 pkt 6;
      if ancount =? 0 then Fail
      else
        off ← skip_questions (Z.to_nat qdcount) pkt 12;
        parse_answers (Z.to_nat ancount) pkt off expected_rname outlen.

(** Drop the dots at the end. *)
Definition strip_dots (name : bytes) : bytes := reverse (drop_while (fun c => c =? DOT) (reverse name)).
Definition strip_local_suffix (name : bytes) : bytes :=
  let name := strip_dots name in
  let n := length name in
  if (6 <? n)%nat && strcasecmp_eq (drop (n - 6) name) (str ".local") then take (n - 6) name else name.

(** ** The command *)

(** What the network does in one attempt: whether the socket opens and the
    datagram is sent, and for each turn of the receive loop the milliseconds that
    have passed and what [recvfrom] gives ([None]: an error or a timeout). *)
Record attempt := Attempt { at_socket : bool; at_sent : bool; at_recv : list (Z * option bytes) }.

(** An exhausted list is a receive that times out. *)
Fixpoint recv_loop (timeout_ms : Z) (expected_rname : option bytes) (outlen : nat)
    (ev : list (Z * option bytes)) : res bytes :=
  match ev with
  | [] => Fail
  | (elapsed, r) :: ev' =>
      if timeout_ms <=? elapsed then Fail
      else match r with
      | None => Fail
      | Some pkt =>
          let pkt := take MAX_PKT pkt in
          if (length pkt <? 12)%nat then recv_loop timeout_ms expected_rname outlen ev'
          else match parse_response pkt outlen expected_rname with
          | Ok name => Ok name
          | Fail => recv_loop timeout_ms expected_rname outlen ev'
          | Stuck => Stuck
          end
      end
  end.

(** [try_query] at time [now]; the address it sends to is valid. *)
Definition try_query (src_ip : bytes) (now timeout_ms : Z) (outlen : nat) (a : attempt) : res bytes :=
  if negb (at_socket a) then Fail
  else match build_query src_ip MAX_PKT (Z.land now 65535) with
  | None => Fail
  | Some _ =>
      let expected := reverse_name <$> sscanf_quad src_ip in
      if negb (at_sent a) then Fail else recv_loop timeout_ms expected outlen (at_recv a)
  end.

(** One attempt and what [main] prints after it: the bytes of the hostname up to
    the first NUL, without the suffix. *)
Definition attempt_name (r : res bytes) : res bytes :=
  name ← r;
  let h := strip_local_suffix (cut_nul name) in
  if bool_decide (h = []) then Fail else Ok h.

(** The two attempts of [main]: the line printed, [Fail] for exit status 1. *)
Definition resolve (ip : bytes) (timeout_ms now1 now2 : Z) (unicast multicast : attempt) : res bytes :=
  match attempt_name (try_query ip now1 (Z.quot timeout_ms 2) MAX_NAME_LEN unicast) with
  | Ok h => Ok h
  | Fail => attempt_name (try_query ip now2 (Z.quot timeout_ms 2) MAX_NAME_LEN multicast)
  | Stuck => Stuck
  end.

(** The options of [main]; [None] is the usage message and status 1. *)
Fixpoint parse_args (argv : list bytes) (timeout_ms : Z) (ip : option bytes) : option (Z * option bytes) :=
  match argv with
  | [] => Some (timeout_ms, ip)
  | a :: rest =>
      match rest with
      | v :: rest' =>
          if strcmp_eq a (str "-t") then
            let t := s32 (strtol v) in
            parse_args rest' (if (t <=? 0) || (10000 <? t) then DEFAULT_TIMEOUT else t) ip
          else if strcmp_eq a (str "-v") then parse_args rest timeout_ms ip
          else if bool_decide (head a = Some 45) then None
          else parse_args rest timeout_ms (Some a)
      | [] =>
          if strcmp_eq a (str "-v") then parse_args rest timeout_ms ip
          else if bool_decide (head a = Some 45) then None
          else parse_args rest timeout_ms (Some a)
      end
  end.

(** [main]: [inet_pton] is the C library's test of an IPv4 address. *)
Definition mdns_main (inet_pton : bytes -> bool) (argv : list bytes) (now1 now2 : Z)
    (unicast multicast : attempt) : res bytes :=
  match parse_args argv DEFAULT_TIMEOUT None with
  | Some (timeout_ms, Some ip) =>
      if inet_pton ip then resolve ip timeout_ms now1 now2 unicast multicast else Fail
  | _ => Fail
  end.

(** ** What a name in a packet is

    [name_at pkt off j ls e]: at [off] stands a name with the labels [ls], written
    with [j] compression pointers; what follows it in the packet is at [e]. *)
Inductive name_at (pkt : bytes) : nat -> nat -> list bytes -> nat -> Prop :=
  | name_end off : pkt !! off = Some 0 -> name_at pkt off 0 [] (S off)
  | name_label off len j ls e :
      pkt !! off = Some len -> 1 <= len <= 63 ->
      (off + 1 + Z.to_nat len <= length pkt)%nat ->
      name_at pkt (off + 1 + Z.to_nat len) j ls e ->
      name_at pkt off j (take (Z.to_nat len) (drop (off + 1) pkt) :: ls) e
  | name_pointer off hi lo j ls e :
      pkt !! off = Some hi -> Z.land hi 192 = 192 -> pkt !! (off + 1)%nat = Some lo ->
      (Z.to_nat (Z.lor (Z.shiftl (Z.land hi 63) 8) lo) < length pkt)%nat ->
      name_at pkt (Z.to_nat (Z.lor (Z.shiftl (Z.land hi 63) 8) lo)) j ls e ->
      name_at pkt off (S j) ls (off + 2).

(** The text of a list of labels, after the text [out]. *)
Definition add_label (out label : bytes) : bytes :=
  (if (0 <? length out)%nat then out ++ [DOT] else out) ++ label.
Fixpoint add_labels (out : bytes) (ls : list bytes) : bytes :=
  match ls with [] => out | l :: r => add_labels (add_label out l) r end.
Definition join_labels (ls : list bytes) : bytes := add_labels [] ls.

(** The labels fit a buffer of [outlen] bytes by the test of the code. *)
Fixpoint labels_fit (outlen : nat) (out : bytes) (ls : list bytes) : Prop :=
  match ls with
  | [] => True
  | l :: r => (length out + length l + 1 < outlen)%nat /\ labels_fit outlen (add_label out l) r
  end.

Lemma land192_small len : 0 <= len < 256 -> Z.land len 192 <> 192 -> len <= 63 \/ 63 < len.
Proof. lia. Qed.

Lemma label_not_pointer len : 1 <= len <= 63 -> Z.land len 192 = 0.
Proof.
  intros Hl. pose proof (byte_forall (fun c => (63 <? c) || (Z.land c 192 =? 0)) len eq_refl) as H.
  specialize (H ltac:(lia)). cbn beta in H. apply orb_true_iff in H as [H|H]; bool_simpl; lia.
Qed.

Lemma add_label_length out l :
  (length out + length l <= length (add_label out l) <= length out + length l + 1)%nat.
Proof. unfold add_label. destruct (0 <? length out)%nat; rewrite !length_app; simpl; lia. Qed.

Section decode.
Context (pkt : bytes) (outlen : nat).
Hypothesis Hpkt : Forall is_byte pkt.

Lemma pkt_byte i c : pkt !! i = Some c -> 0 <= c < 256.
Proof. intros H. exact (Forall_lookup_1 _ _ _ _ Hpkt H). Qed.

(** One turn over a label. *)
Lemma decode_label s len :
  pkt !! d_cur s = Some len -> 1 <= len <= 63 ->
  (d_cur s + 1 + Z.to_nat len <= length pkt)%nat ->
  (length (d_out s) + Z.to_nat len + 1 < outlen)%nat ->
  decode_step pkt outlen s
  = inl (DState (d_cur s + 1 + Z.to_nat len)
           (add_label (d_out s) (take (Z.to_nat len) (drop (d_cur s + 1) pkt))) (d_jumps s) (d_after s)).
Proof.
  destruct s as [cur out jumps after]. cbn [d_cur d_out d_jumps d_after]. intros Hl Hr Hin Hfit.
  pose proof (lookup_lt_Some _ _ _ Hl). unfold decode_step. rewrite Hl.
  rewrite (proj2 (Nat.leb_gt _ _)), (proj2 (Z.eqb_neq _ _)), label_not_pointer by lia.
  change (0 =? 192) with false. rewrite (proj2 (Z.ltb_ge _ _)), !(proj2 (Nat.ltb_ge _ _)) by lia.
  rewrite (proj2 (Nat.leb_gt _ _)) by lia.
  assert (Htake : length (take (Z.to_nat len) (drop (cur + 1) pkt)) = Z.to_nat len)
    by (rewrite length_take, length_drop; lia).
  rewrite (proj2 (Nat.ltb_ge _ _)) by lia. cbn [orb]. fold (add_label out (take (Z.to_nat len) (drop (cur + 1) pkt))).
  pose proof (add_label_length out (take (Z.to_nat len) (drop (cur + 1) pkt))).
  by rewrite (proj2 (Nat.ltb_ge _ _)) by lia.
Qed.

(** What a turn of the loop does, case by case. *)
Lemma decode_step_cases s :
  (length (d_out s) < outlen)%nat ->
  match decode_step pkt outlen s with
  | inl s' =>
      (length (d_out s') < outlen)%nat /\
      ((exists len, pkt !! d_cur s = Some len /\ 1 <= len <= 63 /\
          (d_cur s + 1 + Z.to_nat len <= length pkt)%nat /\
          (length (d_out s) + Z.to_nat len + 1 < outlen)%nat /\
          s' = DState (d_cur s + 1 + Z.to_nat len)
                 (add_label (d_out s) (take (Z.to_nat len) (drop (d_cur s + 1) pkt))) (d_jumps s) (d_after s)) \/
       (exists hi lo, let ptr := Z.to_nat (Z.lor (Z.shiftl (Z.land hi 63) 8) lo) in
          pkt !! d_cur s = Some hi /\ Z.land hi 192 = 192 /\ pkt !! (d_cur s + 1)%nat = Some lo /\
          (ptr < length pkt)%nat /\ (d_jumps s < MAX_NAME_JUMPS)%nat /\
          s' = DState ptr (d_out s) (d_jumps s + 1)
                 (match d_after s with None => Some (d_cur s + 2)%nat | a => a end)))
  | inr (Ok (out, e)) =>
      pkt !! d_cur s = Some 0 /\ out = d_out s /\ e = match d_after s with Some a => a | None => S (d_cur s) end
  | inr Fail => True
  | inr Stuck => False
  end.
Proof.
  destruct s as [cur out jumps after]. cbn [d_cur d_out d_jumps d_after]. intros Hout.
  destruct (Nat.le_gt_cases (length pkt) cur) as [Hge|Hlt].
  { unfold decode_step. by rewrite (proj2 (Nat.leb_le _ _) Hge). }
  destruct (lookup_lt_is_Some_2 _ _ Hlt) as [len Hlen]. pose proof (pkt_byte _ _ Hlen) as Hb.
  destruct (decide (1 <= len <= 63 /\ (cur + 1 + Z.to_nat len <= length pkt)%nat /\
    (length out + Z.to_nat len + 1 < outlen)%nat)) as [(H1 & H2 & H3)|Hno].
  { rewrite (decode_label (DState cur out jumps after) len) by done. cbn [d_cur d_out d_jumps d_after].
    split; [|left; by exists len].
    pose proof (add_label_length out (take (Z.to_nat len) (drop (cur + 1) pkt))).
    assert (length (take (Z.to_nat len) (drop (cur + 1) pkt)) <= Z.to_nat len)%nat
      by (rewrite length_take; lia). lia. }
  unfold decode_step. rewrite (proj2 (Nat.leb_gt _ _) Hlt), Hlen.
  destruct (len =? 0) eqn:E0; bool_simpl.
  { subst. by rewrite (proj2 (Nat.leb_gt _ _) Hout). }
  destruct (Z.land len 192 =? 192) eqn:E1; bool_simpl.
  { destruct (Nat.leb_spec (length pkt) (cur + 1)); [done|].
    destruct (lookup_lt_is_Some_2 pkt (cur + 1)) as [lo Hlo]; [done|]. rewrite Hlo.
    destruct (Nat.ltb_spec MAX_NAME_JUMPS (jumps + 1)); [done|].
    destruct (Nat.leb_spec (length pkt) (Z.to_nat (Z.lor (Z.shiftl (Z.land len 63) 8) lo))); [done|].
    split; [done|]. right. exists len, lo. cbv zeta. split_and!; try done; [lia|by destruct after]. }
  destruct (63 <? len) eqn:E2; [done|]; bool_simpl.
  destruct (Nat.ltb_spec (length pkt) (cur + 1 + Z.to_nat len)); [done|].
  destruct (Nat.leb_spec outlen (length out + Z.to_nat len + 1)); [done|].
  exfalso. apply Hno. split_and!; lia.
Qed.

(** The loop ends: a label moves forward, a pointer uses one of 16 jumps. *)
Definition dmeasure (s : dstate) : nat :=
  (MAX_NAME_JUMPS - d_jumps s) * S (length pkt) + (length pkt - d_cur s).

Lemma decode_total off :
  (0 < outlen)%nat -> exists r, loop (decode_step pkt outlen) (decode_fuel pkt) (DState off [] 0 None) = Some r
    /\ r <> Stuck.
Proof.
  intros Hout.
  destruct (loop_total (decode_step pkt outlen)
    (fun s => (length (d_out s) < outlen)%nat /\ (d_jumps s <= MAX_NAME_JUMPS)%nat) dmeasure) with
    (fuel := decode_fuel pkt) (s := DState off [] 0 None) as [r Hr].
  - intros s s' [Hs Hj] Hstep. pose proof (decode_step_cases s Hs) as H. rewrite Hstep in H.
    destruct H as [Hs' [(len & Hl & H1 & H2 & H3 & ->)|(hi & lo & Hl & H1 & H2 & H3 & H4 & ->)]];
      (split; [split; [done|simpl; lia]|]); unfold dmeasure; cbn [d_cur d_jumps].
    + lia.
    + pose proof (lookup_lt_Some _ _ _ Hl).
      replace (MAX_NAME_JUMPS - d_jumps s)%nat with (S (MAX_NAME_JUMPS - (d_jumps s + 1))) by lia.
      cbn [Nat.mul]. lia.
  - cbn. lia.
  - unfold dmeasure, decode_fuel. cbn [d_cur d_jumps]. rewrite Nat.sub_0_r. lia.
  - exists r. split; [done|].
    eapply (loop_inv (decode_step pkt outlen) (fun s => (length (d_out s) < outlen)%nat)
      (fun r => r <> Stuck)); [| | |exact Hr].
    + intros s s' Hs Hstep. pose proof (decode_step_cases s Hs) as H. rewrite Hstep in H. by destruct H.
    + intros s r' Hs Hstep. pose proof (decode_step_cases s Hs) as H. rewrite Hstep in H.
      by intros ->.
    + cbn. lia.
Qed.

(** From the end of a name back to its start. *)
Lemma decode_sound fuel s out e :
  (length (d_out s) < outlen)%nat ->
  loop (decode_step pkt outlen) fuel s = Some (Ok (out, e)) ->
  exists j ls e', name_at pkt (d_cur s) j ls e' /\ out = add_labels (d_out s) ls /\
    labels_fit outlen (d_out s) ls /\ (j = 0 \/ d_jumps s + j <= MAX_NAME_JUMPS)%nat /\
    e = match d_after s with Some a => a | None => e' end.
Proof.
  revert s. induction fuel as [|fuel IH]; intros s Hs; [done|]. rewrite loop_S.
  pose proof (decode_step_cases s Hs) as H. destruct (decode_step pkt outlen s) as [s'|r].
  - destruct H as [Hs' [(len & Hl & H1 & H2 & H3 & ->)|(hi & lo & Hl & H1 & H2 & H3 & H4 & ->)]];
      intros Hloop; destruct (IH _ Hs' Hloop) as (j & ls & e' & Hn & -> & Hfit & Hj & ->);
      cbn [d_cur d_out d_jumps d_after] in *.
    + eexists j, _, e'. split; [by eapply name_label|]. cbn [add_labels labels_fit].
      split_and!; try done. rewrite length_take, length_drop. lia.
    + exists (S j), ls, (d_cur s + 2)%nat. split; [by eapply name_pointer|].
      split_and!; try done; [right; lia|by destruct (d_after s)].
  - intros [= ->]. destruct H as (H & -> & ->). exists 0%nat, [], (S (d_cur s)).
    split_and!; [by apply name_end|done|done|by left|done].
Qed.

Lemma decode_complete off j ls e : name_at pkt off j ls e -> forall s,
  d_cur s = off -> (length (d_out s) < outlen)%nat -> labels_fit outlen (d_out s) ls ->
  (d_jumps s + j <= MAX_NAME_JUMPS)%nat ->
  exists fuel, loop (decode_step pkt outlen) fuel s
    = Some (Ok (add_labels (d_out s) ls, match d_after s with Some a => a | None => e end)).
Proof.
  induction 1 as [off Hl|off len j ls e Hl Hr Hin Hn IH|off hi lo j ls e Hl H1 H2 H3 Hn IH];
    intros s Hcur Hs Hfit Hj; subst off.
  - exists 1%nat. rewrite loop_S. destruct s as [cur out jumps after]. cbn [d_cur d_out d_jumps d_after] in *.
    unfold decode_step. pose proof (lookup_lt_Some _ _ _ Hl).
    by rewrite (proj2 (Nat.leb_gt _ _)), Hl, (proj2 (Nat.leb_gt _ _) Hs) by lia.
  - cbn [labels_fit add_labels] in *. destruct Hfit as [Hf Hfit].
    rewrite length_take, length_drop in Hf.
    assert (Hstep := decode_label s len Hl Hr Hin ltac:(lia)).
    pose proof (decode_step_cases s Hs) as Hc. rewrite Hstep in Hc. destruct Hc as [Hs' _].
    match type of Hstep with _ = inl ?s' => destruct (IH s' eq_refl Hs' Hfit Hj) as [fuel Hloop] end.
    exists (S fuel). by rewrite loop_S, Hstep.
  - destruct s as [cur out jumps after]. cbn [d_cur d_out d_jumps d_after] in *.
    destruct (IH (DState _ out (jumps + 1) (match after with None => Some (cur + 2)%nat | a => a end))
      eq_refl Hs Hfit) as [fuel Hloop]; [simpl; lia|].
    exists (S fuel). rewrite loop_S. unfold decode_step.
    pose proof (lookup_lt_Some _ _ _ Hl). pose proof (lookup_lt_Some _ _ _ H2).
    rewrite (proj2 (Nat.leb_gt _ _)), Hl by lia.
    rewrite (proj2 (Z.eqb_neq hi 0)) by (intros ->; done).
    rewrite (proj2 (Z.eqb_eq _ _) H1), (proj2 (Nat.leb_gt _ _)), H2 by lia.
    rewrite (proj2 (Nat.ltb_ge _ _)), (proj2 (Nat.leb_gt _ _) H3) by lia.
    cbn [d_out d_after] in Hloop. by destruct after.
Qed.
End decode.

(** C23: [decode_dns_name] is safe, ends, and decodes: on a packet of bytes and a
    buffer that is not empty it never reads outside of the packet or writes
    outside of the buffer and its loop ends, whatever compression pointers the
    packet holds; and it succeeds exactly on the names that are there, written
    with at most 16 jumps and short enough for the buffer, with the labels joined
    by dots and the offset behind the name as written (before the first jump). *)
Theorem decode_dns_name_spec (pkt : bytes) (off outlen : nat) :
  Forall is_byte pkt -> (0 < outlen)%nat ->
  decode_dns_name pkt off outlen <> Stuck /\
  forall out e, decode_dns_name pkt off outlen = Ok (out, e) <->
    exists j ls, name_at pkt off j ls e /\ (j <= MAX_NAME_JUMPS)%nat /\
      labels_fit outlen [] ls /\ out = join_labels ls.
Proof.
  intros Hp Ho. unfold decode_dns_name. destruct (decode_total pkt outlen Hp off Ho) as (r & Hr & Hns).
  rewrite Hr. change (default Stuck (Some r)) with r. split; [done|]. intros out e. split.
  - intros ->. apply decode_sound in Hr as (j & ls & e' & Hn & -> & Hfit & Hj & ->); [|done|done].
    cbn [d_cur d_out d_jumps d_after] in *. exists j, ls. split_and!; try done. lia.
  - intros (j & ls & Hn & Hj & Hfit & ->).
    destruct (decode_complete pkt outlen Hp off j ls e Hn (DState off [] 0 None)) as [fuel Hloop]; [done..|].
    exact (loop_agree _ _ _ _ _ _ Hr Hloop).
Qed.

(** ** Names on the wire *)
Definition wire_labels (ls : list bytes) : bytes := concat (map (fun l => Z.of_nat (length l) :: l) ls).
Definition wire (ls : list bytes) : bytes := wire_labels ls ++ [0].

Definition label_ok (l : bytes) : Prop := (1 <= length l <= 63)%nat /\ Forall (fun c => c <> DOT) l.

(** The labels after the first one, each behind its dot. *)
Definition tails (ls : list bytes) : bytes := concat (map (cons DOT) ls).

Lemma add_labels_app out ls : out <> [] -> add_labels out ls = out ++ tails ls.
Proof.
  revert out. induction ls as [|l ls IH]; intros out Ho; cbn [add_labels]; [by rewrite app_nil_r|].
  unfold add_label. destruct out as [|c out]; [done|]. cbn [length Nat.ltb Nat.leb].
  rewrite IH by done. unfold tails. cbn [map concat]. by rewrite <- !app_assoc.
Qed.

Lemma join_labels_cons l ls : l <> [] -> join_labels (l :: ls) = l ++ tails ls.
Proof. intros Hl. unfold join_labels. cbn [add_labels]. by rewrite add_labels_app. Qed.

Lemma add_labels_grow out ls : (length out <= length (add_labels out ls))%nat.
Proof.
  revert out. induction ls as [|l ls IH]; intros out; cbn [add_labels]; [done|].
  pose proof (add_label_length out l). specialize (IH (add_label out l)). lia.
Qed.

Lemma labels_fit_length outlen out ls :
  (length (add_labels out ls) + 1 < outlen)%nat -> labels_fit outlen out ls.
Proof.
  revert out. induction ls as [|l ls IH]; intros out; cbn [add_labels labels_fit]; [done|].
  intros H. split; [|by apply IH]. pose proof (add_labels_grow (add_label out l) ls).
  pose proof (add_label_length out l). lia.
Qed.

Lemma take_while_label l r :
  Forall (fun c => c <> DOT) l -> take_while not_dot (l ++ tails r) = l.
Proof.
  intros Hl. apply take_while_app.
  - intros c Hc. eapply Forall_forall in Hl; [|exact Hc]. unfold not_dot. by apply Z.eqb_neq in Hl as ->.
  - intros c. destruct r as [|l' r]; [done|]. by intros [= <-].
Qed.

Lemma encode_step_label outlen l r out :
  label_ok l -> (length out + length (l ++ tails r) + 2 <= outlen)%nat ->
  encode_step outlen (l ++ tails r, out)
  = match r with
    | [] => inr (Some (out ++ wire [l]))
    | l2 :: r2 => inl (l2 ++ tails r2, out ++ Z.of_nat (length l) :: l)
    end.
Proof.
  intros [Hlen Hdot] Hfit. rewrite length_app in Hfit. unfold encode_step.
  destruct (l ++ tails r) as [|c t] eqn:E; [destruct l; [simpl in Hlen; lia|done]|]. rewrite <- E.
  rewrite take_while_label by done. rewrite (proj2 (Nat.eqb_neq _ _)) by lia.
  rewrite !(proj2 (Nat.ltb_ge _ _)) by lia. cbn [orb]. rewrite drop_app_length.
  destruct r as [|l2 r]; [|done]. unfold wire, wire_labels. cbn. by rewrite app_nil_r, <- app_assoc.
Qed.

Lemma encode_loop_labels outlen ls : Forall label_ok ls -> forall l out fuel,
  label_ok l -> (length out + length (l ++ tails ls) + 2 <= outlen)%nat -> (length ls < fuel)%nat ->
  loop (encode_step outlen) fuel (l ++ tails ls, out) = Some (Some (out ++ wire (l :: ls))).
Proof.
  induction 1 as [|l2 ls Hl2 _ IH]; intros l out fuel Hl Hfit Hfuel;
    (destruct fuel as [|fuel]; [simpl in Hfuel; lia|]); rewrite loop_S, encode_step_label by done; [done|].
  rewrite IH.
  - unfold wire, wire_labels. cbn [map concat]. by rewrite <- !app_assoc.
  - done.
  - unfold tails in Hfit. cbn [map concat] in Hfit. fold (tails ls) in Hfit.
    repeat (rewrite length_app in * || cbn [length app] in *). lia.
  - simpl in Hfuel. lia.
Qed.

Lemma encode_dns_name_labels ls outlen :
  Forall label_ok ls -> (length (join_labels ls) + 2 <= outlen)%nat ->
  encode_dns_name (join_labels ls) outlen = Some (wire ls).
Proof.
  intros Hls Hfit. unfold encode_dns_name. rewrite (proj2 (Nat.ltb_ge _ _)) by lia.
  destruct Hls as [|l ls Hl Hls]; [done|].
  assert (Hne : l <> []) by (destruct Hl as [? _]; destruct l; [simpl in *; lia|done]).
  rewrite join_labels_cons in * by done. rewrite encode_loop_labels; [done|done|done|done|].
  rewrite length_app. assert (length ls <= length (tails ls))%nat; [|lia].
  clear. induction ls as [|l ls IH]; [done|]. unfold tails in *. cbn [map concat].
  rewrite length_app. simpl. lia.
Qed.

Lemma name_at_wire pre ls post :
  Forall label_ok ls ->
  name_at (pre ++ wire ls ++ post) (length pre) 0 ls (length pre + length (wire ls)).
Proof.
  intros Hls. revert pre. induction Hls as [|l ls [Hlen _] _ IH]; intros pre.
  - cbn. rewrite Nat.add_1_r. apply name_end. by rewrite list_lookup_middle.
  - set (pkt := pre ++ wire (l :: ls) ++ post).
    assert (Hpkt : pkt = (pre ++ Z.of_nat (length l) :: l) ++ wire ls ++ post).
    { unfold pkt, wire, wire_labels. cbn [map concat]. by rewrite <- !app_assoc. }
    assert (Hl : pkt = pre ++ Z.of_nat (length l) :: l ++ wire ls ++ post)
      by (rewrite Hpkt; by rewrite <- !app_assoc).
    assert (Htake : take (Z.to_nat (Z.of_nat (length l))) (drop (length pre + 1) pkt) = l).
    { rewrite Hl, Nat2Z.id, <- drop_drop.
      rewrite drop_app_length. exact (take_app_length l _). }
    assert (He : (length pre + length (wire (l :: ls)) = length (pre ++ Z.of_nat (length l) :: l) + length (wire ls))%nat).
    { unfold wire, wire_labels. cbn [map concat]. repeat (rewrite length_app || cbn [length app]). lia. }
    rewrite He. replace (name_at pkt (length pre) 0 (l :: ls)) with
      (name_at pkt (length pre) 0 (take (Z.to_nat (Z.of_nat (length l))) (drop (length pre + 1) pkt) :: ls))
      by by rewrite Htake.
    apply name_label.
    + rewrite Hl. by rewrite list_lookup_middle.
    + lia.
    + rewrite Hl, !length_app. cbn [length]. rewrite length_app. lia.
    + specialize (IH (pre ++ Z.of_nat (length l) :: l)). rewrite <- Hpkt in IH.
      assert (Hoff : (length pre + 1 + Z.to_nat (Z.of_nat (length l))
        = length (pre ++ Z.of_nat (length l) :: l))%nat) by (rewrite length_app; cbn [length]; lia).
      by rewrite Hoff.
Qed.

Lemma decode_wire pre ls post outlen :
  Forall is_byte (pre ++ wire ls ++ post) -> Forall label_ok ls ->
  (length (join_labels ls) + 1 < outlen)%nat ->
  decode_dns_name (pre ++ wire ls ++ post) (length pre) outlen
  = Ok (join_labels ls, (length pre + length (wire ls))%nat).
Proof.
  intros Hb Hls Hfit. apply decode_dns_name_spec; [done|lia|]. exists 0%nat, ls.
  split_and!; [by apply name_at_wire|unfold MAX_NAME_JUMPS; lia|by apply labels_fit_length|done].
Qed.

(** ** The records of a response *)

(** The bytes of the datagrams. *)
Lemma be16_ok pkt i : (i + 2 <= length pkt)%nat -> exists v, be16 pkt i = Ok v.
Proof.
  intros H. destruct (lookup_lt_is_Some_2 pkt i) as [a Ha]; [lia|].
  destruct (lookup_lt_is_Some_2 pkt (i + 1)) as [b Hb]; [lia|].
  unfold be16. rewrite Ha, Hb. by eexists.
Qed.

(** A record of the answer section: its name, its type, and where its data are. *)
Record rr := RR { rr_name : bytes; rr_type : Z; rr_data : nat; rr_len : nat }.
Definition rr_end (r : rr) : nat := (rr_data r + rr_len r)%nat.

Definition record_at (pkt : bytes) (off : nat) (r : rr) : Prop :=
  exists o l, decode_dns_name pkt off MAX_NAME_LEN = Ok (rr_name r, o) /\ (o + 10 <= length pkt)%nat /\
    be16 pkt o = Ok (rr_type r) /\ be16 pkt (o + 8) = Ok l /\
    rr_data r = (o + 10)%nat /\ rr_len r = Z.to_nat l /\ (rr_end r <= length pkt)%nat.

(** The records [rs] stand one behind the other from [off] to [e]. *)
Inductive records (pkt : bytes) : nat -> list rr -> nat -> Prop :=
  | records_nil off : records pkt off [] off
  | records_cons off r rs e :
      record_at pkt off r -> records pkt (rr_end r) rs e -> records pkt off (r :: rs) e.

(** [n] questions stand from [off] to [e]. *)
Inductive questions (pkt : bytes) : nat -> nat -> nat -> Prop :=
  | questions_nil off : questions pkt 0 off off
  | questions_cons n off name o e :
      decode_dns_name pkt off MAX_NAME_LEN = Ok (name, o) -> (o + 4 <= length pkt)%nat ->
      questions pkt n (o + 4) e -> questions pkt (S n) off e.

Definition wanted (expected_rname : option bytes) (r : rr) : Prop :=
  rname_ok expected_rname (rr_name r) = true /\ rr_type r = 12.
#[export] Instance wanted_dec e r : Decision (wanted e r).
Proof. unfold wanted. apply _. Defined.

Section parse.
Context (pkt : bytes) (outlen : nat) (expected_rname : option bytes).
Hypothesis Hpkt : Forall is_byte pkt.
Hypothesis Hout : (0 < outlen)%nat.

Lemma decode_cases off n :
  (0 < n)%nat ->
  (exists name e, decode_dns_name pkt off n = Ok (name, e)) \/ decode_dns_name pkt off n = Fail.
Proof.
  intros Hn. destruct (decode_dns_name_spec pkt off n Hpkt Hn) as [Hs _].
  destruct (decode_dns_name pkt off n) as [[]| |]; [by left; eauto|by right|done].
Qed.

Lemma record_cases off :
  (exists r, record_at pkt off r /\ forall n, parse_answers (S n) pkt off expected_rname outlen
      = if negb (rname_ok expected_rname (rr_name r)) then parse_answers n pkt (rr_end r) expected_rname outlen
        else if rr_type r =? 12 then '(name, _) ← decode_dns_name pkt (rr_data r) outlen; Ok name
        else parse_answers n pkt (rr_end r) expected_rname outlen) \/
  (forall n, parse_answers (S n) pkt off expected_rname outlen = Fail) /\ forall r, ~ record_at pkt off r.
Proof.
  destruct (decode_cases off MAX_NAME_LEN) as [(name & o & Hd)|Hd]; [unfold MAX_NAME_LEN; lia| |].
  2:{ right. split; [intros n; cbn [parse_answers]; by rewrite Hd|].
      intros r (o & l & Hr & _). congruence. }
  destruct (Nat.ltb_spec (length pkt) (o + 10)) as [Hs|Hs].
  { right. split; [intros n; cbn [parse_answers]; rewrite Hd; cbn [mbind res_bind]; by rewrite (proj2 (Nat.ltb_lt _ _) Hs)|].
    intros r (o' & l & Hr & Hr' & _). assert (o' = o) by congruence. lia. }
  destruct (be16_ok pkt o) as [ty Hty]; [lia|]. destruct (be16_ok pkt (o + 8)) as [l Hl]; [lia|].
  destruct (Nat.ltb_spec (length pkt) (o + 10 + Z.to_nat l)) as [He|He].
  { right. split.
    - intros n. cbn [parse_answers]. rewrite Hd. cbn [mbind res_bind]. rewrite (proj2 (Nat.ltb_ge _ _) Hs), Hty.
      cbn [mbind res_bind]. rewrite Hl. cbn [mbind res_bind]. by rewrite (proj2 (Nat.ltb_lt _ _) He).
    - intros r (o' & l' & Hr & _ & _ & Hr2 & Hr3 & Hr4 & Hr5). assert (o' = o) by congruence. subst o'.
      assert (l' = l) by congruence. subst. unfold rr_end in Hr5. lia. }
  left. exists (RR name ty (o + 10) (Z.to_nat l)). split; [by exists o, l|].
  intros n. cbn [parse_answers]. rewrite Hd. cbn [mbind res_bind]. rewrite (proj2 (Nat.ltb_ge _ _) Hs), Hty.
  cbn [mbind res_bind]. rewrite Hl. cbn [mbind res_bind]. by rewrite (proj2 (Nat.ltb_ge _ _) He).
Qed.

Lemma record_at_fun off r r' : record_at pkt off r -> record_at pkt off r' -> r = r'.
Proof.
  intros (o & l & H1 & _ & H2 & H3 & H4 & H5 & _) (o' & l' & H1' & _ & H2' & H3' & H4' & H5' & _).
  destruct r, r'; cbn in *. congruence.
Qed.

(** The first wanted record among the next [n], and the name it holds. *)
Definition finds (n off : nat) (name : bytes) : Prop :=
  exists rs e r e', records pkt off rs e /\ record_at pkt e r /\ (length rs < n)%nat /\
    Forall (fun r => ~ wanted expected_rname r) rs /\ wanted expected_rname r /\
    decode_dns_name pkt (rr_data r) outlen = Ok (name, e').

Lemma finds_step n off r name :
  record_at pkt off r ->
  finds (S n) off name <->
  (wanted expected_rname r /\ exists e', decode_dns_name pkt (rr_data r) outlen = Ok (name, e')) \/
  (~ wanted expected_rname r /\ finds n (rr_end r) name).
Proof.
  intros Hr. split.
  - intros (rs & e & r' & e' & Hrs & Hr' & Hn & Hno & Hw & Hd). destruct Hrs as [off|off r0 rs e Hr0 Hrs].
    + left. rewrite (record_at_fun off r r') by done. by eauto.
    + right. rewrite (record_at_fun off r r0) by done. apply Forall_cons in Hno as [H0 Hno].
      split; [done|]. exists rs, e, r', e'. simpl in Hn. split_and!; try done. lia.
  - intros [[Hw [e' Hd]]|[Hw (rs & e & r' & e' & Hrs & Hr' & Hn & Hno & Hw' & Hd)]].
    + exists [], off, r, e'. split_and!; try done; [apply records_nil|simpl; lia].
    + exists (r :: rs), e, r', e'. split_and!; try done; [by eapply records_cons|simpl; lia|by constructor].
Qed.

Lemma parse_answers_spec n off :
  parse_answers n pkt off expected_rname outlen <> Stuck /\
  forall name, parse_answers n pkt off expected_rname outlen = Ok name <-> finds n off name.
Proof.
  revert off. induction n as [|n IH]; intros off.
  { split; [done|]. intros name. split; [done|]. intros (rs & e & r & e' & _ & _ & H & _). lia. }
  destruct (record_cases off) as [(r & Hr & Heq)|[Heq Hno]]; rewrite Heq.
  2:{ split; [done|]. intros name. split; [done|]. intros (rs & e & r & e' & Hrs & Hr & _).
      destruct Hrs as [|? r0 ? ? Hr0]; exfalso; by eapply Hno. }
  destruct (IH (rr_end r)) as [IHs IHn].
  assert (Hskip : ~ wanted expected_rname r -> parse_answers n pkt (rr_end r) expected_rname outlen <> Stuck /\
    forall name, parse_answers n pkt (rr_end r) expected_rname outlen = Ok name <-> finds (S n) off name).
  { intros Hw. split; [done|]. intros name. rewrite (finds_step n off r name Hr), IHn. naive_solver. }
  destruct (rname_ok expected_rname (rr_name r)) eqn:Ern; cbn [negb];
    [|apply Hskip; intros [? _]; congruence].
  destruct (rr_type r =? 12) eqn:Ety; bool_simpl; [|apply Hskip; intros [_ ?]; congruence].
  assert (Hw : wanted expected_rname r) by done.
  assert (Hf : forall name, finds (S n) off name <->
    exists e', decode_dns_name pkt (rr_data r) outlen = Ok (name, e'))
    by (intros name; rewrite (finds_step n off r name Hr); naive_solver).
  setoid_rewrite Hf.
  destruct (decode_cases (rr_data r) outlen Hout) as [(nm & e & Hd)|Hd]; rewrite Hd; cbn [mbind res_bind];
    (split; [done|]); naive_solver.
Qed.

Lemma skip_questions_spec n off :
  skip_questions n pkt off <> Stuck /\
  forall e, skip_questions n pkt off = Ok e <-> questions pkt n off e.
Proof.
  revert off. induction n as [|n IH]; intros off; cbn [skip_questions].
  { split; [done|]. intros e. split; [intros [= ->]; constructor|]. inversion 1. by subst. }
  destruct (decode_cases off MAX_NAME_LEN) as [(name & o & Hd)|Hd]; [unfold MAX_NAME_LEN; lia| |];
    rewrite Hd; cbn [mbind res_bind].
  - destruct (Nat.ltb_spec (length pkt) (o + 4)) as [Hs|Hs].
    + split; [done|]. intros e. split; [done|]. inversion 1; subst.
      assert (o0 = o) by congruence. lia.
    + destruct (IH (o + 4)%nat) as [IHs IHe]. split; [done|]. intros e. rewrite IHe. split.
      * intros Hq. by eapply questions_cons.
      * inversion 1; subst. assert (o0 = o) by congruence. by subst.
  - split; [done|]. intros e. split; [done|]. inversion 1. congruence.
Qed.
End parse.

(** C33: [parse_response] on any packet of bytes never reads or writes outside of
    its buffers, and returns a name exactly when the packet is a response (QR
    bit) whose answer section starts, behind the questions, with records one of
    which -- the first that has the expected name, up to case, and the type PTR --
    is within the answer count and holds that name. *)
Theorem parse_response_spec (pkt : bytes) (outlen : nat) (expected_rname : option bytes) :
  Forall is_byte pkt -> (0 < outlen)%nat ->
  parse_response pkt outlen expected_rname <> Stuck /\
  forall name, parse_response pkt outlen expected_rname = Ok name <->
    (12 <= length pkt)%nat /\
    exists flags qd an off rs e r e',
      be16 pkt 2 = Ok flags /\ Z.land flags 32768 <> 0 /\ be16 pkt 4 = Ok qd /\ be16 pkt 6 = Ok an /\
      questions pkt (Z.to_nat qd) 12 off /\ records pkt off rs e /\ record_at pkt e r /\
      (length rs < Z.to_nat an)%nat /\ Forall (fun r => ~ wanted expected_rname r) rs /\
      wanted expected_rname r /\ decode_dns_name pkt (rr_data r) outlen = Ok (name, e').
Proof.
  intros Hp Ho. unfold parse_response. destruct (Nat.ltb_spec (length pkt) 12) as [Hs|Hs].
  { split; [done|]. intros name. split; [done|]. lia. }
  destruct (be16_ok pkt 2) as [fl Hfl]; [lia|]. destruct (be16_ok pkt 4) as [qd Hqd]; [lia|].
  destruct (be16_ok pkt 6) as [an Han]; [lia|]. rewrite Hfl, Hqd, Han. cbn [mbind res_bind].
  destruct (Z.land fl 32768 =? 0) eqn:E1; bool_simpl.
  { split; [done|]. intros name. split; [done|]. intros (_ & fl' & _ & _ & _ & _ & _ & _ & _ & [= <-] & ? & _). done. }
  destruct (skip_questions_spec pkt outlen Hp Ho (Z.to_nat qd) 12) as [Hqs Hq].
  destruct (an =? 0) eqn:E2; bool_simpl.
  { split; [done|]. intros name. split; [done|].
    intros (_ & fl' & qd' & an' & off & rs & e & r & e' & _ & _ & _ & [= <-] & _ & _ & _ & H & _). lia. }
  destruct (skip_questions (Z.to_nat qd) pkt 12) as [off| |]; [| |done]; cbn [mbind res_bind].
  - destruct (parse_answers_spec pkt outlen expected_rname Hp Ho (Z.to_nat an) off) as [Has Ha].
    split; [done|]. intros name. rewrite Ha. split.
    + intros (rs & e & r & e' & H). split; [done|].
      exists fl, qd, an, off, rs, e, r, e'. split_and!; try done; [by apply Hq|apply H..].
    + intros (_ & fl' & qd' & an' & off' & rs & e & r & e' & [= <-] & _ & [= <-] & [= <-] & Hqq & H).
      apply Hq in Hqq as [= <-]. by exists rs, e, r, e'.
  - split; [done|]. intros name. split; [done|].
    intros (_ & fl' & qd' & an' & off' & rs & e & r & e' & _ & _ & [= <-] & _ & Hqq & _).
    by apply Hq in Hqq.
Qed.

(** ** A responder's answer *)
Lemma scan_u_dec z rest :
  0 <= z < 2 ^ 32 -> (forall c, head rest = Some c -> is_digit c = false) ->
  scan_u (dec z ++ rest) = Some (z, rest).
Proof.
  intros Hz Hrest. unfold scan_u.
  assert (Hd : dec z = dec_nat z) by (unfold dec; by rewrite (proj2 (Z.ltb_ge z 0)) by lia).
  rewrite Hd. destruct (digits_nonempty (Z.to_nat (Z.log2 z)) z) as (d & ds & Hds).
  change (dec_nat z = d :: ds) in Hds.
  assert (Hdig : forall c, c ∈ dec_nat z -> is_digit c = true) by (intros c; apply dec_nat_digit; lia).
  destruct (take_while_app is_digit (dec_nat z) rest Hdig Hrest) as [Htw Hdw].
  assert (Hd1 : is_digit d = true) by (apply Hdig; rewrite Hds; left).
  pose proof Hd1 as Hd2. unfold is_digit in Hd2. bool_simpl.
  rewrite Hds in *. cbn [app drop_while]. rewrite is_digit_isspace by done.
  rewrite (proj2 (Z.eqb_neq d 45)), (proj2 (Z.eqb_neq d 43)) by lia.
  change (d :: ds ++ rest) with ((d :: ds) ++ rest). rewrite Htw, Hdw, <- Hds.
  rewrite digits_val_dec_nat by lia. rewrite (proj2 (Z.leb_gt (2 ^ 64) z)) by lia.
  by rewrite u32_small by lia.
Qed.

(** An address in dotted notation, and the labels of its reversed name. *)
Definition dotted (q : Z * Z * Z * Z) : bytes :=
  let '(a, b, c, d) := q in dec a ++ DOT :: dec b ++ DOT :: dec c ++ DOT :: dec d.
Definition reverse_labels (q : Z * Z * Z * Z) : list bytes :=
  let '(a, b, c, d) := q in [dec d; dec c; dec b; dec a; str "in-addr"; str "arpa"].
Definition is_ipv4 (q : Z * Z * Z * Z) : Prop :=
  let '(a, b, c, d) := q in is_byte a /\ is_byte b /\ is_byte c /\ is_byte d.

Lemma sscanf_dotted q : is_ipv4 q -> sscanf_quad (dotted q) = Some q.
Proof.
  destruct q as [[[a b] c] d]. intros (Ha & Hb & Hc & Hd). unfold is_byte in *. unfold sscanf_quad, dotted.
  assert (Hdot : forall s c, head (DOT :: s) = Some c -> is_digit c = false) by (by intros s x [= <-]).
  rewrite scan_u_dec by (apply Hdot || lia). cbn [mbind option_bind scan_dot].
  change (DOT =? DOT) with true. cbn [mbind option_bind].
  rewrite scan_u_dec by (apply Hdot || lia). cbn [mbind option_bind scan_dot].
  change (DOT =? DOT) with true. cbn [mbind option_bind].
  rewrite scan_u_dec by (apply Hdot || lia). cbn [mbind option_bind scan_dot].
  change (DOT =? DOT) with true. cbn [mbind option_bind].
  rewrite <- (app_nil_r (dec d)), scan_u_dec by (done || lia). done.
Qed.

Lemma dec_byte_label z : is_byte z -> label_ok (dec z) /\ (length (dec z) <= 3)%nat /\ Forall is_cchar (dec z).
Proof.
  intros Hz. assert (H : forallb (fun z => bool_decide ((1 <= length (dec z) <= 3)%nat /\
    Forall (fun c => c <> DOT /\ 0 < c < 256) (dec z))) (seqZ 0 256) = true) by (vm_compute; reflexivity).
  apply (byte_forall _ z H) in Hz. apply bool_decide_eq_true in Hz as [Hl [Hd Hc]%Forall_and].
  split_and!; [|lia|done]. split; [lia|done].
Qed.

Lemma reverse_labels_ok q :
  is_ipv4 q -> Forall label_ok (reverse_labels q) /\ Forall (Forall is_cchar) (reverse_labels q) /\
    reverse_name q = join_labels (reverse_labels q) /\ (length (join_labels (reverse_labels q)) <= 28)%nat.
Proof.
  destruct q as [[[a b] c] d]. intros (Ha & Hb & Hc & Hd).
  apply dec_byte_label in Ha as (Ha1 & Ha2 & Ha3). apply dec_byte_label in Hb as (Hb1 & Hb2 & Hb3).
  apply dec_byte_label in Hc as (Hc1 & Hc2 & Hc3). apply dec_byte_label in Hd as (Hd1 & Hd2 & Hd3).
  assert (Hs : label_ok (str "in-addr") /\ label_ok (str "arpa"))
    by (split; (split; [simpl; lia|]); by eapply bool_decide_unpack; vm_compute).
  assert (Hsc : Forall is_cchar (str "in-addr") /\ Forall is_cchar (str "arpa"))
    by (unfold is_cchar; split; by eapply bool_decide_unpack; vm_compute).
  assert (Hj : join_labels (reverse_labels (a, b, c, d))
    = dec d ++ DOT :: dec c ++ DOT :: dec b ++ DOT :: dec a ++ str ".in-addr.arpa").
  { unfold reverse_labels. rewrite join_labels_cons; [|destruct Hd1 as [? _]; by destruct (dec d); [simpl in *; lia|]].
    done. }
  assert (Hl : (length (join_labels (reverse_labels (a, b, c, d))) <= 28)%nat).
  { rewrite Hj. repeat (rewrite length_app || cbn [length]). change (length (str ".in-addr.arpa")) with 13%nat. lia. }
  destruct Hs, Hsc. split_and!; [| | |done].
  1,2: repeat first [by apply Forall_nil|apply Forall_cons; split; [done|]].
  unfold reverse_name. rewrite <- Hj. apply c_trunc_id. lia.
Qed.

Lemma length_wire ls : ls <> [] -> Forall label_ok ls -> length (wire ls) = (length (join_labels ls) + 2)%nat.
Proof.
  destruct ls as [|l ls]; [done|]. intros _ [Hl _]%Forall_cons.
  rewrite join_labels_cons by (destruct Hl as [? _]; destruct l; [simpl in *; lia|done]).
  unfold wire, wire_labels, tails. rewrite !length_app. cbn [map concat length]. rewrite !length_app.
  cbn [length]. assert (H : length (concat (map (fun l => Z.of_nat (length l) :: l) ls))
    = length (concat (map (cons DOT) ls))); [|lia].
  clear. induction ls as [|l ls IH]; [done|]. cbn [map concat]. rewrite !length_app, IH. done.
Qed.

Lemma be16_at pre a b post :
  be16 (pre ++ a :: b :: post) (length pre) = Ok (Z.lor (Z.shiftl a 8) b).
Proof.
  unfold be16. rewrite list_lookup_middle by done. rewrite Nat.add_1_r.
  rewrite lookup_app_r, Nat.sub_succ_l, Nat.sub_diag by lia. done.
Qed.

Lemma be16_split v : 0 <= v < 65536 -> Z.lor (Z.shiftl (Z.shiftr v 8) 8) (Z.land v 255) = v.
Proof.
  intros Hv. change 255 with (Z.ones 8). rewrite Z.land_ones by lia.
  rewrite lor_shiftl_add by (pose proof (Z.mod_pos_bound v (2 ^ 8)); lia).
  rewrite Z.shiftr_div_pow2 by lia. pose proof (Z.div_mod v (2 ^ 8)). lia.
Qed.

(** The answer to a query: the query's id and question, and one PTR record whose
    name is a pointer to the question's. *)
Definition reply (query : bytes) (host : list bytes) (ttl : bytes) : bytes :=
  let n := Z.of_nat (length (wire host)) in
  take 2 query ++ [132; 0; 0; 1; 0; 1; 0; 0; 0; 0] ++ drop 12 query ++
  [192; 12; 0; 12; 0; 1] ++ ttl ++ [Z.shiftr n 8; Z.land n 255] ++ wire host.

Lemma add_labels_cchar out ls :
  Forall is_cchar out -> Forall (Forall is_cchar) ls -> Forall is_cchar (add_labels out ls).
Proof.
  intros Ho Hls. revert out Ho. induction Hls as [|l ls Hl _ IH]; intros out Ho; cbn [add_labels]; [done|].
  apply IH. unfold add_label. destruct (0 <? length out)%nat; apply Forall_app; split; try done.
  apply Forall_app. by repeat constructor.
Qed.

Lemma wire_bytes ls :
  Forall label_ok ls -> Forall (Forall is_cchar) ls -> Forall is_byte (wire ls).
Proof.
  intros Hok Hc. apply Forall_app. split; [|by repeat constructor]. unfold wire_labels.
  induction Hok as [|l ls [Hl _] _ IH]; [constructor|]. apply Forall_cons in Hc as [Hcl Hc]. cbn [map concat].
  apply Forall_app. split; [|by apply IH]. constructor; [unfold is_byte; lia|].
  eapply Forall_impl; [exact Hcl|]. unfold is_cchar, is_byte. lia.
Qed.

(** A pointer to a name that is written without pointers. *)
Lemma decode_pointer pre ls mid post :
  Forall is_byte (pre ++ wire ls ++ mid ++ [192; Z.of_nat (length pre)] ++ post) ->
  Forall label_ok ls -> (length (join_labels ls) + 1 < MAX_NAME_LEN)%nat -> (length pre < 256)%nat ->
  let off := length (pre ++ wire ls ++ mid) in
  decode_dns_name (pre ++ wire ls ++ mid ++ [192; Z.of_nat (length pre)] ++ post) off MAX_NAME_LEN
  = Ok (join_labels ls, (off + 2)%nat).
Proof.
  intros Hb Hls Hfit Hpre off. apply decode_dns_name_spec; [done|unfold MAX_NAME_LEN; lia|].
  exists 1%nat, ls. split_and!; [|unfold MAX_NAME_JUMPS; lia|by apply labels_fit_length|done].
  set (pkt := pre ++ wire ls ++ mid ++ [192; Z.of_nat (length pre)] ++ post).
  assert (Hpkt : pkt = (pre ++ wire ls ++ mid) ++ 192 :: Z.of_nat (length pre) :: post)
    by (unfold pkt; by rewrite <- !app_assoc).
  assert (Hptr : Z.to_nat (Z.lor (Z.shiftl (Z.land 192 63) 8) (Z.of_nat (length pre))) = length pre).
  { change (Z.shiftl (Z.land 192 63) 8) with 0. rewrite Z.lor_0_l. lia. }
  apply (name_pointer pkt off 192 (Z.of_nat (length pre)) 0 ls (length pre + length (wire ls))).
  - rewrite Hpkt. by rewrite list_lookup_middle.
  - done.
  - rewrite Hpkt, lookup_app_r by lia. unfold off.
    by replace (length (pre ++ wire ls ++ mid) + 1 - length (pre ++ wire ls ++ mid))%nat with 1%nat by lia.
  - rewrite Hptr. unfold pkt. rewrite !length_app. simpl. lia.
  - rewrite Hptr. apply name_at_wire. done.
Qed.

Section reply.
Context (q : Z * Z * Z * Z) (txid : Z).
Hypothesis Hq : is_ipv4 q.
Hypothesis Htx : 0 <= txid < 65536.

Definition the_query : bytes := query_header txid ++ wire (reverse_labels q) ++ [0; 12; 0; 1].

Lemma build_query_dotted : build_query (dotted q) MAX_PKT txid = Some the_query.
Proof.
  unfold build_query, the_query. rewrite sscanf_dotted by done. cbn [mbind option_bind].
  destruct (reverse_labels_ok q Hq) as (Hls & _ & Hname & Hlen). destruct q as [[[a b] c] d].
  destruct Hq as (Ha & Hb & Hc & Hd). unfold is_byte in *.
  rewrite !(proj2 (Z.ltb_ge _ _)) by lia. cbn [orb].
  rewrite (proj2 (Nat.ltb_ge _ _)) by (unfold MAX_PKT; lia).
  rewrite Hname, encode_dns_name_labels; [done|done|unfold MAX_PKT; lia].
Qed.

Context (host : list bytes) (ttl : bytes).
Hypothesis Hhost : Forall label_ok host.
Hypothesis Hhc : Forall (Forall is_cchar) host.
Hypothesis Hhne : host <> [].
Hypothesis Hhl : (length (join_labels host) + 1 < MAX_NAME_LEN)%nat.
Hypothesis Httl : Forall is_byte ttl.
Hypothesis Httl4 : length ttl = 4%nat.

(** The header of the reply, and the packet from its answer section on. *)
Definition reply_head : bytes := [Z.shiftr txid 8; Z.land txid 255; 132; 0; 0; 1; 0; 1; 0; 0; 0; 0].
Definition host_len : Z := Z.of_nat (length (wire host)).
Definition answer_tail : bytes :=
  [0; 12; 0; 1] ++ ttl ++ [Z.shiftr host_len 8; Z.land host_len 255] ++ wire host.

Lemma reply_eq :
  reply the_query host ttl
  = reply_head ++ wire (reverse_labels q) ++ [0; 12; 0; 1] ++ [192; Z.of_nat (length reply_head)] ++ answer_tail.
Proof.
  unfold reply. change (drop 12 the_query) with (wire (reverse_labels q) ++ [0; 12; 0; 1]).
  rewrite <- app_assoc. reflexivity.
Qed.

Lemma host_len_range : 0 <= host_len < 65536.
Proof. unfold host_len. rewrite length_wire by done. unfold MAX_NAME_LEN in Hhl. lia. Qed.

Lemma byte_pair v : 0 <= v < 65536 -> is_byte (Z.shiftr v 8) /\ is_byte (Z.land v 255).
Proof.
  intros Hv. unfold is_byte. change 255 with (Z.ones 8). rewrite Z.land_ones, Z.shiftr_div_pow2 by lia.
  pose proof (Z.mod_pos_bound v (2 ^ 8)). split; [|lia].
  split; [apply Z.div_pos; lia|apply Z.div_lt_upper_bound; lia].
Qed.

Lemma reply_bytes : Forall is_byte (reply the_query host ttl).
Proof.
  rewrite reply_eq. unfold answer_tail. destruct (reverse_labels_ok q Hq) as (Hls & Hc & _).
  pose proof (byte_pair txid Htx) as [? ?]. pose proof (byte_pair host_len host_len_range) as [? ?].
  pose proof (wire_bytes _ Hls Hc). pose proof (wire_bytes _ Hhost Hhc).
  unfold reply_head. rewrite !Forall_app. split_and!; try done;
    repeat first [by apply Forall_nil|apply Forall_cons; split; [done|]].
Qed.

(** The reply is parsed to the name of the host. *)
Lemma parse_reply :
  parse_response (reply the_query host ttl) MAX_NAME_LEN (Some (reverse_name q)) = Ok (join_labels host).
Proof.
  pose proof reply_bytes as Hb. destruct (reverse_labels_ok q Hq) as (Hls & Hc & Hname & Hlen).
  pose proof host_len_range as Hhr.
  apply parse_response_spec; [done|unfold MAX_NAME_LEN; lia|]. rewrite reply_eq in *.
  set (pkt := reply_head ++ _) in *. set (nq := length (wire (reverse_labels q))).
  set (off := (12 + nq + 4)%nat).
  assert (Hpl : length pkt = (off + 12 + length (wire host))%nat).
  { unfold pkt, answer_tail, off, nq. repeat (rewrite length_app || cbn [length]). rewrite Httl4. cbn. lia. }
  split; [lia|].
  assert (Hoff : length (reply_head ++ wire (reverse_labels q) ++ [0; 12; 0; 1]) = off).
  { rewrite !length_app. unfold off, nq. cbn [length reply_head]. lia. }
  assert (Hd1 : decode_dns_name pkt 12 MAX_NAME_LEN = Ok (join_labels (reverse_labels q), (12 + nq)%nat)).
  { apply (decode_wire reply_head); [done|done|unfold MAX_NAME_LEN; lia]. }
  assert (Hd2 : decode_dns_name pkt off MAX_NAME_LEN = Ok (join_labels (reverse_labels q), (off + 2)%nat)).
  { rewrite <- Hoff. apply decode_pointer; [done|done|unfold MAX_NAME_LEN; lia|simpl; lia]. }
  set (pre3 := reply_head ++ wire (reverse_labels q) ++ [0; 12; 0; 1] ++ [192; Z.of_nat (length reply_head)]).
  assert (Hp3 : pkt = pre3 ++ answer_tail) by (unfold pkt, pre3; by rewrite <- !app_assoc).
  assert (Hl3 : length pre3 = (off + 2)%nat).
  { unfold pre3, off, nq. rewrite !length_app. cbn [length reply_head]. lia. }
  assert (Ht : be16 pkt (off + 2) = Ok 12) by (rewrite <- Hl3, Hp3; apply be16_at).
  set (pre4 := pre3 ++ [0; 12; 0; 1] ++ ttl).
  assert (Hp4 : pkt = pre4 ++ Z.shiftr host_len 8 :: Z.land host_len 255 :: wire host).
  { rewrite Hp3. unfold pre4, answer_tail. by rewrite <- !app_assoc. }
  assert (Hl4 : length pre4 = (off + 10)%nat).
  { unfold pre4. rewrite !length_app, Hl3, Httl4. cbn [length]. lia. }
  assert (Hlen16 : be16 pkt (off + 2 + 8) = Ok host_len).
  { replace (off + 2 + 8)%nat with (length pre4) by lia. rewrite Hp4, be16_at. by rewrite be16_split. }
  set (pre5 := pre4 ++ [Z.shiftr host_len 8; Z.land host_len 255]).
  assert (Hp5 : pkt = pre5 ++ wire host ++ []).
  { rewrite Hp4. unfold pre5. by rewrite <- app_assoc, app_nil_r. }
  assert (Hd3 : decode_dns_name pkt (off + 12) MAX_NAME_LEN = Ok (join_labels host, (off + 12 + length (wire host))%nat)).
  { assert (Hl5 : length pre5 = (off + 12)%nat) by (unfold pre5; rewrite length_app, Hl4; cbn [length]; lia).
    rewrite <- Hl5, Hp5. apply decode_wire; [by rewrite <- Hp5|done|done]. }
  exists 33792, 1, 1, off, [], off,
    (RR (join_labels (reverse_labels q)) 12 (off + 12) (length (wire host))), (off + 12 + length (wire host))%nat.
  split_and!; try done.
  - eapply questions_cons; [exact Hd1|lia|]. apply questions_nil.
  - apply records_nil.
  - exists (off + 2)%nat, host_len. unfold rr_end. cbn [rr_name rr_type rr_data rr_len].
    split_and!; try done; try lia. unfold host_len. lia.
  - simpl. lia.
  - split; [|done]. unfold rname_ok. cbn [rr_name]. rewrite cut_nul_id by (apply add_labels_cchar; [constructor|done]).
    rewrite Hname. apply strcasecmp_refl.
Qed.
End reply.

(** C39: the command understands what a responder says about the address it asked
    for: for every IPv4 address, hostname of labels of 1 to 63 bytes (at most 254
    bytes in all) and time to live, the query built for the address, answered by
    a PTR record that names the host (with a compression pointer back to the
    question), makes the command print that hostname without its [.local]. *)
Theorem resolve_reply (q : Z * Z * Z * Z) (host : list bytes) (ttl : bytes) (timeout_ms now1 now2 : Z)
    (multicast : attempt) :
  is_ipv4 q -> Forall label_ok host -> Forall (Forall is_cchar) host ->
  (length (join_labels host) + 1 < MAX_NAME_LEN)%nat -> Forall is_byte ttl -> length ttl = 4%nat ->
  strip_local_suffix (join_labels host) <> [] ->
  exists query, build_query (dotted q) MAX_PKT (Z.land now1 65535) = Some query /\
    forall elapsed rest, elapsed < Z.quot timeout_ms 2 ->
      resolve (dotted q) timeout_ms now1 now2
        (Attempt true true ((elapsed, Some (reply query host ttl)) :: rest)) multicast
      = Ok (strip_local_suffix (join_labels host)).
Proof.
  intros Hq Hh Hhc Hhl Httl Httl4 Hne.
  assert (Hhne : host <> []) by (intros ->; by apply Hne).
  assert (Htx : 0 <= Z.land now1 65535 < 65536).
  { change 65535 with (Z.ones 16). rewrite Z.land_ones by lia. apply Z.mod_pos_bound. lia. }
  exists (the_query q (Z.land now1 65535)).
  assert (Hbuild : build_query (dotted q) MAX_PKT (Z.land now1 65535) = Some (the_query q (Z.land now1 65535)))
    by by apply build_query_dotted.
  split; [done|]. intros elapsed rest Hel. unfold resolve, try_query. cbn [at_socket at_sent at_recv negb].
  rewrite Hbuild, sscanf_dotted by done. cbn [fmap option_fmap option_map recv_loop].
  rewrite (proj2 (Z.leb_gt _ _)) by lia.
  assert (Hlen : (length (reply (the_query q (Z.land now1 65535)) host ttl) <= MAX_PKT)%nat).
  { destruct (reverse_labels_ok q Hq) as (Hls & _ & _ & Hlen).
    rewrite reply_eq. unfold answer_tail. repeat (rewrite length_app || cbn [length]).
    rewrite !length_wire by (done || by destruct q as [[[] ?] ?]).
    unfold MAX_NAME_LEN, MAX_PKT in *. cbn [reply_head length]. lia. }
  rewrite take_ge by done.
  rewrite (proj2 (Nat.ltb_ge _ _)).
  2:{ rewrite reply_eq, length_app. cbn [reply_head length]. lia. }
  rewrite parse_reply by done. cbn [attempt_name mbind res_bind].
  rewrite cut_nul_id by (apply add_labels_cchar; [constructor|done]).
  by rewrite bool_decide_false.
Qed.

(** The datagrams an attempt can receive. *)
Definition received (a : attempt) (pkt : bytes) : Prop := exists t, (t, Some pkt) ∈ at_recv a.

Lemma recv_loop_source timeout expected outlen ev :
  (0 < outlen)%nat -> (forall t pkt, (t, Some pkt) ∈ ev -> Forall is_byte pkt) ->
  recv_loop timeout expected outlen ev <> Stuck /\
  forall name, recv_loop timeout expected outlen ev = Ok name ->
    exists t pkt, (t, Some pkt) ∈ ev /\ t < timeout /\
      parse_response (take MAX_PKT pkt) outlen expected = Ok name.
Proof.
  intros Ho. induction ev as [|[t r] ev IH]; intros Hb; cbn [recv_loop]; [done|].
  destruct (timeout <=? t) eqn:Et; [done|]. destruct r as [pkt|]; [|done]. bool_simpl.
  destruct IH as [IHs IHn]; [intros t' pkt' Hin; apply (Hb t'); by right|].
  assert (Hskip : forall name, recv_loop timeout expected outlen ev = Ok name ->
    exists t' pkt', (t', Some pkt') ∈ (t, Some pkt) :: ev /\ t' < timeout /\
      parse_response (take MAX_PKT pkt') outlen expected = Ok name).
  { intros name H. destruct (IHn name H) as (t' & pkt' & Hin & H'). exists t', pkt'. split; [by right|done]. }
  destruct (length (take MAX_PKT pkt) <? 12)%nat; [done|].
  assert (Hp : Forall is_byte (take MAX_PKT pkt)) by (apply Forall_take; apply (Hb t); left).
  destruct (parse_response_spec (take MAX_PKT pkt) outlen expected Hp Ho) as [Hns _].
  destruct (parse_response (take MAX_PKT pkt) outlen expected) as [name| |] eqn:Ep; [|done|done].
  split; [done|]. intros name' [= <-]. exists t, pkt. split_and!; [left|done|done].
Qed.

Lemma try_query_source src now timeout outlen a :
  (0 < outlen)%nat -> (forall pkt, received a pkt -> Forall is_byte pkt) ->
  try_query src now timeout outlen a <> Stuck /\
  forall name, try_query src now timeout outlen a = Ok name ->
    exists q pkt, sscanf_quad src = Some q /\ received a pkt /\
      parse_response (take MAX_PKT pkt) outlen (Some (reverse_name q)) = Ok name.
Proof.
  intros Ho Hb. unfold try_query. destruct (at_socket a); [|done]. cbn [negb].
  destruct (build_query src MAX_PKT (Z.land now 65535)) eqn:Eb; [|done].
  destruct (at_sent a); [|done]. cbn [negb].
  assert (Hq : is_Some (sscanf_quad src)).
  { unfold build_query in Eb. destruct (sscanf_quad src); [by eexists|done]. }
  destruct Hq as [q Hq]. rewrite Hq. cbn [fmap option_fmap option_map].
  destruct (recv_loop_source timeout (Some (reverse_name q)) outlen (at_recv a) Ho) as [Hs Hn].
  { intros t pkt Hin. apply Hb. by exists t. }
  split; [done|]. intros name H. destruct (Hn name H) as (t & pkt & Hin & _ & Hp).
  exists q, pkt. split_and!; [done|by exists t|done].
Qed.

(** C25: whatever datagrams arrive, the command touches only its buffers, and a
    hostname it prints comes from a response packet it received, from a record
    of type PTR whose name is, up to case, the reversed address that was asked
    for -- no other answer on the multicast group can set it -- and is that
    record's name up to the first NUL without its dots and [.local], not empty. *)
Theorem resolve_authentic (ip : bytes) (timeout_ms now1 now2 : Z) (unicast multicast : attempt) :
  (forall pkt, received unicast pkt \/ received multicast pkt -> Forall is_byte pkt) ->
  resolve ip timeout_ms now1 now2 unicast multicast <> Stuck /\
  forall h, resolve ip timeout_ms now1 now2 unicast multicast = Ok h ->
    h <> [] /\
    exists q pkt off r name e, sscanf_quad ip = Some q /\
      (received unicast pkt \/ received multicast pkt) /\
      let p := take MAX_PKT pkt in
      record_at p off r /\ lower (cut_nul (rr_name r)) = lower (reverse_name q) /\ rr_type r = 12 /\
      decode_dns_name p (rr_data r) MAX_NAME_LEN = Ok (name, e) /\
      h = strip_local_suffix (cut_nul name).
Proof.
  intros Hb. assert (Ho : (0 < MAX_NAME_LEN)%nat) by (unfold MAX_NAME_LEN; lia).
  assert (H : forall now a, (forall pkt, received a pkt -> Forall is_byte pkt) ->
    let r := attempt_name (try_query ip now (Z.quot timeout_ms 2) MAX_NAME_LEN a) in
    r <> Stuck /\ forall h, r = Ok h -> h <> [] /\
      exists q pkt off rc name e, sscanf_quad ip = Some q /\ received a pkt /\
        let p := take MAX_PKT pkt in
        record_at p off rc /\ lower (cut_nul (rr_name rc)) = lower (reverse_name q) /\ rr_type rc = 12 /\
        decode_dns_name p (rr_data rc) MAX_NAME_LEN = Ok (name, e) /\ h = strip_local_suffix (cut_nul name)).
  { intros now a Ha r. destruct (try_query_source ip now (Z.quot timeout_ms 2) MAX_NAME_LEN a Ho Ha) as [Hs Hn].
    unfold r, attempt_name. destruct (try_query _ _ _ _ a) as [name| |]; [|done|done].
    cbn [mbind res_bind]. case_bool_decide as Hnil; [done|]. split; [done|]. intros h [= <-].
    split; [done|]. destruct (Hn name eq_refl) as (q & pkt & Hq & Hrec & Hp).
    assert (Hpb : Forall is_byte (take MAX_PKT pkt)) by (apply Forall_take; by apply Ha).
    apply parse_response_spec in Hp as (_ & _ & _ & _ & _ & _ & off & rc & e & _ & _ & _ & _ & _ & _ & Hr & _ & _ &
      [Hw Ht] & Hd); [|done|done].
    exists q, pkt, off, rc, name, e. split_and!; try done. by apply strcasecmp_eq_true. }
  unfold resolve. destruct (H now1 unicast) as [H1s H1]; [intros pkt Hr; apply Hb; by left|].
  destruct (H now2 multicast) as [H2s H2]; [intros pkt Hr; apply Hb; by right|].
  destruct (attempt_name (try_query ip now1 _ _ unicast)) as [h1| |]; [| |done].
  - split; [done|]. intros h [= <-]. destruct (H1 h1 eq_refl) as (Hne & q & pkt & off & rc & name & e & Hq & Hr & Hx).
    split; [done|]. exists q, pkt, off, rc, name, e. split; [done|]. split; [by left|exact Hx].
  - split; [done|]. intros h Heq. destruct (H2 h Heq) as (Hne & q & pkt & off & rc & name & e & Hq & Hr & Hx).
    split; [done|]. exists q, pkt, off, rc, name, e. split; [done|]. split; [by right|exact Hx].
Qed.

(** ** Examples *)
Definition sample_ip : Z * Z * Z * Z := (10, 193, 171, 30).
Definition sample_host : list bytes := [str "Mi-10"; str "local"].
Definition sample_reply : bytes := reply (the_query sample_ip 7) sample_host [0; 0; 0; 120].

Lemma sample_reply_bytes : Forall is_byte sample_reply.
Proof.
  apply Forall_forall. intros c Hc.
  assert (H : forallb (fun c => (0 <=? c) && (c <? 256)) sample_reply = true) by (vm_compute; reflexivity).
  apply (forallb_elem _ _ _ H) in Hc. cbn beta in Hc. unfold is_byte. bool_simpl. lia.
Qed.

Lemma decode_dns_name_spec_witness :
  decode_dns_name sample_reply 44 MAX_NAME_LEN <> Stuck /\
  decode_dns_name sample_reply 44 MAX_NAME_LEN = Ok (str "30.171.193.10.in-addr.arpa", 46%nat).
Proof.
  split; [|by vm_compute].
  apply (decode_dns_name_spec sample_reply 44 MAX_NAME_LEN); [apply sample_reply_bytes|unfold MAX_NAME_LEN; lia].
Defined.

Lemma parse_response_spec_witness :
  parse_response sample_reply MAX_NAME_LEN (Some (reverse_name sample_ip)) <> Stuck /\
  parse_response sample_reply MAX_NAME_LEN (Some (reverse_name sample_ip)) = Ok (str "Mi-10.local").
Proof.
  split; [|by vm_compute].
  apply (parse_response_spec sample_reply); [apply sample_reply_bytes|unfold MAX_NAME_LEN; lia].
Defined.

Lemma resolve_reply_witness :
  exists query, build_query (dotted sample_ip) MAX_PKT 7 = Some query /\
    resolve (dotted sample_ip) 800 7 7
      (Attempt true true [(3, Some (reply query sample_host [0; 0; 0; 120]))]) (Attempt false false [])
    = Ok (str "Mi-10").
Proof.
  destruct (resolve_reply sample_ip sample_host [0; 0; 0; 120] 800 7 7 (Attempt false false []))
    as (query & Hq & H).
  - by split_and!.
  - repeat (apply Forall_cons; split); [..|apply Forall_nil]; try done;
      (split; [simpl; lia|by eapply bool_decide_unpack; vm_compute]).
  - unfold is_cchar. by eapply bool_decide_unpack; vm_compute.
  - vm_compute. lia.
  - by repeat constructor.
  - done.
  - by vm_compute.
  - exists query. split; [exact Hq|]. exact (H 3 [] eq_refl).
Defined.

Lemma resolve_authentic_witness :
  resolve (dotted sample_ip) 800 7 7 (Attempt true true [(3, Some sample_reply)]) (Attempt false false [])
  <> Stuck.
Proof.
  apply (resolve_authentic (dotted sample_ip) 800 7 7 (Attempt true true [(3, Some sample_reply)])
    (Attempt false false [])).
  intros pkt [[t Hin]|[t Hin]]; [|by apply elem_of_nil in Hin].
  apply list_elem_of_singleton in Hin as [= _ ->]. apply sample_reply_bytes.
Defined.
