(* ===== verification/DeviceTable.v ===== *)
(** * The device table and the names of its devices ([hotspotd.c])

    128 slots, found by MAC up to case; a free slot or the one seen longest ago is
    taken for a new device.  A device that comes up is named from the names file
    at once, or marked pending and named from the DHCP log, the cache and the
    vendor tables on a later turn of the main loop.  The parts that
    [/proc/net/arp], netlink and the main loop share are here. *)
From S2P Require Import Prelude CStr Stdio Slots OuiOverride Oui Helpers HostnameCache MdnsWorker.
Local Open Scope Z_scope.

Definition MAX_DEVICES : nat := Z.to_nat 128.
Definition MAC_STR_LEN : nat := 18.
Definition IP_STR_LEN : nat := 16.
Definition HN_LEN : nat := 64.
Definition IF_LEN : nat := 16.
Definition HN_SRC_LEN : nat := 12.

(** [Device] *)
Record Device := MkDevice {
  d_mac : bytes;
  d_ip : bytes;
  d_hostname : bytes;
  d_hostname_src : bytes;
  d_iface : bytes;
  d_rx_bytes : Z;
  d_tx_bytes : Z;
  d_last_seen : Z;
  d_last_resolve : Z;
  d_pending_since : Z;
  d_active : bool;
  d_state : Z
}.
Definition dev_zero : Device := MkDevice [] [] [] [] [] 0 0 0 0 0 false 0.
#[export] Instance device_eq_dec : EqDecision Device.
Proof. solve_decision. Defined.
#[export] Instance device_inhabited : Inhabited Device := populate dev_zero.

(** The globals of the daemon with those of the modules it calls, and the file
    [devices.json]. *)
Record hstate := HState {
  g_devs : list Device;
  g_ndev : nat;
  g_last_write : Z;
  g_last_event : Z;
  g_dirty : bool;
  g_need_scan : bool;
  g_running : bool;
  g_last_stats_update : Z;
  h_cache : cache_state;
  h_override : override_state;
  h_worker : mdns_state;
  h_json : option bytes
}.

(** What one step of the output pipe of [dumpsys] brings: data, nothing yet (an
    interrupted [select] or read), or the end (end of file, error, time out). *)
Inductive dump_ev := DumpData (b : bytes) | DumpRetry | DumpStop.

(** What the daemon reads while it handles one event: [time(NULL)] at its start,
    the later [time(NULL)] of [hnc_cache_update], the names file, and the output
    of [dumpsys] ([None]: it could not be started). *)
Record world := World {
  w_now : Z;
  w_cache_now : Z;
  w_names : option bytes;
  w_dumpsys : option (list dump_ev)
}.

(** ** Slots *)

Definition dev_hit (mac : bytes) (d : Device) : bool := d_active d && strcasecmp_eq (d_mac d) mac.

(** [find_device]: the slot the returned pointer points at. *)
Definition find_device (mac : bytes) (devs : list Device) : option (nat * Device) :=
  list_find (fun d => dev_hit mac d = true) devs.

(** [alloc_device]: the slot, and the table after the eviction.  When the table
    is full every slot is active. *)
Definition alloc_device (devs : list Device) : nat * list Device :=
  match find_idx (fun d => negb (d_active d)) devs with
  | Some i => (i, devs)
  | None => let oldest := min_idx d_last_seen devs in (oldest, <[oldest := dev_zero]> devs)
  end.

Definition skip_ifaces : list bytes :=
  map str ["lo"; "rmnet"; "dummy"; "v4-"; "tun"; "p2p"; "r_rmnet"]%string.
Definition is_hotspot_iface (iface : bytes) : bool :=
  if bool_decide (iface = []) then false
  else negb (existsb (fun p => starts_with p iface) skip_ifaces).

Definition count_active (devs : list Device) : nat :=
  length (filter (fun d => d_active d = true) devs).

(** ** Assignments to fields *)
Definition set_mac (mac : bytes) (d : Device) : Device :=
  MkDevice (c_trunc MAC_STR_LEN mac) (d_ip d) (d_hostname d) (d_hostname_src d) (d_iface d) (d_rx_bytes d)
    (d_tx_bytes d) (d_last_seen d) (d_last_resolve d) (d_pending_since d) (d_active d) (d_state d).
Definition set_name (hostname src : bytes) (d : Device) : Device :=
  MkDevice (d_mac d) (d_ip d) hostname src (d_iface d) (d_rx_bytes d)
    (d_tx_bytes d) (d_last_seen d) (d_last_resolve d) (d_pending_since d) (d_active d) (d_state d).
Definition set_resolve_times (last_resolve pending_since : Z) (d : Device) : Device :=
  MkDevice (d_mac d) (d_ip d) (d_hostname d) (d_hostname_src d) (d_iface d) (d_rx_bytes d)
    (d_tx_bytes d) (d_last_seen d) last_resolve pending_since (d_active d) (d_state d).
Definition set_link (ip iface : bytes) (now : Z) (nud : Z) (d : Device) : Device :=
  MkDevice (d_mac d) (c_trunc IP_STR_LEN ip) (d_hostname d) (d_hostname_src d) (c_trunc IF_LEN iface)
    (d_rx_bytes d) (d_tx_bytes d) now (d_last_resolve d) (d_pending_since d) true nud.
Definition set_inactive (d : Device) : Device :=
  MkDevice (d_mac d) (d_ip d) (d_hostname d) (d_hostname_src d) (d_iface d) (d_rx_bytes d)
    (d_tx_bytes d) (d_last_seen d) (d_last_resolve d) (d_pending_since d) false (d_state d).
Definition set_bytes (rx tx : Z) (d : Device) : Device :=
  MkDevice (d_mac d) (d_ip d) (d_hostname d) (d_hostname_src d) (d_iface d) rx
    tx (d_last_seen d) (d_last_resolve d) (d_pending_since d) (d_active d) (d_state d).

Definition set_devs (devs : list Device) (h : hstate) : hstate :=
  HState devs (g_ndev h) (g_last_write h) (g_last_event h) (g_dirty h) (g_need_scan h) (g_running h)
    (g_last_stats_update h) (h_cache h) (h_override h) (h_worker h) (h_json h).
Definition set_event (now : Z) (h : hstate) : hstate :=
  HState (g_devs h) (g_ndev h) (g_last_write h) now true (g_need_scan h) (g_running h)
    (g_last_stats_update h) (h_cache h) (h_override h) (h_worker h) (h_json h).
Definition set_dirty (b : bool) (h : hstate) : hstate :=
  HState (g_devs h) (g_ndev h) (g_last_write h) (g_last_event h) b (g_need_scan h) (g_running h)
    (g_last_stats_update h) (h_cache h) (h_override h) (h_worker h) (h_json h).
Definition set_need_scan (b : bool) (h : hstate) : hstate :=
  HState (g_devs h) (g_ndev h) (g_last_write h) (g_last_event h) (g_dirty h) b (g_running h)
    (g_last_stats_update h) (h_cache h) (h_override h) (h_worker h) (h_json h).
Definition set_running (b : bool) (h : hstate) : hstate :=
  HState (g_devs h) (g_ndev h) (g_last_write h) (g_last_event h) (g_dirty h) (g_need_scan h) b
    (g_last_stats_update h) (h_cache h) (h_override h) (h_worker h) (h_json h).
Definition set_stats_update (t : Z) (h : hstate) : hstate :=
  HState (g_devs h) (g_ndev h) (g_last_write h) (g_last_event h) (g_dirty h) (g_need_scan h) (g_running h)
    t (h_cache h) (h_override h) (h_worker h) (h_json h).
Definition set_cache (c : cache_state) (h : hstate) : hstate :=
  HState (g_devs h) (g_ndev h) (g_last_write h) (g_last_event h) (g_dirty h) (g_need_scan h) (g_running h)
    (g_last_stats_update h) c (h_override h) (h_worker h) (h_json h).
Definition set_mdns (m : mdns_state) (h : hstate) : hstate :=
  HState (g_devs h) (g_ndev h) (g_last_write h) (g_last_event h) (g_dirty h) (g_need_scan h) (g_running h)
    (g_last_stats_update h) (h_cache h) (h_override h) m (h_json h).

(** ** [try_ns_dhcp_resolve] *)

Definition DUMP_BUF_CAP : nat := Z.to_nat (32 * 1024).

(** The reading loop: [room] bytes are left in the buffer. *)
Fixpoint dump_read (room : nat) (evs : list dump_ev) : bytes :=
  match room, evs with
  | O, _ | _, [] => []
  | S _, DumpStop :: _ => []
  | S _, DumpRetry :: evs' => dump_read room evs'
  | S _, DumpData b :: evs' => let got := take room b in got ++ dump_read (room - length got) evs'
  end.

Definition HOSTNAME_MARK : bytes := str "hostname: ".

Definition is_name_char (c : Z) : bool := negb (c =? CR) && negb (c =? 44).
Definition is_blank_tab (c : Z) : bool := (c =? 32) || (c =? TAB).
(** Without its trailing blanks and tabs. *)
Definition strip_tail (p : Z -> bool) (s : bytes) : bytes := reverse (drop_while p (reverse s)).

(** The name a line of the log gives to [mac]; empty when it gives none. *)
Definition dhcp_line_name (mac line : bytes) : bytes :=
  if strcasestr mac line then
    match strstr HOSTNAME_MARK line with
    | Some (_, p) => strip_tail is_blank_tab (take (HN_LEN - 1) (take_while is_name_char (drop 10 p)))
    | None => []
    end
  else [].

(** One turn of the loop over the lines, with [latest_hostname]. *)
Definition dhcp_line (mac latest line : bytes) : bytes :=
  let hn := dhcp_line_name mac line in
  if (0 <? length hn)%nat then c_trunc HN_LEN hn else latest.

(** The search: [latest_hostname] after the last line. *)
Definition dhcp_latest (mac : bytes) (evs : list dump_ev) : bytes :=
  fold_left (dhcp_line mac) (strtok NL (cut_nul (dump_read (DUMP_BUF_CAP - 1) evs))) [].

(** The MAC check, the read, the search; [None] for the return value 0. *)
Definition try_ns_dhcp_resolve (dumpsys : option (list dump_ev)) (mac : bytes) (outlen : nat)
  : option bytes :=
  if bool_decide (mac = []) || (outlen =? 0)%nat then None
  else if negb (is_mac mac) then None
  else match dumpsys with
  | None => None
  | Some evs =>
      if bool_decide (dhcp_latest mac evs = []) then None
      else Some (c_trunc outlen (dhcp_latest mac evs))
  end.

(** ** Names of devices *)

(** The branches behind the live sources: cache, vendor, MAC.  [cached_hn] and
    [cached_src] have 64 and 16 bytes. *)
Definition resolve_fallback (mac : bytes) (hn_len src_len : nat) (h : hstate) : bytes * bytes :=
  match hnc_cache_lookup (h_cache h) mac HN_LEN 16 with
  | Some (cached_hn, cached_src) =>
      (c_trunc hn_len cached_hn, c_trunc src_len (str "cache-" ++ cached_src))
  | None =>
      match hnc_lookup_oui (h_override h) mac hn_len with
      | Some label => (label, c_trunc src_len (str "oui"))
      | None => (default [] (hnc_mac_fallback mac hn_len), c_trunc src_len (str "mac"))
      end
  end.

(** [resolve_hostname_dhcp_only]: the name, its source and the new state. *)
Definition resolve_hostname_dhcp_only (w : world) (mac : bytes) (hn_len src_len : nat) (h : hstate)
  : bytes * bytes * hstate :=
  match hnc_lookup_manual_name mac (w_names w) hn_len with
  | (true, out) => (default [] out, c_trunc src_len (str "manual"), h)
  | (false, _) =>
      match try_ns_dhcp_resolve (w_dumpsys w) mac hn_len with
      | Some hn =>
          (hn, c_trunc src_len (str "dhcp"),
           set_cache (hnc_cache_update mac hn (str "dhcp") (w_cache_now w) (h_cache h)).2 h)
      | None => (resolve_fallback mac hn_len src_len h, h)
      end
  end.

(** [resolve_hostname], which the tests use: with the synchronous mDNS query. *)
Definition resolve_hostname (w : world) (try_mdns_resolve : hnc_mdns_resolve_fn) (mac ip : bytes)
  (hn_len src_len : nat) (h : hstate) : bytes * bytes * hstate :=
  match hnc_lookup_manual_name mac (w_names w) hn_len with
  | (true, out) => (default [] out, c_trunc src_len (str "manual"), h)
  | (false, _) =>
      match try_ns_dhcp_resolve (w_dumpsys w) mac hn_len with
      | Some hn =>
          (hn, c_trunc src_len (str "dhcp"),
           set_cache (hnc_cache_update mac hn (str "dhcp") (w_cache_now w) (h_cache h)).2 h)
      | None =>
          let r := if bool_decide (ip = []) then (0, []) else try_mdns_resolve ip mac hn_len in
          if negb (r.1 =? 0) then
            (r.2, c_trunc src_len (str "mdns"),
             set_cache (hnc_cache_update mac r.2 (str "mdns") (w_cache_now w) (h_cache h)).2 h)
          else (resolve_fallback mac hn_len src_len h, h)
      end
  end.

Definition PENDING : bytes := c_trunc HN_SRC_LEN (str "pending").

(** A slot for a device that comes up for the first time. *)
Definition new_device (w : world) (mac ip : bytes) (d : Device) : Device :=
  let '(hn, src) := hnc_resolve_hostname_fast mac (w_names w) HN_LEN HN_SRC_LEN in
  if strcmp_eq src (str "mac")
  then set_resolve_times (w_now w) (w_now w) (set_name hn PENDING (set_mac mac d))
  else set_resolve_times (w_now w) (d_pending_since d) (set_name hn src (set_mac mac d)).

(** The second resolution of a known device: without mDNS first, and the mDNS
    worker is asked when only the MAC is left. *)
Definition re_resolve (w : world) (mac ip : bytes) (d : Device) (h : hstate) : Device * hstate :=
  let '(hn, src, h) := resolve_hostname_dhcp_only w mac HN_LEN HN_SRC_LEN h in
  let d := set_resolve_times (w_now w) (d_pending_since d) (set_name hn src d) in
  if strcmp_eq src (str "mac") && negb (bool_decide (ip = [])) then
    let '(queued, m) := hnc_mdns_worker_enqueue mac ip (h_worker h) in
    if negb (queued =? 0)
    then (set_resolve_times (w_now w) (w_now w) (set_name hn PENDING d), set_mdns m h)
    else (d, set_mdns m h)
  else (d, h).

(** A device is up: the block that the scan of [/proc/net/arp] and the netlink
    handler share. *)
Definition device_up (w : world) (mac ip iface : bytes) (nud : Z) (h : hstate) : hstate :=
  let '(i, d, h) :=
    match find_device mac (g_devs h) with
    | None =>
        let '(i, devs) := alloc_device (g_devs h) in
        (i, new_device w mac ip (devs !!! i), set_devs devs h)
    | Some (i, d) =>
        if hnc_should_re_resolve (d_hostname_src d) (d_last_resolve d) (w_now w)
        then let '(d, h) := re_resolve w mac ip d h in (i, d, h)
        else (i, d, h)
    end in
  set_devs (<[i := set_link ip iface (w_now w) nud d]> (g_devs h)) h.
