(* ===== verification/DeviceSpec.v ===== *)
(** * What the device table guarantees

    The invariant of the table (128 slots, no MAC twice up to case, every field
    within its buffer), the effect of a device coming up on the table seen as a
    map from MACs to devices, and how names are chosen. *)
From S2P Require Import Prelude CStr Stdio Slots OuiOverride Oui Helpers HostnameCache MdnsWorker DeviceTable.
Local Open Scope Z_scope.
#[local] Arguments c_trunc : simpl never.

(** Every field fits its buffer. *)
Record dev_ok (d : Device) : Prop := DevOk {
  ok_mac : (length (d_mac d) < MAC_STR_LEN)%nat;
  ok_ip : (length (d_ip d) < IP_STR_LEN)%nat;
  ok_hostname : (length (d_hostname d) < HN_LEN)%nat;
  ok_src : (length (d_hostname_src d) < HN_SRC_LEN)%nat;
  ok_iface : (length (d_iface d) < IF_LEN)%nat
}.

Record table_ok (devs : list Device) : Prop := TableOk {
  ok_size : length devs = MAX_DEVICES;
  ok_devs : Forall dev_ok devs;
  ok_uniq : slots_uniq d_active d_mac devs
}.

Lemma dev_zero_ok : dev_ok dev_zero.
Proof. split; cbn; apply Nat.ltb_lt; by vm_compute. Qed.

Lemma dev_hit_spec mac d : dev_ok d -> dev_hit mac d = true <-> d_active d = true /\ lower (d_mac d) = lower mac.
Proof. intros _. unfold dev_hit. rewrite andb_true_iff. by rewrite strcasecmp_eq_true. Qed.

Abbreviation dev_at := (slot_holds d_active d_mac).

Lemma find_device_Some mac devs i d :
  table_ok devs -> find_device mac devs = Some (i, d) <-> dev_at devs i mac d.
Proof. intros [_ Hs Hu]. by apply (slot_find_Some _ _ _ _ dev_hit_spec). Qed.

Lemma find_device_None mac devs :
  table_ok devs -> find_device mac devs = None <-> forall i d, ~ dev_at devs i mac d.
Proof. intros [_ Hs Hu]. by apply (slot_find_None _ _ _ _ dev_hit_spec). Qed.

(** Changing a slot without changing its MAC and without waking it up. *)
Lemma table_ok_insert devs i old d :
  table_ok devs -> devs !! i = Some old -> d_mac d = d_mac old ->
  (d_active d = true -> d_active old = true) -> dev_ok d -> table_ok (<[i := d]> devs).
Proof.
  intros [Hlen Hs Hu] Hi Hm Ha Hd. split.
  - by rewrite length_insert.
  - by apply Forall_insert_le.
  - assert (Hback : forall j x, <[i := d]> devs !! j = Some x -> d_active x = true ->
      exists y, devs !! j = Some y /\ d_active y = true /\ d_mac y = d_mac x).
    { intros j x Hj Hx. destruct (decide (i = j)) as [<-|Hne].
      - rewrite list_lookup_insert_eq in Hj by by eapply lookup_lt_Some. simplify_eq. eauto.
      - rewrite list_lookup_insert_ne in Hj by done. eauto. }
    intros j k a b Hj Hk Hja Hkb Heq.
    destruct (Hback j a Hj Hja) as (a' & Hj' & Ha' & Hma), (Hback k b Hk Hkb) as (b' & Hk' & Hb' & Hmb).
    eapply (Hu j k a' b'); try done. congruence.
Qed.

(** ** Bounds of names *)

Lemma c_trunc_lt n s : (0 < n)%nat -> (length (c_trunc n s) < n)%nat.
Proof. apply c_trunc_length. Qed.

Lemma copy_name_length q room : (length (copy_name q room) <= room)%nat.
Proof.
  revert q; induction room as [|room IH]; intros [|c q]; cbn; try lia.
  destruct (c =? QUOTE); [cbn; lia|]. destruct (c =? BSLASH).
  - destruct q as [|d r]; [cbn; lia|]. destruct (_ || _); apply (le_n_S _ room); [apply IH|apply (IH (d :: r))].
  - apply (le_n_S _ room), IH.
Qed.

Lemma manual_scan_length pat p before n out :
  (0 < n)%nat -> manual_scan pat before p n = Some out -> (length out < n)%nat.
Proof.
  intros Hn. revert before; induction p as [|c p IH]; intros before; cbn; [done|].
  destruct (match_pattern_ci pat (c :: p)) as [q|]; [destruct (anchored before)|]; try apply IH.
  intros [= <-]. pose proof (copy_name_length q (n - 1)). lia.
Qed.

Lemma manual_name_length mac names n r out :
  (0 < n)%nat -> hnc_lookup_manual_name mac names n = (r, Some out) -> (length out < n)%nat.
Proof.
  intros Hn. unfold hnc_lookup_manual_name. destruct names as [content|]; [|done].
  destruct (_ =? 0)%nat; [done|]. destruct (manual_scan _ _ _ _) eqn:E; [|done].
  intros [= <- <-]. by eapply manual_scan_length.
Qed.

Lemma manual_name_default mac names n r out :
  (0 < n)%nat -> hnc_lookup_manual_name mac names n = (r, out) -> (length (default [] out) < n)%nat.
Proof. intros Hn H. destruct out; [by eapply manual_name_length|done]. Qed.

Lemma mac_fallback_length mac n : (0 < n)%nat -> (length (default [] (hnc_mac_fallback mac n)) < n)%nat.
Proof.
  intros Hn. unfold hnc_mac_fallback. destruct (n =? 0)%nat; [done|]. by apply c_trunc_lt.
Qed.

Lemma lookup_oui_length st mac n label :
  (0 < n)%nat -> hnc_lookup_oui st mac n = Some label -> (length label < n)%nat.
Proof.
  intros Hn. unfold hnc_lookup_oui. destruct (n =? 0)%nat; [done|]. destruct (n <? 16)%nat; [done|].
  destruct (hnc_override_lookup st mac n) as [l|] eqn:E.
  - intros [= <-]. unfold hnc_override_lookup in E.
    repeat (case_in E; [done|]). destruct (normalize_prefix mac); [|done].
    destruct (list_find _ _); [|done]. injection E as <-. by apply c_trunc_lt.
  - cbv zeta. repeat (destruct (_ || _); [done|]). destruct (negb _); [done|].
    destruct (bsearch _ _); [|done]. intros [= <-]. by apply c_trunc_lt.
Qed.

Lemma dhcp_resolve_length dumpsys mac n hn :
  (0 < n)%nat -> try_ns_dhcp_resolve dumpsys mac n = Some hn -> (length hn < n)%nat.
Proof.
  intros Hn. unfold try_ns_dhcp_resolve. destruct (_ || _); [done|]. destruct (negb _); [done|].
  destruct dumpsys; [|done]. destruct (bool_decide _); [done|]. intros [= <-].
  by apply c_trunc_lt.
Qed.

(** A name and a source within their buffers. *)
Definition name_ok (hn_len src_len : nat) (p : bytes * bytes) : Prop :=
  (length p.1 < hn_len)%nat /\ (length p.2 < src_len)%nat.

Lemma resolve_fallback_ok mac n m h :
  (0 < n)%nat -> (0 < m)%nat -> name_ok n m (resolve_fallback mac n m h).
Proof.
  intros Hn Hm. unfold resolve_fallback. destruct (hnc_cache_lookup _ _ _ _) as [[hn src]|].
  { split; apply c_trunc_lt; assumption. }
  destruct (hnc_lookup_oui _ _ _) eqn:E.
  - split; [by eapply lookup_oui_length|by apply c_trunc_lt].
  - split; [by apply mac_fallback_length|by apply c_trunc_lt].
Qed.

(** [resolve_hostname_dhcp_only] fits its buffers and changes only the cache. *)
Lemma dhcp_only_frame w mac n m h :
  (0 < n)%nat -> (0 < m)%nat ->
  let r := resolve_hostname_dhcp_only w mac n m h in
  name_ok n m r.1 /\ exists c, r.2 = set_cache c h.
Proof.
  intros Hn Hm. unfold resolve_hostname_dhcp_only.
  assert (Hsame : exists c, h = set_cache c h) by (exists (h_cache h); by destruct h).
  destruct (hnc_lookup_manual_name _ _ _) as [[] out] eqn:E.
  { split; [|done]. split; [by eapply manual_name_default|by apply c_trunc_lt]. }
  destruct (try_ns_dhcp_resolve _ _ _) eqn:E2.
  - split; [|by eexists]. split; [by eapply dhcp_resolve_length|by apply c_trunc_lt].
  - split; [by apply resolve_fallback_ok|done].
Qed.

(** ** A device comes up *)

Lemma HN_LEN_pos : (0 < HN_LEN)%nat. Proof. apply Nat.ltb_lt. by vm_compute. Qed.
Lemma HN_SRC_LEN_pos : (0 < HN_SRC_LEN)%nat. Proof. apply Nat.ltb_lt. by vm_compute. Qed.
#[export] Hint Resolve HN_LEN_pos HN_SRC_LEN_pos : hnc.

Lemma fast_ok mac names :
  name_ok HN_LEN HN_SRC_LEN (hnc_resolve_hostname_fast mac names HN_LEN HN_SRC_LEN).
Proof.
  unfold hnc_resolve_hostname_fast. destruct (hnc_lookup_manual_name _ _ _) as [[] out] eqn:E.
  - split; [eapply manual_name_default; [apply HN_LEN_pos|done]|apply c_trunc_lt, HN_SRC_LEN_pos].
  - split; [apply mac_fallback_length, HN_LEN_pos|apply c_trunc_lt, HN_SRC_LEN_pos].
Qed.

(** What a slot keeps when it is only renamed. *)
Definition same_link (d d' : Device) : Prop :=
  d_mac d' = d_mac d /\ d_ip d' = d_ip d /\ d_iface d' = d_iface d /\ d_rx_bytes d' = d_rx_bytes d /\
  d_tx_bytes d' = d_tx_bytes d /\ d_active d' = d_active d /\ d_last_seen d' = d_last_seen d.

Lemma set_name_ok hn src a b d :
  dev_ok d -> name_ok HN_LEN HN_SRC_LEN (hn, src) -> dev_ok (set_resolve_times a b (set_name hn src d)).
Proof. intros [] []. by split. Qed.

Lemma dev_named_ok hn src d : dev_ok d -> name_ok HN_LEN HN_SRC_LEN (hn, src) -> dev_ok (set_name hn src d).
Proof. intros [] []. by split. Qed.

Lemma PENDING_ok : (length PENDING < HN_SRC_LEN)%nat.
Proof. apply Nat.ltb_lt. by vm_compute. Qed.

Lemma set_mac_ok mac d : dev_ok d -> dev_ok (set_mac mac d).
Proof. intros []. split; try done. by apply c_trunc_lt, Nat.ltb_lt. Qed.

Lemma set_link_ok ip iface now nud d : dev_ok d -> dev_ok (set_link ip iface now nud d).
Proof. intros []. split; try done; by apply c_trunc_lt, Nat.ltb_lt. Qed.

Lemma set_inactive_ok d : dev_ok d -> dev_ok (set_inactive d).
Proof. by intros []. Qed.

Lemma new_device_ok w mac ip d :
  dev_ok d -> dev_ok (new_device w mac ip d) /\ d_mac (new_device w mac ip d) = c_trunc MAC_STR_LEN mac /\
  d_rx_bytes (new_device w mac ip d) = d_rx_bytes d /\ d_tx_bytes (new_device w mac ip d) = d_tx_bytes d.
Proof.
  intros Hd. unfold new_device. pose proof (fast_ok mac (w_names w)) as [H1 H2].
  destruct (hnc_resolve_hostname_fast _ _ _ _) as [hn src]. cbn in H1, H2.
  destruct (strcmp_eq _ _); split_and!; try done; apply set_name_ok;
    (apply set_mac_ok; done) || (split; done || apply PENDING_ok).
Qed.

(** A second resolution keeps the link and the rest of the state but the cache
    and the worker. *)
Lemma re_resolve_frame w mac ip d h :
  dev_ok d ->
  let r := re_resolve w mac ip d h in
  dev_ok r.1 /\ same_link d r.1 /\ exists c m, r.2 = set_mdns m (set_cache c h).
Proof.
  intros Hd. unfold re_resolve.
  pose proof (dhcp_only_frame w mac HN_LEN HN_SRC_LEN h HN_LEN_pos HN_SRC_LEN_pos) as [H1 [c H2]].
  destruct (resolve_hostname_dhcp_only _ _ _ _ _) as [[hn src] h']. cbn [fst snd] in H1, H2. subst h'.
  assert (Hkeep : exists c' m, set_cache c h = set_mdns m (set_cache c' h))
    by (exists c, (h_worker h); by destruct h).
  assert (Hok : dev_ok (set_resolve_times (w_now w) (d_pending_since d) (set_name hn src d)))
    by by apply set_name_ok.
  destruct (_ && _); [|by split_and!].
  destruct (hnc_mdns_worker_enqueue _ _ _) as [queued m].
  destruct (negb _); split_and!; try done; try (by exists c, m).
  apply set_name_ok; [done|]. split; [by destruct H1|apply PENDING_ok].
Qed.

(** The slot a device that comes up gets: its own, a free one, or the one of the
    device seen longest ago. *)
Record up_slot (mac : bytes) (devs : list Device) (i : nat) (old : Device) : Prop := UpSlot {
  us_old : devs !! i = Some old;
  us_only : forall j a, dev_at devs j mac a -> j = i;
  us_taken : d_active old = true ->
    lower (d_mac old) = lower mac \/
    ((forall a, a ∈ devs -> d_active a = true) /\ find_device mac devs = None /\
     (forall a, a ∈ devs -> d_last_seen old <= d_last_seen a))
}.

(** What [alloc_device] returns for a MAC that is not in the table. *)
Lemma alloc_device_slot mac devs :
  table_ok devs -> find_device mac devs = None ->
  exists old, up_slot mac devs (alloc_device devs).1 old /\
    (forall x, <[(alloc_device devs).1 := x]> (alloc_device devs).2 = <[(alloc_device devs).1 := x]> devs) /\
    (alloc_device devs).2 !!! (alloc_device devs).1 = if d_active old then dev_zero else old.
Proof.
  intros Hok Hnone. pose proof (proj1 (find_device_None _ _ Hok) Hnone) as Hno.
  unfold alloc_device. destruct (find_idx _ devs) as [i|] eqn:E; cbn [fst snd].
  - apply find_idx_lookup in E as (old & Hi & Ha). bool_simpl. exists old. split_and!.
    + split; [done| |congruence]. intros j a Hj. by destruct (Hno j a).
    + done.
    + rewrite Ha. by apply list_lookup_total_correct.
  - destruct (min_idx_spec d_last_seen devs) as (old & Hi & Hmin).
    { intros ->. by destruct Hok as [Hlen _ _]. }
    assert (Hall : forall a, a ∈ devs -> d_active a = true).
    { intros a Ha. pose proof (proj1 (find_idx_None _ _) E a Ha) as Hx. cbn beta in Hx. by bool_simpl. }
    exists old. split_and!.
    + split; [done| |]. { intros j a Hj. by destruct (Hno j a). } intros _. by right.
    + intros x. by rewrite list_insert_insert_eq.
    + rewrite (Hall old) by by eapply list_elem_of_lookup_2.
      apply list_lookup_total_correct, list_lookup_insert_eq. by eapply lookup_lt_Some.
Qed.

Lemma c_trunc_le n s : (length s <= n - 1)%nat -> c_trunc n s = s.
Proof. intros. unfold c_trunc. by apply take_ge. Qed.

Lemma mac_field mac : (length mac < MAC_STR_LEN)%nat -> c_trunc MAC_STR_LEN mac = mac.
Proof. intros. apply c_trunc_le. unfold MAC_STR_LEN in *. lia. Qed.

(** How a device that comes up is entered; [d] is the renamed slot. *)
Definition named (w : world) (mac ip : bytes) (h : hstate) (old d : Device) : Prop :=
  match find_device mac (g_devs h) with
  | None => d = new_device w mac ip (if d_active old then dev_zero else old)
  | Some _ =>
      same_link old d /\
      (hnc_should_re_resolve (d_hostname_src old) (d_last_resolve old) (w_now w) = false -> d = old)
  end.

Lemma device_up_slot w mac ip iface nud h :
  table_ok (g_devs h) -> (length mac < MAC_STR_LEN)%nat ->
  exists i old d c m,
    up_slot mac (g_devs h) i old /\ dev_ok d /\ lower (d_mac d) = lower mac /\ named w mac ip h old d /\
    device_up w mac ip iface nud h
    = set_devs (<[i := set_link ip iface (w_now w) nud d]> (g_devs h)) (set_mdns m (set_cache c h)).
Proof.
  intros Hok Lm. unfold device_up, named. destruct (find_device mac (g_devs h)) as [[i d]|] eqn:E.
  - pose proof (proj1 (find_device_Some _ _ _ _ Hok) E) as (Hi & Ha & Hm).
    assert (Hd : dev_ok d) by (eapply Forall_lookup_1; [apply Hok|done]).
    assert (Hslot : up_slot mac (g_devs h) i d).
    { split; [done| |by left]. intros j a (Hj & Hja & Hjm). eapply (ok_uniq _ Hok); eauto. congruence. }
    destruct (hnc_should_re_resolve _ _ _) eqn:Er.
    + pose proof (re_resolve_frame w mac ip d h Hd) as (Hd' & Hs & c & m & Hst).
      destruct (re_resolve w mac ip d h) as [d' h']. cbn [fst snd] in *. subst h'.
      exists i, d, d', c, m. split_and!; try done; [by destruct Hs as (-> & _)|by rewrite Er].
    + exists i, d, d, (h_cache h), (h_worker h). by split_and!.
  - destruct (alloc_device_slot mac _ Hok E) as (old & Hslot & Hins & Hbase).
    destruct (alloc_device (g_devs h)) as [i devs]. cbn [fst snd g_devs set_devs] in *.
    assert (Hb : dev_ok (if d_active old then dev_zero else old)).
    { destruct (d_active old); [apply dev_zero_ok|].
      eapply Forall_lookup_1; [apply Hok|apply Hslot]. }
    exists i, old, (new_device w mac ip (devs !!! i)), (h_cache h), (h_worker h). rewrite Hbase.
    pose proof (new_device_ok w mac ip _ Hb) as (Hd & Hm & _).
    split_and!; try done.
    + by rewrite Hm, mac_field.
    + rewrite Hins. by destruct h.
Qed.

(** Writing an active device into the slot it gets. *)
Section up_slot.
Context (mac : bytes) (devs : list Device) (i : nat) (old e : Device).
Hypothesis (Hok : table_ok devs) (Hslot : up_slot mac devs i old).
Hypothesis (He : d_active e = true) (Hoke : dev_ok e) (Hmac : lower (d_mac e) = lower mac).

Lemma up_free j a : dev_at devs j (d_mac e) a -> j = i.
Proof. intros (? & ? & ?). apply (us_only _ _ _ _ Hslot j a). split_and!; congruence. Qed.

Lemma up_table_ok : table_ok (<[i := e]> devs).
Proof.
  destruct Hok as [Hlen Hs Hu]. split.
  - by rewrite length_insert.
  - by apply Forall_insert_le.
  - eapply (insert_uniq _ _ _ _ dev_hit_spec); try done; [apply Hslot|apply up_free].
Qed.

Lemma up_find_self : find_device mac (<[i := e]> devs) = Some (i, e).
Proof.
  apply find_device_Some; [apply up_table_ok|]. split_and!; [|done|done].
  apply list_lookup_insert_eq. eapply lookup_lt_Some, Hslot.
Qed.

Lemma up_find_other mac' :
  lower mac' <> lower mac ->
  find_device mac' (<[i := e]> devs) = find_device mac' devs \/
  ((forall a, a ∈ devs -> d_active a = true) /\ find_device mac devs = None /\
   find_device mac' devs = Some (i, old) /\ (forall a, a ∈ devs -> d_last_seen old <= d_last_seen a) /\
   find_device mac' (<[i := e]> devs) = None).
Proof.
  intros Hne. destruct Hok as [Hlen Hs Hu]. pose proof (us_old _ _ _ _ Hslot) as Hi.
  destruct (decide (d_active old = true /\ lower (d_mac old) = lower mac')) as [[Ha Hv]|Hn].
  - destruct (us_taken _ _ _ _ Hslot Ha) as [Hsame|(Hall & Hnone & Hmin)]; [congruence|]. right.
    split_and!; try done.
    + apply find_device_Some; [done|]. done.
    + apply (insert_find_victim _ _ _ _ dev_hit_spec devs i e old); try done; [apply up_free|congruence].
  - left. apply (insert_find_other _ _ _ _ dev_hit_spec devs i e old); try done;
      [apply up_free|congruence|naive_solver].
Qed.
End up_slot.

(** C10: a device that comes up is entered into the table as into a bounded map
    keyed by MAC up to case.  Afterwards its MAC is found, with the address, the
    interface, the state and the time of the event; every other MAC answers as
    before, except that when the table was full and the MAC new, one device seen
    longest ago is gone.  A known device keeps its byte counts, and its name too
    unless it is due for another resolution; a new one carries the name its user
    gave it, or its MAC while it is pending from this moment.  The table stays
    well formed. *)
Theorem device_up_spec (w : world) (mac ip iface : bytes) (nud : Z) (h : hstate) :
  table_ok (g_devs h) -> (length mac < MAC_STR_LEN)%nat ->
  let h' := device_up w mac ip iface nud h in
  table_ok (g_devs h') /\
  (exists i d, find_device mac (g_devs h') = Some (i, d) /\
     d_ip d = c_trunc IP_STR_LEN ip /\ d_iface d = c_trunc IF_LEN iface /\
     d_state d = nud /\ d_last_seen d = w_now w /\
     match find_device mac (g_devs h) with
     | Some (_, old) =>
         d_mac d = d_mac old /\ d_rx_bytes d = d_rx_bytes old /\ d_tx_bytes d = d_tx_bytes old /\
         (hnc_should_re_resolve (d_hostname_src old) (d_last_resolve old) (w_now w) = false ->
          d_hostname d = d_hostname old /\ d_hostname_src d = d_hostname_src old)
     | None =>
         d_mac d = mac /\ d_last_resolve d = w_now w /\
         match hnc_lookup_manual_name mac (w_names w) HN_LEN with
         | (true, name) => Some (d_hostname d) = name /\ d_hostname_src d = str "manual"
         | (false, _) => Some (d_hostname d) = hnc_mac_fallback mac HN_LEN /\
                         d_hostname_src d = str "pending" /\ d_pending_since d = w_now w
         end
     end) /\
  (forall mac', lower mac' <> lower mac ->
     find_device mac' (g_devs h') = find_device mac' (g_devs h) \/
     ((forall a, a ∈ g_devs h -> d_active a = true) /\ find_device mac (g_devs h) = None /\
      exists i old, find_device mac' (g_devs h) = Some (i, old) /\
        (forall a, a ∈ g_devs h -> d_last_seen old <= d_last_seen a) /\
        find_device mac' (g_devs h') = None)).
Proof.
  intros Hok Lm h'.
  destruct (device_up_slot w mac ip iface nud h Hok Lm) as (i & old & d & c & m & Hslot & Hd & Hm & Hnamed & Hup).
  subst h'. rewrite Hup. cbn [g_devs set_devs].
  set (e := set_link ip iface (w_now w) nud d).
  assert (He : dev_ok e) by by apply set_link_ok.
  split_and!.
  - by eapply up_table_ok.
  - exists i, e. split; [by eapply up_find_self|]. split_and!; try done.
    unfold named in Hnamed. destruct (find_device mac (g_devs h)) as [[i' old']|] eqn:E.
    + assert (old' = old) as ->.
      { pose proof (proj1 (find_device_Some _ _ _ _ Hok) E) as Hat.
        pose proof (us_only _ _ _ _ Hslot _ _ Hat) as ->. destruct Hat as (Hi & _).
        rewrite (us_old _ _ _ _ Hslot) in Hi. congruence. }
      destruct Hnamed as [(? & ? & ? & ? & ? & ? & ?) Hkeep]. subst e. cbn.
      split_and!; try done. intros Hr. by rewrite (Hkeep Hr).
    + subst d e. cbn. unfold new_device, hnc_resolve_hostname_fast.
      destruct (hnc_lookup_manual_name mac (w_names w) HN_LEN) as [[] name] eqn:En.
      * change (strcmp_eq _ _) with false. cbn. rewrite mac_field by done. split_and!; try done.
        unfold hnc_lookup_manual_name in En. destruct (w_names w); [|done].
        destruct (_ =? 0)%nat; [done|]. destruct (manual_scan _ _ _ _); [|done]. by injection En as _ <-.
      * change (strcmp_eq _ _) with true. cbn. rewrite mac_field by done. by split_and!.
  - intros mac' Hne.
    destruct (up_find_other mac (g_devs h) i old e Hok Hslot eq_refl He Hm mac' Hne)
      as [?|(? & ? & ? & ? & ?)]; [by left|right]. split_and!; try done. by exists i, old.
Qed.

(** ** A table with one device *)

Definition sample_dev : Device :=
  MkDevice (str "02:00:00:00:00:01") (str "10.0.0.2") (str "00000001") (str "pending") (str "wlan2")
    5 7 100 100 100 true 2.
Definition sample_devs (d : Device) : list Device := d :: replicate (MAX_DEVICES - 1) dev_zero.
Definition sample_state (d : Device) : hstate :=
  HState (sample_devs d) 1 0 100 true false true 0 (hnc_cache_init (Some (str "/c")))
    (hnc_override_init None) mdns_zero None.
Definition sample_world (now : Z) : world := World now now None None.

Lemma sample_table_ok d : dev_ok d -> table_ok (sample_devs d).
Proof.
  intros Hd. split.
  - by vm_compute.
  - constructor; [done|]. apply Forall_replicate, dev_zero_ok.
  - intros [|i] [|j] a b Hi Hj Ha Hb _; [done| | |]; cbn in Hi, Hj;
      repeat match goal with H : replicate _ _ !! _ = Some _ |- _ => apply lookup_replicate in H as [-> _] end; done.
Qed.

Lemma sample_dev_ok : dev_ok sample_dev.
Proof. split; apply Nat.ltb_lt; by vm_compute. Qed.

Lemma device_up_spec_witness :
  let h' := device_up (sample_world 500) (str "02:00:00:00:00:02") (str "10.0.0.3") (str "wlan2") 2
              (sample_state sample_dev) in
  exists i d, find_device (str "02:00:00:00:00:02") (g_devs h') = Some (i, d) /\
    d_ip d = str "10.0.0.3" /\ d_hostname_src d = str "pending" /\ d_pending_since d = 500.
Proof.
  intros h'.
  destruct (device_up_spec (sample_world 500) (str "02:00:00:00:00:02") (str "10.0.0.3") (str "wlan2") 2
    (sample_state sample_dev)) as (_ & (i & d & Hf & Hip & _ & _ & _ & _ & _ & _ & Hs & Hp) & _).
  - apply sample_table_ok, sample_dev_ok.
  - apply Nat.ltb_lt. by vm_compute.
  - exists i, d. split; [exact Hf|]. split; [exact Hip|]. split; [exact Hs|exact Hp].
Defined.
