(* ===== verification/DhcpLog.v ===== *)
(** * Names from the DHCP log ([try_ns_dhcp_resolve] of [hotspotd.c])

    The last line of the log that mentions the MAC and carries a name decides. *)
From S2P Require Import Prelude CStr Stdio Helpers DeviceTable.
Local Open Scope Z_scope.
#[local] Arguments c_trunc : simpl never.

(** ** Lines *)

Lemma strtok_from_line l r : forall acc,
  NL ∉ l -> acc ++ l <> [] ->
  strtok_from NL acc (l ++ NL :: r) = (acc ++ l) :: strtok_from NL [] r.
Proof.
  induction l as [|c l IH]; intros acc Hn Hne; cbn [app strtok_from].
  - rewrite Z.eqb_refl, app_nil_r in *. by rewrite bool_decide_eq_false_2.
  - rewrite not_elem_of_cons in Hn. destruct Hn as [Hc Hn].
    rewrite (proj2 (Z.eqb_neq c NL)) by done. rewrite IH by (done || by rewrite <- app_assoc).
    by rewrite <- app_assoc.
Qed.

Definition unlines (ls : list bytes) : bytes := concat (map (fun l => l ++ [NL]) ls).

Definition line_ok (l : bytes) : Prop := l <> [] /\ NL ∉ l /\ Forall is_cchar l.

Lemma strtok_unlines ls : Forall line_ok ls -> strtok NL (unlines ls) = ls.
Proof.
  unfold strtok, unlines. induction 1 as [|l ls (Hne & Hn & _) _ IH]; cbn [concat map]; [done|].
  rewrite <- app_assoc. cbn [app]. rewrite strtok_from_line by done. by rewrite IH.
Qed.

Lemma unlines_cchar ls : Forall line_ok ls -> Forall is_cchar (unlines ls).
Proof.
  unfold unlines. induction 1 as [|l ls (_ & _ & Hc) _ IH]; cbn [concat map]; [constructor|].
  rewrite !Forall_app. split_and!; [done|by repeat constructor|done].
Qed.

(** ** The name of a line *)

Lemma strip_tail_length p s : (length (strip_tail p s) <= length s)%nat.
Proof.
  unfold strip_tail. rewrite length_reverse.
  etransitivity; [apply drop_while_length|]. by rewrite length_reverse.
Qed.

Lemma strip_tail_id p s : (forall c, last s = Some c -> p c = false) -> strip_tail p s = s.
Proof.
  intros Hl. unfold strip_tail. destruct s as [|c s _] using rev_ind; [done|].
  rewrite last_snoc in Hl. rewrite reverse_app. cbn [reverse rev_append app].
  change (reverse [c]) with [c]. cbn [app drop_while]. rewrite (Hl c eq_refl).
  change (c :: reverse s) with ([c] ++ reverse s). by rewrite reverse_app, reverse_involutive.
Qed.

Lemma dhcp_line_name_length mac line : (length (dhcp_line_name mac line) <= HN_LEN - 1)%nat.
Proof.
  unfold dhcp_line_name. destruct (strcasestr mac line); [|cbn; lia].
  destruct (strstr HOSTNAME_MARK line) as [[a p]|]; [|cbn; lia].
  etransitivity; [apply strip_tail_length|]. rewrite length_take. lia.
Qed.

(** The lines of the log that name a MAC decide in order: the last one wins. *)
Lemma dhcp_fold mac ls : forall latest,
  fold_left (dhcp_line mac) ls latest
  = default latest (last (filter (fun n => n <> []) (map (dhcp_line_name mac) ls))).
Proof.
  induction ls as [|l ls IH]; intros latest; cbn [fold_left map]; [done|].
  rewrite IH, filter_cons. unfold dhcp_line.
  pose proof (dhcp_line_name_length mac l) as Hlen.
  destruct (dhcp_line_name mac l) as [|c n] eqn:E; cbn [length Nat.ltb Nat.leb].
  - by rewrite decide_False by naive_solver.
  - rewrite decide_True by done. rewrite last_cons.
    unfold c_trunc. rewrite take_ge by done. by destruct (last (filter _ _)).
Qed.

Lemma strcasestr_mid p q a b : lower q = lower p -> strcasestr p (a ++ q ++ b) = true.
Proof.
  intros Hq. induction a as [|c a IH]; cbn [app].
  - assert (H : starts_with (lower p) (lower (q ++ b)) = true).
    { unfold lower in *. rewrite map_app, Hq. apply starts_with_app. }
    destruct (q ++ b); cbn [strcasestr]; by rewrite H.
  - cbn [strcasestr]. by rewrite IH, orb_true_r.
Qed.

(** A lease line: some text with the MAC of the client, the mark, the name, and
    nothing or a further field. *)
Definition lease_line (a hw b name rest : bytes) : bytes :=
  (a ++ hw ++ b) ++ HOSTNAME_MARK ++ name ++ rest.

Record lease_ok (a hw b name rest : bytes) : Prop := LeaseOk {
  lo_first : forall k, (k < length (a ++ hw ++ b))%nat ->
    starts_with HOSTNAME_MARK (drop k (lease_line a hw b name rest)) = false;
  lo_name : name <> [] /\ (length name < HN_LEN)%nat /\ forallb is_name_char name = true;
  lo_trim : forall c, last name = Some c -> is_blank_tab c = false;
  lo_rest : forall c, head rest = Some c -> is_name_char c = false
}.

Lemma lease_line_name mac a hw b name rest :
  lower hw = lower mac -> lease_ok a hw b name rest ->
  dhcp_line_name mac (lease_line a hw b name rest) = name.
Proof.
  intros Hhw [Hfirst (Hne & Hl & Hc) Htrim Hrest]. unfold dhcp_line_name.
  assert (Hm : strcasestr mac (lease_line a hw b name rest) = true).
  { unfold lease_line. rewrite <- !app_assoc. by apply strcasestr_mid. }
  rewrite Hm. unfold lease_line in *. rewrite strstr_first by done.
  change 10%nat with (length HOSTNAME_MARK). rewrite drop_app_length.
  destruct (take_while_app is_name_char name rest) as [-> _];
    [intros c; by apply forallb_elem|done|].
  rewrite take_ge by lia. by apply strip_tail_id.
Qed.

(** The DHCP log names a device by its last word.  When the daemon has read a
    log, the name it finds for a MAC is the one in the last line that mentions
    the MAC, in any case, and has a name that is not empty, cut to the buffer;
    when no line does, nothing is found.  A lease line names its client: the text
    behind the first ["hostname: "] up to a comma, a carriage return or the end,
    and lines that do not mention the MAC do not count. *)
Lemma dhcp_log_lookup (ls : list bytes) (evs : list dump_ev) (mac : bytes) (outlen : nat) :
  is_mac mac = true -> (0 < outlen)%nat -> Forall line_ok ls ->
  dump_read (DUMP_BUF_CAP - 1) evs = unlines ls ->
  try_ns_dhcp_resolve (Some evs) mac outlen
  = c_trunc outlen <$> last (filter (fun n => n <> []) (map (dhcp_line_name mac) ls)) /\
  (forall a hw b name rest, lower hw = lower mac -> lease_ok a hw b name rest ->
     dhcp_line_name mac (lease_line a hw b name rest) = name) /\
  (forall line, strcasestr mac line = false -> dhcp_line_name mac line = []).
Proof.
  intros Hmac Hn Hls Hread. split_and!.
  - unfold try_ns_dhcp_resolve, dhcp_latest. rewrite Hmac, Hread.
    rewrite bool_decide_eq_false_2 by by intros ->.
    rewrite (proj2 (Nat.eqb_neq outlen 0)) by lia. cbn [orb negb].
    rewrite cut_nul_id by by apply unlines_cchar. rewrite strtok_unlines by done.
    rewrite dhcp_fold. destruct (last _) as [n|] eqn:E; cbn [default]; [|done].
    rewrite bool_decide_eq_false_2; [done|]. apply last_Some_elem_of, list_elem_of_filter in E. naive_solver.
  - intros. by apply lease_line_name.
  - intros line H. unfold dhcp_line_name. by rewrite H.
Qed.

(** A log with two leases of one client and one of another. *)
Definition sample_log : list bytes :=
  [lease_line (str "hwAddr: ") (str "7A:D6:F7:CE:BA:76") (str ", netAddr: 10.0.0.2/24,") (str "old") [];
   lease_line (str "hwAddr: ") (str "7a:d6:f7:ce:ba:76") (str ", netAddr: 10.0.0.2/24,") (str "Mi-10") [];
   lease_line (str "hwAddr: ") (str "02:00:00:00:00:01") (str ", netAddr: 10.0.0.3/24,") (str "PC") (str ",x")].

Lemma dhcp_log_lookup_witness :
  try_ns_dhcp_resolve (Some [DumpRetry; DumpData (unlines sample_log); DumpStop])
    (str "7a:d6:f7:ce:ba:76") 64 = Some (str "Mi-10").
Proof.
  etransitivity.
  - apply (dhcp_log_lookup sample_log); [by vm_compute|lia| |].
    + repeat constructor; try (apply (bool_decide_unpack _); by vm_compute); by intros H.
    + by vm_compute.
  - by vm_compute.
Defined.

(** The MAC is searched in the whole line, so a client that calls itself by the
    MAC of another device names that device. *)
Lemma dhcp_name_spoofed :
  let victim := str "02:00:00:00:00:01" in
  let line := str "hwAddr: 7a:d6:f7:ce:ba:76,hostname: 02:00:00:00:00:01 is mine" in
  dhcp_line_name victim line = str "02:00:00:00:00:01 is mine".
Proof. by vm_compute. Qed.
