(* ===== verification/DevicesJson.v ===== *)
(** * [devices.json] ([update_traffic_stats] and [write_json] of [hotspotd.c])

    The byte counts that [iptables_manager.sh stats_all] prints, the blacklist of
    [rules.json], and the file the web page reads. *)
From S2P Require Import Prelude CStr JsonText Stdio Helpers DeviceTable.
Local Open Scope Z_scope.

(** What the system answers while the file is written: [access] and the clock of
    the statistics, the output of the script ([None]: it could not be started),
    [rules.json] ([None]: it cannot be opened; memory for it is available), the
    outcome of [fopen], the number of bytes the disk has room for ([None]: enough),
    the outcome of [rename], the time of the end. *)
Record write_io := WriteIo {
  wi_stats_exec : bool;
  wi_stats_now : Z;
  wi_stats_out : option bytes;
  wi_rules : option bytes;
  wi_open : bool;
  wi_room : option nat;
  wi_rename : bool;
  wi_now : Z
}.

(** ** Traffic *)

Definition STATS_LINE : nat := Z.to_nat 128.
Definition STATS_TTL : Z := 5.

(** A line ["<ip> <rx> <tx>"]. *)
Definition scan_stats (line : bytes) : option (bytes * Z * Z) :=
  '(ip, r) ← scan_s (IP_STR_LEN - 1) line;
  '(rx, r) ← scan_ld r;
  '(tx, _) ← scan_ld r;
  Some (ip, rx, tx).

Definition has_ip (ip : bytes) (d : Device) : bool := d_active d && strcmp_eq (d_ip d) ip.

(** The counts of a line go to the first active device with the address. *)
Definition stats_line (devs : list Device) (line : bytes) : list Device :=
  match scan_stats line with
  | None => devs
  | Some (ip, rx, tx) =>
      match list_find (fun d => has_ip ip d = true) devs with
      | Some (i, d) => <[i := set_bytes rx tx d]> devs
      | None => devs
      end
  end.

Definition update_traffic_stats (io : write_io) (h : hstate) : hstate :=
  if negb (wi_stats_exec io) then h
  else if wi_stats_now io - g_last_stats_update h <? STATS_TTL then h
  else
    let h := set_stats_update (wi_stats_now io) h in
    match wi_stats_out io with
    | None => h
    | Some out => set_devs (fold_left stats_line (fgets_lines STATS_LINE out) (g_devs h)) h
    end.

(** ** The blacklist *)

Definition RULES_MAX : Z := 1024 * 1024.
Definition BL_KEY : bytes := QUOTE :: str "blacklist" ++ [QUOTE].

(** The test on what follows a quote. *)
Definition bl_entry (p : bytes) : bool :=
  (17 <=? length p)%nat && (nth 2 p 0 =? COLON) && (nth 5 p 0 =? COLON) && (nth 8 p 0 =? COLON) &&
  (nth 11 p 0 =? COLON) && (nth 14 p 0 =? COLON).

(** The loop over the quotes. *)
Fixpoint bl_scan (s : bytes) : list bytes :=
  match s with
  | [] => []
  | c :: p => if c =? QUOTE then (if bl_entry p then [take 17 p] else []) ++ bl_scan p else bl_scan p
  end.

(** The text from the key up to the first [']']. *)
Definition bl_section (buf : bytes) : option bytes :=
  match strstr BL_KEY buf with
  | None => None
  | Some (_, bl_start) =>
      match split_at 93 bl_start with
      | Some (inside, _) => Some inside
      | None => Some bl_start
      end
  end.

Definition read_blacklist (rules : option bytes) : list bytes :=
  match rules with
  | None => []
  | Some content =>
      if (0 <? Z.of_nat (length content)) && (Z.of_nat (length content) <=? RULES_MAX) then
        match bl_section (cut_nul content) with
        | Some s => take MAX_DEVICES (bl_scan s)
        | None => []
        end
      else []
  end.

(** ** The file *)

Definition HN_ESCAPED : nat := HN_LEN * 6 + 4.

Definition dev_status (blacklist : list bytes) (d : Device) : bytes :=
  if existsb (fun b => strcmp_eq b (d_mac d)) blacklist then str "blocked" else str "allowed".
Definition dev_src (d : Device) : bytes :=
  if bool_decide (d_hostname_src d = []) then str "mac" else d_hostname_src d.

(** The text of one device. *)
Definition dev_json (blacklist : list bytes) (d : Device) : bytes :=
  quoted (d_mac d) ++ COLON :: 123 ::
  key "ip" ++ quoted (d_ip d) ++ 44 ::
  key "mac" ++ quoted (d_mac d) ++ 44 ::
  key "hostname" ++ quoted (default [] (hnc_json_escape (d_hostname d) HN_ESCAPED)) ++ 44 ::
  key "hostname_src" ++ quoted (dev_src d) ++ 44 ::
  key "iface" ++ quoted (d_iface d) ++ 44 ::
  key "rx_bytes" ++ dec (d_rx_bytes d) ++ 44 ::
  key "tx_bytes" ++ dec (d_tx_bytes d) ++ 44 ::
  key "status" ++ quoted (dev_status blacklist d) ++ 44 ::
  key "last_seen" ++ dec (d_last_seen d) ++ [125].

Fixpoint devs_json (blacklist : list bytes) (first : bool) (devs : list Device) : bytes :=
  match devs with
  | [] => []
  | d :: devs' =>
      if negb (d_active d) then devs_json blacklist first devs'
      else (if first then [] else [44]) ++ dev_json blacklist d ++ devs_json blacklist false devs'
  end.
Definition devices_file (blacklist : list bytes) (devs : list Device) : bytes :=
  123 :: devs_json blacklist true devs ++ [125].

(** What reaches the disk: no result of [fprintf], [fflush] or [fclose] is looked at. *)
Definition written (room : option nat) (s : bytes) : bytes :=
  match room with Some n => take n s | None => s end.

(** The temporary file replaces the old one only when everything went well. *)
Definition write_json (io : write_io) (h : hstate) : hstate :=
  let h := update_traffic_stats io h in
  let blacklist := read_blacklist (wi_rules io) in
  if negb (wi_open io) then h
  else if negb (wi_rename io) then h
  else HState (g_devs h) (count_active (g_devs h)) (wi_now io) (g_last_event h) false (g_need_scan h)
         (g_running h) (g_last_stats_update h) (h_cache h) (h_override h) (h_worker h)
         (Some (written (wi_room io) (devices_file blacklist (g_devs h)))).
