(* ===== verification/DevicesJsonSpec.v ===== *)
(** * What a reader of [devices.json] sees

    The file parses, as JSON, to one object per active device with the fields of
    the table, and a device is blocked exactly when its MAC is in the blacklist of
    [rules.json]. *)
From S2P Require Import Prelude CStr Stdio Slots JsonText Helpers HostnameCache DeviceTable DeviceSpec.
From S2P Require Import DevicesJson.
Local Open Scope Z_scope.

(** A hostname always fits the escape buffer. *)
Lemma json_escape_fits s n :
  (length (json_esc s) + 1 < n)%nat -> hnc_json_escape s n = Some (json_esc s).
Proof.
  intros Hn. unfold hnc_json_escape. rewrite (proj2 (Nat.eqb_neq n 0)) by lia.
  destruct (json_escape_loop s [] n) as [d t] eqn:E.
  apply json_escape_loop_spec in E as (m & Hm & -> & Hd & Ht & Hnext); [|cbn; lia]. cbn [app] in *.
  assert (m = length s) as ->.
  { destruct (decide (m = length s)) as [->|Hne]; [done|].
    destruct (lookup_lt_is_Some_2 s m ltac:(lia)) as [c Hc]. destruct (Hnext c Hc) as [_ Hlen].
    rewrite <- (take_drop_middle s m c Hc) in Hn.
    rewrite json_esc_app, json_esc_cons, !length_app in Hn. rewrite length_app in Hlen. lia. }
  rewrite take_ge in * by lia. rewrite Ht by done. cbn [orb].
  rewrite (proj2 (Nat.leb_gt n _)) by lia. by rewrite andb_false_r.
Qed.

Lemma json_esc_length s : (length (json_esc s) <= 6 * length s)%nat.
Proof.
  induction s as [|c s IH]; [done|]. rewrite json_esc_cons, length_app. cbn [length].
  pose proof (json_esc1_length_6 c). lia.
Qed.

Lemma hostname_escaped d : dev_ok d -> hnc_json_escape (d_hostname d) HN_ESCAPED = Some (json_esc (d_hostname d)).
Proof.
  intros Hd. apply json_escape_fits. pose proof (json_esc_length (d_hostname d)).
  pose proof (ok_hostname _ Hd). unfold HN_ESCAPED, HN_LEN in *. lia.
Qed.

(** ** The file as a JSON value *)

Definition dev_value (blocked : bool) (d : Device) : json :=
  JObj [jfld "ip" (JStr (d_ip d)); jfld "mac" (JStr (d_mac d)); jfld "hostname" (JStr (d_hostname d));
        jfld "hostname_src" (JStr (dev_src d)); jfld "iface" (JStr (d_iface d));
        jfld "rx_bytes" (JNum (d_rx_bytes d)); jfld "tx_bytes" (JNum (d_tx_bytes d));
        jfld "status" (JStr (str (if blocked then "blocked" else "allowed")));
        jfld "last_seen" (JNum (d_last_seen d))].

Definition active_devices (devs : list Device) : list Device := filter (fun d => d_active d = true) devs.

Definition devices_value (blacklist : list bytes) (devs : list Device) : json :=
  JObj (map (fun d => (d_mac d, dev_value (bool_decide (d_mac d ∈ blacklist)) d)) (active_devices devs)).

(** What the kernel's texts look like, and a name without NUL. *)
Record text_ok (d : Device) : Prop := TextOk {
  tx_mac : plain (d_mac d) = true;
  tx_ip : plain (d_ip d) = true;
  tx_src : plain (d_hostname_src d) = true;
  tx_iface : plain (d_iface d) = true;
  tx_hostname : Forall is_cchar (d_hostname d)
}.

Lemma dev_src_plain d : text_ok d -> plain (dev_src d) = true.
Proof. intros H. unfold dev_src. case_bool_decide; [by vm_compute|apply H]. Qed.

Lemma dev_status_spec bl d :
  dev_status bl d = str (if bool_decide (d_mac d ∈ bl) then "blocked" else "allowed").
Proof.
  unfold dev_status. destruct (existsb _ bl) eqn:E.
  - apply existsb_exists in E as (b & Hb%list_elem_of_In & Heq). unfold strcmp_eq in Heq. bool_simpl.
    subst b. by rewrite bool_decide_eq_true_2.
  - rewrite bool_decide_eq_false_2; [done|]. intros Hin.
    assert (Hex : existsb (fun b => strcmp_eq b (d_mac d)) bl = true); [|congruence].
    apply existsb_exists. exists (d_mac d). split; [by apply list_elem_of_In|].
    by apply bool_decide_eq_true.
Qed.

Lemma dev_json_print bl d :
  dev_ok d -> text_ok d ->
  dev_json bl d = print_field (d_mac d, dev_value (bool_decide (d_mac d ∈ bl)) d).
Proof.
  intros Hd Ht. pose proof Ht as [Hm Hi Hs Hf Hh]. unfold dev_json, print_field. cbn [fst snd].
  rewrite hostname_escaped by done. cbn [default]. rewrite dev_status_spec.
  rewrite (plain_esc (d_mac d)) by done. unfold dev_value. rewrite print_json_obj, !print_fields_cons.
  unfold quoted at 1. cbn [app print_fields]. rewrite <- !app_assoc. cbn [app]. do 3 f_equal.
  unfold print_field, jfld. cbn [fst snd].
  rewrite (quoted_print (d_ip d)), (quoted_print (d_mac d)), (quoted_print (dev_src d)),
    (quoted_print (d_iface d)), (quoted_print (str (if bool_decide (d_mac d ∈ bl) then _ else _)))
    by first [done|by apply dev_src_plain|by destruct (bool_decide _)].
  change (quoted (json_esc (d_hostname d))) with (print_json (JStr (d_hostname d))).
  change (dec ?z) with (print_json (JNum z)).
  rewrite !key_print by by vm_compute.
  repeat (rewrite <- ?app_assoc; cbn [app]). done.
Qed.

Lemma devs_json_print bl devs :
  Forall dev_ok devs -> Forall text_ok devs -> forall first,
  devs_json bl first devs
  = print_fields first
      (map (fun d => (d_mac d, dev_value (bool_decide (d_mac d ∈ bl)) d)) (active_devices devs)).
Proof.
  intros Hd Ht. induction devs as [|d devs IH]; intros first; [done|].
  apply Forall_cons in Hd as [Hd Hds]. apply Forall_cons in Ht as [Ht Hts].
  cbn [devs_json]. unfold active_devices in *. rewrite filter_cons.
  destruct (d_active d) eqn:Ea; cbn [negb].
  - rewrite decide_True by done. cbn [map]. rewrite print_fields_cons, dev_json_print by done.
    by rewrite IH.
  - rewrite decide_False by done. by apply IH.
Qed.

Lemma devices_file_print bl devs :
  Forall dev_ok devs -> Forall text_ok devs -> devices_file bl devs = print_json (devices_value bl devs).
Proof.
  intros Hd Ht. unfold devices_file, devices_value. rewrite print_json_obj. by rewrite devs_json_print.
Qed.

Lemma devices_value_ok bl devs : Forall text_ok devs -> json_ok (devices_value bl devs).
Proof.
  intros Ht. apply ok_obj, Forall_map, Forall_forall. intros d Hd%list_elem_of_filter.
  assert (Hd' : text_ok d) by (eapply Forall_forall; [exact Ht|apply Hd]).
  pose proof Hd' as [Hm Hi Hs Hf Hh]. cbn [fst snd]. split; [by apply plain_cchar|].
  apply ok_obj. repeat constructor; cbn [fst snd jfld];
    try (apply plain_cchar; by first [done|apply dev_src_plain|vm_compute]); try done.
  destruct (bool_decide _); apply plain_cchar; by vm_compute.
Qed.

(** ** The blacklist of a rules file *)

Lemma bl_scan_skip s t : Forall (fun c => c <> QUOTE) s -> bl_scan (s ++ t) = bl_scan t.
Proof.
  induction 1 as [|c s Hc _ IH]; [done|]. cbn [app bl_scan].
  by rewrite (proj2 (Z.eqb_neq c QUOTE)).
Qed.

(** A quote whose text has no colon at place 2 starts no MAC. *)
Lemma bl_scan_quote p : nth 2 p 0 <> COLON -> bl_scan (QUOTE :: p) = bl_scan p.
Proof.
  intros Hp. cbn [bl_scan]. rewrite Z.eqb_refl. unfold bl_entry.
  rewrite (proj2 (Z.eqb_neq (nth 2 p 0) COLON)) by done. by rewrite andb_false_r.
Qed.

Definition blanks (s : bytes) : bool := forallb json_ws s.

(** A MAC as the list holds it. *)
Definition bl_mac (m : bytes) : bool :=
  (length m =? 17)%nat && bl_entry m && negb (nth 0 m 0 =? COLON) &&
  forallb (fun c => negb (c =? QUOTE) && negb (c =? 93) && (0 <? c) && (c <? 256)) m.

(** The list with the blanks a printer may put in: before the first entry, behind
    each comma, and behind the last entry. *)
Fixpoint bl_items (gap : bytes) (macs : list bytes) : bytes :=
  match macs with
  | [] => []
  | [m] => quoted m
  | m :: r => quoted m ++ 44 :: gap ++ bl_items gap r
  end.
Definition bl_array (g0 g1 gap : bytes) (macs : list bytes) : bytes :=
  91 :: g0 ++ bl_items gap macs ++ g1 ++ [93].

Lemma blanks_ws s c : blanks s = true -> c ∈ s -> c <> QUOTE /\ c <> COLON /\ c <> 93 /\ 0 < c < 256.
Proof.
  intros Hs Hc. pose proof (forallb_elem _ _ _ Hs Hc) as H. unfold json_ws, TAB, NL, CR in H.
  unfold QUOTE, COLON. repeat (apply orb_prop in H as [H|H]); bool_simpl; lia.
Qed.

Lemma nth_blanks g p i : blanks g = true -> (i < length g)%nat -> nth i (g ++ p) 0 <> COLON.
Proof.
  intros Hg Hi. rewrite app_nth1 by done.
  apply (blanks_ws g); [done|]. apply list_elem_of_In, nth_In. done.
Qed.

(** The place two behind a closing quote is no colon. *)
Lemma close_safe x g p :
  blanks g = true -> head p = Some QUOTE \/ p = [] -> nth 1 p 0 <> COLON ->
  nth 2 (x :: g ++ p) 0 <> COLON.
Proof.
  intros Hg Hp Hn. change (nth 2 (x :: g ++ p) 0) with (nth 1 (g ++ p) 0).
  destruct g as [|a [|b g]].
  - done.
  - cbn [app nth]. destruct Hp as [Hp| ->]; [|done]. destruct p; [done|]. by injection Hp as ->.
  - by apply nth_blanks; [|cbn; lia].
Qed.

Lemma bl_scan_mac m p :
  bl_mac m = true -> bl_scan (quoted m ++ p) = m :: bl_scan (QUOTE :: p).
Proof.
  unfold bl_mac. intros H. bool_simpl. unfold quoted. cbn [app]. rewrite <- app_assoc. cbn [app].
  cbn [bl_scan]. rewrite Z.eqb_refl.
  assert (He : bl_entry (m ++ QUOTE :: p) = true).
  { unfold bl_entry in *. bool_simpl. rewrite length_app, !app_nth1 by lia.
    rewrite !andb_true_iff, !Z.eqb_eq, Nat.leb_le. split_and!; try done. lia. }
  rewrite He. rewrite take_app_le by lia. rewrite take_ge by lia. cbn [app]. f_equal.
  rewrite bl_scan_skip; [done|]. apply Forall_forall. intros c Hc.
  match goal with H : forallb _ m = true |- _ => pose proof (forallb_elem _ _ _ H Hc) as Hx end.
  cbn beta in Hx. by bool_simpl.
Qed.

Lemma bl_mac_nth0 m p : bl_mac m = true -> nth 1 (quoted m ++ p) 0 <> COLON.
Proof. unfold bl_mac. intros H. bool_simpl. destruct m; [done|]. by cbn in *. Qed.

Lemma bl_scan_items g1 gap macs :
  blanks g1 = true -> blanks gap = true -> forallb bl_mac macs = true ->
  bl_scan (bl_items gap macs ++ g1) = macs.
Proof.
  intros Hg1 Hgap. assert (Hend : forall g, blanks g = true -> bl_scan g = []).
  { intros g Hg. rewrite <- (app_nil_r g). rewrite bl_scan_skip; [done|].
    apply Forall_forall. intros c Hc. by apply (blanks_ws g). }
  induction macs as [|m macs IH]; cbn [forallb bl_items]; [by intros; apply Hend|].
  intros [Hm Hms]%andb_prop. destruct macs as [|m' macs].
  - rewrite bl_scan_mac by done. rewrite bl_scan_quote; [by rewrite Hend|].
    rewrite <- (app_nil_r g1). destruct (decide (2 < length g1)%nat); [by apply nth_blanks|].
    rewrite app_nil_r, nth_overflow by lia. done.
  - rewrite <- app_assoc. cbn [app]. rewrite bl_scan_mac by done. f_equal.
    rewrite <- app_assoc. cbn [forallb] in Hms. apply andb_prop in Hms as Hms'. destruct Hms' as [Hm' _].
    assert (Hq : exists r, bl_items gap (m' :: macs) ++ g1 = quoted m' ++ r).
    { cbn [bl_items]. destruct macs; [by exists g1|]. eexists. by rewrite <- app_assoc. }
    rewrite bl_scan_quote.
    + change (44 :: gap ++ ?x) with ((44 :: gap) ++ x). rewrite bl_scan_skip; [by apply IH|].
      constructor; [done|]. apply Forall_forall. intros c Hc. by apply (blanks_ws gap).
    + destruct Hq as [r ->]. apply close_safe; [done|by left|by apply bl_mac_nth0].
Qed.

(** A rules file: some text in which the key does not occur, the key, the list,
    the rest of the file. *)
Definition rules_text (pre gk g0 g1 gap post : bytes) (macs : list bytes) : bytes :=
  pre ++ BL_KEY ++ COLON :: gk ++ bl_array g0 g1 gap macs ++ post.

Record rules_ok (pre gk g0 g1 gap post : bytes) (macs : list bytes) : Prop := RulesOk {
  ro_first : forall k, (k < length pre)%nat ->
    starts_with BL_KEY (drop k (rules_text pre gk g0 g1 gap post macs)) = false;
  ro_blanks : blanks gk && blanks g0 && blanks g1 && blanks gap = true;
  ro_macs : forallb bl_mac macs = true;
  ro_count : (length macs <= MAX_DEVICES)%nat;
  ro_chars : Forall is_cchar (rules_text pre gk g0 g1 gap post macs);
  ro_size : Z.of_nat (length (rules_text pre gk g0 g1 gap post macs)) <= RULES_MAX
}.

Lemma split_at_app c s r : c ∉ s -> split_at c (s ++ c :: r) = Some (s, c :: r).
Proof.
  induction s as [|x s IH]; intros Hn; cbn [app split_at]; [by rewrite Z.eqb_refl|].
  rewrite not_elem_of_cons in Hn. destruct Hn as [Hx Hn].
  rewrite (proj2 (Z.eqb_neq x c)) by done. by rewrite IH.
Qed.

Lemma bl_items_no93 gap macs : blanks gap = true -> forallb bl_mac macs = true -> 93 ∉ bl_items gap macs.
Proof.
  intros Hg. assert (Hq : forall m, bl_mac m = true -> 93 ∉ quoted m).
  { intros m Hm. unfold bl_mac in Hm. bool_simpl. unfold quoted. rewrite elem_of_cons, elem_of_app.
    intros [?|[Hin|?%list_elem_of_singleton]]; try done.
    match goal with H : forallb _ m = true |- _ => pose proof (forallb_elem _ _ _ H Hin) as Hx end. done. }
  induction macs as [|m macs IH]; cbn [forallb bl_items]; [by intros _ ?%elem_of_nil|].
  intros [Hm Hms]%andb_prop. destruct macs as [|m' macs]; [by apply Hq|].
  rewrite elem_of_app, elem_of_cons, elem_of_app.
  intros [?|[?|[Hin|?]]]; [by apply (Hq m)|done| |by apply IH].
  by destruct (blanks_ws gap 93 Hg Hin) as (_ & _ & ? & _).
Qed.

Lemma blanks_no93 g : blanks g = true -> 93 ∉ g.
Proof. intros Hg Hin. by destruct (blanks_ws g 93 Hg Hin) as (_ & _ & ? & _). Qed.

(** The list is read back as it was written. *)
Lemma read_blacklist_text pre gk g0 g1 gap post macs :
  rules_ok pre gk g0 g1 gap post macs ->
  read_blacklist (Some (rules_text pre gk g0 g1 gap post macs)) = macs.
Proof.
  intros [Hfirst Hblanks Hmacs Hcount Hchars Hsize]. unfold read_blacklist.
  apply andb_prop in Hblanks as [Hblanks Hgap]. apply andb_prop in Hblanks as [Hblanks Hg1].
  apply andb_prop in Hblanks as [Hgk Hg0].
  rewrite (proj2 (Z.leb_le _ _) Hsize), andb_true_r.
  rewrite (proj2 (Z.ltb_lt _ _)) by (unfold rules_text; rewrite !length_app; cbn; lia).
  rewrite cut_nul_id by done. unfold bl_section. unfold rules_text in *. rewrite strstr_first by done.
  assert (Hs : BL_KEY ++ COLON :: gk ++ bl_array g0 g1 gap macs ++ post
    = (BL_KEY ++ COLON :: gk ++ 91 :: g0 ++ bl_items gap macs ++ g1) ++ 93 :: post).
  { unfold bl_array. repeat (rewrite <- ?app_assoc; cbn [app]). done. }
  rewrite Hs, split_at_app.
  2:{ repeat first [rewrite elem_of_app|rewrite elem_of_cons].
      intros [H|[H|[H|[H|[H|[H|H]]]]]]; try done.
      - by apply list_elem_of_In in H; repeat destruct H as [?|H].
      - by apply (blanks_no93 gk).
      - by apply (blanks_no93 g0).
      - by apply (bl_items_no93 gap macs).
      - by apply (blanks_no93 g1). }
  rewrite <- (take_ge macs MAX_DEVICES) at 2 by done. f_equal.
  change BL_KEY with (QUOTE :: (str "blacklist" ++ [QUOTE])). cbn [app].
  rewrite bl_scan_quote by done. rewrite <- app_assoc. cbn [app].
  rewrite bl_scan_skip by (by repeat constructor). rewrite bl_scan_quote.
  - change (COLON :: gk ++ 91 :: ?x) with ((COLON :: gk) ++ [91] ++ x).
    rewrite bl_scan_skip by (constructor; [done|apply Forall_forall; intros c Hc; by apply (blanks_ws gk)]).
    rewrite bl_scan_skip by by repeat constructor.
    rewrite bl_scan_skip by (apply Forall_forall; intros c Hc; by apply (blanks_ws g0)).
    by apply bl_scan_items.
  - change (nth 2 (COLON :: ?x) 0) with (nth 1 x 0).
    destruct gk as [|a [|b gk]]; [|done|by apply nth_blanks; [|cbn; lia]].
    cbn [app nth]. destruct g0 as [|a g0].
    + cbn [app]. destruct macs as [|m [|m' macs]]; cbn [bl_items app]; [|done..].
      destruct g1 as [|a g1]; [done|]. by apply (nth_blanks (a :: g1) [] 0); [|cbn; lia].
    + by apply (nth_blanks (a :: g0) _ 0); [|cbn; lia].
Qed.

(** ** Statistics *)

(** The statistics change byte counts only. *)
Definition stats_keeps (P : Device -> Prop) : Prop := forall rx tx d, P d -> P (set_bytes rx tx d).

Lemma stats_line_cases devs line :
  stats_line devs line = devs \/
  exists i d rx tx, devs !! i = Some d /\ stats_line devs line = <[i := set_bytes rx tx d]> devs.
Proof.
  unfold stats_line. destruct (scan_stats line) as [[[ip rx] tx]|]; [|by left].
  destruct (list_find _ devs) as [[i d]|] eqn:E; [|by left].
  apply list_find_Some in E as (Hi & _). right. by exists i, d, rx, tx.
Qed.

Lemma stats_line_ok devs line : table_ok devs -> table_ok (stats_line devs line).
Proof.
  intros Hok. destruct (stats_line_cases devs line) as [->|(i & d & rx & tx & Hi & ->)]; [done|].
  eapply table_ok_insert; try done.
  assert (Hd : dev_ok d) by (eapply Forall_lookup_1; [apply Hok|done]). by destruct Hd.
Qed.

Lemma stats_line_forall P devs line : stats_keeps P -> Forall P devs -> Forall P (stats_line devs line).
Proof.
  intros HP Hall. destruct (stats_line_cases devs line) as [->|(i & d & rx & tx & Hi & ->)]; [done|].
  apply Forall_insert_le; [done|]. by eapply HP, Forall_lookup_1.
Qed.

Lemma update_stats_ok io h : table_ok (g_devs h) -> table_ok (g_devs (update_traffic_stats io h)).
Proof.
  intros Hok. unfold update_traffic_stats. destruct (negb _); [done|]. destruct (_ <? _); [done|].
  destruct (wi_stats_out io); [|done]. cbn [g_devs set_devs set_stats_update]. revert Hok.
  generalize (g_devs h). induction (fgets_lines _ _) as [|line ls IH]; intros devs Hok; cbn; [done|].
  by apply IH, stats_line_ok.
Qed.

Lemma update_stats_forall P io h :
  stats_keeps P -> Forall P (g_devs h) -> Forall P (g_devs (update_traffic_stats io h)).
Proof.
  intros HP Hall. unfold update_traffic_stats. destruct (negb _); [done|]. destruct (_ <? _); [done|].
  destruct (wi_stats_out io); [|done]. cbn [g_devs set_devs set_stats_update]. revert Hall.
  generalize (g_devs h). induction (fgets_lines _ _) as [|line ls IH]; intros devs Hall; cbn; [done|].
  by apply IH, stats_line_forall.
Qed.

(** Whatever does not look at the counts stays. *)
Lemma stats_line_map {B} (f : Device -> B) devs line :
  (forall rx tx d, f (set_bytes rx tx d) = f d) -> map f (stats_line devs line) = map f devs.
Proof.
  intros Hf. destruct (stats_line_cases devs line) as [->|(i & d & rx & tx & Hi & ->)]; [done|].
  change (f <$> <[i:=set_bytes rx tx d]> devs = f <$> devs). rewrite list_fmap_insert, Hf.
  apply list_insert_id. by rewrite list_lookup_fmap, Hi.
Qed.
Lemma update_stats_map {B} (f : Device -> B) io h :
  (forall rx tx d, f (set_bytes rx tx d) = f d) ->
  map f (g_devs (update_traffic_stats io h)) = map f (g_devs h).
Proof.
  intros Hf. unfold update_traffic_stats. destruct (negb _); [done|]. destruct (_ <? _); [done|].
  destruct (wi_stats_out io); [|done]. cbn [g_devs set_devs set_stats_update].
  generalize (g_devs h). induction (fgets_lines _ _) as [|line ls IH]; intros devs; cbn; [done|].
  by rewrite IH, stats_line_map.
Qed.

Lemma text_ok_stats : stats_keeps text_ok.
Proof. by intros rx tx d []. Qed.

Lemma write_json_table io h : table_ok (g_devs h) -> table_ok (g_devs (write_json io h)).
Proof.
  intros Hok. unfold write_json. pose proof (update_stats_ok io h Hok).
  destruct (negb _); [done|]. by destruct (negb _).
Qed.

(** C19: what the daemon writes is what the web page reads.  When the file can be
    written and [rules.json] holds a blacklist (however it is spaced), the new
    [devices.json] parses as JSON to one object per active device, with the
    fields of the table and every hostname exactly as it is stored, whatever
    bytes it has; a device is "blocked" exactly when its MAC is listed.  The
    table counts as saved. *)
Theorem write_json_readable (io : write_io) (h : hstate) (pre gk g0 g1 gap post : bytes) (macs : list bytes) :
  table_ok (g_devs h) -> Forall text_ok (g_devs h) ->
  rules_ok pre gk g0 g1 gap post macs ->
  wi_rules io = Some (rules_text pre gk g0 g1 gap post macs) ->
  wi_open io = true -> wi_room io = None -> wi_rename io = true ->
  let h' := write_json io h in
  (exists file, h_json h' = Some file /\
     parse_json file
     = Some (JObj (map (fun d => (d_mac d, dev_value (bool_decide (d_mac d ∈ macs)) d))
                     (active_devices (g_devs h'))))) /\
  g_devs h' = g_devs (update_traffic_stats io h) /\
  g_dirty h' = false /\ g_last_write h' = wi_now io /\ g_ndev h' = length (active_devices (g_devs h')).
Proof.
  intros Hok Htext Hrules Hio Hopen Hroom Hren h'.
  pose proof (update_stats_ok io h Hok) as Hok'.
  pose proof (update_stats_forall _ io h text_ok_stats Htext) as Htext'.
  subst h'. unfold write_json. rewrite Hopen, Hroom, Hren, Hio, read_blacklist_text by done. cbn [negb written].
  cbn [g_devs h_json g_dirty g_last_write g_ndev]. split_and!; try done.
  eexists. split; [done|]. rewrite devices_file_print by (done || apply Hok').
  by apply parse_print_json, devices_value_ok.
Qed.

(** ** A written file *)

Definition sample_rules : bytes :=
  rules_text (str "{") [32] [] [] [32] (str "}") [str "02:00:00:00:00:09"; str "02:00:00:00:00:01"].
Definition sample_io : write_io :=
  WriteIo true 500 (Some (str "10.0.0.2 1000 -2" ++ [NL])) (Some sample_rules) true None true 501.

Lemma sample_rules_ok :
  rules_ok (str "{") [32] [] [] [32] (str "}") [str "02:00:00:00:00:09"; str "02:00:00:00:00:01"].
Proof.
  split; try by vm_compute.
  - intros [|k] Hk; [by vm_compute|cbn in Hk; lia].
  - apply Nat.leb_le. by vm_compute.
  - apply Forall_forall. intros c Hc.
    assert (H : forallb (fun c => (0 <? c) && (c <? 256)) sample_rules = true) by by vm_compute.
    pose proof (forallb_elem _ _ _ H Hc) as Hx. cbn beta in Hx. bool_simpl. unfold is_cchar. lia.
Qed.

Lemma sample_text_ok d : text_ok d -> Forall text_ok (sample_devs d).
Proof. intros Hd. constructor; [done|]. apply Forall_replicate. split; by try vm_compute. Qed.

Lemma sample_dev_text : text_ok sample_dev.
Proof. split; try by vm_compute. by repeat constructor. Qed.

Lemma write_json_readable_witness :
  exists file, h_json (write_json sample_io (sample_state sample_dev)) = Some file /\
    parse_json file = Some (JObj [(str "02:00:00:00:00:01", dev_value true (set_bytes 1000 (-2) sample_dev))]).
Proof.
  destruct (write_json_readable sample_io (sample_state sample_dev) (str "{") [32] [] [] [32] (str "}")
    [str "02:00:00:00:00:09"; str "02:00:00:00:00:01"]) as [(file & Hj & Hp) _].
  - apply sample_table_ok, sample_dev_ok.
  - apply sample_text_ok, sample_dev_text.
  - apply sample_rules_ok.
  - reflexivity.
  - reflexivity.
  - reflexivity.
  - reflexivity.
  - exists file. split; [exact Hj|]. rewrite Hp. by vm_compute.
Defined.
