(* ===== verification/Neigh.v ===== *)
(** * Where devices come from and go to ([hotspotd.c])

    The scan of [/proc/net/arp], the netlink neighbour messages, the pending
    devices, the answers of the mDNS worker, and the sweep of silent devices. *)
From S2P Require Import Prelude CStr Wire Stdio OuiOverride Oui Helpers HostnameCache MdnsWorker DeviceTable DevicesJson.
Local Open Scope Z_scope.

(** ** [scan_arp] *)

Definition NUD_INCOMPLETE : Z := 1.
Definition NUD_STALE : Z := 4.
Definition NUD_FAILED : Z := 32.
(** REACHABLE, STALE, DELAY, PROBE, PERMANENT and NOARP. *)
Definition NUD_VALID : Z := Z.lor 2 (Z.lor 4 (Z.lor 8 (Z.lor 16 (Z.lor 128 64)))).

Definition ARP_LINE : nat := Z.to_nat 256.
Definition ZERO_MAC : bytes := str "00:00:00:00:00:00".

(** The fields of a line, its filters and the lower case: address, MAC and
    interface; [None] when the line is skipped. *)
Definition arp_entry (line : bytes) : option (bytes * bytes * bytes) :=
  '(ip, r) ← scan_s 15 line;
  '(hw, r) ← scan_s 7 r;
  '(flags, r) ← scan_s 7 r;
  '(mac, r) ← scan_s 17 r;
  '(mask, r) ← scan_s 7 r;
  '(iface, _) ← scan_s 15 r;
  if strcmp_eq flags (str "0x0") then None
  else if strcmp_eq mac ZERO_MAC then None
  else if negb (is_hotspot_iface iface) then None
  else Some (ip, lower mac, iface).

(** The loop over the lines; [env k] is the world while line [k] is handled. *)
Fixpoint arp_lines (env : nat -> world) (k : nat) (lines : list bytes) (h : hstate) (updated : nat)
  : hstate * nat :=
  match lines with
  | [] => (h, updated)
  | line :: lines =>
      match arp_entry line with
      | None => arp_lines env (S k) lines h updated
      | Some (ip, mac, iface) =>
          arp_lines env (S k) lines (device_up (env k) mac ip iface NUD_STALE h) (S updated)
      end
  end.

(** [arp] is the content of [/proc/net/arp], [None] when it cannot be opened; the
    first line is its heading. *)
Definition scan_arp (env : nat -> world) (arp : option bytes) (io : write_io) (h : hstate) : hstate :=
  match arp with
  | None => h
  | Some content =>
      match fgets_lines ARP_LINE content with
      | [] => h
      | _ :: lines =>
          let '(h, updated) := arp_lines env 0 lines h 0 in
          if (0 <? updated)%nat then write_json io (set_dirty true h) else h
      end
  end.

(** ** Netlink messages

    [buf] is the whole receive buffer, [n] the number of bytes received.  A read
    outside of the buffer is [None]. *)

Definition RTM_NEWNEIGH : Z := 28.
Definition RTM_DELNEIGH : Z := 29.
Definition AF_INET : Z := 2.
Definition NDA_DST : Z := 1.
Definition NDA_LLADDR : Z := 2.
Definition NL_BUF : nat := Z.to_nat 8192.

(** [inet_ntop] and the MAC's ["%02x:..."]. *)
Definition inet_ntop (b : bytes) : bytes :=
  match b with
  | [a; b; c; d] => dec a ++ 46 :: dec b ++ 46 :: dec c ++ 46 :: dec d
  | _ => []
  end.
Definition mac_ntop (m : bytes) : bytes :=
  match m with
  | [a; b; c; d; e; f] =>
      hex2 a ++ COLON :: hex2 b ++ COLON :: hex2 c ++ COLON :: hex2 d ++ COLON :: hex2 e ++ COLON :: hex2 f
  | _ => []
  end.

(** One turn of the loop over the attributes: the offset, [rta_len], the address
    and the MAC found so far. *)
Definition rta_state : Type := nat * Z * bytes * bytes.
Definition rta_step (buf : bytes) (s : rta_state) : rta_state + option (bytes * bytes) :=
  let '(off, len, ip, mac) := s in
  if negb (4 <=? len) then inr (Some (ip, mac))
  else
    match rd16 buf off, rd16 buf (off + 2) with
    | Some alen, Some atype =>
        if negb ((4 <=? alen) && (alen <=? len)) then inr (Some (ip, mac))
        else
          let next ip mac := inl ((off + Z.to_nat (align4 alen))%nat, len - align4 alen, ip, mac) in
          if (atype =? NDA_DST) && (alen =? 8) then
            match rd_bytes buf (off + 4) 4 with
            | Some addr => next (inet_ntop addr) mac
            | None => inr None
            end
          else if (atype =? NDA_LLADDR) && (alen =? 10) then
            match rd_bytes buf (off + 4) 6 with
            | Some m => next ip (mac_ntop m)
            | None => inr None
            end
          else next ip mac
    | _, _ => inr None
    end.
Definition rta_loop (buf : bytes) (off : nat) (len : Z) : option (bytes * bytes) :=
  match loop (rta_step buf) (S (length buf)) (off, len, [], []) with
  | Some r => r
  | None => None
  end.

(** What a neighbour message says. *)
Record neigh_msg := NeighMsg {
  nm_type : Z; nm_ifindex : Z; nm_state : Z; nm_ip : bytes; nm_mac : bytes
}.

(** The message at [off]: [Some None] for one that is not an IPv4 neighbour. *)
Definition nl_message (buf : bytes) (off : nat) (len : Z) : option (option neigh_msg) :=
  type ← rd16 buf (off + 4);
  if negb (type =? RTM_NEWNEIGH) && negb (type =? RTM_DELNEIGH) then Some None
  else
    family ← rd8 buf (off + 16);
    if negb (family =? AF_INET) then Some None
    else
      ifindex ← rd32 buf (off + 20);
      state ← rd16 buf (off + 24);
      '(ip, mac) ← rta_loop buf (off + 28) (s32 (len - 28));
      Some (Some (NeighMsg type ifindex state ip mac)).

(** One turn of the loop over the messages.  [NLMSG_OK] sees the number of bytes
    that are left as an [unsigned]. *)
Definition nl_state : Type := nat * Z * list neigh_msg.
Definition nl_step (buf : bytes) (s : nl_state) : nl_state + option (list neigh_msg) :=
  let '(off, n, msgs) := s in
  if negb (16 <=? u32 n) then inr (Some msgs)
  else
    match rd32 buf off with
    | None => inr None
    | Some len =>
        if negb ((16 <=? len) && (len <=? u32 n)) then inr (Some msgs)
        else
          match nl_message buf off len with
          | None => inr None
          | Some m => inl ((off + Z.to_nat (align4 len))%nat, n - align4 len,
                           msgs ++ match m with Some m => [m] | None => [] end)
          end
    end.
Definition nl_messages (buf : bytes) (n : Z) : option (list neigh_msg) :=
  match loop (nl_step buf) (S (length buf)) (0%nat, n, []) with
  | Some r => r
  | None => None
  end.

(** The effect of one message; [ifname] is [if_indextoname], empty on failure. *)
Definition neigh_apply (ifname : Z -> bytes) (w : world) (m : neigh_msg) (h : hstate) : hstate :=
  let iface := ifname (nm_ifindex m) in
  if negb (is_hotspot_iface iface) then h
  else if bool_decide (nm_ip m = []) || bool_decide (nm_mac m = []) then h
  else if (nm_type m =? RTM_DELNEIGH) || (Z.land (nm_state m) NUD_VALID =? 0) then
    match find_device (nm_mac m) (g_devs h) with
    | None => h
    | Some (i, d) =>
        if negb (Z.land (nm_state m) (Z.lor NUD_FAILED NUD_INCOMPLETE) =? 0)
        then set_event (w_now w) (set_devs (<[i := set_inactive d]> (g_devs h)) h)
        else h
    end
  else set_event (w_now w) (device_up w (nm_mac m) (nm_ip m) iface (nm_state m) h).

(** The outcomes of [recv]: a datagram with the buffer and the worlds of its
    messages, nothing left, an overflow, another error, the end. *)
Inductive recv_ev :=
  | RecvData (buf : bytes) (n : Z) (env : nat -> world)
  | RecvAgain | RecvNobufs | RecvError | RecvEnd.

Fixpoint neigh_all (ifname : Z -> bytes) (env : nat -> world) (k : nat) (msgs : list neigh_msg) (h : hstate)
  : hstate :=
  match msgs with
  | [] => h
  | m :: msgs => neigh_all ifname env (S k) msgs (neigh_apply ifname (env k) m h)
  end.

(** [nl_process]: it receives until nothing is left. *)
Fixpoint nl_process (ifname : Z -> bytes) (evs : list recv_ev) (h : hstate) : option hstate :=
  match evs with
  | RecvData buf n env :: evs =>
      msgs ← nl_messages buf n;
      nl_process ifname evs (neigh_all ifname env 0 msgs h)
  | RecvNobufs :: _ => Some (set_need_scan true h)
  | _ => Some h
  end.

(** ** [process_pending_mdns] *)

Definition is_ready (now : Z) (d : Device) : bool :=
  d_active d && hnc_pending_ready (Some (d_hostname_src d)) (d_pending_since d) now.

(** The loop: the slot of [oldest] and its [pending_since]. *)
Fixpoint oldest_pending (now : Z) (devs : list Device) (i : nat) (oldest : option (nat * Z)) : option nat :=
  match devs with
  | [] => fst <$> oldest
  | d :: devs =>
      if negb (is_ready now d) then oldest_pending now devs (S i) oldest
      else match oldest with
           | None => oldest_pending now devs (S i) (Some (i, d_pending_since d))
           | Some (_, since) =>
               if d_pending_since d <? since
               then oldest_pending now devs (S i) (Some (i, d_pending_since d))
               else oldest_pending now devs (S i) oldest
           end
  end.

Definition NEW_SRC_LEN : nat := 32.

Definition process_pending_mdns (w : world) (h : hstate) : hstate :=
  let now := w_now w in
  match oldest_pending now (g_devs h) 0 None with
  | None => h
  | Some i =>
      let d := g_devs h !!! i in
      let '(new_hn, new_src, h) := resolve_hostname_dhcp_only w (d_mac d) HN_LEN NEW_SRC_LEN h in
      let d := set_resolve_times now 0 (set_name (c_trunc HN_LEN new_hn) (c_trunc HN_SRC_LEN new_src) d) in
      set_event now (set_devs (<[i := d]> (g_devs h)) h)
  end.

(** ** The answers of the mDNS worker *)

Definition apply_result (w : world) (r : hnc_mdns_result) (h : hstate) : hstate :=
  match find_device (r_mac r) (g_devs h) with
  | None => h
  | Some (i, d) =>
      if negb (strcmp_eq (d_hostname_src d) (str "pending")) then h
      else if negb (r_success r =? 0) then
        let d := set_name (c_trunc HN_LEN (r_hostname r)) (c_trunc HN_SRC_LEN (str "mdns")) d in
        let c := (hnc_cache_update (d_mac d) (d_hostname d) (str "mdns") (w_cache_now w) (h_cache h)).2 in
        set_event (w_now w) (set_cache c (set_devs (<[i := d]> (g_devs h)) h))
      else
        let d := set_name (default [] (hnc_mac_fallback (d_mac d) HN_LEN))
                   (c_trunc HN_SRC_LEN (str "mac")) d in
        set_event (w_now w) (set_devs (<[i := d]> (g_devs h)) h)
  end.

Fixpoint apply_results (env : nat -> world) (k : nat) (rs : list hnc_mdns_result) (h : hstate) : hstate :=
  match rs with
  | [] => h
  | r :: rs => apply_results env (S k) rs (apply_result (env k) r h)
  end.

(** The drain of the main loop. *)
Definition drain_mdns (env : nat -> world) (h : hstate) : hstate :=
  let '(rs, m) := hnc_mdns_worker_drain_results (Z.of_nat HNC_MDNS_QUEUE_SIZE) (h_worker h) in
  apply_results env 0 rs (set_mdns m h).

(** ** The sweep *)

Definition OFFLINE_CHECK_INTERVAL : Z := 30.
Definition OFFLINE_THRESHOLD : Z := 90.

Definition is_silent (now : Z) (d : Device) : bool :=
  d_active d && (OFFLINE_THRESHOLD <? now - d_last_seen d).
Definition sweep_device (now : Z) (d : Device) : Device := if is_silent now d then set_inactive d else d.

(** The sweep at [now], with the time of the last one. *)
Definition offline_sweep (now last_check : Z) (h : hstate) : hstate * Z :=
  if OFFLINE_CHECK_INTERVAL <=? now - last_check then
    let evicted := length (filter (fun d => is_silent now d = true) (g_devs h)) in
    let h := set_devs (map (sweep_device now) (g_devs h)) h in
    (if (0 <? evicted)%nat then set_event now h else h, now)
  else (h, last_check).
