(* ===== verification/NeighSpec.v ===== *)
(** * Netlink datagrams and the table

    A datagram of neighbour messages is decoded to what the kernel put in, without
    a look at anything behind it. *)
From S2P Require Import Prelude CStr Wire Stdio OuiOverride Oui Helpers HostnameCache MdnsWorker DeviceTable.
From S2P Require Import DeviceSpec DevicesJson Neigh.
Local Open Scope Z_scope.
#[local] Arguments c_trunc : simpl never.

(** ** What the kernel sends *)

(** The address and the MAC of a message: the last attributes of the right size. *)
Definition attr_step (acc : bytes * bytes) (a : Z * bytes) : bytes * bytes :=
  if (a.1 =? NDA_DST) && (length a.2 =? 4)%nat then (inet_ntop a.2, acc.2)
  else if (a.1 =? NDA_LLADDR) && (length a.2 =? 6)%nat then (acc.1, mac_ntop a.2)
  else acc.

Lemma rta_loop_step buf off rest a ip mac :
  attr_ok a -> at_off buf off (enc_attr a) -> 0 <= rest ->
  rta_step buf (off, Z.of_nat (length (enc_attr a)) + rest, ip, mac)
  = let acc := attr_step (ip, mac) a in inl ((off + length (enc_attr a))%nat, rest, acc.1, acc.2).
Proof.
  intros Ha Hat Hrest. pose proof (enc_attr_length a Ha) as Hlen.
  pose proof Hat as H. unfold enc_attr in H.
  apply at_off_app in H as [H0 H]. change (length (le16 _)) with 2%nat in H.
  apply at_off_app in H as [H2 H]. change (length (le16 _)) with 2%nat in H.
  apply at_off_app in H as [H4 _].
  assert (Hge : 4 + Z.of_nat (length a.2) <= Z.of_nat (length (enc_attr a))).
  { unfold enc_attr. rewrite !length_app. change (length (le16 _)) with 2%nat. lia. }
  unfold rta_step. rewrite (proj2 (Z.leb_le 4 _)) by lia. cbn [negb].
  rewrite (rd16_at _ _ _ H0), (rd16_at _ _ _ H2).
  rewrite (proj2 (Z.leb_le 4 _)), (proj2 (Z.leb_le _ (_ + rest))) by lia. cbn [andb negb].
  rewrite Hlen, Nat2Z.id. replace (Z.of_nat (length (enc_attr a)) + rest - Z.of_nat (length (enc_attr a))) with rest by lia.
  replace (off + 2 + 2)%nat with (off + 4)%nat in H4 by lia.
  assert (Hn : forall k, (4 + Z.of_nat (length a.2) =? 4 + Z.of_nat k) = (length a.2 =? k)%nat).
  { intros k. destruct (Nat.eqb_spec (length a.2) k); [apply Z.eqb_eq; lia|apply Z.eqb_neq; lia]. }
  unfold attr_step. rewrite <- (Hn 4%nat), <- (Hn 6%nat).
  change (4 + Z.of_nat 4) with 8. change (4 + Z.of_nat 6) with 10.
  destruct (a.1 =? NDA_DST) eqn:E1; [destruct (4 + Z.of_nat (length a.2) =? 8) eqn:E2|]; cbn [andb].
  - bool_simpl. assert (Hl : length a.2 = 4%nat) by lia.
    apply rd_bytes_at in H4; [|by destruct a.2]. rewrite Hl in H4. by rewrite H4.
  - bool_simpl. rewrite E1. done.
  - destruct (a.1 =? NDA_LLADDR) eqn:E3; [destruct (4 + Z.of_nat (length a.2) =? 10) eqn:E4|]; cbn [andb]; try done.
    bool_simpl. assert (Hl : length a.2 = 6%nat) by lia.
    apply rd_bytes_at in H4; [|by destruct a.2]. rewrite Hl in H4. by rewrite H4.
Qed.

Lemma rta_loop_enc buf attrs : forall off ip mac fuel,
  Forall attr_ok attrs -> at_off buf off (enc_attrs attrs) -> (length attrs < fuel)%nat ->
  loop (rta_step buf) fuel (off, Z.of_nat (length (enc_attrs attrs)), ip, mac)
  = Some (Some (fold_left attr_step attrs (ip, mac))).
Proof.
  induction attrs as [|a attrs IH]; intros off ip mac fuel Hok Hat Hfuel;
    (destruct fuel as [|fuel]; [lia|]); rewrite loop_S; [done|].
  apply Forall_cons in Hok as [Ha Hok]. unfold enc_attrs in *. cbn [map concat] in *.
  apply at_off_app in Hat as [Ha' Hat]. rewrite length_app, Nat2Z.inj_add.
  rewrite rta_loop_step by (done || lia). cbn [length] in Hfuel. cbn [fold_left].
  destruct (attr_step (ip, mac) a) as [ip' mac']. apply IH; [done|done|lia].
Qed.

(** A neighbour message, or any other one: the type, what stands between the type
    and the payload (10 bytes), the payload. *)
Inductive nlmsg :=
  | NlNeigh (type : Z) (hdr : bytes) (family : Z) (pad : bytes) (ifindex state : Z) (flags : bytes)
      (attrs : list (Z * bytes))
  | NlOther (type : Z) (hdr payload : bytes).

Definition enc_payload (m : nlmsg) : bytes :=
  match m with
  | NlNeigh _ _ family pad ifindex state flags attrs =>
      family :: pad ++ le32 ifindex ++ le16 state ++ flags ++ enc_attrs attrs
  | NlOther _ _ payload => payload
  end.
Definition nl_len (m : nlmsg) : Z := 16 + Z.of_nat (length (enc_payload m)).
Definition enc_head (m : nlmsg) : bytes :=
  match m with NlNeigh type hdr _ _ _ _ _ _ | NlOther type hdr _ => le32 (nl_len m) ++ le16 type ++ hdr end.
Definition enc_msg (m : nlmsg) : bytes := enc_head m ++ enc_payload m.

Definition nlmsg_ok (m : nlmsg) : Prop :=
  match m with
  | NlNeigh type hdr _ pad _ _ flags attrs =>
      (type = RTM_NEWNEIGH \/ type = RTM_DELNEIGH) /\ length hdr = 10%nat /\ length pad = 3%nat /\
      length flags = 2%nat /\ Forall attr_ok attrs
  | NlOther type hdr payload =>
      type <> RTM_NEWNEIGH /\ type <> RTM_DELNEIGH /\ length hdr = 10%nat /\
      Z.of_nat (length payload) mod 4 = 0
  end.

(** What a message says to the daemon. *)
Definition nl_meaning (m : nlmsg) : option neigh_msg :=
  match m with
  | NlNeigh type _ family _ ifindex state _ attrs =>
      if family =? AF_INET then
        let r := fold_left attr_step attrs ([], []) in Some (NeighMsg type ifindex state r.1 r.2)
      else None
  | NlOther _ _ _ => None
  end.

Definition datagram (ms : list nlmsg) : bytes := concat (map enc_msg ms).

Lemma enc_attrs_mod attrs : Forall attr_ok attrs -> Z.of_nat (length (enc_attrs attrs)) mod 4 = 0.
Proof.
  unfold enc_attrs. induction 1 as [|a attrs Ha _ IH]; [done|]. cbn [map concat].
  rewrite length_app, Nat2Z.inj_add, <- enc_attr_length by done. unfold attr_ok in Ha.
  rewrite align4_spec by lia. Z.to_euclidean_division_equations. lia.
Qed.

Lemma enc_attrs_count attrs : (4 * length attrs <= length (enc_attrs attrs))%nat.
Proof.
  unfold enc_attrs. induction attrs as [|a attrs IH]; [done|]. cbn [map concat length].
  rewrite length_app. unfold enc_attr at 1. rewrite !length_app. change (length (le16 _)) with 2%nat. lia.
Qed.

Lemma nl_len_enc m : nlmsg_ok m -> Z.of_nat (length (enc_msg m)) = nl_len m /\ nl_len m mod 4 = 0.
Proof.
  intros Hok. unfold enc_msg, nl_len. rewrite length_app.
  destruct m as [type hdr family pad ifindex state flags attrs|type hdr payload]; cbn [enc_head enc_payload nlmsg_ok] in *.
  - destruct Hok as (_ & Hh & Hp & Hf & Ha). apply enc_attrs_mod in Ha.
    rewrite length_cons, !length_app, Hh, Hp, Hf. change (length (le16 _)) with 2%nat.
    change (length (le32 _)) with 4%nat. Z.to_euclidean_division_equations. lia.
  - destruct Hok as (_ & _ & Hh & Hp). rewrite !length_app, Hh.
    change (length (le16 _)) with 2%nat. change (length (le32 _)) with 4%nat.
    Z.to_euclidean_division_equations. lia.
Qed.

(** One message is decoded to its meaning. *)
Lemma nl_message_enc buf off m :
  nlmsg_ok m -> nl_len m < 2 ^ 31 -> (off + length (enc_msg m) <= length buf)%nat ->
  at_off buf off (enc_msg m) ->
  rd32 buf off = Some (nl_len m) /\ nl_message buf off (nl_len m) = Some (nl_meaning m).
Proof.
  intros Hok Hlen Hbuf Hat. pose proof (nl_len_enc m Hok) as [Hl _].
  unfold enc_msg in Hat. apply at_off_app in Hat as [Hh Hp].
  assert (Hhl : length (enc_head m) = 16%nat).
  { destruct m; cbn [nlmsg_ok enc_head] in *; rewrite !length_app; change (length (le16 _)) with 2%nat;
      change (length (le32 _)) with 4%nat; destruct_and!; lia. }
  rewrite Hhl in Hp. unfold nl_message.
  destruct m as [type hdr family pad ifindex state flags attrs|type hdr payload];
    cbn [nlmsg_ok enc_head enc_payload nl_meaning] in *;
    apply at_off_app in Hh as [H0 Hh]; change (length (le32 _)) with 4%nat in Hh;
    apply at_off_app in Hh as [H4 _]; rewrite (rd32_at _ _ _ H0), (rd16_at _ _ _ H4); (split; [done|]);
    cbn [mbind option_bind].
  - destruct Hok as (Ht & Hh' & Hpad & Hf & Ha).
    assert (Hneq : negb (type =? RTM_NEWNEIGH) && negb (type =? RTM_DELNEIGH) = false).
    { by destruct Ht as [->| ->]. }
    rewrite Hneq. change (family :: ?x) with ([family] ++ x) in Hp.
    apply at_off_app in Hp as [Hfam Hp]. cbn [length] in Hp. rewrite (rd8_at _ _ _ Hfam).
    cbn [mbind option_bind].
    destruct (family =? AF_INET); cbn [negb]; [|done].
    apply at_off_app in Hp as [_ Hp]. rewrite Hpad in Hp.
    apply at_off_app in Hp as [Hif Hp]. change (length (le32 _)) with 4%nat in Hp.
    apply at_off_app in Hp as [Hst Hp]. change (length (le16 _)) with 2%nat in Hp.
    apply at_off_app in Hp as [_ Hp]. rewrite Hf in Hp.
    replace (off + 16 + 1 + 3)%nat with (off + 20)%nat in * by lia.
    replace (off + 20 + 4)%nat with (off + 24)%nat in * by lia.
    replace (off + 24 + 2 + 2)%nat with (off + 28)%nat in Hp by lia.
    rewrite (rd32_at _ _ _ Hif). cbn [mbind option_bind].
    rewrite (rd16_at _ _ _ Hst). cbn [mbind option_bind].
    assert (Hrest : nl_len (NlNeigh type hdr family pad ifindex state flags attrs) - 28
                    = Z.of_nat (length (enc_attrs attrs))).
    { unfold nl_len. cbn [enc_payload]. rewrite length_cons, !length_app, Hpad, Hf.
      change (length (le16 _)) with 2%nat. change (length (le32 _)) with 4%nat. lia. }
    rewrite Hrest. pose proof (enc_attrs_count attrs) as Hcount.
    assert (Hs : s32 (Z.of_nat (length (enc_attrs attrs))) = Z.of_nat (length (enc_attrs attrs))).
    { unfold s32. rewrite u32_small by lia. by rewrite (proj2 (Z.ltb_lt _ _)) by lia. }
    rewrite Hs. unfold rta_loop. rewrite rta_loop_enc by (done || lia). cbn [mbind option_bind].
    by destruct (fold_left attr_step attrs ([], [])).
  - destruct Hok as (H1 & H2 & _).
    by rewrite (proj2 (Z.eqb_neq _ _) H1), (proj2 (Z.eqb_neq _ _) H2).
Qed.

Lemma nl_loop_enc buf ms : forall off acc fuel,
  Forall nlmsg_ok ms -> Z.of_nat (length (datagram ms)) < 2 ^ 31 ->
  (off + length (datagram ms) <= length buf)%nat -> at_off buf off (datagram ms) -> (length ms < fuel)%nat ->
  loop (nl_step buf) fuel (off, Z.of_nat (length (datagram ms)), acc)
  = Some (Some (acc ++ omap nl_meaning ms)).
Proof.
  induction ms as [|m ms IH]; intros off acc fuel Hok Hsize Hbuf Hat Hfuel;
    (destruct fuel as [|fuel]; [lia|]); rewrite loop_S; [by rewrite app_nil_r|].
  apply Forall_cons in Hok as [Hm Hok]. unfold datagram in *. cbn [map concat] in *.
  rewrite length_app in *. apply at_off_app in Hat as [Hat Hrest].
  pose proof (nl_len_enc m Hm) as [Hl Hmod].
  assert (Hge : 16 <= nl_len m) by (unfold nl_len; lia).
  destruct (nl_message_enc buf off m Hm ltac:(lia) ltac:(lia) Hat) as [Hrd Hmsg].
  unfold nl_step. rewrite Nat2Z.inj_add, Hl, u32_small by lia.
  rewrite (proj2 (Z.leb_le 16 _)) by lia. cbn [negb]. rewrite Hrd.
  rewrite (proj2 (Z.leb_le 16 _)), (proj2 (Z.leb_le _ (_ + _))) by lia. cbn [andb negb].
  rewrite Hmsg. rewrite align4_spec by lia.
  replace ((nl_len m + 3) / 4 * 4) with (nl_len m) by (Z.to_euclidean_division_equations; lia).
  replace (nl_len m + Z.of_nat (length (concat (map enc_msg ms))) - nl_len m)
    with (Z.of_nat (length (concat (map enc_msg ms)))) by lia.
  rewrite <- Hl, Nat2Z.id. cbn [length] in Hfuel.
  rewrite IH by (done || lia). rewrite <- app_assoc. cbn [omap list_omap].
  by destruct (nl_meaning m).
Qed.

Lemma datagram_count ms : Forall nlmsg_ok ms -> (length ms <= length (datagram ms))%nat.
Proof.
  unfold datagram. induction 1 as [|m ms Hm _ IH]; [done|]. cbn [map concat length]. rewrite length_app.
  pose proof (nl_len_enc m Hm) as [Hl _]. unfold nl_len in Hl. lia.
Qed.

(** C9: netlink datagrams are decoded exactly and without a look behind their end.
    For every datagram of well-formed messages (neighbour messages with any
    attributes in any order, and messages of any other type, each padded to four
    bytes) and whatever is left in the receive buffer behind it, no read is out of
    the buffer and the result is, in order, what the IPv4 neighbour messages say:
    interface, state, and the last address and MAC attribute of the right size. *)
Theorem nl_messages_exact (ms : list nlmsg) (stale : bytes) :
  Forall nlmsg_ok ms -> Z.of_nat (length (datagram ms)) < 2 ^ 31 ->
  nl_messages (datagram ms ++ stale) (Z.of_nat (length (datagram ms))) = Some (omap nl_meaning ms).
Proof.
  intros Hok Hsize. unfold nl_messages. pose proof (datagram_count ms Hok).
  assert (Hlen : length (datagram ms ++ stale) = (length (datagram ms) + length stale)%nat)
    by apply length_app.
  rewrite nl_loop_enc; [done|done|lia|lia|by exists stale|lia].
Qed.

(** A datagram that ends inside a word makes the count of the bytes left negative,
    which [NLMSG_OK] reads as a huge unsigned number: an old message that is still
    in the buffer is processed again. *)
Definition old_message : nlmsg :=
  NlNeigh RTM_NEWNEIGH (replicate 10 0) AF_INET [0; 0; 0] 7 2 [0; 0]
    [(NDA_DST, [10; 0; 0; 9]); (NDA_LLADDR, [2; 0; 0; 0; 0; 9])].
Lemma nl_unaligned_overrun :
  let received := le32 18 ++ le16 3 ++ replicate 12 0 in
  let buf := received ++ [0; 0] ++ enc_msg old_message ++ replicate 16 0 in
  length received = 18%nat /\
  nl_messages buf 18 = Some [NeighMsg RTM_NEWNEIGH 7 2 (str "10.0.0.9") (str "02:00:00:00:00:09")].
Proof. split; by vm_compute. Qed.

Lemma nl_messages_exact_witness :
  let ms := [NlOther 3 (replicate 10 0) []; old_message] in
  nl_messages (datagram ms ++ [1; 2; 3]) (Z.of_nat (length (datagram ms)))
  = Some [NeighMsg RTM_NEWNEIGH 7 2 (str "10.0.0.9") (str "02:00:00:00:00:09")].
Proof.
  intros ms. etransitivity; [apply (nl_messages_exact ms)|by vm_compute].
  - repeat constructor; by vm_compute.
  - by vm_compute.
Defined.

(** ** MACs of messages and of lines fit the table *)

Lemma mac_ntop_length m : (length (mac_ntop m) < MAC_STR_LEN)%nat.
Proof.
  apply Nat.ltb_lt. destruct m as [|a [|b [|c [|d [|e [|f [|g m]]]]]]]; by vm_compute.
Qed.

Lemma rta_loop_mac buf off len r :
  rta_loop buf off len = Some r -> (length r.2 < MAC_STR_LEN)%nat.
Proof.
  unfold rta_loop. destruct (loop _ _ _) as [o|] eqn:E; [|done]. intros ->.
  enough (H : forall x, Some r = Some x -> (length x.2 < MAC_STR_LEN)%nat) by by apply H.
  refine (loop_inv (rta_step buf) (fun s => (length s.2 < MAC_STR_LEN)%nat)
    (fun o => forall x, o = Some x -> (length x.2 < MAC_STR_LEN)%nat) _ _ _ _ _ _ E).
  - intros [[[off1 len1] ip1] mac1] s' Hm. unfold rta_step. destruct (negb _); [done|].
    destruct (rd16 buf off1) as [alen|]; [|done]. destruct (rd16 buf (off1 + 2)) as [atype|]; [|done].
    destruct (negb _); [done|]. destruct (_ && _); [destruct (rd_bytes _ _ _); [|done]; by intros [= <-]|].
    destruct (_ && _); [destruct (rd_bytes _ _ _); [|done]; intros [= <-]; apply mac_ntop_length|by intros [= <-]].
  - intros [[[off1 len1] ip1] mac1] o Hm. unfold rta_step. destruct (negb _); [intros [= <-] x [= <-]; done|].
    destruct (rd16 buf off1) as [alen|]; [|by intros [= <-]].
    destruct (rd16 buf (off1 + 2)) as [atype|]; [|by intros [= <-]].
    destruct (negb _); [intros [= <-] x [= <-]; done|].
    destruct (_ && _); [destruct (rd_bytes _ _ _); [done|by intros [= <-]]|].
    destruct (_ && _); [destruct (rd_bytes _ _ _); [done|by intros [= <-]]|done].
  - apply Nat.ltb_lt. by vm_compute.
Qed.

Definition msg_mac_ok (m : neigh_msg) : Prop := (length (nm_mac m) < MAC_STR_LEN)%nat.

Lemma nl_message_mac buf off len m : nl_message buf off len = Some (Some m) -> msg_mac_ok m.
Proof.
  unfold nl_message, msg_mac_ok. destruct (rd16 buf (off + 4)); cbn [mbind option_bind]; [|done].
  destruct (_ && _); [done|]. destruct (rd8 buf (off + 16)); cbn [mbind option_bind]; [|done].
  destruct (negb _); [done|]. destruct (rd32 buf (off + 20)); cbn [mbind option_bind]; [|done].
  destruct (rd16 buf (off + 24)); cbn [mbind option_bind]; [|done].
  destruct (rta_loop buf (off + 28) _) as [[ip mac]|] eqn:E; cbn [mbind option_bind]; [|done].
  intros [= <-]. by apply rta_loop_mac in E.
Qed.

Lemma nl_messages_mac buf n msgs : nl_messages buf n = Some msgs -> Forall msg_mac_ok msgs.
Proof.
  unfold nl_messages. destruct (loop _ _ _) as [o|] eqn:E; [|done]. intros ->.
  enough (H : forall x, Some msgs = Some x -> Forall msg_mac_ok x) by by apply H.
  refine (loop_inv (nl_step buf) (fun s => Forall msg_mac_ok s.2)
    (fun o => forall x, o = Some x -> Forall msg_mac_ok x) _ _ _ _ _ _ E); [| |by constructor].
  - intros [[off n1] acc] s' Hacc. unfold nl_step. destruct (negb _); [done|].
    destruct (rd32 buf off) as [len|]; [|done]. destruct (negb _); [done|].
    destruct (nl_message buf off len) as [[m|]|] eqn:Em; [| |done]; intros [= <-]; cbn [snd] in *.
    + apply Forall_app. split; [done|]. apply Forall_singleton. by eapply nl_message_mac.
    + by rewrite app_nil_r.
  - intros [[off n1] acc] o Hacc. unfold nl_step. destruct (negb _); [intros [= <-] x [= <-]; done|].
    destruct (rd32 buf off) as [len|]; [|by intros [= <-]].
    destruct (negb _); [intros [= <-] x [= <-]; done|].
    by destruct (nl_message buf off len); [|intros [= <-]].
Qed.

Lemma arp_entry_mac line ip mac iface : arp_entry line = Some (ip, mac, iface) -> (length mac < MAC_STR_LEN)%nat.
Proof.
  unfold arp_entry. destruct (scan_s 15 line) as [[ip' r1]|]; cbn [mbind option_bind]; [|done].
  destruct (scan_s 7 r1) as [[hw r2]|]; cbn [mbind option_bind]; [|done].
  destruct (scan_s 7 r2) as [[flags r3]|]; cbn [mbind option_bind]; [|done].
  destruct (scan_s 17 r3) as [[mac' r4]|] eqn:E; cbn [mbind option_bind]; [|done].
  destruct (scan_s 7 r4) as [[mask r5]|]; cbn [mbind option_bind]; [|done].
  destruct (scan_s 15 r5) as [[iface' r6]|]; cbn [mbind option_bind]; [|done].
  repeat (case_goal; [done|]). intros [= <- <- <-]. apply scan_s_length in E as [_ E].
  unfold lower. rewrite length_map. unfold MAC_STR_LEN. lia.
Qed.

(** ** The operations keep the table well formed *)

Lemma device_up_ok w mac ip iface nud h :
  table_ok (g_devs h) -> (length mac < MAC_STR_LEN)%nat -> table_ok (g_devs (device_up w mac ip iface nud h)).
Proof.
  intros Hok Lm. destruct (device_up_slot w mac ip iface nud h Hok Lm) as (i & old & d & c & m & ? & ? & ? & _ & ->).
  cbn [g_devs set_devs]. eapply up_table_ok; try done. by apply set_link_ok.
Qed.

Lemma find_device_lookup mac devs i d : find_device mac devs = Some (i, d) -> devs !! i = Some d /\ d_active d = true.
Proof.
  intros (Hi & Hh & _)%list_find_Some. split; [done|]. unfold dev_hit in Hh. by apply andb_prop in Hh as [? _].
Qed.

Lemma rename_ok devs i old d :
  table_ok devs -> devs !! i = Some old -> d_mac d = d_mac old -> d_active d = d_active old -> dev_ok d ->
  table_ok (<[i := d]> devs).
Proof. intros. eapply table_ok_insert; try done. congruence. Qed.

Lemma table_dev_ok devs i d : table_ok devs -> devs !! i = Some d -> dev_ok d.
Proof. intros Hok Hi. eapply Forall_lookup_1; [apply Hok|done]. Qed.

Lemma neigh_apply_ok ifname w m h :
  table_ok (g_devs h) -> msg_mac_ok m -> table_ok (g_devs (neigh_apply ifname w m h)).
Proof.
  intros Hok Lm. unfold neigh_apply. destruct (negb _); [done|]. destruct (_ || _); [done|].
  destruct (_ || _).
  - destruct (find_device _ _) as [[i d]|] eqn:E; [|done]. destruct (negb _); [|done].
    apply find_device_lookup in E as [Hi Ha]. cbn [g_devs set_event set_devs].
    eapply table_ok_insert; try done. by apply set_inactive_ok, (table_dev_ok (g_devs h) i).
  - by apply device_up_ok.
Qed.

Lemma arp_lines_ok env lines : forall k h n,
  table_ok (g_devs h) -> table_ok (g_devs (arp_lines env k lines h n).1).
Proof.
  induction lines as [|line lines IH]; intros k h n Hok; cbn [arp_lines]; [done|].
  destruct (arp_entry line) as [[[ip mac] iface]|] eqn:E; [|by apply IH].
  apply IH, device_up_ok; [done|]. by eapply arp_entry_mac.
Qed.
