(* ===== verification/DeviceFlow.v ===== *)
(** * Pending devices, mDNS answers and departures

    Every pending device is resolved after at most as many turns as there are
    pending devices; an mDNS answer reaches exactly a device that is still pending;
    devices leave the table exactly when they failed or fell silent. *)
From S2P Require Import Prelude CStr Stdio Slots OuiOverride Oui Helpers HostnameCache MdnsWorker DeviceTable.
From S2P Require Import DeviceSpec DevicesJson DevicesJsonSpec Neigh NeighSpec.
Local Open Scope Z_scope.
#[local] Arguments c_trunc : simpl never.

(** ** The choice of the oldest pending device *)

Definition is_pending (d : Device) : bool := d_active d && strcmp_eq (d_hostname_src d) (str "pending").

Lemma is_ready_spec now d :
  is_ready now d = true <-> is_pending d = true /\ HNC_PENDING_BREATHING_ROOM_SEC <= now - d_pending_since d.
Proof.
  unfold is_ready, is_pending, hnc_pending_ready. destruct (d_active d); cbn [andb]; [|naive_solver].
  destruct (strcmp_eq _ _); cbn [negb]; [|naive_solver].
  destruct (_ <? _) eqn:E; bool_simpl; [split; [done|lia]|done].
Qed.

Lemma oldest_pending_spec now l : forall i best,
  match oldest_pending now l i best with
  | None => best = None /\ forall d, d ∈ l -> is_ready now d = false
  | Some k =>
      (exists s, best = Some (k, s) /\ forall d, d ∈ l -> is_ready now d = true -> s <= d_pending_since d) \/
      (exists d, l !! (k - i)%nat = Some d /\ (i <= k)%nat /\ is_ready now d = true /\
         (forall d', d' ∈ l -> is_ready now d' = true -> d_pending_since d <= d_pending_since d') /\
         forall j s, best = Some (j, s) -> d_pending_since d < s)
  end.
Proof.
  induction l as [|d l IH]; intros i best; cbn [oldest_pending].
  { destruct best as [[k s]|]; cbn; [left; exists s|]; (split; [done|]); by intros ? ?%elem_of_nil. }
  assert (Hshift : forall k x, l !! (k - S i)%nat = Some x -> (S i <= k)%nat -> (d :: l) !! (k - i)%nat = Some x).
  { intros k x Hx Hk. replace (k - i)%nat with (S (k - S i)) by lia. done. }
  destruct (is_ready now d) eqn:Er; cbn [negb].
  - assert (Htake : match oldest_pending now l (S i) (Some (i, d_pending_since d)) with
      | None => False
      | Some k => exists x, (d :: l) !! (k - i)%nat = Some x /\ (i <= k)%nat /\ is_ready now x = true /\
          (forall d', d' ∈ d :: l -> is_ready now d' = true -> d_pending_since x <= d_pending_since d') /\
          d_pending_since x <= d_pending_since d
      end).
    { specialize (IH (S i) (Some (i, d_pending_since d))).
      destruct (oldest_pending _ _ _ _) as [k|]; [|by destruct IH].
      destruct IH as [(s & [= <- <-] & Hmin)|(x & Hx & Hk & Hr & Hmin & Hlt)].
      - exists d. rewrite Nat.sub_diag. split_and!; [done|lia|done| |lia].
        intros d' [->|Hd']%elem_of_cons Hr; [lia|by apply Hmin].
      - specialize (Hlt _ _ eq_refl). exists x. split_and!; [by apply Hshift|lia|done| |lia].
        intros d' [->|Hd']%elem_of_cons Hr'; [lia|by apply Hmin]. }
    destruct best as [[j s]|].
    + destruct (d_pending_since d <? s) eqn:E; bool_simpl.
      * destruct (oldest_pending _ _ _ _) as [k|]; [|done]. right.
        destruct Htake as (x & Hx & Hk & Hr & Hmin & Hle). exists x. split_and!; try done.
        intros ? ? [= <- <-]. lia.
      * specialize (IH (S i) (Some (j, s))). destruct (oldest_pending _ _ _ _) as [k|]; [|by destruct IH].
        destruct IH as [(s' & [= <- <-] & Hmin)|(x & Hx & Hk & Hr & Hmin & Hlt)].
        -- left. exists s. split; [done|]. intros d' [->|Hd']%elem_of_cons Hr; [lia|by apply Hmin].
        -- right. exists x. specialize (Hlt _ _ eq_refl). split_and!; [by apply Hshift|lia|done| |].
           ++ intros d' [->|Hd']%elem_of_cons Hr'; [lia|by apply Hmin].
           ++ by intros ? ? [= <- <-].
    + destruct (oldest_pending _ _ _ _) as [k|]; [|done]. right.
      destruct Htake as (x & Hx & Hk & Hr & Hmin & Hle). by exists x.
  - specialize (IH (S i) best). destruct (oldest_pending _ _ _ _) as [k|].
    + destruct IH as [(s & Hb & Hmin)|(x & Hx & Hk & Hr & Hmin & Hlt)].
      * left. exists s. split; [done|]. intros d' [->|Hd']%elem_of_cons Hr; [congruence|by apply Hmin].
      * right. exists x. split_and!; [by apply Hshift|lia|done| |done].
        intros d' [->|Hd']%elem_of_cons Hr'; [congruence|by apply Hmin].
    + destruct IH as [Hb Hn]. split; [done|]. intros d' [->|Hd']%elem_of_cons; [done|by apply Hn].
Qed.

Lemma oldest_pending_Some now devs i :
  oldest_pending now devs 0 None = Some i ->
  exists d, devs !! i = Some d /\ is_ready now d = true /\
    forall d', d' ∈ devs -> is_ready now d' = true -> d_pending_since d <= d_pending_since d'.
Proof.
  intros H. pose proof (oldest_pending_spec now devs 0 None) as Hs. rewrite H in Hs.
  destruct Hs as [(s & ? & _)|(d & Hd & _ & Hr & Hmin & _)]; [done|]. rewrite Nat.sub_0_r in Hd. by exists d.
Qed.

Lemma oldest_pending_None now devs :
  oldest_pending now devs 0 None = None -> forall d, d ∈ devs -> is_ready now d = false.
Proof. intros H. pose proof (oldest_pending_spec now devs 0 None) as Hs. rewrite H in Hs. apply Hs. Qed.

(** ** One pending device is resolved *)

(** The sources of [resolve_hostname_dhcp_only]: none is "pending". *)
Lemma dhcp_only_src w mac h :
  c_trunc HN_SRC_LEN (resolve_hostname_dhcp_only w mac HN_LEN NEW_SRC_LEN h).1.2 <> str "pending".
Proof.
  unfold resolve_hostname_dhcp_only. destruct (hnc_lookup_manual_name _ _ _) as [[] out]; [by vm_compute|].
  destruct (try_ns_dhcp_resolve _ _ _); [by vm_compute|]. unfold resolve_fallback. cbn [fst].
  destruct (hnc_cache_lookup _ _ _ _) as [[hn src]|]; [cbn; by intros [=]|].
  destruct (hnc_lookup_oui _ _ _); by vm_compute.
Qed.

Lemma NEW_SRC_LEN_pos : (0 < NEW_SRC_LEN)%nat. Proof. apply Nat.ltb_lt. by vm_compute. Qed.

(** The turn of [process_pending_mdns] when a device is ready. *)
Lemma process_pending_slot w h i :
  table_ok (g_devs h) -> oldest_pending (w_now w) (g_devs h) 0 None = Some i ->
  exists d e c, g_devs h !! i = Some d /\ is_ready (w_now w) d = true /\
    (forall d', d' ∈ g_devs h -> is_ready (w_now w) d' = true -> d_pending_since d <= d_pending_since d') /\
    same_link d e /\ dev_ok e /\ is_pending e = false /\ d_last_resolve e = w_now w /\
    process_pending_mdns w h = set_event (w_now w) (set_devs (<[i := e]> (g_devs h)) (set_cache c h)).
Proof.
  intros Hok H. pose proof (oldest_pending_Some _ _ _ H) as (d & Hi & Hr & Hmin).
  unfold process_pending_mdns. rewrite H, (list_lookup_total_correct _ _ _ Hi).
  pose proof (dhcp_only_frame w (d_mac d) HN_LEN NEW_SRC_LEN h HN_LEN_pos NEW_SRC_LEN_pos) as [Hn [c Hc]].
  pose proof (dhcp_only_src w (d_mac d) h) as Hsrc.
  destruct (resolve_hostname_dhcp_only _ _ _ _ _) as [[hn src] h']. cbn [fst snd] in *. subst h'.
  exists d, (set_resolve_times (w_now w) 0 (set_name (c_trunc HN_LEN hn) (c_trunc HN_SRC_LEN src) d)), c.
  split_and!; try done.
  - apply set_name_ok; [by eapply table_dev_ok|]. split; apply c_trunc_lt; [apply HN_LEN_pos|apply HN_SRC_LEN_pos].
  - unfold is_pending. cbn. apply andb_false_iff. right. by apply bool_decide_eq_false.
Qed.

Lemma process_pending_ok w h : table_ok (g_devs h) -> table_ok (g_devs (process_pending_mdns w h)).
Proof.
  intros Hok. destruct (oldest_pending (w_now w) (g_devs h) 0 None) as [i|] eqn:E.
  - destruct (process_pending_slot w h i Hok E) as (d & e & c & Hi & _ & _ & (Hm & _ & _ & _ & _ & Ha & _) & He & _ & _ & ->).
    cbn [g_devs set_event set_devs]. by apply (rename_ok _ _ d).
  - unfold process_pending_mdns. by rewrite E.
Qed.

(** How many devices are pending. *)
Definition pending_count (devs : list Device) : nat := length (filter (fun d => is_pending d = true) devs).

Lemma filter_insert_count {A} (P : A -> bool) l i x y :
  l !! i = Some x -> P x = true -> P y = false ->
  length (filter (fun a => P a = true) l) = S (length (filter (fun a => P a = true) (<[i := y]> l))).
Proof.
  revert i; induction l as [|a l IH]; intros [|i]; cbn [list_lookup lookup]; try done; cbn [insert list_insert];
    rewrite !filter_cons.
  - intros [= ->] Hx Hy. rewrite decide_True by done. rewrite decide_False by congruence. done.
  - intros Hi Hx Hy. destruct (decide (P a = true)); cbn [length]; by erewrite IH.
Qed.

Lemma count_zero devs : (forall d, d ∈ devs -> is_pending d = false) -> pending_count devs = 0%nat.
Proof.
  intros H. unfold pending_count. induction devs as [|d devs IH]; [done|].
  rewrite filter_cons, decide_False by (rewrite (H d) by (by left); done).
  apply IH. intros x Hx. apply H. by right.
Qed.

(** C24: pending devices are not forgotten.  On every turn at which all pending
    devices have waited for their second, one of them, the one that has waited
    longest, gets its final name, and the table counts as changed; so after as
    many such turns as there are pending devices none is pending any more,
    whatever names files, DHCP logs and the cache contain. *)
Theorem pending_drains (ws : list world) (h : hstate) :
  table_ok (g_devs h) ->
  (forall d w, d ∈ g_devs h -> is_pending d = true -> w ∈ ws ->
     d_pending_since d + HNC_PENDING_BREATHING_ROOM_SEC <= w_now w) ->
  let h' := fold_left (fun h w => process_pending_mdns w h) ws h in
  pending_count (g_devs h') = (pending_count (g_devs h) - length ws)%nat /\
  table_ok (g_devs h') /\
  (forall w ws', ws = w :: ws' -> (0 < pending_count (g_devs h))%nat ->
     exists i d e, g_devs h !! i = Some d /\ is_pending d = true /\
       (forall d', d' ∈ g_devs h -> is_pending d' = true -> d_pending_since d <= d_pending_since d') /\
       g_devs (process_pending_mdns w h) = <[i := e]> (g_devs h) /\ same_link d e /\
       is_pending e = false /\ d_last_resolve e = w_now w /\ g_dirty (process_pending_mdns w h) = true).
Proof.
  revert h. induction ws as [|w ws IH]; intros h Hok Hwait; cbn [fold_left length].
  { cbn. split_and!; [lia|done|]. by intros. }
  assert (Hready : forall d, d ∈ g_devs h -> is_pending d = true -> is_ready (w_now w) d = true).
  { intros d Hd Hp. apply is_ready_spec. split; [done|]. specialize (Hwait d w Hd Hp ltac:(left)). lia. }
  destruct (oldest_pending (w_now w) (g_devs h) 0 None) as [i|] eqn:E.
  - destruct (process_pending_slot w h i Hok E) as (d & e & c & Hi & Hr & Hmin & Hs & He & Hp & Hlr & Heq).
    pose proof (proj1 (is_ready_spec _ _) Hr) as [Hpd _].
    assert (Hcount : pending_count (g_devs h) = S (pending_count (g_devs (process_pending_mdns w h)))).
    { rewrite Heq. cbn [g_devs set_event set_devs]. by apply (filter_insert_count is_pending _ _ d). }
    destruct (IH (process_pending_mdns w h)) as (H1 & H2 & _).
    + by apply process_pending_ok.
    + intros x w' Hx Hpx Hw'. rewrite Heq in Hx. cbn [g_devs set_event set_devs] in Hx.
      apply list_elem_of_lookup in Hx as [j Hj]. destruct (decide (i = j)) as [<-|Hne].
      * rewrite list_lookup_insert_eq in Hj by by eapply lookup_lt_Some. simplify_eq. congruence.
      * rewrite list_lookup_insert_ne in Hj by done. apply Hwait; [by eapply list_elem_of_lookup_2|done|by right].
    + split_and!; [rewrite H1; lia|done|]. intros w' ws' [= <- <-] _. exists i, d, e.
      rewrite Heq. split_and!; try done. intros d' Hd' Hp'. apply Hmin; [done|]. by apply Hready.
  - assert (Hzero : pending_count (g_devs h) = 0%nat).
    { apply count_zero. intros d Hd. destruct (is_pending d) eqn:Ep; [|done].
      pose proof (oldest_pending_None _ _ E d Hd). by rewrite Hready in *. }
    assert (Heq : process_pending_mdns w h = h) by (unfold process_pending_mdns; by rewrite E).
    destruct (IH h Hok) as (H1 & H2 & _); [intros; apply Hwait; [done..|by right]|].
    rewrite Heq. split_and!; [rewrite H1; lia|done|]. intros. lia.
Qed.

(** ** The answers of the worker *)

(** C37: an mDNS answer reaches exactly the device that waits for it.  When the
    device with the answer's MAC is pending, a success gives it the name and the
    source "mdns" and enters the name into the cache under its MAC, and a failure
    leaves it named by its MAC; the table counts as changed and no other slot
    does.  When there is no such device, or it has got a name in the meantime, the
    answer is dropped without any effect. *)
Theorem mdns_answer_spec (w : world) (r : hnc_mdns_result) (h : hstate) :
  table_ok (g_devs h) ->
  let h' := apply_result w r h in
  table_ok (g_devs h') /\
  match find_device (r_mac r) (g_devs h) with
  | Some (i, d) =>
      if is_pending d then
        exists e, g_devs h' = <[i := e]> (g_devs h) /\ same_link d e /\ g_dirty h' = true /\
          find_device (r_mac r) (g_devs h') = Some (i, e) /\
          if negb (r_success r =? 0)
          then d_hostname e = c_trunc HN_LEN (r_hostname r) /\ d_hostname_src e = str "mdns" /\
               h_cache h' = (hnc_cache_update (d_mac d) (d_hostname e) (str "mdns") (w_cache_now w) (h_cache h)).2
          else Some (d_hostname e) = hnc_mac_fallback (d_mac d) HN_LEN /\ d_hostname_src e = str "mac" /\
               h_cache h' = h_cache h
      else h' = h
  | None => h' = h
  end.
Proof.
  intros Hok h'. subst h'. unfold apply_result.
  destruct (find_device (r_mac r) (g_devs h)) as [[i d]|] eqn:E; [|done].
  pose proof (find_device_lookup _ _ _ _ E) as [Hi Ha]. pose proof (table_dev_ok _ _ _ Hok Hi) as Hd.
  unfold is_pending. rewrite Ha. cbn [andb]. destruct (strcmp_eq (d_hostname_src d) _); cbn [negb]; [|done].
  assert (Hrename : forall hn src, name_ok HN_LEN HN_SRC_LEN (hn, src) ->
    table_ok (<[i := set_name hn src d]> (g_devs h)) /\
    find_device (r_mac r) (<[i := set_name hn src d]> (g_devs h)) = Some (i, set_name hn src d)).
  { intros hn src Hn. assert (Hok' : table_ok (<[i := set_name hn src d]> (g_devs h))).
    { apply (rename_ok _ _ d); try done. by apply dev_named_ok. }
    split; [done|]. apply find_device_Some; [done|].
    apply find_device_Some in E as (_ & _ & Hm); [|done]. split_and!; [|done|done].
    apply list_lookup_insert_eq. by eapply lookup_lt_Some. }
  destruct (negb (r_success r =? 0)); cbn [g_devs h_cache g_dirty set_event set_cache set_devs].
  - destruct (Hrename (c_trunc HN_LEN (r_hostname r)) (c_trunc HN_SRC_LEN (str "mdns"))) as [H1 H2].
    { split; apply c_trunc_lt; [apply HN_LEN_pos|apply HN_SRC_LEN_pos]. }
    split; [done|]. by eexists.
  - destruct (Hrename (default [] (hnc_mac_fallback (d_mac d) HN_LEN)) (c_trunc HN_SRC_LEN (str "mac"))) as [H1 H2].
    { split; [apply mac_fallback_length, HN_LEN_pos|apply c_trunc_lt, HN_SRC_LEN_pos]. }
    split; [done|]. by eexists.
Qed.

Lemma apply_results_ok env rs : forall k h,
  table_ok (g_devs h) -> table_ok (g_devs (apply_results env k rs h)).
Proof.
  induction rs as [|r rs IH]; intros k h Hok; cbn [apply_results]; [done|]. apply IH.
  unfold apply_result. destruct (find_device (r_mac r) (g_devs h)) as [[i d]|] eqn:E; [|done].
  pose proof (find_device_lookup _ _ _ _ E) as [Hi Ha]. pose proof (table_dev_ok _ _ _ Hok Hi) as Hd.
  destruct (negb _); [done|].
  destruct (negb _); cbn [g_devs set_event set_cache set_devs]; apply (rename_ok _ _ d); try done;
    apply dev_named_ok; try done; split;
    first [apply c_trunc_lt; auto with hnc|apply mac_fallback_length; auto with hnc].
Qed.

(** The main loop resolves a pending device before it drains the answers.  When a
    device has waited a second for its mDNS answer and is the oldest one, it gets
    a name without mDNS, and the answer that arrives with the same turn is lost. *)
Lemma mdns_answer_lost w w' r h i d :
  table_ok (g_devs h) -> oldest_pending (w_now w) (g_devs h) 0 None = Some i ->
  g_devs h !! i = Some d -> lower (r_mac r) = lower (d_mac d) ->
  apply_result w' r (process_pending_mdns w h) = process_pending_mdns w h.
Proof.
  intros Hok E Hi Hm.
  pose proof (process_pending_ok w h Hok) as Hok'.
  destruct (process_pending_slot w h i Hok E) as (d' & e & c & Hi' & Hr & _ & Hs & He & Hp & _ & Heq).
  rewrite Hi in Hi'. injection Hi' as <-. destruct Hs as (Hmac & _ & _ & _ & _ & Hact & _).
  apply is_ready_spec in Hr as [Hpd _]. unfold is_pending in Hpd. apply andb_prop in Hpd as [Ha _].
  assert (Hfind : find_device (r_mac r) (g_devs (process_pending_mdns w h)) = Some (i, e)).
  { apply find_device_Some; [done|]. rewrite Heq. cbn [g_devs set_event set_devs].
    split_and!; [apply list_lookup_insert_eq; by eapply lookup_lt_Some|congruence|congruence]. }
  unfold apply_result. rewrite Hfind. unfold is_pending in Hp. rewrite Hact, Ha in Hp. cbn [andb] in Hp.
  by rewrite Hp.
Qed.

(** ** Departures *)

(** Putting a slot to sleep removes its MAC and nothing else. *)
Lemma find_after_sleep devs i d mac :
  table_ok devs -> devs !! i = Some d -> d_active d = true ->
  find_device mac (<[i := set_inactive d]> devs)
  = if bool_decide (lower (d_mac d) = lower mac) then None else find_device mac devs.
Proof.
  intros Hok Hi Ha.
  assert (Hok' : table_ok (<[i := set_inactive d]> devs)).
  { eapply table_ok_insert; try done. by apply set_inactive_ok, (table_dev_ok devs i). }
  assert (Hat : forall j a, dev_at (<[i := set_inactive d]> devs) j mac a <-> j <> i /\ dev_at devs j mac a).
  { intros j a. unfold slot_holds. destruct (decide (i = j)) as [<-|Hne].
    - rewrite list_lookup_insert_eq by by eapply lookup_lt_Some. split; [|naive_solver].
      by intros ([= <-] & ? & _).
    - rewrite list_lookup_insert_ne by done. naive_solver. }
  destruct (find_device mac devs) as [[j a]|] eqn:E; case_bool_decide as Hm.
  - apply find_device_None; [done|]. intros j' a' [Hne Hat']%Hat. apply Hne.
    eapply (ok_uniq _ Hok); [apply Hat'|done|apply Hat'|done|]. destruct Hat' as (_ & _ & ?). congruence.
  - apply find_device_Some; [done|]. apply Hat. pose proof (proj1 (find_device_Some _ _ _ _ Hok) E) as Hj.
    split; [|done]. intros ->. destruct Hj as (Hj & _ & Hjm). congruence.
  - apply find_device_None; [done|]. intros j a [_ Hx]%Hat. by apply (proj1 (find_device_None _ _ Hok) E j a).
  - apply find_device_None; [done|]. intros j a [_ Hx]%Hat. by apply (proj1 (find_device_None _ _ Hok) E j a).
Qed.

Lemma sweep_lookup now devs i :
  map (sweep_device now) devs !! i = sweep_device now <$> devs !! i.
Proof. apply list_lookup_fmap. Qed.

Lemma sweep_table_ok now devs : table_ok devs -> table_ok (map (sweep_device now) devs).
Proof.
  intros [Hlen Hs Hu].
  assert (Hback : forall j x, map (sweep_device now) devs !! j = Some x -> d_active x = true ->
    exists y, devs !! j = Some y /\ d_active y = true /\ d_mac y = d_mac x).
  { intros j x. rewrite sweep_lookup. destruct (devs !! j) as [y|]; [|done]. cbn. intros [= <-] Hx.
    exists y. unfold sweep_device in *. by destruct (is_silent now y). }
  split.
  - by rewrite length_map.
  - apply Forall_map. eapply Forall_impl; [exact Hs|]. intros d Hd. unfold sweep_device.
    destruct (is_silent now d); [by apply set_inactive_ok|done].
  - intros j k a b Hj Hk Ha Hb Heq.
    destruct (Hback j a Hj Ha) as (a' & Hj' & Ha' & Hma), (Hback k b Hk Hb) as (b' & Hk' & Hb' & Hmb).
    eapply (Hu j k a' b'); try done. congruence.
Qed.

Lemma sweep_find now devs mac :
  table_ok devs ->
  find_device mac (map (sweep_device now) devs)
  = match find_device mac devs with
    | Some (i, d) => if is_silent now d then None else Some (i, d)
    | None => None
    end.
Proof.
  intros Hok. pose proof (sweep_table_ok now devs Hok) as Hok'.
  assert (Hat : forall j a, dev_at (map (sweep_device now) devs) j mac a <-> is_silent now a = false /\ dev_at devs j mac a).
  { intros j a. unfold slot_holds. rewrite sweep_lookup. split.
    - intros (Hj & Ha & Hm). destruct (devs !! j) as [y|]; [|done]. cbn in Hj. injection Hj as <-.
      unfold sweep_device in *. by destruct (is_silent now y) eqn:E.
    - intros (Hs & Hj & Ha & Hm). rewrite Hj. cbn. unfold sweep_device. by rewrite Hs. }
  destruct (find_device mac devs) as [[i d]|] eqn:E.
  - pose proof (proj1 (find_device_Some _ _ _ _ Hok) E) as Hi. destruct (is_silent now d) eqn:Es.
    + apply find_device_None; [done|]. intros j a [Ha Hj]%Hat.
      assert (j = i) as -> by (eapply (ok_uniq _ Hok); [apply Hj|apply Hi|apply Hj|apply Hi|];
        destruct Hj as (_ & _ & ?), Hi as (_ & _ & ?); congruence).
      destruct Hj as (Hj & _), Hi as (Hi & _). congruence.
    + apply find_device_Some; [done|]. by apply Hat.
  - apply find_device_None; [done|]. intros j a [_ Hj]%Hat. by apply (proj1 (find_device_None _ _ Hok) E j a).
Qed.

Lemma sweep_quiet now devs :
  filter (fun d => is_silent now d = true) devs = [] -> map (sweep_device now) devs = devs.
Proof.
  induction devs as [|d devs IH]; [done|]. rewrite filter_cons.
  destruct (is_silent now d) eqn:E; [by rewrite decide_True|]. rewrite decide_False by done.
  cbn [map]. intros H. unfold sweep_device at 1. by rewrite E, IH.
Qed.

(** A deletion, or a state that is not valid; such a message takes its device away when the state
    has the bit FAILED or INCOMPLETE. *)
Definition departs (m : neigh_msg) : bool :=
  (nm_type m =? RTM_DELNEIGH) || (Z.land (nm_state m) NUD_VALID =? 0).
Definition takes_away (m : neigh_msg) : bool :=
  departs m && (Z.testbit (nm_state m) 0 || Z.testbit (nm_state m) 5).
(** A message that is not ignored. *)
Definition heeded (ifname : Z -> bytes) (m : neigh_msg) : Prop :=
  is_hotspot_iface (ifname (nm_ifindex m)) = true /\ nm_ip m <> [] /\ nm_mac m <> [].
(** The table is full, and the device is one that was seen longest ago. *)
Definition oldest_of_full (d : Device) (devs : list Device) : Prop :=
  (forall a, a ∈ devs -> d_active a = true) /\ (forall a, a ∈ devs -> d_last_seen d <= d_last_seen a).

Lemma failed_bits s :
  negb (Z.land s (Z.lor NUD_FAILED NUD_INCOMPLETE) =? 0) = Z.testbit s 0 || Z.testbit s 5.
Proof.
  change (Z.lor NUD_FAILED NUD_INCOMPLETE) with (Z.lor (2 ^ 5) (2 ^ 0)).
  rewrite Z.land_lor_distr_r. rewrite <- (land_pow2_testbit s 0), <- (land_pow2_testbit s 5) by lia.
  destruct (Z.eqb_spec (Z.land s (2 ^ 5)) 0) as [->|H5], (Z.eqb_spec (Z.land s (2 ^ 0)) 0) as [->|H0]; cbn [negb orb].
  - done.
  - rewrite Z.lor_0_l. by apply negb_true_iff, Z.eqb_neq.
  - rewrite Z.lor_0_r. by apply negb_true_iff, Z.eqb_neq.
  - apply negb_true_iff, Z.eqb_neq. rewrite Z.lor_eq_0_iff. naive_solver.
Qed.

(** A device that comes up displaces another one only from a full table. *)
Lemma device_up_displaces w mac ip iface nud h mac' i d :
  table_ok (g_devs h) -> (length mac < MAC_STR_LEN)%nat ->
  find_device mac' (g_devs h) = Some (i, d) -> find_device mac' (g_devs (device_up w mac ip iface nud h)) = None ->
  find_device mac (g_devs h) = None /\ oldest_of_full d (g_devs h).
Proof.
  intros Hok Lm Hf Hn.
  destruct (device_up_slot w mac ip iface nud h Hok Lm) as (k & old & e & c & m & Hslot & Hd & Hm & _ & Hup).
  rewrite Hup in Hn. cbn [g_devs set_devs] in Hn.
  set (e' := set_link ip iface (w_now w) nud e) in *.
  assert (He : dev_ok e') by by apply set_link_ok.
  assert (Hself := up_find_self mac (g_devs h) k old e' Hok Hslot eq_refl He Hm).
  destruct (decide (lower mac' = lower mac)) as [E|Hne].
  - assert (Hok' : table_ok (<[k := e']> (g_devs h))) by by eapply up_table_ok.
    apply find_device_Some in Hself as (Hk & Ha & Hl); [|done].
    assert (Hx : find_device mac' (<[k := e']> (g_devs h)) = Some (k, e')); [|congruence].
    apply find_device_Some; [done|]. split_and!; [done|done|congruence].
  - destruct (up_find_other mac (g_devs h) k old e' Hok Hslot eq_refl He Hm mac' Hne)
      as [H|(Hall & Hnone & Hf' & Hmin & _)]; [congruence|].
    assert (d = old) as -> by congruence. by split.
Qed.

Lemma neigh_ignored ifname w m h : ~ heeded ifname m -> neigh_apply ifname w m h = h.
Proof.
  unfold heeded, neigh_apply. intros Hn. destruct (is_hotspot_iface _); [|done]. cbn [negb].
  do 2 (case_bool_decide; [done|]). by destruct Hn.
Qed.

Lemma neigh_departs ifname w m h :
  heeded ifname m -> departs m = true ->
  neigh_apply ifname w m h
  = match find_device (nm_mac m) (g_devs h) with
    | None => h
    | Some (i, d) => if takes_away m then set_event (w_now w) (set_devs (<[i := set_inactive d]> (g_devs h)) h) else h
    end.
Proof.
  intros (Hif & Hip & Hmac) Hd. unfold neigh_apply, takes_away. rewrite Hif, Hd. cbn [negb andb].
  rewrite !bool_decide_eq_false_2 by done. cbn [orb]. unfold departs in Hd. rewrite Hd. by rewrite failed_bits.
Qed.

Lemma neigh_takes_away ifname w m h mac :
  table_ok (g_devs h) -> heeded ifname m -> takes_away m = true ->
  find_device mac (g_devs (neigh_apply ifname w m h))
  = if bool_decide (lower (nm_mac m) = lower mac) then None else find_device mac (g_devs h).
Proof.
  intros Hok Hh Ht. rewrite neigh_departs by (done || by apply andb_prop in Ht as [? _]). rewrite Ht.
  destruct (find_device (nm_mac m) (g_devs h)) as [[i d]|] eqn:E.
  - cbn [g_devs set_event set_devs].
    pose proof (proj1 (find_device_Some _ _ _ _ Hok) E) as (Hi & Ha & Hm).
    rewrite find_after_sleep by done. by rewrite Hm.
  - case_bool_decide as Hm; [|done]. apply find_device_None; [done|]. intros j a (? & ? & ?).
    apply (proj1 (find_device_None _ _ Hok) E j a). split_and!; congruence.
Qed.

Lemma neigh_removes ifname w m h mac i d :
  table_ok (g_devs h) -> msg_mac_ok m -> find_device mac (g_devs h) = Some (i, d) ->
  find_device mac (g_devs (neigh_apply ifname w m h)) = None ->
  heeded ifname m /\
  (takes_away m = true /\ lower (nm_mac m) = lower mac \/
   departs m = false /\ find_device (nm_mac m) (g_devs h) = None /\ oldest_of_full d (g_devs h)).
Proof.
  intros Hok Lm Hf Hn.
  assert (Hh : heeded ifname m).
  { unfold heeded. destruct (is_hotspot_iface (ifname (nm_ifindex m))) eqn:E1;
      [destruct (decide (nm_ip m = [] \/ nm_mac m = [])) as [E|E]|]; [|tauto|];
      rewrite neigh_ignored in Hn by (unfold heeded; rewrite E1; naive_solver); congruence. }
  split; [done|]. destruct (departs m) eqn:Ed.
  - left. destruct (takes_away m) eqn:Et.
    + split; [done|]. rewrite neigh_takes_away in Hn by done. case_bool_decide; [done|congruence].
    + rewrite neigh_departs, Et in Hn by done. destruct (find_device (nm_mac m) (g_devs h)) as [[]|]; congruence.
  - right. split; [done|]. destruct Hh as (Hif & Hip & Hmac). unfold neigh_apply in Hn. rewrite Hif in Hn.
    unfold departs in Ed. rewrite !bool_decide_eq_false_2, Ed in Hn by done. cbn [negb orb g_devs set_event] in Hn.
    by eapply device_up_displaces.
Qed.

(** C27: how devices leave.  A neighbour message that is not ignored (a hotspot interface, an
    address and a MAC, which fits its field as that of every decoded message) takes the device with its MAC out of the table when it is a deletion or its
    state is not valid, and the state has the bit FAILED or INCOMPLETE; every other MAC answers
    as before.  A deletion or an invalid state without these bits changes nothing at all.  No other message
    takes a device away, except that one with a valid state and a new MAC displaces from a full
    table a device that was seen longest ago.  A sweep,
    made when 30 seconds have passed since the last one, removes exactly the
    devices that have been silent for more than 90 seconds, and marks the table
    as changed exactly when it removed one. *)
Theorem device_leaves_spec (ifname : Z -> bytes) (w : world) (m : neigh_msg) (last_check : Z) (h : hstate) :
  table_ok (g_devs h) -> msg_mac_ok m ->
  (heeded ifname m -> takes_away m = true -> forall mac,
     find_device mac (g_devs (neigh_apply ifname w m h))
     = if bool_decide (lower (nm_mac m) = lower mac) then None else find_device mac (g_devs h)) /\
  (departs m = true -> takes_away m = false -> neigh_apply ifname w m h = h) /\
  (forall mac i d, find_device mac (g_devs h) = Some (i, d) ->
     find_device mac (g_devs (neigh_apply ifname w m h)) = None ->
     heeded ifname m /\
     (takes_away m = true /\ lower (nm_mac m) = lower mac \/
      departs m = false /\ find_device (nm_mac m) (g_devs h) = None /\ oldest_of_full d (g_devs h))) /\
  (let r := offline_sweep (w_now w) last_check h in
   if OFFLINE_CHECK_INTERVAL <=? w_now w - last_check then
     r.2 = w_now w /\
     (forall mac, find_device mac (g_devs r.1)
        = match find_device mac (g_devs h) with
          | Some (i, d) => if OFFLINE_THRESHOLD <? w_now w - d_last_seen d then None else Some (i, d)
          | None => None
          end) /\
     g_dirty r.1 = g_dirty h || negb (bool_decide (g_devs r.1 = g_devs h)) /\
     (forall d, d ∈ g_devs r.1 -> d_active d = true -> w_now w - d_last_seen d <= OFFLINE_THRESHOLD)
   else r = (h, last_check)).
Proof.
  intros Hok Lm. split_and!.
  - intros Hh Ht mac. by apply neigh_takes_away.
  - intros Hd Ht. destruct (decide (is_hotspot_iface (ifname (nm_ifindex m)) = true)) as [E1|E1];
      [destruct (decide (nm_ip m = [] \/ nm_mac m = [])) as [E|E]|];
      [by apply neigh_ignored; unfold heeded; naive_solver| |by apply neigh_ignored; intros []].
    rewrite neigh_departs, Ht by (done || by unfold heeded; tauto). by destruct (find_device _ _) as [[]|].
  - intros mac i d. by apply neigh_removes.
  - cbv zeta. unfold offline_sweep. destruct (_ <=? _) eqn:E; [|done]. cbn [fst snd].
    set (evicted := filter (fun d => is_silent (w_now w) d = true) (g_devs h)).
    assert (Hdevs : forall x, g_devs (if (0 <? length evicted)%nat then set_event (w_now w) (set_devs x h) else set_devs x h) = x).
    { intros x. by destruct (_ <? _)%nat. }
    rewrite Hdevs. split_and!; [done| | |].
    + intros mac. rewrite sweep_find by done. destruct (find_device mac (g_devs h)) as [[i d]|] eqn:Ef; [|done].
      apply find_device_lookup in Ef as [_ Ha]. unfold is_silent. by rewrite Ha.
    + destruct evicted as [|d evs] eqn:Ev; cbn [length Nat.ltb Nat.leb g_dirty set_event set_devs].
      * rewrite sweep_quiet by done. rewrite bool_decide_eq_true_2 by done. by rewrite orb_false_r.
      * rewrite bool_decide_eq_false_2; [by rewrite orb_true_r|]. intros Heq.
        assert (Hd : d ∈ evicted) by (rewrite Ev; left).
        apply list_elem_of_filter in Hd as [Hs Hd]. apply list_elem_of_lookup in Hd as [i Hi].
        pose proof (sweep_lookup (w_now w) (g_devs h) i) as Hl. rewrite Heq, Hi in Hl. cbn in Hl.
        unfold sweep_device in Hl. rewrite Hs in Hl. injection Hl as Hl.
        unfold is_silent in Hs. apply andb_prop in Hs as [Ha _]. rewrite Hl in Ha. done.
    + intros d Hd Ha. apply list_elem_of_In, in_map_iff in Hd as (d0 & <- & _).
      unfold sweep_device in *. destruct (is_silent (w_now w) d0) eqn:Es; [done|].
      unfold is_silent in Es. rewrite Ha in Es. cbn [andb] in Es. by bool_simpl.
Qed.

(** ** Examples *)

Lemma pending_drains_witness :
  pending_count (g_devs (process_pending_mdns (sample_world 101) (sample_state sample_dev))) = 0%nat.
Proof.
  destruct (pending_drains [sample_world 101] (sample_state sample_dev)) as [H _].
  - apply sample_table_ok, sample_dev_ok.
  - intros d w Hd Hp Hw. apply list_elem_of_singleton in Hw as ->.
    apply elem_of_cons in Hd as [->|Hd]; [by vm_compute|].
    apply list_elem_of_lookup in Hd as [i Hi]. apply lookup_replicate in Hi as [-> _]. by vm_compute.
  - cbn [fold_left] in H. rewrite H. by vm_compute.
Defined.

Lemma mdns_answer_spec_witness :
  exists i e, find_device (str "02:00:00:00:00:01")
    (g_devs (apply_result (sample_world 101) (Result (str "02:00:00:00:00:01") (str "Mi-10") (str "mdns") 1)
       (sample_state sample_dev))) = Some (i, e) /\ d_hostname e = str "Mi-10" /\ d_hostname_src e = str "mdns".
Proof.
  destruct (mdns_answer_spec (sample_world 101) (Result (str "02:00:00:00:00:01") (str "Mi-10") (str "mdns") 1)
    (sample_state sample_dev)) as [_ (e & _ & _ & _ & Hf & Hn & Hs & _)].
  - apply sample_table_ok, sample_dev_ok.
  - eexists _, e. split; [exact Hf|]. split; [exact Hn|exact Hs].
Defined.

Lemma device_leaves_spec_witness :
  let m := NeighMsg RTM_NEWNEIGH 7 NUD_FAILED (str "10.0.0.2") (str "02:00:00:00:00:01") in
  find_device (str "02:00:00:00:00:01")
    (g_devs (neigh_apply (fun _ => str "wlan2") (sample_world 200) m (sample_state sample_dev))) = None.
Proof.
  intros m.
  destruct (device_leaves_spec (fun _ => str "wlan2") (sample_world 200) m 0 (sample_state sample_dev)) as [H _].
  - apply sample_table_ok, sample_dev_ok.
  - unfold msg_mac_ok. apply Nat.ltb_lt. by vm_compute.
  - rewrite H; [by vm_compute|split; [by vm_compute|by split]|by vm_compute].
Defined.
