(* ===== verification/Hotspotd.v ===== *)
(** * The daemon ([hotspotd.c]): commands, PID file, main loop

    One turn of the loop scans when asked to, resolves one pending device, takes
    the answers of the mDNS worker, sweeps silent devices, saves what changed, and
    then handles netlink and one client. *)
From S2P Require Import Prelude CStr Stdio OuiOverride Oui Helpers Offload Scheduler HostnameCache MdnsWorker.
From S2P Require Import DeviceTable DevicesJson Neigh.
Local Open Scope Z_scope.

(** ** [send_all] *)

(** The outcome of [send]: a byte count, an interruption, another error. *)
Inductive send_ev := SendN (n : nat) | SendEintr | SendError.

(** The return value and the bytes that went out; [None]: [send] blocks. *)
Fixpoint send_all (evs : list send_ev) (buf : bytes) : option (Z * bytes) :=
  match buf with
  | [] => Some (0, [])
  | _ :: _ =>
      match evs with
      | [] => None
      | SendEintr :: evs => send_all evs buf
      | SendN (S n) :: evs =>
          '(rc, out) ← send_all evs (drop (S n) buf); Some (rc, take (S n) buf ++ out)
      | SendN O :: _ | SendError :: _ => Some (-1, [])
      end
  end.

(** ** [handle_client] *)

Definition is_trailing (c : Z) : bool := (c =? NL) || (c =? CR) || (c =? 32).
Definition MIN_REFRESH_INTERVAL : Z := 2.

(** The new [g_last_stats_update] of a [REFRESH]. *)
Definition refresh_stats (now : Z) (h : hstate) : hstate :=
  if MIN_REFRESH_INTERVAL <? now - g_last_stats_update h
  then set_stats_update (now - MIN_REFRESH_INTERVAL) h else h.

(** The pieces in which a file of any size is sent. *)
Fixpoint chunks (fuel n : nat) (s : bytes) : list bytes :=
  match fuel, s with
  | O, _ | _, [] => []
  | S f, _ => take n s :: chunks f n (drop n s)
  end.
Definition CLIENT_CHUNK : nat := Z.to_nat 65536.

Section client.
Context {W : Type} `{!SchedEnv W}.
(** The text of the LSM guard for the status, see [Scheduler]. *)
Context (lsm_fragment : W -> nat -> option bytes).

Definition err_reply (e : offload_err) : bytes :=
  c_trunc 64 ((if bool_decide (e = OFFLOAD_OK) then str "OK" else str "ERR") ++ COLON ::
              str (offload_err_str (offload_err_val e)) ++ [NL]).

(** The request [recv] brought ([None]: nothing), the state of the daemon and of
    the scheduler; the result is the arguments of the calls of [send_all] and the
    new states. *)
Definition handle_client (now pid : Z) (received : option bytes) (h : hstate) (x : sworld W)
  : list bytes * hstate * sworld W :=
  match received with
  | None | Some [] => ([], h, x)
  | Some data =>
      let req := strip_tail is_trailing (cut_nul (take 63 data)) in
      if strcmp_eq req (str "GET_DEVICES") then
        (match h_json h with
         | None => [str "{}"]
         | Some file => chunks (length file) CLIENT_CHUNK file
         end, h, x)
      else if strcmp_eq req (str "REFRESH") then
        ([str "OK:queued" ++ [NL]], refresh_stats now (set_need_scan true h), x)
      else if strcmp_eq req (str "STATUS") then
        ([c_trunc 128 (str "running:1 devices:" ++ dec (Z.of_nat (g_ndev h)) ++ str " pid:" ++ dec pid ++ [NL])],
         h, x)
      else
        match strip_prefix (str "OFFLOAD_NOTIFY_LIMIT ") req with
        | Some args =>
            match ('(mac, r) ← scan_s 31 args; '(flag, _) ← scan_d r; Some (mac, flag)) with
            | Some (mac, flag) =>
                if (flag =? 0) || (flag =? 1) then
                  ([str "OK" ++ [NL]], h,
                   (hnc_scheduler_notify_device_limit_changed (Some mac) (flag =? 1) x).2)
                else ([str "ERR:bad args (expect MAC 0|1)" ++ [NL]], h, x)
            | None => ([str "ERR:bad args (expect MAC 0|1)" ++ [NL]], h, x)
            end
        | None =>
            if strcmp_eq req (str "OFFLOAD_REFRESH") then
              ([str "OK:queued" ++ [NL]], h, (hnc_scheduler_request_refresh x).2)
            else if strcmp_eq req (str "OFFLOAD_STATUS") then
              let summ := hnc_scheduler_get_summary x in
              (match hnc_scheduler_summary_to_json summ (lsm_fragment (sw_w x)) (Z.to_nat 2048) with
               | Some json => [json; [NL]]
               | None => [str "ERR:summary serialize" ++ [NL]]
               end, h, x)
            else if strcmp_eq req (str "OFFLOAD_DISABLE_GLOBAL") then
              let '(e, x) := hnc_scheduler_force_disable_global x in ([err_reply e], h, x)
            else if strcmp_eq req (str "OFFLOAD_RESTORE_GLOBAL") then
              let '(e, x) := hnc_scheduler_force_restore_global x in ([err_reply e], h, x)
            else if strcmp_eq req (str "QUIT") then ([str "BYE" ++ [NL]], set_running false h, x)
            else ([str "ERR:unknown command" ++ [NL]], h, x)
        end
  end.
End client.

(** ** Signals *)
Definition sig_usr1 (h : hstate) : hstate := set_need_scan true h.
Definition sig_term (h : hstate) : hstate := set_running false h.

(** ** [try_mdns_resolve] *)

(** The steps of the pipe of the child: data, an interruption, an error, the end. *)
Inductive read_ev := ReadData (b : bytes) | ReadEintr | ReadError | ReadEof.

(** The reading loop: [room] bytes are left. *)
Fixpoint read_child (room : nat) (evs : list read_ev) : bytes :=
  match room, evs with
  | O, _ | _, [] => []
  | S _, ReadEintr :: evs' => read_child room evs'
  | S _, ReadError :: _ | S _, ReadEof :: _ => []
  | S _, ReadData b :: evs' =>
      let got := take room b in
      if bool_decide (got = []) then [] else got ++ read_child (room - length got) evs'
  end.

Definition is_eol (c : Z) : bool := (c =? NL) || (c =? CR).

(** [exec] tells whether the resolver can be executed, [inet_pton] is the C
    library's test of an address; [child] is the output of the child and its exit
    code ([None]: it was killed), or that it could not be started.  The result is
    the return value and [out]. *)
Definition try_mdns_resolve (exec : bool) (inet_pton : bytes -> bool)
  (child : bytes -> option (list read_ev * option Z)) : hnc_mdns_resolve_fn := fun ip mac outlen =>
  if negb exec then (0, [])
  else if (outlen =? 0)%nat then (0, [])
  else if negb (inet_pton ip) then (0, [])
  else
    match child ip with
    | None => (0, [])
    | Some (evs, status) =>
        let out := strip_tail is_eol (cut_nul (read_child (outlen - 1) evs)) in
        match status with
        | Some rc => if negb (rc =? 0) then (0, []) else ((if bool_decide (out = []) then 0 else 1), out)
        | None => (0, [])
        end
    end.

(** ** The PID file

    [write_pid] one system call at a time: where a starting daemon is, and the
    step it takes on the file.  A file is its content with the PID of the process
    that created it, which tells one file at the path from the next. *)
Definition pid_file : Type := option (Z * bytes).

(** The outcomes of its calls: whether [open] fails otherwise than with [EEXIST], at the first time
    and again; whether the file that exists can be read, and unlinked; and how many bytes [write]
    brings into the new file. *)
Record pid_io := PidIo {
  pi_open : bool; pi_fopen : bool; pi_unlink : bool; pi_reopen : bool; pi_write : nat
}.

Inductive pid_pc :=
  | PidOpen            (** [open(O_CREAT | O_EXCL)] *)
  | PidRead            (** [fopen] and [fscanf] of the file that exists *)
  | PidUnlink
  | PidReopen
  | PidWrite
  | PidDone            (** 0 *)
  | PidRefused.        (** -1 *)

Definition pid_text (pid : Z) : bytes := dec pid ++ [NL].

(** [fscanf("%d") == 1 && old_pid > 0] *)
Definition read_pid (content : bytes) : option Z :=
  match scan_d content with
  | Some (pid, _) => if 0 <? pid then Some pid else None
  | None => None
  end.

(** [alive] is [kill(pid, 0) == 0].  The last write goes to the file this process
    created, wherever it is now; a short or failed write is only logged. *)
Definition write_pid_step (io : pid_io) (alive : Z -> bool) (me : Z) (pc : pid_pc) (file : pid_file)
  : pid_pc * pid_file :=
  match pc with
  | PidOpen =>
      if negb (pi_open io) then (PidRefused, file)
      else match file with None => (PidWrite, Some (me, [])) | Some _ => (PidRead, file) end
  | PidRead =>
      match file with
      | None => (PidUnlink, file)
      | Some (_, content) =>
          if negb (pi_fopen io) then (PidUnlink, file)
          else match read_pid content with
          | Some old_pid => if alive old_pid then (PidRefused, file) else (PidUnlink, file)
          | None => (PidUnlink, file)
          end
      end
  | PidUnlink => (PidReopen, if pi_unlink io then None else file)
  | PidReopen =>
      if negb (pi_reopen io) then (PidRefused, file)
      else match file with None => (PidWrite, Some (me, [])) | Some _ => (PidRefused, file) end
  | PidWrite =>
      (PidDone, match file with
                | Some (creator, content) =>
                    if creator =? me then Some (me, take (pi_write io) (pid_text me)) else file
                | None => None
                end)
  | PidDone => (PidDone, file)
  | PidRefused => (PidRefused, file)
  end.

Fixpoint pid_run (n : nat) (io : pid_io) (alive : Z -> bool) (me : Z) (s : pid_pc * pid_file) : pid_pc * pid_file :=
  match n with
  | O => s
  | S n => pid_run n io alive me (write_pid_step io alive me s.1 s.2)
  end.
(** [write_pid] undisturbed: 5 steps reach its end. *)
Definition write_pid (io : pid_io) (alive : Z -> bool) (me : Z) (file : pid_file) : Z * pid_file :=
  let '(pc, file) := pid_run 5 io alive me (PidOpen, file) in
  (match pc with PidDone => 0 | _ => -1 end, file).

(** At the end: whether the PID file can be read and unlinked, and the socket file unlinked. *)
Record end_io := EndIo { ei_fopen : bool; ei_unlink : bool; ei_unlink_sock : bool }.

Definition cleanup_pid (io : end_io) (me : Z) (file : pid_file) : pid_file :=
  match file with
  | None => None
  | Some (_, content) =>
      if negb (ei_fopen io) then file
      else match scan_d content with
      | Some (file_pid, _) => if (file_pid =? me) && ei_unlink io then None else file
      | None => file
      end
  end.

(** ** The main loop *)

(** The daemon with the locals of the loop and the file of the hostname cache. *)
Record loop_state := LoopState {
  ls_h : hstate;
  ls_dirty_since : Z;
  ls_last_check : Z;
  ls_cache_file : option bytes
}.

(** What one turn meets up to [select]. *)
Record turn_env := TurnEnv {
  te_scan_env : nat -> world;
  te_arp : option bytes;
  te_scan_io : write_io;
  te_pending : world;
  te_drain : nat -> world;
  te_now : Z;
  te_write_io : write_io;
  te_save_io : save_io
}.

(** [hnc_cache_save] when the cache is dirty. *)
Definition save_cache (io : save_io) (file : option bytes) (h : hstate) : option bytes * hstate :=
  if hnc_cache_is_dirty (h_cache h) then
    let '(_, file, c) := hnc_cache_save io file (h_cache h) in (file, set_cache c h)
  else (file, h).

(** The saving of changes: after a second without events, or after 30 seconds. *)
Definition debounce (now : Z) (io : write_io) (sio : save_io) (s : loop_state) : loop_state :=
  let h := ls_h s in
  if g_dirty h then
    let dirty_since := if ls_dirty_since s =? 0 then now else ls_dirty_since s in
    let elapsed := s32 (now - dirty_since) in
    let last_event := s32 (now - g_last_event h) in
    if (1 <=? last_event) || (30 <=? elapsed) then
      let '(file, h) := save_cache sio (ls_cache_file s) (write_json io h) in
      LoopState h 0 (ls_last_check s) file
    else LoopState h dirty_since (ls_last_check s) (ls_cache_file s)
  else s.

(** A turn up to [select]. *)
Definition turn_top (e : turn_env) (s : loop_state) : loop_state :=
  let h := ls_h s in
  let h := if g_need_scan h then scan_arp (te_scan_env e) (te_arp e) (te_scan_io e) (set_need_scan false h)
           else h in
  let h := process_pending_mdns (te_pending e) h in
  let h := drain_mdns (te_drain e) h in
  let '(h, last_check) := offline_sweep (te_now e) (ls_last_check s) h in
  debounce (te_now e) (te_write_io e) (te_save_io e)
    (LoopState h (ls_dirty_since s) last_check (ls_cache_file s)).

(** The outcome of [select]: an interruption, an error, a time out, or what is
    ready: netlink with the outcomes of [recv], a client with its request. *)
Inductive select_ev :=
  | SelEintr | SelError | SelTimeout
  | SelReady (nl : option (list recv_ev)) (client : option (option bytes)).

(** The rest of a turn: whether the loop goes on, and the bytes for the client;
    [None] when a netlink datagram was read out of its buffer. *)
Definition turn_events {W} `{!SchedEnv W} (lsm : W -> nat -> option bytes) (ifname : Z -> bytes)
  (now pid : Z) (ev : select_ev) (s : loop_state) (x : sworld W)
  : option (bool * list bytes * loop_state * sworld W) :=
  let with_h h := LoopState h (ls_dirty_since s) (ls_last_check s) (ls_cache_file s) in
  match ev with
  | SelEintr | SelTimeout => Some (true, [], s, x)
  | SelError => Some (false, [], s, x)
  | SelReady nl client =>
      h ← match nl with Some evs => nl_process ifname evs (ls_h s) | None => Some (ls_h s) end;
      match client with
      | Some received =>
          let '(out, h, x) := handle_client lsm now pid received h x in Some (true, out, with_h h, x)
      | None => Some (true, [], with_h h, x)
      end
  end.

(** From [cleanup] on: the daemon, the cache file, the PID file and the scheduler. *)
Definition main_cleanup {W} `{!SchedEnv W} (io : write_io) (sio : save_io) (eio : end_io) (pid : Z) (file : pid_file)
  (s : loop_state) (x : sworld W) : loop_state * pid_file * sworld W :=
  let h := if g_dirty (ls_h s) then write_json io (ls_h s) else ls_h s in
  let '(cache_file, h) := save_cache sio (ls_cache_file s) h in
  let h := set_mdns (hnc_mdns_worker_stop (h_worker h)).2 h in
  (LoopState h (ls_dirty_since s) (ls_last_check s) cache_file, cleanup_pid eio pid file,
   (hnc_scheduler_shutdown x).2).

(** The globals before [main]; [json] is the file of an earlier run. *)
Definition hstate_zero (json : option bytes) : hstate :=
  HState (replicate MAX_DEVICES dev_zero) 0 0 0 false true true 0
    (hnc_cache_init None) (hnc_override_init None) mdns_zero json.

(** [main] from the load of the hostname cache to the loop: the paths, the files,
    the answer of [pthread_create] for the worker, the resolver, the first scan. *)
Definition main_start {W} `{!SchedEnv W} (compiled_in : list (offload_adapter W)) (cache_path override_path : bytes)
  (cache_file override_file : option bytes) (worker_rc : Z) (try_mdns_resolve : hnc_mdns_resolve_fn)
  (scan_env : nat -> world) (arp : option bytes) (scan_io : write_io) (last_check : Z)
  (h : hstate) (x : sworld W) : loop_state * sworld W :=
  let c := (hnc_cache_load cache_file (hnc_cache_init (Some cache_path))).2 in
  let o := (hnc_override_load override_file (hnc_override_init (Some override_path))).2 in
  let m := (hnc_mdns_worker_start worker_rc
              (hnc_mdns_worker_set_resolve_fn (Some try_mdns_resolve) (h_worker h))).2 in
  let x := (hnc_scheduler_init compiled_in x).2 in
  let h := HState (g_devs h) (g_ndev h) (g_last_write h) (g_last_event h) (g_dirty h) (g_need_scan h)
             (g_running h) (g_last_stats_update h) c o m (h_json h) in
  (LoopState (scan_arp scan_env arp scan_io h) 0 last_check cache_file, x).
