(* ===== verification/HotspotdSpec.v ===== *)
(** * What the daemon guarantees along its runs

    The table stays well formed and, whenever it does not count as changed, the
    file shows it; changes are saved after a quiet second and at the latest after
    30 seconds; replies are sent whole; one PID file holds one daemon. *)
From S2P Require Import Prelude CStr Stdio Slots JsonText OuiOverride Oui Helpers Offload Scheduler HostnameCache MdnsWorker.
From S2P Require Import DeviceTable DeviceSpec DevicesJson DevicesJsonSpec Neigh NeighSpec DeviceFlow Hotspotd.
Local Open Scope Z_scope.
#[local] Arguments c_trunc : simpl never.

(** ** The file shows the table *)

(** [json] is the file that an earlier run of the daemon left, [ios] are the outcomes of the
    calls of [write_json] so far; one of those that replaced the file wrote it, with the blacklist it
    read and as far as the disk had room for it. *)
Definition file_of (ios : list write_io) (devs : list Device) (json : option bytes) : Prop :=
  exists io, io ∈ ios /\ wi_open io = true /\ wi_rename io = true /\
    json = Some (written (wi_room io) (devices_file (read_blacklist (wi_rules io)) devs)).
Record daemon_ok (json : option bytes) (ios : list write_io) (h : hstate) : Prop := DaemonOk {
  do_table : table_ok (g_devs h);
  do_current : g_dirty h = false ->
    (h_json h = json /\ active_devices (g_devs h) = []) \/ file_of ios (g_devs h) (h_json h)
}.

Lemma file_of_more ios ios' devs json : ios ⊆ ios' -> file_of ios devs json -> file_of ios' devs json.
Proof. intros Hs (io & Hio & H). exists io. split; [by apply Hs|done]. Qed.
Lemma daemon_ok_more json ios ios' h : ios ⊆ ios' -> daemon_ok json ios h -> daemon_ok json ios' h.
Proof.
  intros Hs [Ht Hc]. split; [done|]. intros Hd. destruct (Hc Hd) as [?|H]; [by left|right].
  by eapply file_of_more.
Qed.

Section daemon_ok.
Context (json : option bytes) (ios : list write_io).
Abbreviation ok := (daemon_ok json ios).

(** A state with the same table, flag and file. *)
Lemma ok_same h h' :
  g_devs h' = g_devs h -> g_dirty h' = g_dirty h -> h_json h' = h_json h -> ok h -> ok h'.
Proof. intros Hd Hf Hj [Ht Hc]. split; [by rewrite Hd|]. by rewrite Hf, Hj, Hd. Qed.

Lemma ok_dirty h : table_ok (g_devs h) -> g_dirty h = true -> ok h.
Proof. intros Ht Hf. split; [done|congruence]. Qed.

Lemma stats_frame io h :
  g_dirty (update_traffic_stats io h) = g_dirty h /\ h_json (update_traffic_stats io h) = h_json h.
Proof.
  unfold update_traffic_stats. destruct (negb _); [done|]. destruct (_ <? _); [done|].
  by destruct (wi_stats_out io).
Qed.

(** The file is written only while the table counts as changed. *)
Lemma write_json_ok io h : io ∈ ios -> table_ok (g_devs h) -> g_dirty h = true -> ok (write_json io h).
Proof.
  intros Hio Ht Hf. pose proof (write_json_table io h Ht) as Ht'. unfold write_json in *.
  destruct (stats_frame io h) as [Hs _].
  destruct (wi_open io) eqn:Eo; cbn [negb]; [|by apply ok_dirty; [|congruence]].
  destruct (wi_rename io) eqn:Er; cbn [negb]; [|by apply ok_dirty; [|congruence]].
  split; [done|]. intros _. right. by exists io.
Qed.

Lemma arp_lines_quiet env lines : forall k h n,
  (arp_lines env k lines h n).1 = h /\ (arp_lines env k lines h n).2 = n \/
  (n < (arp_lines env k lines h n).2)%nat.
Proof.
  induction lines as [|line lines IH]; intros k h n; cbn [arp_lines]; [by left|].
  destruct (arp_entry line) as [[[ip mac] iface]|]; [|apply IH]. right.
  destruct (IH (S k) (device_up (env k) mac ip iface NUD_STALE h) (S n)) as [[_ ->]|]; lia.
Qed.

Lemma scan_arp_ok env arp io h : io ∈ ios -> ok h -> ok (scan_arp env arp io h).
Proof.
  intros Hio Hok. unfold scan_arp. destruct arp as [content|]; [|done].
  destruct (fgets_lines ARP_LINE content) as [|heading lines]; [done|].
  pose proof (arp_lines_ok env lines 0 h 0 (do_table _ _ _ Hok)) as Ht.
  destruct (arp_lines_quiet env lines 0 h 0) as [[H1 H2]|Hlt];
    destruct (arp_lines env 0 lines h 0) as [h' n]; cbn [fst snd] in *.
  - by subst.
  - rewrite (proj2 (Nat.ltb_lt 0 n)) by done. by apply write_json_ok.
Qed.

Lemma process_pending_daemon w h : ok h -> ok (process_pending_mdns w h).
Proof.
  intros Hok. destruct (oldest_pending (w_now w) (g_devs h) 0 None) as [i|] eqn:E.
  - pose proof (process_pending_ok w h (do_table _ _ _ Hok)).
    destruct (process_pending_slot w h i (do_table _ _ _ Hok) E) as (d & e & c & _ & _ & _ & _ & _ & _ & _ & Heq).
    apply ok_dirty; [done|]. by rewrite Heq.
  - unfold process_pending_mdns. by rewrite E.
Qed.

Lemma apply_results_daemon env rs : forall k h, ok h -> ok (apply_results env k rs h).
Proof.
  induction rs as [|r rs IH]; intros k h Hok; cbn [apply_results]; [done|]. apply IH.
  pose proof (apply_results_ok env [r] k h (do_table _ _ _ Hok)) as Ht. cbn [apply_results] in Ht.
  unfold apply_result in *. destruct (find_device _ _) as [[i d]|]; [|done].
  destruct (negb _); [done|]. destruct (negb _); by apply ok_dirty.
Qed.

Lemma drain_daemon env h : ok h -> ok (drain_mdns env h).
Proof.
  intros Hok. unfold drain_mdns. destruct (hnc_mdns_worker_drain_results _ _) as [rs m].
  apply apply_results_daemon. by apply (ok_same h).
Qed.

Lemma sweep_daemon now last h : ok h -> ok (offline_sweep now last h).1.
Proof.
  intros Hok. unfold offline_sweep. destruct (_ <=? _); [|done]. cbn [fst].
  pose proof (sweep_table_ok now _ (do_table _ _ _ Hok)) as Ht.
  destruct (filter (fun d => is_silent now d = true) (g_devs h)) as [|d l] eqn:E;
    cbn [length Nat.ltb Nat.leb].
  - rewrite sweep_quiet by done. by apply (ok_same h).
  - by apply ok_dirty.
Qed.

Lemma save_cache_daemon io file h : ok h -> ok (save_cache io file h).2.
Proof.
  intros Hok. unfold save_cache. destruct (hnc_cache_is_dirty _); [|done].
  destruct (hnc_cache_save _ _ _) as [[rc f] c]. by apply (ok_same h).
Qed.

Lemma debounce_daemon now io sio s : io ∈ ios -> ok (ls_h s) -> ok (ls_h (debounce now io sio s)).
Proof.
  intros Hio Hok. unfold debounce. destruct (g_dirty (ls_h s)) eqn:Ed; [|done].
  destruct (_ || _); [|done].
  pose proof (write_json_ok io (ls_h s) Hio (do_table _ _ _ Hok) Ed) as Hw.
  pose proof (save_cache_daemon sio (ls_cache_file s) _ Hw) as Hs.
  by destruct (save_cache sio (ls_cache_file s) (write_json io (ls_h s))).
Qed.

(** The writes of a turn. *)
Definition turn_ios (e : turn_env) : list write_io := [te_scan_io e; te_write_io e].

Lemma turn_top_daemon e s : turn_ios e ⊆ ios -> ok (ls_h s) -> ok (ls_h (turn_top e s)).
Proof.
  intros Hios Hok. assert (Hscan : te_scan_io e ∈ ios) by (apply Hios; left).
  assert (Hwrite : te_write_io e ∈ ios) by (apply Hios; right; left). unfold turn_top.
  set (h1 := if g_need_scan (ls_h s) then _ else _).
  assert (H1 : ok h1).
  { subst h1. destruct (g_need_scan _); [|done]. by apply scan_arp_ok, (ok_same (ls_h s)). }
  pose proof (sweep_daemon (te_now e) (ls_last_check s) _
    (drain_daemon (te_drain e) _ (process_pending_daemon (te_pending e) _ H1))) as H2.
  destruct (offline_sweep _ _ _) as [h2 last]. by apply debounce_daemon.
Qed.

Lemma neigh_apply_daemon ifname w m h : msg_mac_ok m -> ok h -> ok (neigh_apply ifname w m h).
Proof.
  intros Hm Hok. pose proof (neigh_apply_ok ifname w m h (do_table _ _ _ Hok) Hm) as Ht.
  unfold neigh_apply in *. destruct (negb _); [done|]. destruct (_ || _); [done|].
  destruct (_ || _); [|by apply ok_dirty].
  destruct (find_device _ _) as [[i d]|]; [|done]. destruct (negb _); [by apply ok_dirty|done].
Qed.

Lemma neigh_all_daemon ifname env msgs : forall k h,
  Forall msg_mac_ok msgs -> ok h -> ok (neigh_all ifname env k msgs h).
Proof.
  induction msgs as [|m msgs IH]; intros k h Hms Hok; cbn [neigh_all]; [done|].
  apply Forall_cons in Hms as [Hm Hms]. by apply IH, neigh_apply_daemon.
Qed.

Lemma nl_process_daemon ifname evs : forall h h', ok h -> nl_process ifname evs h = Some h' -> ok h'.
Proof.
  induction evs as [|ev evs IH]; intros h h' Hok; cbn [nl_process]; [by intros [= <-]|].
  destruct ev as [buf n env| | | |]; try by intros [= <-].
  - destruct (nl_messages buf n) as [msgs|] eqn:E; cbn [mbind option_bind]; [|done].
    apply IH, neigh_all_daemon; [by eapply nl_messages_mac|done].
  - intros [= <-]. by apply (ok_same h).
Qed.

Lemma refresh_daemon now h : ok h -> ok (refresh_stats now h).
Proof. intros Hok. unfold refresh_stats. destruct (_ <? _); [|done]. by apply (ok_same h). Qed.

Lemma handle_client_daemon {W} `{!SchedEnv W} (lsm : W -> nat -> option bytes) now pid received h x :
  ok h -> ok (handle_client lsm now pid received h x).1.2.
Proof.
  intros Hok. unfold handle_client. destruct received as [[|c data]|]; [done| |done]. cbv zeta.
  destruct (strcmp_eq _ (str "GET_DEVICES")); [done|].
  destruct (strcmp_eq _ (str "REFRESH")); [by apply refresh_daemon, (ok_same h)|].
  destruct (strcmp_eq _ (str "STATUS")); [done|].
  destruct (strip_prefix _ _) as [args|].
  { destruct ('(mac, r) ← scan_s 31 args; _) as [[mac flag]|]; [|done]. by destruct (_ || _). }
  destruct (strcmp_eq _ (str "OFFLOAD_REFRESH")); [done|].
  destruct (strcmp_eq _ (str "OFFLOAD_STATUS")); [done|].
  destruct (strcmp_eq _ (str "OFFLOAD_DISABLE_GLOBAL")); [by destruct (hnc_scheduler_force_disable_global x)|].
  destruct (strcmp_eq _ (str "OFFLOAD_RESTORE_GLOBAL")); [by destruct (hnc_scheduler_force_restore_global x)|].
  destruct (strcmp_eq _ (str "QUIT")); [by apply (ok_same h)|done].
Qed.
End daemon_ok.

(** ** Runs of the daemon *)

Section runs.
Context {W : Type} `{!SchedEnv W} (lsm : W -> nat -> option bytes).

(** What happens beside the main loop: signals, the mDNS worker, and whatever the
    thread of the scheduler does to its state. *)
Inductive hot_async : loop_state * sworld W -> loop_state * sworld W -> Prop :=
  | ha_usr1 h a b f x : hot_async (LoopState h a b f, x) (LoopState (sig_usr1 h) a b f, x)
  | ha_term h a b f x : hot_async (LoopState h a b f, x) (LoopState (sig_term h) a b f, x)
  | ha_worker h a b f x m :
      worker_fn (h_worker h) = Some m -> hot_async (LoopState h a b f, x) (LoopState (set_mdns m h) a b f, x)
  | ha_scheduler s x x' : hot_async (s, x) (s, x').

(** A turn of the main loop, and what happens beside it until the next one. *)
Inductive hot_turn (e : turn_env) : loop_state * sworld W -> loop_state * sworld W -> Prop :=
  | ht_turn s x ifname now pid ev go out s' x' y :
      g_running (ls_h s) = true ->
      turn_events lsm ifname now pid ev (turn_top e s) x = Some (go, out, s', x') ->
      rtc hot_async (s', x') y -> hot_turn e (s, x) y.

Inductive hot_run : list turn_env -> loop_state * sworld W -> loop_state * sworld W -> Prop :=
  | hr_nil y : hot_run [] y y
  | hr_snoc es e x y z : hot_run es x y -> hot_turn e y z -> hot_run (es ++ [e]) x z.

Lemma async_daemon json ios y z : hot_async y z -> daemon_ok json ios (ls_h y.1) -> daemon_ok json ios (ls_h z.1).
Proof. destruct 1; cbn [fst ls_h]; intros Hok; try done; by apply (ok_same _ _ h). Qed.

Lemma asyncs_daemon json ios y z :
  rtc hot_async y z -> daemon_ok json ios (ls_h y.1) -> daemon_ok json ios (ls_h z.1).
Proof.
  intros Hr. apply (rtc_invariant hot_async (fun y => daemon_ok json ios (ls_h y.1))); [|done].
  intros a b Ha Hs. by eapply async_daemon.
Qed.

Lemma turn_events_daemon json ios ifname now pid ev s x go out s' x' :
  daemon_ok json ios (ls_h s) -> turn_events lsm ifname now pid ev s x = Some (go, out, s', x') ->
  daemon_ok json ios (ls_h s').
Proof.
  intros Hok. unfold turn_events. destruct ev as [| | |nl client]; try by intros [= <- <- <- <-].
  assert (Hnl : forall h, match nl with Some evs => nl_process ifname evs (ls_h s) | None => Some (ls_h s) end = Some h ->
    daemon_ok json ios h).
  { intros h. destruct nl; [by apply nl_process_daemon|by intros [= <-]]. }
  destruct (match nl with Some _ => _ | None => _ end) as [h|]; cbn [mbind option_bind]; [|done].
  specialize (Hnl h eq_refl). destruct client as [received|].
  - pose proof (handle_client_daemon json ios lsm now pid received h x Hnl) as Hc.
    destruct (handle_client _ _ _ _ _ _) as [[out' h'] x'']. by intros [= <- <- <- <-].
  - by intros [= <- <- <- <-].
Qed.

Lemma turn_daemon json ios e y z :
  hot_turn e y z -> turn_ios e ⊆ ios -> daemon_ok json ios (ls_h y.1) -> daemon_ok json ios (ls_h z.1).
Proof.
  intros Ht Hios Hok. destruct Ht as [s x ifname now pid ev go out s' x' y Hrun Hev Hr].
  eapply asyncs_daemon; [exact Hr|]. eapply turn_events_daemon; [|exact Hev]. by apply turn_top_daemon.
Qed.

Lemma table_zero_ok : table_ok (replicate MAX_DEVICES dev_zero).
Proof.
  split.
  - apply length_replicate.
  - apply Forall_replicate, dev_zero_ok.
  - intros i j a b Hi _ Ha. apply lookup_replicate in Hi as [-> _]. done.
Qed.

Lemma active_zero n : active_devices (replicate n dev_zero) = [].
Proof. induction n as [|n IH]; [done|]. cbn [replicate]. unfold active_devices in *. by rewrite filter_cons, decide_False. Qed.

(** The writes of a run: at the start, and in its turns. *)
Definition run_ios (scan_io : write_io) (es : list turn_env) : list write_io := scan_io :: concat (map turn_ios es).

Lemma run_ios_snoc scan_io es e : run_ios scan_io (es ++ [e]) = run_ios scan_io es ++ turn_ios e.
Proof. unfold run_ios. rewrite map_app, concat_app. cbn [map concat]. by rewrite app_nil_r. Qed.

Lemma run_daemon (compiled_in : list (offload_adapter W)) (cache_path override_path : bytes)
  (cache_file override_file : option bytes) (worker_rc : Z) (resolver : hnc_mdns_resolve_fn)
  (scan_env : nat -> world) (arp : option bytes) (scan_io : write_io) (last_check : Z)
  (json : option bytes) (x : sworld W) (es : list turn_env) (z : loop_state * sworld W) :
  hot_run es (main_start compiled_in cache_path override_path cache_file override_file worker_rc resolver
                scan_env arp scan_io last_check (hstate_zero json) x) z ->
  daemon_ok json (run_ios scan_io es) (ls_h z.1).
Proof.
  intros Hr. remember (main_start _ _ _ _ _ _ _ _ _ _ _ _ _) as y eqn:Ey. revert Ey.
  induction Hr as [y|es e y z z' Hr IH Ht]; intros ->.
  - unfold main_start. destruct (hnc_scheduler_init compiled_in x) as [rc x']. cbn [fst snd ls_h].
    apply scan_arp_ok; [left|]. split; cbn [g_devs hstate_zero g_dirty h_json]; [apply table_zero_ok|].
    intros _. left. split; [done|apply active_zero].
  - rewrite run_ios_snoc. eapply turn_daemon; [exact Ht|by apply list_subseteq_app_r|].
    eapply daemon_ok_more; [|by apply IH]. by apply list_subseteq_app_l.
Qed.

(** C4: the daemon's table is always well formed and its file is never silently
    out of date.  From the start of the daemon, with any files, and through every
    sequence of turns with any netlink datagrams (decoded in bounds), ARP tables, clients, results of
    the mDNS worker, signals and failures of the file system: the table has 128
    slots, every field fits its buffer, no MAC is active twice up to case; and
    whenever the table does not count as changed, either [devices.json] is the text of
    exactly its active devices, with the blacklist that one of the writes of the run
    read, or it is the file of an earlier run and no device is known.  The results of writing are
    not checked: on a full disk the file is that text only as far as there was room in that write. *)
Theorem daemon_invariant (compiled_in : list (offload_adapter W)) (cache_path override_path : bytes)
  (cache_file override_file : option bytes) (worker_rc : Z) (resolver : hnc_mdns_resolve_fn)
  (scan_env : nat -> world) (arp : option bytes) (scan_io : write_io) (last_check : Z)
  (json : option bytes) (x : sworld W) (es : list turn_env) (z : loop_state * sworld W) :
  hot_run es (main_start compiled_in cache_path override_path cache_file override_file worker_rc resolver
                scan_env arp scan_io last_check (hstate_zero json) x) z ->
  let h := ls_h z.1 in
  length (g_devs h) = MAX_DEVICES /\ Forall dev_ok (g_devs h) /\
  slots_uniq d_active d_mac (g_devs h) /\
  (g_dirty h = false ->
     (h_json h = json /\ active_devices (g_devs h) = []) \/
     exists io, io ∈ run_ios scan_io es /\ wi_open io = true /\ wi_rename io = true /\
       h_json h = Some (written (wi_room io) (devices_file (read_blacklist (wi_rules io)) (g_devs h)))).
Proof.
  intros Hr h. destruct (run_daemon _ _ _ _ _ _ _ _ _ _ _ _ _ _ _ Hr) as [[] ?]. by split_and!.
Qed.

(** ** Saving *)

Record write_good (io : write_io) : Prop := WriteGood {
  wg_open : wi_open io = true; wg_room : wi_room io = None; wg_rename : wi_rename io = true
}.
Definition io_good (e : turn_env) : Prop := write_good (te_write_io e).

Lemma write_json_clean io h :
  write_good io ->
  g_dirty (write_json io h) = false /\
  h_json (write_json io h) = Some (devices_file (read_blacklist (wi_rules io)) (g_devs (write_json io h))).
Proof. intros [Ho Hm Hr]. unfold write_json. by rewrite Ho, Hm, Hr. Qed.

Lemma save_cache_frame io file h :
  g_devs (save_cache io file h).2 = g_devs h /\ g_dirty (save_cache io file h).2 = g_dirty h /\
  h_json (save_cache io file h).2 = h_json h.
Proof.
  unfold save_cache. destruct (hnc_cache_is_dirty _); [|done]. by destruct (hnc_cache_save _ _ _) as [[rc f] c].
Qed.

(** When the debounce writes. *)
Definition due (now : Z) (s : loop_state) : bool :=
  (1 <=? s32 (now - g_last_event (ls_h s))) ||
  (30 <=? s32 (now - if ls_dirty_since s =? 0 then now else ls_dirty_since s)).

Lemma debounce_cases now io sio s :
  write_good io -> g_dirty (ls_h s) = true ->
  let s' := debounce now io sio s in
  if due now s then
    g_dirty (ls_h s') = false /\ ls_dirty_since s' = 0 /\
    h_json (ls_h s') = Some (devices_file (read_blacklist (wi_rules io)) (g_devs (ls_h s')))
  else ls_h s' = ls_h s /\ ls_dirty_since s' = if ls_dirty_since s =? 0 then now else ls_dirty_since s.
Proof.
  intros Hg Hd. unfold debounce, due. rewrite Hd. destruct (_ || _); [|done].
  pose proof (write_json_clean io (ls_h s) Hg) as [Hc Hj].
  pose proof (save_cache_frame sio (ls_cache_file s) (write_json io (ls_h s))) as (H1 & H2 & H3).
  destruct (save_cache sio (ls_cache_file s) (write_json io (ls_h s))) as [file h']. cbn [fst snd ls_h ls_dirty_since] in *.
  split_and!; [congruence|done|congruence].
Qed.

Lemma turn_top_debounce e s :
  exists s1, turn_top e s = debounce (te_now e) (te_write_io e) (te_save_io e) s1 /\
    ls_dirty_since s1 = ls_dirty_since s.
Proof.
  unfold turn_top. destruct (offline_sweep _ _ _) as [h2 last]. by eexists.
Qed.

Lemma async_since y z : rtc hot_async y z -> ls_dirty_since z.1 = ls_dirty_since y.1.
Proof. induction 1 as [|y y' z Ha _ IH]; [done|]. rewrite IH. by destruct Ha. Qed.

Lemma turn_since e s x z : hot_turn e (s, x) z -> ls_dirty_since z.1 = ls_dirty_since (turn_top e s).
Proof.
  intros Ht. inversion Ht as [s0 x0 ifname now pid ev go out s' x' y Hrun Hev Hr]; subst.
  rewrite (async_since _ _ Hr). cbn [fst]. unfold turn_events in Hev.
  destruct ev as [| | |nl client]; try by injection Hev as <- <- <- <-.
  destruct (match nl with Some _ => _ | None => _ end) as [h|]; cbn [mbind option_bind] in Hev; [|done].
  destruct client; [|by injection Hev as <- <- <- <-].
  destruct (handle_client _ _ _ _ _ _) as [[out' h'] x'']. by injection Hev as <- <- <- <-.
Qed.

(** A turn saves, or the date of the first unsaved change stays. *)
Lemma turn_saves_or_waits e s since :
  io_good e -> ls_dirty_since s = since -> since <> 0 ->
  g_dirty (ls_h (turn_top e s)) = false \/
  (ls_dirty_since (turn_top e s) = since /\ ~ (30 <= s32 (te_now e - since))).
Proof.
  intros Hg Hs Hne. destruct (turn_top_debounce e s) as (s1 & -> & Hs1).
  destruct (g_dirty (ls_h s1)) eqn:Ed.
  - pose proof (debounce_cases (te_now e) _ (te_save_io e) s1 Hg Ed) as Hc. cbv zeta in Hc.
    destruct (due _ _) eqn:Edue; [left; apply Hc|]. right. destruct Hc as [_ Hc].
    rewrite Hc, Hs1, Hs in *. rewrite (proj2 (Z.eqb_neq since 0)) in * by done. split; [done|].
    unfold due in Edue. rewrite Hs1, (proj2 (Z.eqb_neq since 0)) in Edue by done. bool_simpl. lia.
  - left. unfold debounce. by rewrite Ed.
Qed.

(** C6: every change is saved.  Take any run, with events as they come, that starts
    with a change noticed at the time [since], and a turn at 30 seconds later or
    more (and less than [2^31] seconds): when files can be written, then in the run
    or in that turn there is a moment at which the table is saved.  A turn that
    meets no event of the last second saves at once. *)
Theorem changes_are_saved (es : list turn_env) (e : turn_env) (y : loop_state * sworld W)
  (s : loop_state) (x : sworld W) (since : Z) :
  hot_run es y (s, x) -> ls_dirty_since y.1 = since -> since <> 0 ->
  Forall io_good (es ++ [e]) -> since + 30 <= te_now e < since + 2 ^ 31 ->
  (exists es1 e1 es2 s1 x1,
     es ++ [e] = es1 ++ e1 :: es2 /\ hot_run es1 y (s1, x1) /\ g_dirty (ls_h (turn_top e1 s1)) = false) /\
  (forall s0 now io sio, write_good io -> g_dirty (ls_h s0) = true ->
     1 <= now - g_last_event (ls_h s0) < 2 ^ 31 ->
     let s' := debounce now io sio s0 in
     g_dirty (ls_h s') = false /\
     h_json (ls_h s') = Some (devices_file (read_blacklist (wi_rules io)) (g_devs (ls_h s')))).
Proof.
  intros Hrun Hsince Hne Hio Hnow. split.
  - apply Forall_app in Hio as [Hio [He _]%Forall_cons].
    assert (H : (exists es1 e1 es2 s1 x1,
      es = es1 ++ e1 :: es2 /\ hot_run es1 y (s1, x1) /\ g_dirty (ls_h (turn_top e1 s1)) = false) \/
      ls_dirty_since s = since).
    { change s with (fst (s, x)). clear He Hnow. remember (s, x) as z eqn:Ez. clear Ez s x.
      induction Hrun as [y|es e' y y' z Hrun IH Ht]; [by right|].
      apply Forall_app in Hio as [Hio [He' _]%Forall_cons].
      destruct (IH Hsince Hio) as [(es1 & e1 & es2 & s1 & x1 & -> & Hr1 & Hc)|Hs].
      - left. exists es1, e1, (es2 ++ [e']), s1, x1. split_and!; [by rewrite <- app_assoc|done|done].
      - destruct y' as [s' x']. destruct (turn_saves_or_waits e' s' since He' Hs Hne) as [Hc|[Hw _]].
        + left. by exists es, e', [], s', x'.
        + right. by rewrite (turn_since _ _ _ _ Ht). }
    destruct H as [(es1 & e1 & es2 & s1 & x1 & -> & Hr1 & Hc)|Hs].
    + exists es1, e1, (es2 ++ [e]), s1, x1. split_and!; [by rewrite <- app_assoc|done|done].
    + destruct (turn_saves_or_waits e s since He Hs Hne) as [Hc|[_ Hw]].
      * by exists es, e, [], s, x.
      * exfalso. apply Hw. unfold s32. rewrite u32_small by lia.
        rewrite (proj2 (Z.ltb_lt _ _)) by lia. lia.
  - intros s0 now io sio Hg Hd Hev.
    pose proof (debounce_cases now io sio s0 Hg Hd) as Hc. cbv zeta in Hc.
    assert (Hdue : due now s0 = true).
    { unfold due. apply orb_true_iff. left. apply Z.leb_le. unfold s32. rewrite u32_small by lia.
      rewrite (proj2 (Z.ltb_lt _ _)) by lia. lia. }
    rewrite Hdue in Hc. destruct Hc as (? & _ & ?). done.
Qed.
End runs.

(** ** Replies *)

Definition is_outcome (ev : send_ev) : bool := match ev with SendEintr => false | _ => true end.

Lemma send_all_result evs : forall buf rc out,
  send_all evs buf = Some (rc, out) ->
  (rc = 0 /\ out = buf) \/ (rc = -1 /\ out `prefix_of` buf /\ out <> buf).
Proof.
  induction evs as [|ev evs IH]; intros [|c buf] rc out; cbn [send_all]; try done;
    try (intros [= <- <-]; by left).
  destruct ev as [[|n]| |].
  - intros [= <- <-]. right. split_and!; [done|by apply prefix_nil|done].
  - destruct (send_all evs (drop (S n) (c :: buf))) as [[rc' out']|] eqn:E; cbn [mbind option_bind]; [|done].
    intros [= <- <-]. apply IH in E as [[-> ->]|(-> & Hp & Hne)].
    + left. split; [done|]. apply (take_drop (S n) (c :: buf)).
    + right. pose proof (take_drop (S n) (c :: buf)) as Hs. split_and!; [done| |].
      * destruct Hp as [k Hk]. exists k.
        transitivity ((take (S n) (c :: buf) ++ out') ++ k); [|done]. by rewrite <- app_assoc, <- Hk.
      * intros Heq. apply Hne, (app_inv_head (take (S n) (c :: buf))). by rewrite Hs.
  - apply IH.
  - intros [= <- <-]. right. split_and!; [done|by apply prefix_nil|done].
Qed.

Lemma send_all_returns evs : forall buf,
  (length buf <= length (filter (fun ev => is_outcome ev = true) evs))%nat -> is_Some (send_all evs buf).
Proof.
  induction evs as [|ev evs IH]; intros [|c buf] Hl; cbn [send_all]; try (by eexists); [cbn in Hl; lia|].
  rewrite filter_cons in Hl. destruct ev as [[|n]| |]; try (by eexists); cbn [is_outcome] in Hl.
  - rewrite decide_True in Hl by done. cbn [length] in Hl.
    destruct (IH (drop (S n) (c :: buf))) as [[rc out] ->].
    { rewrite length_drop. cbn [length]. lia. }
    by eexists.
  - rewrite decide_False in Hl by done. apply IH. done.
Qed.

Lemma chunks_concat fuel n s : (0 < n)%nat -> (length s <= fuel)%nat -> concat (chunks fuel n s) = s.
Proof.
  intros Hn. revert s. induction fuel as [|fuel IH]; intros s Hl.
  - by destruct s; [|cbn in Hl; lia].
  - destruct s as [|c s]; [done|]. cbn [chunks concat]. rewrite IH; [apply take_drop|].
    rewrite length_drop. cbn [length] in *. lia.
Qed.

(** Replies are sent whole or the failure is seen.  [send_all] returns as soon
    as [send] has answered once per byte other than by an interruption; it returns
    0 only when every byte went out, in order, and otherwise -1 after a proper
    prefix.  The pieces that answer [GET_DEVICES], with or without trailing
    newline, make up the file, and the command changes nothing. *)
Lemma reply_whole {W} `{!SchedEnv W} (lsm : W -> nat -> option bytes) (now pid : Z) (eol : bytes)
  (h : hstate) (x : sworld W) (buf : bytes) (evs : list send_ev) :
  forallb is_trailing eol = true -> (length eol <= 52)%nat ->
  (let r := handle_client lsm now pid (Some (str "GET_DEVICES" ++ eol)) h x in
   concat r.1.1 = default (str "{}") (h_json h) /\ r.1.2 = h /\ r.2 = x) /\
  ((length buf <= length (filter (fun ev => is_outcome ev = true) evs))%nat ->
   exists rc out, send_all evs buf = Some (rc, out) /\
     ((rc = 0 /\ out = buf) \/ (rc = -1 /\ out `prefix_of` buf /\ out <> buf))).
Proof.
  intros Heol Hlen. split.
  - unfold handle_client. change (str "GET_DEVICES" ++ eol) with (71 :: (drop 1 (str "GET_DEVICES") ++ eol)).
    cbv zeta. change (71 :: (drop 1 (str "GET_DEVICES") ++ eol)) with (str "GET_DEVICES" ++ eol).
    rewrite take_ge by (rewrite length_app; cbn; lia).
    assert (Hc : Forall is_cchar (str "GET_DEVICES" ++ eol)).
    { apply Forall_app. split; [by repeat constructor|]. apply Forall_forall. intros c Hin.
      pose proof (forallb_elem _ _ _ Heol Hin) as Ht. unfold is_trailing, NL, CR in Ht.
      repeat (apply orb_prop in Ht as [Ht|Ht]); bool_simpl; unfold is_cchar; lia. }
    rewrite cut_nul_id by done.
    assert (Hs : strip_tail is_trailing (str "GET_DEVICES" ++ eol) = str "GET_DEVICES").
    { unfold strip_tail. rewrite reverse_app.
      assert (Hd : drop_while is_trailing (reverse eol ++ reverse (str "GET_DEVICES")) = reverse (str "GET_DEVICES")).
      { apply (take_while_app is_trailing).
        - intros c Hin. rewrite elem_of_reverse in Hin. by apply (forallb_elem _ _ _ Heol).
        - by intros c [= <-]. }
      by rewrite Hd, reverse_involutive. }
    rewrite Hs. change (strcmp_eq (str "GET_DEVICES") (str "GET_DEVICES")) with true. cbn [fst snd].
    split_and!; [|done..]. destruct (h_json h) as [file|]; [|done]. cbn [default].
    apply chunks_concat; [|done]. apply Nat.ltb_lt. by vm_compute.
  - intros Hn. destruct (send_all_returns evs buf Hn) as [[rc out] H]. exists rc, out. split; [done|].
    by eapply send_all_result.
Qed.

(** ** The PID file *)

Lemma read_pid_text pid : 0 < pid < 2 ^ 31 -> scan_d (pid_text pid) = Some (pid, [NL]).
Proof.
  intros Hp. unfold scan_d, pid_text. pose proof (scan_ld_dec pid [] [NL] eq_refl) as H. cbn [app] in H.
  rewrite H; [|unfold LONG_MIN, LONG_MAX; lia|by intros c [= <-]]. cbn [mbind option_bind].
  unfold s32. rewrite u32_small by lia. by rewrite (proj2 (Z.ltb_lt _ _)) by lia.
Qed.

(** The process that holds a file. *)
Definition holder (file : pid_file) : option Z := f ← file; read_pid f.2.

(** The file names a living process. *)
Definition held (alive : Z -> bool) (file : pid_file) : bool :=
  match holder file with Some p => alive p | None => false end.

(** When [write_pid] does not go on: it cannot make a file at all, the file names a living
    process, or the old file stays in the way. *)
Definition pid_refused (io : pid_io) (alive : Z -> bool) (file : pid_file) : bool :=
  negb (pi_open io) ||
  match file with
  | None => false
  | Some _ => pi_fopen io && held alive file || negb (pi_unlink io) || negb (pi_reopen io)
  end.

Lemma write_pid_living io alive me file :
  pi_fopen io = true -> held alive file = true -> write_pid io alive me file = (-1, file).
Proof.
  unfold held, holder, write_pid. intros Hf. destruct file as [[creator content]|]; [|done]. cbn [mbind option_bind snd].
  destruct (read_pid content) as [p|] eqn:Er; [|done]. intros Ha. cbn [pid_run write_pid_step fst snd].
  destruct (pi_open io); cbn [negb pid_run write_pid_step fst snd]; [|done]. by rewrite Hf, Er, Ha.
Qed.

(** The result, with any outcomes: a refused start leaves the file, or a file that names no
    living process is gone; otherwise the file is new, with as much of the own PID as was written. *)
Lemma write_pid_cases io alive me file :
  if pid_refused io alive file
  then exists file', write_pid io alive me file = (-1, file') /\
         (file' = file \/ file' = None /\ (pi_fopen io && held alive file = false))
  else write_pid io alive me file = (0, Some (me, take (pi_write io) (pid_text me))).
Proof.
  unfold pid_refused, held, holder, write_pid.
  destruct io as [[] fo un re n]; cbn [pi_open pi_fopen pi_unlink pi_reopen pi_write negb orb];
    [|by eexists; split; [|left]].
  destruct file as [[creator content]|]; cbn [mbind option_bind snd pid_run write_pid_step fst pi_open negb];
    [|by rewrite Z.eqb_refl].
  cbn [pi_fopen pi_unlink pi_reopen].
  assert (Hgo : if negb un || negb re
    then exists file', (let '(pc, f) := pid_run 3 (PidIo true fo un re n) alive me (PidUnlink, Some (creator, content)) in
                        (match pc with PidDone => 0 | _ => -1 end, f)) = (-1, file') /\
           (file' = Some (creator, content) \/ file' = None)
    else (let '(pc, f) := pid_run 3 (PidIo true fo un re n) alive me (PidUnlink, Some (creator, content)) in
          (match pc with PidDone => 0 | _ => -1 end, f)) = (0, Some (me, take n (pid_text me)))).
  { destruct un, re; cbn; rewrite ?Z.eqb_refl; try done; eexists; (split; [reflexivity|]); auto. }
  destruct fo; cbn [negb andb orb].
  - destruct (read_pid content) as [p|]; [destruct (alive p); [by eexists; split; [|left]|]|]; cbn [orb];
      destruct (negb un || negb re); try exact Hgo; naive_solver.
  - destruct (negb un || negb re); [naive_solver|exact Hgo].
Qed.

(** [write_pid] and the end find the whole PID. *)
Definition pid_whole (io : pid_io) (me : Z) : Prop := (length (pid_text me) <= pi_write io)%nat.
Lemma pid_whole_text io me : pid_whole io me -> take (pi_write io) (pid_text me) = pid_text me.
Proof. apply take_ge. Qed.

Lemma cleanup_pid_text eio me other :
  0 < me < 2 ^ 31 -> ei_fopen eio = true -> ei_unlink eio = true ->
  cleanup_pid eio other (Some (me, pid_text me)) = if me =? other then None else Some (me, pid_text me).
Proof. intros Hme Hf Hu. unfold cleanup_pid. rewrite Hf, (read_pid_text me Hme), Hu. cbn [negb]. by destruct (me =? other). Qed.

(** The PID file admits one daemon after another, when its calls work.  A daemon that starts
    alone is refused, and leaves the file as it is, exactly when the file names a living
    process; otherwise it takes the file over, whatever was in it.  From then on
    the file names it: a further start is refused while it lives, the end of
    another process leaves the file alone, and its own end removes it. *)
Lemma pid_file_protocol (io : pid_io) (eio : end_io) (alive : Z -> bool) (me : Z) (file : pid_file) :
  0 < me < 2 ^ 31 -> pi_open io = true -> pi_fopen io = true -> pi_unlink io = true -> pi_reopen io = true ->
  pid_whole io me -> ei_fopen eio = true -> ei_unlink eio = true ->
  let r := write_pid io alive me file in
  (if held alive file
   then r = (-1, file)
   else r = (0, Some (me, pid_text me)) /\ holder r.2 = Some me /\
        (forall io' other alive', pi_fopen io' = true -> alive' me = true -> write_pid io' alive' other r.2 = (-1, r.2)) /\
        (forall other, other <> me -> cleanup_pid eio other r.2 = r.2) /\
        cleanup_pid eio me r.2 = None).
Proof.
  intros Hme Ho Hf Hu Hre Hw Ef Eu r. pose proof (read_pid_text me Hme) as Hr.
  assert (Hread : read_pid (pid_text me) = Some me).
  { unfold read_pid. rewrite Hr. by rewrite (proj2 (Z.ltb_lt _ _)) by lia. }
  pose proof (write_pid_cases io alive me file) as Hc. unfold pid_refused in Hc. rewrite Ho, Hf, Hu, Hre in Hc.
  destruct (held alive file) eqn:E; [by apply write_pid_living|].
  assert (Hr0 : r = (0, Some (me, pid_text me))).
  { subst r. destruct file; cbn [negb orb andb] in Hc; by rewrite Hc, pid_whole_text. }
  rewrite Hr0. cbn [snd]. split_and!; [done|exact Hread| | |].
  - intros io' other alive' Hf' Ha. apply write_pid_living; [done|]. unfold held, holder. cbn [mbind option_bind snd].
    by rewrite Hread.
  - intros other Hne. rewrite cleanup_pid_text by done. by rewrite (proj2 (Z.eqb_neq me other)).
  - rewrite cleanup_pid_text by done. by rewrite Z.eqb_refl.
Qed.

(** Two daemons that start at the same time can both take it: between [open] and
    [write] the file is empty, which the second one takes for a broken file. *)
Definition pid_works : pid_io := PidIo true true true true 32.
Lemma pid_race (alive : Z -> bool) (a b : Z) :
  let '(pa, f) := write_pid_step pid_works alive a PidOpen None in
  let '(pb, f) := pid_run 5 pid_works alive b (PidOpen, f) in
  let '(pa, f) := write_pid_step pid_works alive a pa f in
  a <> b -> pa = PidDone /\ pb = PidDone /\ f = Some (b, take 32 (pid_text b)).
Proof.
  cbn [write_pid_step pid_run fst snd pid_works pi_open pi_fopen pi_unlink pi_reopen pi_write negb].
  change (read_pid []) with (@None Z).
  cbn [write_pid_step pid_run fst snd pid_works pi_open pi_fopen pi_unlink pi_reopen pi_write negb].
  rewrite Z.eqb_refl. cbn [write_pid_step fst snd pid_works pi_write]. intros Hne.
  by rewrite (proj2 (Z.eqb_neq b a)).
Qed.

(** A short write is only logged: the file then names another process, whose life decides over the next
    start, and the end does not remove it. *)
Lemma pid_cut :
  let r := write_pid (PidIo true true true true 2) (fun _ => false) 4242 None in
  r.1 = 0 /\ holder r.2 = Some 42 /\ cleanup_pid (EndIo true true true) 4242 r.2 = r.2.
Proof. by vm_compute. Qed.

(** ** [REFRESH] and the statistics *)

(** A [REFRESH] puts the statistics off: for three seconds after it no write of
    the file reads the counters, however old they were. *)
Lemma refresh_delays_stats (io : write_io) (now : Z) (h : hstate) :
  wi_stats_now io < now + 3 ->
  update_traffic_stats io (refresh_stats now h) = refresh_stats now h.
Proof.
  intros Hnow. unfold update_traffic_stats, refresh_stats, MIN_REFRESH_INTERVAL, STATS_TTL.
  destruct (negb _); [done|]. destruct (2 <? now - g_last_stats_update h) eqn:E; bool_simpl.
  - cbn [g_last_stats_update set_stats_update]. by rewrite (proj2 (Z.ltb_lt _ _)) by lia.
  - by rewrite (proj2 (Z.ltb_lt _ _)) by lia.
Qed.

(** ** A full disk *)

(** A file that did not fit on the disk replaces the old one and counts as saved. *)
Lemma full_disk_counts_as_saved (io : write_io) (h : hstate) :
  wi_open io = true -> wi_room io = Some 0%nat -> wi_rename io = true ->
  h_json (write_json io h) = Some [] /\ g_dirty (write_json io h) = false.
Proof. intros Ho Hr Hn. unfold write_json. rewrite Ho, Hr, Hn. done. Qed.

(** ** A new device in an old slot *)

(** A free slot is reused as it is: the new device starts with the byte counts of
    the device that had the slot before. *)
Lemma new_device_inherits_traffic (w : world) (mac ip iface : bytes) (nud : Z) (h : hstate) (i : nat) (old : Device) :
  table_ok (g_devs h) -> (length mac < MAC_STR_LEN)%nat -> find_device mac (g_devs h) = None ->
  find_idx (fun d => negb (d_active d)) (g_devs h) = Some i -> g_devs h !! i = Some old ->
  exists d, find_device mac (g_devs (device_up w mac ip iface nud h)) = Some (i, d) /\
    d_rx_bytes d = d_rx_bytes old /\ d_tx_bytes d = d_tx_bytes old.
Proof.
  intros Hok Lm Hnone Hidx Hold. unfold device_up. rewrite Hnone. unfold alloc_device. rewrite Hidx.
  cbn [g_devs set_devs]. rewrite (list_lookup_total_correct _ _ _ Hold).
  pose proof (new_device_ok w mac ip old (table_dev_ok _ _ _ Hok Hold)) as (Hd & Hm & Hrx & Htx).
  exists (set_link ip iface (w_now w) nud (new_device w mac ip old)).
  split; [|done]. apply find_idx_lookup in Hidx as (x & Hx & Hna). rewrite Hold in Hx. simplify_eq.
  apply (up_find_self mac (g_devs h) i x); try done; [|by apply set_link_ok|by cbn; rewrite Hm, mac_field].
  split; [done| |by bool_simpl; congruence].
  intros j a Hj. by destruct (proj1 (find_device_None _ _ Hok) Hnone j a).
Qed.

(** ** Examples *)

(** A phone without upstream, LSM guard and rules. *)
#[local] Instance quiet_env : SchedEnv unit := {|
  env_detect_upstream := fun w => (None, w);
  env_lsm_init := fun _ w => (0, w);
  env_lsm_update := fun _ w => w;
  env_lsm_shutdown := fun w => w;
  env_rules := fun _ => None;
  env_thread_create := fun _ => 0;
  env_time := fun _ => 0
|}.
Definition sample_lsm : unit -> nat -> option bytes := fun _ _ => None.
Definition sample_arp : bytes :=
  str "IP address       HW type" ++ [NL] ++
  str "10.0.0.2         0x1         0x2         02:00:00:00:00:01     *        wlan2" ++ [NL].
Definition sample_turn (now : Z) : turn_env :=
  TurnEnv (fun _ => sample_world now) (Some sample_arp) sample_io (sample_world now)
    (fun _ => sample_world now) now sample_io (SaveIo true true true).
Definition sample_main : loop_state * sworld unit :=
  main_start [] (str "/c") (str "/o") None None 0 (fun _ _ _ => (0, [])) (fun _ => sample_world 100)
    (Some sample_arp) sample_io 100 (hstate_zero None) (SWorld sched_zero tt).

Definition sample_after (now : Z) (y : loop_state * sworld unit) : loop_state * sworld unit :=
  (turn_top (sample_turn now) y.1, y.2).
Definition sample_next : loop_state * sworld unit := sample_after 105 (sample_after 101 sample_main).

Lemma sample_step now y :
  g_running (ls_h y.1) = true -> hot_turn sample_lsm (sample_turn now) y (sample_after now y).
Proof.
  destruct y as [s x]. intros Hrun. apply (ht_turn _ _ _ _ (fun _ => []) now 1 SelTimeout true [] (turn_top (sample_turn now) s) x); [done|reflexivity|].
  apply rtc_refl.
Qed.
Lemma sample_run : hot_run sample_lsm [sample_turn 101; sample_turn 105] sample_main sample_next.
Proof.
  refine (hr_snoc _ [sample_turn 101] _ _ (sample_after 101 sample_main) _ _ _).
  - refine (hr_snoc _ [] _ _ _ _ (hr_nil _ _) _). apply sample_step. by vm_compute.
  - apply sample_step. by vm_compute.
Qed.

(** With room on the disk the file is the whole text. *)
Lemma daemon_invariant_witness :
  length (g_devs (ls_h sample_next.1)) = MAX_DEVICES /\
  slots_uniq d_active d_mac (g_devs (ls_h sample_next.1)) /\
  h_json (ls_h sample_next.1)
  = Some (devices_file (read_blacklist (wi_rules sample_io)) (g_devs (ls_h sample_next.1))).
Proof.
  destruct (daemon_invariant sample_lsm [] (str "/c") (str "/o") None None 0 (fun _ _ _ => (0, []))
    (fun _ => sample_world 100) (Some sample_arp) sample_io 100 None (SWorld sched_zero tt)
    [sample_turn 101; sample_turn 105] sample_next sample_run) as (H1 & _ & H2 & H3).
  split; [exact H1|]. split; [exact H2|].
  assert (Hd : g_dirty (ls_h sample_next.1) = false) by (vm_compute; reflexivity).
  destruct (H3 Hd) as [[_ Hn]|(io & Hio & _ & _ & Hj)]; [vm_compute in Hn; discriminate Hn|].
  assert (Hall : Forall (fun io => io = sample_io) (run_ios sample_io [sample_turn 101; sample_turn 105]))
    by (repeat constructor).
  pose proof (proj1 (Forall_forall _ _) Hall io Hio) as E.
  rewrite E in Hj. exact Hj.
Defined.

Definition sample_dirty : loop_state := LoopState (sample_state sample_dev) 100 100 None.

Lemma changes_are_saved_witness :
  exists es1 e1 es2 s1 (x1 : sworld unit),
    [sample_turn 130] = es1 ++ e1 :: es2 /\ hot_run sample_lsm es1 (sample_dirty, SWorld sched_zero tt) (s1, x1) /\
    g_dirty (ls_h (turn_top e1 s1)) = false.
Proof.
  apply (changes_are_saved sample_lsm [] (sample_turn 130) (sample_dirty, SWorld sched_zero tt) sample_dirty
    (SWorld sched_zero tt) 100).
  - apply hr_nil.
  - reflexivity.
  - lia.
  - repeat constructor.
  - cbn. lia.
Defined.

Lemma reply_whole_witness :
  concat (handle_client sample_lsm 0 1 (Some (str "GET_DEVICES" ++ [NL])) (sample_state sample_dev)
            (SWorld sched_zero tt)).1.1 = str "{}" /\
  exists rc out, send_all [SendN 1; SendEintr; SendN 1] (str "{}") = Some (rc, out) /\
    ((rc = 0 /\ out = str "{}") \/ (rc = -1 /\ out `prefix_of` str "{}" /\ out <> str "{}")).
Proof.
  destruct (reply_whole sample_lsm 0 1 [NL] (sample_state sample_dev) (SWorld sched_zero tt) (str "{}")
    [SendN 1; SendEintr; SendN 1]) as [(H1 & _) H2].
  - by vm_compute.
  - apply Nat.leb_le. by vm_compute.
  - split; [exact H1|]. apply H2. apply Nat.leb_le. by vm_compute.
Defined.

Lemma pid_file_protocol_witness :
  write_pid pid_works (fun _ => false) 4242 (Some (17, str "17" ++ [NL])) = (0, Some (4242, pid_text 4242)).
Proof.
  pose proof (pid_file_protocol pid_works (EndIo true true true) (fun _ => false) 4242 (Some (17, str "17" ++ [NL]))
    ltac:(lia) eq_refl eq_refl eq_refl eq_refl ltac:(unfold pid_whole; apply Nat.leb_le; by vm_compute)
    eq_refl eq_refl) as H.
  cbv zeta in H. destruct (held _ _) eqn:E in H; [by vm_compute in E|].
  apply H.
Defined.
