(* ===== verification/Startup.v ===== *)
(** * The start of the daemon ([main] of [hotspotd.c] up to its loop)

    The options, the two forks of a daemon, the PID file and the two sockets, and which of
    them the end takes back.  The outcomes of the system calls are arguments. *)
From S2P Require Import Prelude CStr Stdio Offload Scheduler HostnameCache MdnsWorker DeviceTable DevicesJson Hotspotd.
Local Open Scope Z_scope.

Definition HOTSPOTD_LOG : bytes := str "/data/local/hnc/logs/hotspotd.log".

(** The options behind the program's name: [-d] and the path of the log. *)
Fixpoint main_opts (daemonize : bool) (logpath : bytes) (args : list bytes) : bool * bytes :=
  match args with
  | [] => (daemonize, logpath)
  | a :: r =>
      if strcmp_eq a (str "-d") then main_opts true logpath r
      else if strcmp_eq a (str "-l") then
        match r with
        | l :: r' => main_opts daemonize l r'
        | [] => (daemonize, logpath)
        end
      else main_opts daemonize logpath r
  end.

(** Whether this process goes on behind the forks, whose results are given; a fork that
    fails is taken for the child. *)
Definition goes_on (daemonize : bool) (fork1 fork2 : Z) : bool :=
  if daemonize then negb (0 <? fork1) && negb (0 <? fork2) else true.

(** [socket] and [bind] of the netlink socket; a failing [setsockopt] only warns. *)
Record nl_io := NlIo { nl_socket : Z; nl_bind : bool }.
Definition nl_open (io : nl_io) : Z :=
  if nl_socket io <? 0 then -1 else if nl_bind io then nl_socket io else -1.

(** The socket file: its mode and whether root owns it. *)
Record sock_file := SockFile { sf_mode : Z; sf_root : bool }.
(** The calls of [unix_server_open]; [sv_created] is the file that [bind] makes, which it
    refuses to where one is. *)
Record srv_io := SrvIo {
  sv_unlink : bool; sv_socket : Z; sv_bind : bool; sv_created : sock_file; sv_chmod : bool; sv_chown : bool
}.
Definition unix_server_open (io : srv_io) (path : option sock_file) : Z * option sock_file :=
  let path := if sv_unlink io then None else path in
  if sv_socket io <? 0 then (-1, path)
  else if negb (sv_bind io) || bool_decide (is_Some path) then (-1, path)
  else
    let f := sv_created io in
    let f := if sv_chmod io then SockFile 384 (sf_root f) else f in
    let f := if sv_chown io then SockFile (sf_mode f) true else f in
    (sv_socket io, Some f).

(** The files the daemon leaves on the phone. *)
Record machine := Machine {
  mc_pid : pid_file;
  mc_sock : option sock_file;
  mc_json : option bytes;
  mc_cache : option bytes
}.
Definition mc_set_pid (f : pid_file) (m : machine) : machine := Machine f (mc_sock m) (mc_json m) (mc_cache m).
Definition mc_set_sock (f : option sock_file) (m : machine) : machine :=
  Machine (mc_pid m) f (mc_json m) (mc_cache m).

(** How far the start gets: another daemon lives, a socket cannot be opened, or the loop. *)
Inductive opened := Refused | Failed | Serving.
Definition main_open (pio : pid_io) (alive : Z -> bool) (pid : Z) (nl : nl_io) (srv : srv_io) (m : machine) : opened * machine :=
  let '(rc, file) := write_pid pio alive pid (mc_pid m) in
  let m := mc_set_pid file m in
  if rc <? 0 then (Refused, m)
  else if nl_open nl <? 0 then (Failed, m)
  else
    let '(fd, sock) := unix_server_open srv (mc_sock m) in
    (if fd <? 0 then Failed else Serving, mc_set_sock sock m).

(** From [cleanup] to the exit code; the socket file goes when this process opened it. *)
Definition main_end {W} `{!SchedEnv W} (io : write_io) (sio : save_io) (eio : end_io) (pid : Z) (serving : bool)
  (m : machine) (s : loop_state) (x : sworld W) : Z * machine * sworld W :=
  let '(s, file, x) := main_cleanup io sio eio pid (mc_pid m) s x in
  (0, Machine file (if serving && ei_unlink_sock eio then None else mc_sock m) (h_json (ls_h s)) (ls_cache_file s), x).

(** What [cleanup] finds when the loop was never reached. *)
Definition never_started (m : machine) : loop_state := LoopState (hstate_zero (mc_json m)) 0 0 (mc_cache m).
