(* ===== verification/StartupSpec.v ===== *)
(** * The life of a daemon process

    From the start of [main] to its exit: the daemon that is refused leaves everything as it
    is, and every other one takes back what it put on the phone. *)
From S2P Require Import Prelude CStr Stdio Slots JsonText OuiOverride Oui Helpers Offload Scheduler HostnameCache MdnsWorker.
From S2P Require Import DeviceTable DeviceSpec DevicesJson DevicesJsonSpec Neigh NeighSpec DeviceFlow Hotspotd HotspotdSpec Startup.
Local Open Scope Z_scope.

#[export] Instance opened_eq_dec : EqDecision opened.
Proof. solve_decision. Defined.

Section life.
Context {W : Type} `{!SchedEnv W} (lsm : W -> nat -> option bytes) (compiled_in : list (offload_adapter W)).

(** A whole process: refused, ended before the loop, stopped in the loop by a signal or a
    command, or by an error of [select]; with the outcomes of its writes of [devices.json] up to
    the end of the loop and the table it has then.  [io] and [sio] are the outcomes of the
    last writes, [pio] and [eio] those of the calls on the PID and socket files. *)
Notation run_from := (fun m' override_file worker_rc resolver scan_env arp scan_io last_check x =>
  main_start compiled_in (str "/data/local/hnc/data/hostname_cache.json") (str "/data/local/hnc/data/oui_overrides.json")
    (mc_cache m') override_file worker_rc resolver scan_env arp scan_io last_check (hstate_zero (mc_json m')) x).












End life.



#[local] Existing Instance HotspotdSpec.quiet_env.


