(* ===== verification/Launcher.v ===== *)
(** * The supervisor of the DPI daemon ([hnc_launcher.c])

    The launcher starts [hnc_dpid], waits for it and starts it again when it ends
    abnormally, with a growing delay and a guard against crash loops.  Its main
    thread is a program counter; signals, the end of a child and the passing of time
    happen between its system calls.  [lstep] is one event, [run] a sequence.  One clock,
    which only grows, stands for [time] and for the time that is slept; jumps of the wall clock are left out. *)
From S2P Require Import Prelude CStr Stdio.
Local Open Scope Z_scope.

(** ** Constants *)
Definition RESTART_BACKOFF_MIN : Z := 2.
Definition RESTART_BACKOFF_MAX : Z := 30.
Definition CRASH_WINDOW_SEC : Z := 60.
Definition CRASH_LIMIT : nat := 5.

(** ** PID files and the single instance *)

(** A file is its content, [None] when it does not exist. *)
Definition write_pid_file (can_write : bool) (pid : Z) (f : option bytes) : Z * option bytes :=
  if can_write then (0, Some (dec pid ++ [NL])) else (-1, f).

Definition read_pid_file (f : option bytes) : Z :=
  match f with
  | None => 0
  | Some content => match scan_d content with Some (pid, _) => pid | None => 0 end
  end.

(** [alive] is [kill(pid, 0) == 0]. *)
Definition pid_alive (alive : Z -> bool) (pid : Z) : bool :=
  if pid <=? 0 then false else alive pid.

(** The two halves of [check_singleton]: another instance can run between them. *)
Definition singleton_refused (alive : Z -> bool) (me : Z) (guard : option bytes) : bool :=
  let existing := read_pid_file guard in
  (0 <? existing) && negb (existing =? me) && pid_alive alive existing.
Definition check_singleton (alive : Z -> bool) (me : Z) (can_write : bool) (guard : option bytes) :
    Z * option bytes :=
  if singleton_refused alive me guard then (-1, guard)
  else
    let '(rc, guard) := write_pid_file can_write me guard in
    if rc <? 0 then (-1, guard) else (0, guard).

(** ** The crash guard *)

(** The first [count] timestamps of [struct crash_tracker]. *)
Definition crash_tracker : Type := list Z.

Definition crash_tracker_record (now : Z) (t : crash_tracker) : bool * crash_tracker :=
  let recent := length (filter (fun ts => now - ts <= CRASH_WINDOW_SEC) t) in
  let t := if (length t <? CRASH_LIMIT)%nat then t ++ [now]
           else drop 1 t ++ [now] in
  ((CRASH_LIMIT <=? S recent)%nat, t).

(** ** The status of a child *)
Definition WTERMSIG (status : Z) : Z := Z.land status 127.
Definition WIFEXITED (status : Z) : bool := WTERMSIG status =? 0.
Definition WEXITSTATUS (status : Z) : Z := Z.shiftr (Z.land status 65280) 8.
Definition WIFSIGNALED (status : Z) : bool := 2 <=? WTERMSIG (status + 1).

(** What [wait_dpid] returns for a status, and its [out_rc] and [out_signum]. *)
Definition wait_result (status : Z) : Z * Z * Z :=
  if WIFEXITED status then
    let rc := WEXITSTATUS status in
    if rc =? 0 then (0, rc, 0) else (1, rc, 0)
  else if WIFSIGNALED status then (1, 0, WTERMSIG status)
  else (1, 0, 0).

(** ** The state *)

(** A child of the launcher; [termed]: SIGTERM was sent to it. *)
Inductive kid :=
| Running (termed : bool)
| Zombie (status : Z).

(** Where the main thread is.  [intr]: a signal has interrupted the call it blocks in. *)
Inductive pc :=
| PTop
| PSpawn
| PForked (pid : Z)
| PWait (pid : Z) (intr : bool)
| PReaped (status : Z)
| PJudge (abnormal : Z)
| PFailed
| PSleep (until : Z) (intr : bool)
| PFinal
| PFinalWait (intr : bool)
| PObserve
| PPause (intr : bool)
| PDone (rc : Z).

Record lstate := LState {
  l_pc : pc;
  l_shutdown : bool;        (* g_shutdown *)
  l_child : Z;              (* g_child_pid *)
  l_backoff : Z;
  l_crashes : crash_tracker;
  l_kids : gmap Z kid;
  l_now : Z;
  l_pidfile : option Z;     (* dpid.pid *)
  l_flag : bool             (* dpid_crashflag exists *)
}.

Definition set_pc (p : pc) (s : lstate) : lstate :=
  LState p (l_shutdown s) (l_child s) (l_backoff s) (l_crashes s) (l_kids s) (l_now s) (l_pidfile s) (l_flag s).
Definition set_child (c : Z) (s : lstate) : lstate :=
  LState (l_pc s) (l_shutdown s) c (l_backoff s) (l_crashes s) (l_kids s) (l_now s) (l_pidfile s) (l_flag s).
Definition set_backoff (b : Z) (s : lstate) : lstate :=
  LState (l_pc s) (l_shutdown s) (l_child s) b (l_crashes s) (l_kids s) (l_now s) (l_pidfile s) (l_flag s).
Definition set_crashes (t : crash_tracker) (s : lstate) : lstate :=
  LState (l_pc s) (l_shutdown s) (l_child s) (l_backoff s) t (l_kids s) (l_now s) (l_pidfile s) (l_flag s).
Definition set_kids (k : gmap Z kid) (s : lstate) : lstate :=
  LState (l_pc s) (l_shutdown s) (l_child s) (l_backoff s) (l_crashes s) k (l_now s) (l_pidfile s) (l_flag s).
Definition set_pidfile (f : option Z) (s : lstate) : lstate :=
  LState (l_pc s) (l_shutdown s) (l_child s) (l_backoff s) (l_crashes s) (l_kids s) (l_now s) f (l_flag s).
Definition set_flag (b : bool) (s : lstate) : lstate :=
  LState (l_pc s) (l_shutdown s) (l_child s) (l_backoff s) (l_crashes s) (l_kids s) (l_now s) (l_pidfile s) b.

(** ** Events *)

(** How the next action of the main thread turns out. *)
Inductive outcome :=
| Plain
| ForkFailed
| Forked (pid : Z)
| WriteFailed
| Interrupted.

(** [hits]: the signal comes while the main thread blocks in a call, not before it. *)
Inductive levent :=
| EMain (o : outcome)
| ESignal (hits : bool)
| EKid (pid status : Z) (hits : bool)
| ETick (d : Z).

(** A signal interrupts a blocking call. *)
Definition interrupt (hits : bool) (p : pc) : pc :=
  if hits then
    match p with
    | PWait pid _ => PWait pid true
    | PSleep until _ => PSleep until true
    | PFinalWait _ => PFinalWait true
    | PPause _ => PPause true
    | p => p
    end
  else p.

(** [kill(pid, SIGTERM)] *)
Definition kill_term (pid : Z) (kids : gmap Z kid) : gmap Z kid :=
  match kids !! pid with
  | Some (Running _) => <[pid := Running true]> kids
  | _ => kids
  end.

Definition on_term_signal (s : lstate) : lstate :=
  let s := LState (l_pc s) true (l_child s) (l_backoff s) (l_crashes s) (l_kids s) (l_now s) (l_pidfile s) (l_flag s) in
  if 0 <? l_child s then set_kids (kill_term (l_child s) (l_kids s)) s else s.

(** [if (backoff < RESTART_BACKOFF_MAX) backoff *= 2;] *)
Definition next_backoff (b : Z) : Z := if b <? RESTART_BACKOFF_MAX then b * 2 else b.

(** ** The main thread *)

(** [spawn_dpid], up to the return of [fork]. *)
Definition main_spawn (o : outcome) (s : lstate) : option lstate :=
  match o with
  | ForkFailed => Some (set_pc PFailed s)
  | Forked pid =>
      if (0 <? pid) && bool_decide (l_kids s !! pid = None)
      then Some (set_pc (PForked pid) (set_kids (<[pid := Running false]> (l_kids s)) s))
      else None
  | _ => None
  end.

(** The rest of [spawn_dpid] in the parent. *)
Definition main_forked (pid : Z) (o : outcome) (s : lstate) : option lstate :=
  match o with
  | Plain => Some (set_pc (PWait pid false) (set_child pid (set_pidfile (Some pid) s)))
  | WriteFailed => Some (set_pc (PWait pid false) (set_child pid s))
  | _ => None
  end.

(** The loop around [waitpid] in [wait_dpid]. *)
Definition main_wait (pid : Z) (intr : bool) (o : outcome) (s : lstate) : option lstate :=
  match o with
  | Plain =>
      match l_kids s !! pid with
      | Some (Zombie status) => Some (set_pc (PReaped status) (set_kids (delete pid (l_kids s)) s))
      | Some (Running _) => None
      | None => Some (set_pc PFinal s)
      end
  | Interrupted =>
      if intr then Some (set_pc (if l_shutdown s then PFinal else PWait pid false) s) else None
  | _ => None
  end.

(** The rest of [run_supervise_loop]'s turn. *)
Definition main_judge (abnormal : Z) (o : outcome) (s : lstate) : option lstate :=
  if l_shutdown s then Some (set_pc PFinal s)
  else if abnormal =? 0 then Some (set_pc PFinal s)
  else
    let '(tripped, t) := crash_tracker_record (l_now s) (l_crashes s) in
    let s := set_crashes t s in
    if tripped : bool then
      match o with
      | Plain => Some (set_pc (PDone 1) (set_flag true s))
      | WriteFailed => Some (set_pc (PDone 1) s)
      | _ => None
      end
    else Some (set_pc (PSleep (l_now s + l_backoff s) false) s).

Definition main_step (o : outcome) (s : lstate) : option lstate :=
  match l_pc s with
  | PTop => Some (set_pc (if l_shutdown s then PFinal else PSpawn) s)
  | PSpawn => main_spawn o s
  | PFailed =>
      Some (set_pc (if l_shutdown s then PFinal else PSleep (l_now s + l_backoff s) false) s)
  | PForked pid => main_forked pid o s
  | PWait pid intr => main_wait pid intr o s
  | PReaped status =>
      Some (set_pc (PJudge (wait_result status).1.1) (set_child 0 (set_pidfile None s)))
  | PJudge abnormal => main_judge abnormal o s
  | PSleep until intr =>
      if (until <=? l_now s) || intr
      then Some (set_pc PTop (set_backoff (next_backoff (l_backoff s)) s)) else None
  | PFinal => Some (set_pc (if 0 <? l_child s then PFinalWait false else PDone 0) s)
  | PFinalWait intr =>
      match o with
      | Plain =>
          match l_kids s !! l_child s with
          | Some (Running _) => None
          | _ => Some (set_pc (PDone 0) (set_pidfile None (set_kids (delete (l_child s) (l_kids s)) s)))
          end
      | Interrupted => if intr then Some (set_pc (PDone 0) (set_pidfile None s)) else None
      | _ => None
      end
  | PObserve => Some (set_pc (if l_shutdown s then PDone 0 else PPause false) s)
  | PPause intr => if intr then Some (set_pc PObserve s) else None
  | PDone _ => None
  end.

(** One event; nothing happens to a launcher that has ended. *)
Definition live_step (e : levent) (s : lstate) : option lstate :=
  match e with
  | EMain o => main_step o s
  | ESignal hits => Some (on_term_signal (set_pc (interrupt hits (l_pc s)) s))
  | EKid pid status hits =>
      match l_kids s !! pid with
      | Some (Running _) =>
          Some (set_pc (interrupt hits (l_pc s)) (set_kids (<[pid := Zombie status]> (l_kids s)) s))
      | _ => None
      end
  | ETick d =>
      if 0 <=? d then
        Some (LState (l_pc s) (l_shutdown s) (l_child s) (l_backoff s) (l_crashes s) (l_kids s)
                (l_now s + d) (l_pidfile s) (l_flag s))
      else None
  end.
Definition lstep (e : levent) (s : lstate) : option lstate :=
  match l_pc s with PDone _ => None | _ => live_step e s end.

Fixpoint run (tr : list levent) (s : lstate) : option lstate :=
  match tr with
  | [] => Some s
  | e :: tr => s' ← lstep e s; run tr s'
  end.

(** ** The start of [main] *)

(** Where the launcher is when its signal handlers are installed. *)
Definition supervise_init (now : Z) (pidfile : option Z) : lstate :=
  LState PTop false 0 RESTART_BACKOFF_MIN [] ∅ now pidfile false.
Definition observe_init (now : Z) (pidfile : option Z) : lstate :=
  LState PObserve false 0 RESTART_BACKOFF_MIN [] ∅ now pidfile true.

Inductive started :=
| Exited (rc : Z)
| Observing (s : lstate)
| Supervising (s : lstate).

(** The first argument decides: [--version] and [--help] print and end. *)
Definition launcher_parse_args (args : list bytes) : option Z :=
  match args with
  | [] => None
  | a :: _ =>
      if strcmp_eq a (str "--version") then Some 0
      else if strcmp_eq a (str "--help") || strcmp_eq a (str "-h") then Some 0
      else Some 2
  end.

Definition launcher_main_start (args : list bytes) (alive : Z -> bool) (me : Z) (can_write crash_flag handlers : bool)
    (now : Z) (pidfile : option Z) (guard : option bytes) : started * option bytes :=
  match launcher_parse_args args with
  | Some rc => (Exited rc, guard)
  | None =>
      let '(rc, guard) := check_singleton alive me can_write guard in
      if rc <? 0 then (Exited 1, guard)
      else if crash_flag then (Observing (observe_init now pidfile), guard)
      else if negb handlers then (Exited 1, guard)
      else (Supervising (supervise_init now pidfile), guard)
  end.

(** ** [fork_probe.c] *)
Definition EXIT_EXECV_FAIL : Z := 111.

(** The exit code of the probe: no target, [fork] failed, [waitpid] failed, or the
    status of the child. *)
Definition fork_probe (has_target fork_ok : bool) (waited : option Z) : Z :=
  if negb has_target then 2
  else if negb fork_ok then 1
  else match waited with
       | None => 1
       | Some status =>
           if WIFEXITED status then
             let rc := WEXITSTATUS status in
             if rc =? 0 then 0 else if rc =? EXIT_EXECV_FAIL then 1 else 0
           else 1
       end.
