(* ===== verification/LauncherSpec.v ===== *)
(** * What the supervisor guarantees *)
From S2P Require Import Prelude CStr Stdio.
From S2P Require Import Launcher.
Local Open Scope Z_scope.
#[local] Arguments crash_tracker_record : simpl never.

(** ** Runs *)

Definition is_signal (e : levent) : bool := match e with ESignal _ => true | _ => false end.
Definition is_main (e : levent) : bool := match e with EMain _ => true | _ => false end.
Definition is_fork (e : levent) : bool := match e with EMain (Forked _) => true | _ => false end.
Definition count {A} (p : A -> bool) (l : list A) : nat := length (filter (fun x => p x = true) l).

Lemma count_cons {A} (p : A -> bool) x l : count p (x :: l) = ((if p x then 1 else 0) + count p l)%nat.
Proof. unfold count. rewrite filter_cons. by destruct (p x). Qed.

(** The times at which a run records a crash. *)
Definition recorded (e : levent) (s : lstate) : list Z :=
  match e, l_pc s with
  | EMain _, PJudge abnormal => if l_shutdown s || (abnormal =? 0) then [] else [l_now s]
  | _, _ => []
  end.
Fixpoint crash_times (tr : list levent) (s : lstate) : list Z :=
  match tr with
  | [] => []
  | e :: tr => recorded e s ++ match lstep e s with Some s' => crash_times tr s' | None => [] end
  end.

(** An invariant that also sees the number of signals and the recorded crashes. *)
Lemma run_invariant (I : nat -> list Z -> lstate -> Prop) :
  (forall n h s e s', I n h s -> lstep e s = Some s' ->
     I (n + if is_signal e then 1 else 0)%nat (h ++ recorded e s) s') ->
  forall tr n h s s', I n h s -> run tr s = Some s' ->
    I (n + count is_signal tr)%nat (h ++ crash_times tr s) s'.
Proof.
  intros Hstep tr. induction tr as [|e tr IH]; intros n h s s' HI Hr; cbn in Hr.
  - simplify_eq. cbn. by rewrite Nat.add_0_r, app_nil_r.
  - destruct (lstep e s) as [s1|] eqn:E; [|done]. cbn in Hr.
    rewrite count_cons, Nat.add_assoc. cbn [crash_times]. rewrite E, app_assoc. eauto.
Qed.

Lemma lstep_live e s s' :
  lstep e s = Some s' -> live_step e s = Some s' /\ forall rc, l_pc s <> PDone rc.
Proof. unfold lstep. by destruct (l_pc s). Qed.

(** ** The child *)

Definition told (k : kid) : Prop := k <> Running false.
Definition is_zombie (k : kid) : Prop := exists status, k = Zombie status.

(** The children by the place of the main thread, after [n] signals. *)
Definition kids_at (n : nat) (shutdown : bool) (child : Z) (kids : gmap Z kid) (p : pc) : Prop :=
  match p with
  | PForked pid => 0 < pid /\ child = 0 /\ exists k, kids = {[pid := k]}
  | PWait pid intr =>
      0 < pid /\ child = pid /\ exists k, kids = {[pid := k]} /\ (intr = true -> told k)
  | PReaped _ => 0 < child /\ kids = ∅
  | PFinal =>
      (child = 0 /\ kids = ∅) \/
      (0 < child /\ shutdown = true /\ exists k, kids = {[child := k]} /\ told k)
  | PFinalWait intr =>
      0 < child /\ shutdown = true /\
      exists k, kids = {[child := k]} /\ told k /\ (intr = true -> is_zombie k \/ (2 <= n)%nat)
  | PDone _ => kids = ∅ \/ exists k, kids = {[child := k]} /\ told k /\ (is_zombie k \/ (2 <= n)%nat)
  | _ => child = 0 /\ kids = ∅
  end.

Definition kids_ok (n : nat) (s : lstate) : Prop :=
  kids_at n (l_shutdown s) (l_child s) (l_kids s) (l_pc s) /\ (l_shutdown s = true -> (1 <= n)%nat).

Lemma kill_term_singleton pid k :
  exists k', kill_term pid {[pid := k]} = {[pid := k']} /\ told k' /\ (is_zombie k -> k' = k).
Proof.
  unfold kill_term. rewrite lookup_singleton_eq. destruct k as [b|st].
  - exists (Running true). rewrite insert_singleton_eq. split_and!; [done..|by intros []].
  - exists (Zombie st). by split_and!.
Qed.

Lemma kids_ok_signal n s hits :
  kids_ok n s -> (forall rc, l_pc s <> PDone rc) ->
  kids_ok (n + 1) (on_term_signal (set_pc (interrupt hits (l_pc s)) s)).
Proof.
  intros [Hk Hn] Hd. destruct s as [p sh c b t kids now pf fl].
  unfold kids_ok, on_term_signal. cbn in *. split; [|destruct (0 <? c); cbn; lia].
  destruct (0 <? c) eqn:Hc; bool_simpl; cbn.
  - destruct p; cbn in *; try (destruct Hk; lia).
    + destruct Hk as (Hp & -> & k & -> & _). destruct (kill_term_singleton pid k) as (k' & -> & Ht & _).
      destruct hits; cbn; eauto 8.
    + destruct Hk as [? ->]. unfold kill_term. rewrite lookup_empty. by destruct hits.
    + destruct hits; cbn in *; destruct Hk as [[? ?]|(_ & _ & k & -> & _)]; try lia;
        right; destruct (kill_term_singleton c k) as (k' & -> & Ht & _); eauto 8.
    + destruct Hk as (_ & -> & k & -> & _). destruct (kill_term_singleton c k) as (k' & -> & Ht & _).
      specialize (Hn eq_refl). destruct hits; cbn; (split_and!; [done..|exists k']); 
        (split_and!; [done..|right; lia]).
    + by destruct (Hd rc).
  - destruct p; cbn in *; destruct hits; cbn; try done; try naive_solver lia.
Qed.

Lemma kids_ok_kid n s pid status hits b :
  kids_ok n s -> l_kids s !! pid = Some (Running b) -> (forall rc, l_pc s <> PDone rc) ->
  kids_ok n (set_pc (interrupt hits (l_pc s)) (set_kids (<[pid := Zombie status]> (l_kids s)) s)).
Proof.
  intros [Hk Hn] Hl Hd. split; [|done]. destruct s as [p sh c bo t kids now pf fl]. cbn in *.
  assert (Hone : forall q k, kids = {[q := k]} -> <[pid := Zombie status]> kids = {[q := Zombie status]}).
  { intros q k ->. apply lookup_singleton_Some in Hl as [-> _]. apply insert_singleton_eq. }
  assert (Hemp : kids <> ∅) by (intros ->; by rewrite lookup_empty in Hl).
  assert (Htold : told (Zombie status)) by done.
  destruct p; cbn in Hk; try (destruct Hk as [_ Hk]; by destruct (Hemp Hk)).
  - destruct Hk as (? & ? & k & Hk). destruct hits; cbn; rewrite (Hone _ _ Hk); eauto.
  - destruct Hk as (? & ? & k & Hk & _). destruct hits; cbn; rewrite (Hone _ _ Hk); eauto 8.
  - destruct Hk as [[? ?]|(? & ? & k & Hk & _)]; [done|].
    destruct hits; cbn; right; rewrite (Hone _ _ Hk); eauto 8.
  - destruct Hk as (? & ? & k & Hk & _).
    assert (is_zombie (Zombie status)) by by exists status.
    destruct hits; cbn; rewrite (Hone _ _ Hk); (split_and!; [done..|]); exists (Zombie status); auto.
  - by destruct (Hd rc).
Qed.

Lemma kids_ok_main n o s s' :
  kids_ok n s -> main_step o s = Some s' -> kids_ok n s'.
Proof.
  intros [Hk Hn]. destruct s as [p sh c bo t kids now pf fl]. unfold main_step. cbn in *.
  assert (Hz : forall k, told k -> (forall b, k <> Running b) -> is_zombie k).
  { intros [b|st] ? H; [by destruct (H b)|by exists st]. }
  destruct p; cbn in Hk.
  - destruct sh; intros [= <-]; (split; [|done]); cbn; auto.
  - destruct Hk as [-> ->]. destruct o; cbn; try done; [by intros [= <-]|].
    destruct ((0 <? pid) && bool_decide (∅ !! pid = None)) eqn:E; [|done]. bool_simpl.
    intros [= <-]. split; [|done]. cbn. split_and!; [done..|]. exists (Running false). by rewrite insert_empty.
  - destruct Hk as (? & -> & k & ->). destruct o; cbn; try done; intros [= <-]; (split; [|done]); cbn;
      (split_and!; [done..|by exists k]).
  - destruct Hk as (? & -> & k & -> & Ht). destruct o; cbn; try done.
    + rewrite lookup_singleton_eq. destruct k as [|st]; [done|]. intros [= <-]. split; [|done]. cbn.
      by rewrite delete_singleton_eq.
    + destruct intr; [|done]. intros [= <-]. split; [|done]. cbn. destruct sh; cbn.
      * right. split_and!; [done..|]. exists k. auto.
      * split_and!; [done..|by exists k].
  - destruct Hk as [? ->]. intros [= <-]. by split.
  - destruct Hk as [-> ->]. unfold main_judge. cbn. destruct sh; [intros [= <-]; by split; [left|]|].
    destruct (abnormal =? 0); [intros [= <-]; by split; [left|]|].
    destruct (crash_tracker_record now t) as [[] t'].
    + destruct o; try done; intros [= <-]; by split; [left|].
    + intros [= <-]. by split.
  - destruct Hk as [-> ->]. destruct sh; intros [= <-]; by split; [try by left|].
  - destruct Hk as [-> ->]. destruct (_ || _); [|done]. intros [= <-]. by split.
  - intros [= <-]. split; [|done]. cbn.
    destruct Hk as [[-> ->]|(Hc & -> & k & -> & Ht)]; [by left|].
    rewrite (proj2 (Z.ltb_lt 0 c)) by done. cbn. split_and!; [done..|]. by exists k.
  - destruct Hk as (Hc & -> & k & -> & Ht & Hi). destruct o; cbn; try done.
    + rewrite lookup_singleton_eq. destruct k as [b|st]; [done|]. intros [= <-]. split; [|done]. cbn.
      left. by rewrite delete_singleton_eq.
    + destruct intr; [|done]. intros [= <-]. split; [|done]. cbn. right. exists k. auto.
  - destruct Hk as [-> ->]. destruct sh; intros [= <-]; by split; [try by left|].
  - destruct Hk as [-> ->]. destruct intr; [|done]. intros [= <-]. by split.
  - done.
Qed.

Lemma kids_ok_step n s e s' :
  kids_ok n s -> lstep e s = Some s' -> kids_ok (n + if is_signal e then 1 else 0)%nat s'.
Proof.
  intros Hk [Hs Hd]%lstep_live.
  destruct e as [o|hits|pid st hits|d]; cbn [is_signal]; rewrite ?Nat.add_0_r; cbn in Hs.
  - by eapply kids_ok_main.
  - simplify_eq. by apply kids_ok_signal.
  - destruct (l_kids s !! pid) as [[b|]|] eqn:E; simplify_eq. by eapply kids_ok_kid.
  - destruct (0 <=? d); simplify_eq. exact Hk.
Qed.

(** ** Shutdown *)

Definition observing (p : pc) : bool := match p with PObserve | PPause _ => true | _ => false end.
(** The main thread has passed the test of [g_shutdown] and not yet stored the child. *)
Definition in_spawn (p : pc) : bool := match p with PSpawn | PForked _ => true | _ => false end.

Lemma interrupt_observing hits p : observing (interrupt hits p) = observing p.
Proof. by destruct hits, p. Qed.
Lemma interrupt_in_spawn hits p : in_spawn (interrupt hits p) = in_spawn p.
Proof. by destruct hits, p. Qed.
Lemma signal_pc s : l_pc (on_term_signal s) = l_pc s.
Proof. unfold on_term_signal. by destruct (0 <? _). Qed.
Lemma signal_kids s :
  l_kids (on_term_signal s) = if 0 <? l_child s then kill_term (l_child s) (l_kids s) else l_kids s.
Proof. unfold on_term_signal. by destruct (0 <? _). Qed.
Lemma signal_shutdown s : l_shutdown (on_term_signal s) = true.
Proof. unfold on_term_signal. by destruct (0 <? _). Qed.

(** Case analysis on an action of the main thread. *)
Ltac main_cases H :=
  unfold main_step, main_spawn, main_forked, main_wait, main_judge in H; cbn in H;
  repeat (case_in H; try done; cbn in H); try (injection H as <-).

Lemma observing_step s e s' :
  lstep e s = Some s' -> observing (l_pc s) = false -> observing (l_pc s') = false.
Proof.
  intros [Hs _]%lstep_live Ho. destruct e as [o|hits|pid st hits|d]; cbn in Hs.
  - destruct s as [p sh c bo t kids now pf fl]. cbn in Ho. main_cases Hs; done.
  - simplify_eq. rewrite signal_pc. cbn. by rewrite interrupt_observing.
  - repeat case_in Hs; simplify_eq. cbn. by rewrite interrupt_observing.
  - case_in Hs; by simplify_eq.
Qed.

(** How many actions of the main thread are left once the launcher is told to stop. *)
Definition rank (p : pc) : nat :=
  match p with
  | PDone _ => 0 | PFinalWait _ => 1 | PFinal => 2 | PTop | PFailed | PJudge _ => 3
  | PReaped _ | PSleep _ _ => 4 | _ => 5
  end.
Lemma interrupt_rank hits p : rank (interrupt hits p) = rank p.
Proof. by destruct hits, p. Qed.

Definition ends_well (p : pc) : Prop := match p with PDone rc => rc = 0 | _ => True end.
Lemma interrupt_ends_well hits p : ends_well p -> ends_well (interrupt hits p).
Proof. by destruct hits, p. Qed.

(** The launcher is told to stop, and so are its children. *)
Record stopping (s : lstate) : Prop := Stopping {
  sp_shutdown : l_shutdown s = true;
  sp_pc : in_spawn (l_pc s) = false /\ observing (l_pc s) = false /\ ends_well (l_pc s);
  sp_kids pid k : l_kids s !! pid = Some k -> told k
}.

Lemma stopping_step s e s' :
  stopping s -> lstep e s = Some s' ->
  stopping s' /\ dom (l_kids s') ⊆ dom (l_kids s) /\
  (rank (l_pc s') + (if is_main e then 1 else 0) <= rank (l_pc s))%nat.
Proof.
  intros [Hsh (Hp & Ho & Hd) Hk] [Hs _]%lstep_live.
  destruct s as [p sh c bo t kids now pf fl]. cbn in *. subst sh.
  destruct e as [o|hits|pid st hits|d]; cbn in Hs |- *.
  - assert (Hdel : forall q pid k, delete q kids !! pid = Some k -> told k).
    { intros q pid k [_ Hl]%lookup_delete_Some. by eapply Hk. }
    assert (Hsub : forall q, dom (delete q kids) ⊆ dom kids).
    { intros q. rewrite dom_delete_L. set_solver. }
    main_cases Hs; cbn in *; (split; [split; cbn; [done|by split_and?|eauto]|split; [eauto|cbn; lia]]).
  - simplify_eq. assert (Hc : forall pid k, kill_term c kids !! pid = Some k -> told k).
    { intros pid k. unfold kill_term. destruct (kids !! c) as [[b|]|]; [|by apply Hk..].
      rewrite lookup_insert. case_decide; [by intros [= <-]|by apply Hk]. }
    assert (Hdom : dom (kill_term c kids) ⊆ dom kids).
    { unfold kill_term. destruct (kids !! c) as [[b|]|] eqn:E; [|done..].
      rewrite dom_insert_lookup_L; [done|by eexists]. }
    rewrite signal_pc, signal_kids. cbn. rewrite interrupt_rank. split_and!; [|by destruct (0 <? c)|lia].
    split; rewrite ?signal_pc, ?signal_kids; cbn; rewrite ?interrupt_in_spawn, ?interrupt_observing.
    + apply signal_shutdown.
    + split_and!; [done..|]. by apply interrupt_ends_well.
    + by destruct (0 <? c).
  - destruct (kids !! pid) as [[b|]|] eqn:E; simplify_eq. cbn. rewrite interrupt_rank.
    split_and!; [|by rewrite dom_insert_lookup_L by (by eexists)|lia].
    split; cbn; rewrite ?interrupt_in_spawn, ?interrupt_observing.
    + done.
    + split_and!; [done..|]. by apply interrupt_ends_well.
    + intros q k. rewrite lookup_insert. case_decide; [by intros [= <-]|by apply Hk].
  - case_in Hs; simplify_eq. cbn. split_and!; [by split|done|lia].
Qed.

Lemma stopping_run tr : forall s s',
  stopping s -> run tr s = Some s' ->
  stopping s' /\ dom (l_kids s') ⊆ dom (l_kids s) /\
  (rank (l_pc s') + count is_main tr <= rank (l_pc s))%nat.
Proof.
  induction tr as [|e tr IH]; intros s s' Hst Hr; cbn in Hr.
  - simplify_eq. split_and!; [done..|]. cbn. lia.
  - destruct (lstep e s) as [s1|] eqn:E; [|done]. cbn in Hr.
    apply stopping_step in E as (H1 & Hd1 & Hr1); [|done].
    apply IH in Hr as (H2 & Hd2 & Hr2); [|done]. split_and!; [done|set_solver|].
    rewrite count_cons. lia.
Qed.

(** Outside of [spawn_dpid] a child is the stored one. *)
Lemma kids_cases n s :
  kids_ok n s -> in_spawn (l_pc s) = false -> (forall rc, l_pc s <> PDone rc) ->
  l_kids s = ∅ \/ (0 < l_child s /\ exists k, l_kids s = {[l_child s := k]}).
Proof.
  intros [Hk _] Hi Hd. destruct s as [p sh c bo t kids now pf fl]. cbn in *.
  destruct p; cbn in *; try done; try (left; by destruct Hk).
  - destruct Hk as (? & -> & k & ? & _). eauto.
  - destruct Hk as [[? ?]|(? & ? & k & ? & _)]; eauto.
  - destruct Hk as (? & ? & k & ? & _). eauto.
  - by destruct (Hd rc).
Qed.

(** SIGTERM outside of [spawn_dpid] tells the child too. *)
Lemma signal_stopping n s hits s1 :
  kids_ok n s -> observing (l_pc s) = false -> in_spawn (l_pc s) = false ->
  lstep (ESignal hits) s = Some s1 -> stopping s1.
Proof.
  intros Hk Ho Hi [Hs Hd]%lstep_live. cbn in Hs. simplify_eq.
  pose proof (kids_cases _ _ Hk Hi Hd) as Hc. split.
  - apply signal_shutdown.
  - rewrite signal_pc. cbn. rewrite interrupt_in_spawn, interrupt_observing. split_and!; [done..|].
    apply interrupt_ends_well. destruct (l_pc s) eqn:E; try done. by destruct (Hd rc).
  - intros pid k. rewrite signal_kids. cbn. destruct Hc as [->|(Hp & k' & ->)].
    + unfold kill_term. rewrite lookup_empty. by destruct (0 <? _).
    + rewrite (proj2 (Z.ltb_lt _ _) Hp). cbn.
      destruct (kill_term_singleton (l_child s) k') as (k'' & -> & Ht & _).
      by intros [_ <-]%lookup_singleton_Some.
Qed.

(** ** The crash guard and the whole history *)

(** How many of the crashes [h] lie within the window that ends at [t]. *)
Definition within (t : Z) (h : list Z) : nat := length (filter (fun ts => t - ts <= CRASH_WINDOW_SEC) h).

(** The last crash is at least the fifth within a window. *)
Definition trips (h : list Z) : bool :=
  match last h with None => false | Some t => (CRASH_LIMIT <=? within t h)%nat end.

Definition last_crashes (h : list Z) : list Z := drop (length h - CRASH_LIMIT) h.

Definition ascending (h : list Z) : Prop :=
  forall i j x y, h !! i = Some x -> h !! j = Some y -> (i <= j)%nat -> x <= y.

Lemma within_app t h h' : within t (h ++ h') = (within t h + within t h')%nat.
Proof. unfold within. by rewrite filter_app, length_app. Qed.

Lemma within_none t h : (forall x, x ∈ h -> CRASH_WINDOW_SEC < t - x) -> within t h = 0%nat.
Proof.
  intros Hh. unfold within. induction h as [|x h IH]; [done|]. rewrite filter_cons, decide_False.
  - apply IH. intros y Hy. apply Hh. by right.
  - pose proof (Hh x ltac:(left)). lia.
Qed.

Lemma within_all t h : (forall x, x ∈ h -> t - x <= CRASH_WINDOW_SEC) -> within t h = length h.
Proof.
  intros Hh. unfold within. induction h as [|x h IH]; [done|]. rewrite filter_cons, decide_True.
  - cbn. f_equal. apply IH. intros y Hy. apply Hh. by right.
  - apply Hh. left.
Qed.

Lemma within_length t h : (within t h <= length h)%nat.
Proof. apply length_filter. Qed.

(** The elements before a place are at most those from it on. *)
Lemma ascending_split h k x y :
  ascending h -> x ∈ take k h -> y ∈ drop k h -> x <= y.
Proof.
  intros Ha [i Hi]%list_elem_of_lookup [j Hj]%list_elem_of_lookup.
  apply lookup_take_Some in Hi as [Hi Hlt]. rewrite lookup_drop in Hj.
  apply (Ha i (k + j)%nat); [done..|lia].
Qed.

(** The last five decide as the whole history does. *)
Lemma within_last t h :
  ascending h ->
  (CRASH_LIMIT <=? S (within t (last_crashes h)))%nat = (CRASH_LIMIT <=? S (within t h))%nat.
Proof.
  intros Ha. unfold last_crashes. set (k := (length h - CRASH_LIMIT)%nat).
  rewrite <- (take_drop k h) at 2. rewrite within_app.
  destruct (decide (k = 0%nat)) as [->|Hk]; [by rewrite take_0|].
  assert (Hlen : length (drop k h) = CRASH_LIMIT) by (rewrite length_drop; unfold k in *; lia).
  destruct (decide (Exists (fun x => t - x <= CRASH_WINDOW_SEC) (take k h))) as [Hex|Hno].
  - apply Exists_exists in Hex as (x & Hx & Hw).
    assert (within t (drop k h) = CRASH_LIMIT) as ->.
    { rewrite <- Hlen. apply within_all. intros y Hy. pose proof (ascending_split h k x y Ha Hx Hy). lia. }
    unfold CRASH_LIMIT. by rewrite !(proj2 (Nat.leb_le _ _)) by lia.
  - rewrite (within_none t (take k h)); [done|]. intros x Hx.
    destruct (decide (t - x <= CRASH_WINDOW_SEC)); [|lia].
    destruct Hno. apply Exists_exists. by exists x.
Qed.

Lemma last_crashes_snoc h now :
  (if (length (last_crashes h) <? CRASH_LIMIT)%nat then last_crashes h ++ [now]
   else drop 1 (last_crashes h) ++ [now]) = last_crashes (h ++ [now]).
Proof.
  unfold last_crashes, CRASH_LIMIT. rewrite length_drop, length_app. cbn [length].
  destruct (Nat.ltb_spec (length h - (length h - 5)) 5).
  - replace (length h - 5)%nat with 0%nat by lia.
    by replace (length h + 1 - 5)%nat with 0%nat by lia.
  - rewrite drop_drop, drop_app_le by lia. do 2 f_equal. lia.
Qed.

(** The tracker keeps the last five crashes and answers for the whole history. *)
Lemma crash_tracker_history h now :
  ascending h ->
  crash_tracker_record now (last_crashes h) = (trips (h ++ [now]), last_crashes (h ++ [now])).
Proof.
  intros Ha. unfold crash_tracker_record. f_equal.
  - unfold trips. rewrite last_snoc, within_app.
    assert (within now [now] = 1%nat) as ->
      by (apply within_all; intros x ->%list_elem_of_singleton; unfold CRASH_WINDOW_SEC; lia).
    rewrite Nat.add_1_r. by apply within_last.
  - apply last_crashes_snoc.
Qed.

(** ** The pace of crashes *)

(** The least delay after the [n]-th crash. *)
Definition delay (n : nat) : Z := 2 ^ Z.of_nat (n `min` 5).

Definition paced (h : list Z) : Prop :=
  forall i x y, h !! i = Some x -> h !! S i = Some y -> x + delay (S i) <= y.

Lemma delay_pos n : 1 <= delay n.
Proof. unfold delay. pose proof (Z.pow_pos_nonneg 2 (Z.of_nat (n `min` 5)) ltac:(lia) ltac:(lia)). lia. Qed.

Lemma delay_range n : delay n ∈ [1; 2; 4; 8; 16; 32].
Proof.
  unfold delay. assert (Hm : (n `min` 5 <= 5)%nat) by lia. generalize dependent (n `min` 5)%nat. intros m Hm.
  do 6 (destruct m as [|m]; [cbn; set_solver|]). lia.
Qed.

Lemma delay_mono n n' : (n <= n')%nat -> delay n <= delay n'.
Proof. intros Hn. unfold delay. apply Z.pow_le_mono_r; lia. Qed.

Lemma paced_ascending h : paced h -> ascending h.
Proof.
  intros Hp i j x y Hi Hj Hij. revert x Hi. induction Hij as [|j Hij IH] in y, Hj |- *; intros x Hi.
  - simplify_eq. lia.
  - assert (is_Some (h !! j)) as [z Hz] by (apply lookup_lt_is_Some; apply lookup_lt_Some in Hj; lia).
    specialize (IH z Hz x Hi). pose proof (Hp j z y Hz Hj). pose proof (delay_pos (S j)). lia.
Qed.

Lemma paced_snoc h now :
  paced h -> (forall x, last h = Some x -> x + delay (length h) <= now) -> paced (h ++ [now]).
Proof.
  intros Hp Hl i x y Hx Hy. pose proof (lookup_lt_Some _ _ _ Hy) as Hlt. rewrite length_app in Hlt. cbn in Hlt.
  rewrite lookup_app_l in Hx by lia. destruct (decide (S i < length h)%nat).
  - rewrite lookup_app_l in Hy by done. by apply (Hp i).
  - assert (length h = S i) as E by lia. rewrite <- E, list_lookup_middle in Hy by done. simplify_eq.
    rewrite <- E. apply Hl. rewrite last_lookup, E. exact Hx.
Qed.

(** Five crashes of a paced history within a window are its first ones. *)
Lemma paced_trips h : paced h -> trips h = true -> (length h = 5 \/ length h = 6)%nat.
Proof.
  intros Hp. pose proof (paced_ascending h Hp) as Ha. unfold trips.
  destruct (last h) as [t|] eqn:Et; [|done]. intros Hw. bool_simpl.
  pose proof (within_length t h) as Hlen. rewrite last_lookup in Et. unfold CRASH_LIMIT in *.
  destruct (decide (7 <= length h)%nat) as [H7|]; [|lia]. exfalso.
  assert (Hat : forall i, (i < length h)%nat -> is_Some (h !! i)) by (intros; by apply lookup_lt_is_Some).
  destruct (length h) as [|[|[|[|[|m]]]]] eqn:E; try lia. cbn [Init.Nat.pred] in Et.
  destruct (Hat m) as [x0 H0]; [lia|]. destruct (Hat (S m)) as [x1 H1]; [lia|].
  destruct (Hat (S (S m))) as [x2 H2]; [lia|]. destruct (Hat (S (S (S m)))) as [x3 H3]; [lia|].
  pose proof (Hp _ _ _ H0 H1). pose proof (Hp _ _ _ H1 H2). pose proof (Hp _ _ _ H2 H3).
  pose proof (Hp _ _ _ H3 Et).
  pose proof (delay_mono 3 (S m) ltac:(lia)). pose proof (delay_mono 4 (S (S m)) ltac:(lia)).
  pose proof (delay_mono 5 (S (S (S m))) ltac:(lia)). pose proof (delay_mono 5 (S (S (S (S m)))) ltac:(lia)).
  change (delay 3) with 8 in *. change (delay 4) with 16 in *. change (delay 5) with 32 in *.
  assert (Hold : within t (take (S m) h) = 0%nat).
  { apply within_none. intros y [i Hi]%list_elem_of_lookup. apply lookup_take_Some in Hi as [Hi Hlt].
    assert (y <= x0) by (apply (Ha i m); [done..|lia]).
    unfold CRASH_WINDOW_SEC. lia. }
  rewrite <- (take_drop (S m) h), within_app, Hold in Hw.
  pose proof (within_length t (drop (S m) h)) as Hd. rewrite length_drop in Hd. lia.
Qed.

(** *** Along a run *)

(** The delay that has passed or is being slept since the last crash. *)
Definition crash_at (h : list Z) (s : lstate) : Prop :=
  match l_pc s with
  | PSleep until intr =>
      intr = false /\ delay (length h) <= l_backoff s /\
      forall x, last h = Some x -> x + delay (length h) <= until
  | PDone _ => True
  | _ => delay (S (length h)) <= l_backoff s /\ forall x, last h = Some x -> x + delay (length h) <= l_now s
  end.

(** A sleep ends within 32 seconds. *)
Definition sleep_at (p : pc) (now : Z) : Prop :=
  match p with PSleep until _ => until <= now + 32 | _ => True end.

Record crash_ok (h : list Z) (s : lstate) : Prop := CrashOk {
  co_crashes : l_crashes s = last_crashes h;
  co_paced : paced h;
  co_backoff : l_backoff s ∈ [2; 4; 8; 16; 32];
  co_trips : trips h = true <-> l_pc s = PDone 1;
  co_sleep : sleep_at (l_pc s) (l_now s);
  co_at : l_shutdown s = false -> crash_at h s
}.

Lemma backoff_max b : b ∈ [2; 4; 8; 16; 32] -> 2 <= b <= 32.
Proof. rewrite !elem_of_cons. intros [->|[->|[->|[->|[->|[]%elem_of_nil]]]]]; lia. Qed.

Lemma next_backoff_delay b n :
  b ∈ [2; 4; 8; 16; 32] -> delay n <= b ->
  next_backoff b ∈ [2; 4; 8; 16; 32] /\ delay (S n) <= next_backoff b.
Proof.
  intros Hb Hd. assert (Hs : delay (S n) <= 2 * delay n /\ delay (S n) <= 32).
  { unfold delay. split; [|transitivity (2 ^ 5); [apply Z.pow_le_mono_r; lia|lia]].
    rewrite <- Z.pow_succ_r by lia. apply Z.pow_le_mono_r; lia. }
  unfold next_backoff, RESTART_BACKOFF_MAX.
  rewrite !elem_of_cons in Hb. destruct Hb as [->|[->|[->|[->|[->|[]%elem_of_nil]]]]]; cbn;
    (split; [set_solver|lia]).
Qed.

Lemma crash_ok_judge h s o s' a :
  crash_ok h s -> l_pc s = PJudge a -> main_judge a o s = Some s' ->
  crash_ok (h ++ (if l_shutdown s || (a =? 0) then [] else [l_now s])) s'.
Proof.
  intros [Hc Hp Hb Ht _ Ha] Hpc. unfold main_judge, crash_at in *. rewrite Hpc in *.
  assert (Hn : trips h = true <-> PFinal = PDone 1) by naive_solver.
  destruct (l_shutdown s) eqn:Hsh; [intros [= <-]; cbn [orb]; rewrite app_nil_r; by split; cbn; try done; congruence|].
  destruct (a =? 0) eqn:Ha0.
  { intros [= <-]. cbn [orb]. rewrite app_nil_r. split; try done. intros _. by apply Ha. }
  cbn [orb].
  destruct (Ha eq_refl) as [Hd Hl]. rewrite Hc, crash_tracker_history by by apply paced_ascending.
  assert (Hp' : paced (h ++ [l_now s])) by by apply paced_snoc.
  destruct (trips (h ++ [l_now s])) eqn:Htr; intros Hm.
  - destruct o; try done; simplify_eq; (split; cbn; [done..|by rewrite Htr|done|done]).
  - simplify_eq. split; cbn; [done..|by rewrite Htr|pose proof (backoff_max _ Hb); lia|].
    intros _. unfold crash_at. cbn. rewrite length_app, last_snoc, Nat.add_1_r. split_and!; [done..|].
    intros x [= <-]. lia.
Qed.

(** An action that leaves the crashes and the clock alone. *)
Lemma crash_ok_move h s s' :
  crash_ok h s -> l_pc s <> PDone 1 -> l_pc s' <> PDone 1 -> l_crashes s' = l_crashes s ->
  l_backoff s' ∈ [2; 4; 8; 16; 32] -> sleep_at (l_pc s') (l_now s') ->
  (l_shutdown s' = false -> crash_at h s -> crash_at h s') -> (l_shutdown s' = false -> l_shutdown s = false) ->
  crash_ok h s'.
Proof.
  intros [Hc Hp Hb Ht _ Ha] Hn Hn' Hc' Hb' Hs Hat Hsh. split; [congruence|done..|naive_solver|done|auto].
Qed.

Lemma crash_ok_main h s o s' :
  crash_ok h s -> main_step o s = Some s' -> crash_ok (h ++ recorded (EMain o) s) s'.
Proof.
  intros Hok Hs. cbn [recorded]. unfold main_step in Hs.
  pose proof (co_backoff _ _ Hok) as Hb.
  destruct s as [p sh c b t kids now pf fl]; cbn in Hs, Hb |- *.
  assert (Hb' : next_backoff b ∈ [2; 4; 8; 16; 32]).
  { apply (next_backoff_delay b 1); [done|]. change (delay 1) with 2. set_solver by lia. }
  destruct p; rewrite ?app_nil_r.
  6: { by eapply (crash_ok_judge h _ _ _ _ Hok). }
  all: main_cases Hs; apply (crash_ok_move h _ _ Hok); cbn; try done; unfold crash_at; cbn;
    try (pose proof (backoff_max _ Hb); lia);
    intros Hsh; try (by destruct_and?); try (by rewrite Hsh in *).
  - intros [Hd Hl]. pose proof (delay_mono (length h) (S (length h)) ltac:(lia)).
    pose proof (delay_pos (length h)). split_and!; [done|lia|]. intros x Hx%Hl. lia.
  - intros (-> & Hd & Hl). split; [by apply next_backoff_delay|]. intros x Hx%Hl.
    bool_simpl. match goal with H : (_ || _) = true |- _ => rewrite orb_false_r in H end. bool_simpl. lia.
Qed.

Lemma interrupt_sleep hits p now : sleep_at p now -> sleep_at (interrupt hits p) now.
Proof. by destruct hits, p. Qed.
Lemma interrupt_done hits p rc : interrupt hits p = PDone rc <-> p = PDone rc.
Proof. by destruct hits, p. Qed.

Lemma crash_ok_step n h s e s' :
  kids_ok n s -> crash_ok h s -> lstep e s = Some s' -> crash_ok (h ++ recorded e s) s'.
Proof.
  intros Hk Hok [Hs Hd]%lstep_live. pose proof (Hd 1) as Hd1.
  destruct e as [o|hits|pid st hits|d]; [by eapply crash_ok_main|..]; cbn in Hs |- *; rewrite app_nil_r.
  - simplify_eq. apply (crash_ok_move _ _ _ Hok); [done|..].
    + rewrite signal_pc. cbn. by rewrite interrupt_done.
    + unfold on_term_signal. by destruct (0 <? _).
    + unfold on_term_signal. destruct (0 <? _); apply (co_backoff _ _ Hok).
    + pose proof (co_sleep _ _ Hok) as Hsl. unfold on_term_signal.
      destruct (0 <? _); cbn; by apply interrupt_sleep.
    + by rewrite signal_shutdown.
    + by rewrite signal_shutdown.
  - destruct (l_kids s !! pid) as [[b|]|] eqn:E; simplify_eq.
    apply (crash_ok_move _ _ _ Hok); cbn; [done|by rewrite interrupt_done|done|apply (co_backoff _ _ Hok)|
      by apply interrupt_sleep, (co_sleep _ _ Hok)| |done].
    intros _. unfold crash_at. cbn. destruct (l_pc s) eqn:Ep; destruct hits; cbn; try done.
    destruct Hk as [Hk _]. rewrite Ep in Hk. destruct Hk as [_ Hk]. by rewrite Hk, lookup_empty in E.
  - destruct (0 <=? d) eqn:E; simplify_eq. bool_simpl.
    apply (crash_ok_move _ _ _ Hok); cbn; [done..|apply (co_backoff _ _ Hok)| | |done].
    { pose proof (co_sleep _ _ Hok) as Hsl. destruct (l_pc s); try done. cbn in *. lia. }
    intros _. unfold crash_at. cbn. destruct (l_pc s); try done;
      intros [Hb Hl]; (split; [done|]); intros x Hx%Hl; lia.
Qed.

(** ** The PID file of the daemon *)

Definition pidfile_ok (f0 : option Z) (s : lstate) : Prop :=
  l_pidfile s = None \/ l_pidfile s = f0 \/
  (0 < l_child s /\ l_pidfile s = Some (l_child s) /\ forall rc, l_pc s <> PDone rc).

Lemma pidfile_ok_step n f0 s e s' :
  kids_ok n s -> pidfile_ok f0 s -> lstep e s = Some s' -> pidfile_ok f0 s'.
Proof.
  intros [Hk _] Hf [Hs Hd]%lstep_live. unfold pidfile_ok in *.
  destruct s as [p sh c bo t kids now pf fl]. cbn in *.
  destruct e as [o|hits|pid st hits|d]; cbn in Hs.
  - main_cases Hs; cbn in *; try (by left);
      try (destruct Hf as [?|[?|(? & ? & _)]]; [by left|by right; left|by right; right]).
    { destruct Hk as (? & _ & _). by right; right. }
    all: destruct Hf as [?|[?|[? _]]]; [by left|by right; left|]; destruct_and?; bool_simpl; lia.
  - simplify_eq. unfold on_term_signal. cbn. destruct (0 <? c); cbn;
      (destruct Hf as [?|[?|(? & ? & _)]]; [by left|by right; left|right; right]);
      (split_and!; [done..|]); intros rc; by rewrite interrupt_done.
  - destruct (kids !! pid) as [[b|]|]; simplify_eq. cbn.
    destruct Hf as [?|[?|(? & ? & _)]]; [by left|by right; left|right; right].
    split_and!; [done..|]. intros rc. by rewrite interrupt_done.
  - destruct (0 <=? d); by simplify_eq.
Qed.

(** ** The theorems *)

Definition launcher_ok (f0 : option Z) (n : nat) (h : list Z) (s : lstate) : Prop :=
  kids_ok n s /\ crash_ok h s /\ pidfile_ok f0 s /\ observing (l_pc s) = false.

Lemma launcher_reachable tr now f0 s :
  run tr (supervise_init now f0) = Some s ->
  launcher_ok f0 (count is_signal tr) (crash_times tr (supervise_init now f0)) s.
Proof.
  intros Hr.
  assert (H : launcher_ok f0 (0 + count is_signal tr) ([] ++ crash_times tr (supervise_init now f0)) s); [|exact H].
  refine (run_invariant (launcher_ok f0) _ _ _ _ _ _ _ Hr).
  - intros n h s1 e s2 (Hk & Hc & Hp & Ho) Hs. split_and!.
    + by eapply kids_ok_step.
    + by eapply crash_ok_step.
    + by eapply pidfile_ok_step.
    + by eapply observing_step.
  - split_and!.
    + by split.
    + split; cbn; [done|by intros i x y ?|unfold RESTART_BACKOFF_MIN; set_solver|by split|done|].
      intros _. by split.
    + by right; left.
    + done.
Qed.

Lemma kids_ok_size n s : kids_ok n s -> (size (l_kids s) <= 1)%nat.
Proof.
  intros [Hk _]. destruct (l_pc s); cbn in Hk;
    repeat match goal with
    | H : _ /\ _ |- _ => destruct H
    | H : _ \/ _ |- _ => destruct H
    | H : exists _, _ |- _ => destruct H
    | H : l_kids s = _ |- _ => rewrite H
    end; rewrite ?map_size_empty, ?map_size_singleton; lia.
Qed.

(** C35: along every interleaving of the supervisor with signals, the end of its children
    and the passing of time there is at most one child; when the supervisor ends, a
    child that still runs has been sent SIGTERM, and it is left behind only after a
    second signal, which interrupts the last [waitpid]; and the PID file of the daemon
    is gone, or was there before and never written. *)
Theorem supervisor_safe (tr : list levent) (now : Z) (pidfile : option Z) (s : lstate) :
  run tr (supervise_init now pidfile) = Some s ->
  (size (l_kids s) <= 1)%nat /\
  forall rc, l_pc s = PDone rc ->
    (l_pidfile s = None \/ l_pidfile s = pidfile) /\
    forall pid k, l_kids s !! pid = Some k ->
      k <> Running false /\ (k = Running true -> 2 <= count is_signal tr)%nat.
Proof.
  intros (Hk & _ & Hp & _)%launcher_reachable. split; [by eapply kids_ok_size|]. intros rc Hd. split.
  - destruct Hp as [?|[?|(_ & _ & Hn)]]; [by left|by right|]. by destruct (Hn rc).
  - intros pid k Hl. destruct Hk as [Hk _]. rewrite Hd in Hk. cbn in Hk.
    destruct Hk as [Hk|(k' & Hk & Ht & Hz)]; rewrite Hk in Hl; [by rewrite lookup_empty in Hl|].
    apply lookup_singleton_Some in Hl as [_ ->]. split; [done|]. intros ->.
    destruct Hz as [[st [=]]|]; done.
Qed.

(** The main thread waits for a child that was told to stop. *)
Definition awaits_told (s : lstate) : Prop :=
  exists pid, (match l_pc s with PWait p _ => pid = p | PFinalWait _ => pid = l_child s | _ => False end) /\
    l_kids s !! pid = Some (Running true).

Lemma stopping_progress n h s :
  stopping s -> kids_ok n s -> crash_ok h s ->
  l_pc s = PDone 0 \/ awaits_told s \/
  exists d s' s'', 0 <= d <= 32 /\ lstep (ETick d) s = Some s' /\ lstep (EMain Plain) s' = Some s''.
Proof.
  intros [Hsh (Hi & Ho & Hd) Hkids] [Hk _] Hc. apply co_sleep in Hc.
  destruct s as [p sh c b t kids now pf fl]. cbn in *. subst sh.
  destruct p; cbn in Hk; try done.
  all: try (right; right; exists 0; eexists _, _; by split_and!).
  - destruct Hk as (_ & -> & k & -> & _). specialize (Hkids pid k (lookup_singleton_eq _ _)).
    right. destruct k as [[]|st]; [left|done|right].
    + exists pid. split; cbn; [done|by rewrite lookup_singleton_eq].
    + exists 0. eexists _, _. split_and!; [lia..|done|]. unfold lstep. cbn. by rewrite lookup_singleton_eq.
  - right; right. exists (Z.max 0 (until - now)). eexists _, _. split_and!; [lia|cbn in Hc; lia| |].
    + unfold lstep. cbn. by rewrite (proj2 (Z.leb_le 0 _)) by lia.
    + unfold lstep. cbn. by rewrite (proj2 (Z.leb_le until _)) by lia.
  - destruct Hk as (_ & _ & k & -> & _). specialize (Hkids c k (lookup_singleton_eq _ _)).
    right. destruct k as [[]|st]; [left|done|right].
    + exists c. split; cbn; [done|by rewrite lookup_singleton_eq].
    + exists 0. eexists _, _. split_and!; [lia..|done|]. unfold lstep. cbn. by rewrite lookup_singleton_eq.
  - left. cbn in Hd. by subst rc.
Qed.

Lemma run_app tr tr' s : run (tr ++ tr') s = s' ← run tr s; run tr' s'.
Proof.
  revert s. induction tr as [|e tr IH]; intros s; [done|].
  cbn [app run]. destruct (lstep e s); [apply IH|done].
Qed.

(** C34: SIGTERM stops the supervisor unless it comes inside [spawn_dpid]: no child is
    started any more, every child has been told to stop, the main thread has at most
    five actions left, and it is never stuck: it has ended with code 0, or it waits
    for a child that was told to stop, or it can act at once or after a sleep of at most 32
    seconds. *)
Theorem sigterm_stops (tr tr' : list levent) (hits : bool) (now : Z) (pidfile : option Z) (s s1 s2 : lstate) :
  run tr (supervise_init now pidfile) = Some s -> in_spawn (l_pc s) = false ->
  lstep (ESignal hits) s = Some s1 -> run tr' s1 = Some s2 ->
  l_pc s2 <> PSpawn /\ dom (l_kids s2) ⊆ dom (l_kids s1) /\
  (forall pid k, l_kids s2 !! pid = Some k -> k <> Running false) /\
  (count is_main tr' <= 5)%nat /\
  (l_pc s2 = PDone 0 \/ awaits_told s2 \/
   exists d s3 s4, 0 <= d <= 32 /\ lstep (ETick d) s2 = Some s3 /\ lstep (EMain Plain) s3 = Some s4).
Proof.
  intros Hr Hi Hs Hr'. assert (Hr2 : run (tr ++ ESignal hits :: tr') (supervise_init now pidfile) = Some s2).
  { rewrite run_app, Hr. cbn. by rewrite Hs. }
  apply launcher_reachable in Hr as (Hk & _ & _ & Ho). apply launcher_reachable in Hr2 as (Hk2 & Hc2 & _ & _).
  pose proof (signal_stopping _ _ _ _ Hk Ho Hi Hs) as Hst.
  destruct (stopping_run _ _ _ Hst Hr') as (Hst2 & Hdom & Hrank). split_and!.
  - destruct Hst2 as [_ (Hsp & _) _]. by intros E; rewrite E in Hsp.
  - done.
  - apply Hst2.
  - assert (rank (l_pc s1) <= 5)%nat by (by destruct (l_pc s1); cbn; lia). lia.
  - by eapply stopping_progress.
Qed.

(** C36: the supervisor gives up (code 1) exactly when the crash it records is the fifth within
    60 seconds, counted over all crashes since its start and not only those it
    remembers.  After the [n]-th crash it waits at least [2 ^ min n 5] seconds, so it
    can only give up at its fifth or sixth crash: later ones are too far apart. *)
Theorem crash_guard_spec (tr : list levent) (now : Z) (pidfile : option Z) (s : lstate) :
  run tr (supervise_init now pidfile) = Some s ->
  let h := crash_times tr (supervise_init now pidfile) in
  (l_pc s = PDone 1 <-> exists t, last h = Some t /\ (5 <= within t h)%nat) /\
  (forall i x y, h !! i = Some x -> h !! S i = Some y -> x + 2 ^ Z.of_nat (S i `min` 5) <= y) /\
  (l_pc s = PDone 1 -> length h = 5 \/ length h = 6)%nat.
Proof.
  intros (_ & [_ Hp _ Ht _ _] & _ & _)%launcher_reachable h. fold h in Hp, Ht. split_and!.
  - rewrite <- Ht. unfold trips. destruct (last h) as [t|]; [|naive_solver].
    unfold CRASH_LIMIT. rewrite Nat.leb_le. naive_solver.
  - exact Hp.
  - intros Hd. apply paced_trips; [done|by apply Ht].
Qed.

(** ** What can go wrong *)

(** A SIGTERM between [fork] and the store of [g_child_pid] reaches neither the child nor a
    blocking call: the supervisor then waits for a child that nobody has told to stop,
    and only another signal or the child's own end can change that. *)
Lemma shutdown_lost now f0 :
  exists s, run [EMain Plain; EMain (Forked 7); ESignal false; EMain Plain] (supervise_init now f0) = Some s /\
    l_shutdown s = true /\ l_pc s = PWait 7 false /\ l_kids s !! 7 = Some (Running false) /\
    forall tr s', Forall (fun e => is_main e = true \/ exists d, e = ETick d) tr -> run tr s = Some s' ->
      l_pc s' = PWait 7 false /\ l_kids s' !! 7 = Some (Running false).
Proof.
  eexists. split; [reflexivity|]. split_and!; [done..|]. intros tr.
  match goal with |- forall s', _ -> run tr ?s = _ -> _ =>
    assert (Hs : l_pc s = PWait 7 false /\ l_kids s !! 7 = Some (Running false)) by (by split);
    generalize dependent s end.
  induction tr as [|e tr IH]; intros s Hs s' He; [by intros [= <-]|]. cbn.
  apply Forall_cons in He as [He Htr]. destruct (lstep e s) as [s1|] eqn:E; [|done]. cbn.
  apply (IH s1); [|done]. apply lstep_live in E as [E _]. destruct Hs as [Hp Hk].
  destruct He as [He|[d ->]].
  - destruct e as [o| | |]; try done. cbn in E. unfold main_step, main_wait in E. rewrite Hp in E.
    destruct o; try done. by rewrite Hk in E.
  - cbn in E. destruct (0 <=? d); [|done]. injection E as <-. by split.
Qed.

(** A SIGTERM between the test of [g_shutdown] and [pause] does not end the observe mode. *)
Lemma observe_signal_lost now f0 :
  exists s, run [EMain Plain; ESignal false] (observe_init now f0) = Some s /\
    l_shutdown s = true /\ l_pc s = PPause false /\ forall o, lstep (EMain o) s = None.
Proof. eexists. split; [reflexivity|]. by split_and!. Qed.

(** Two supervisors that both read the guard file before one of them writes it both go on. *)
Lemma singleton_race alive a b :
  singleton_refused alive a None = false /\ singleton_refused alive b None = false /\
  (write_pid_file true b (write_pid_file true a None).2).1 = 0.
Proof. done. Qed.

(** ** Examples *)

(** The daemon is started as [pid] and ends with exit code 1. *)
Definition crash_turn (pid : Z) : list levent :=
  [EMain Plain; EMain (Forked pid); EMain Plain; EKid pid 256 true; EMain Plain; EMain Plain; EMain Plain].
Definition slept (d : Z) : list levent := [ETick d; EMain Plain].
Definition five_crashes : list levent :=
  crash_turn 101 ++ slept 2 ++ crash_turn 102 ++ slept 4 ++ crash_turn 103 ++ slept 8
  ++ crash_turn 104 ++ slept 16 ++ crash_turn 105.

Definition gave_up : lstate := LState (PDone 1) false 0 32 [0; 2; 6; 14; 30] ∅ 30 None true.

Lemma crash_guard_spec_witness :
  run five_crashes (supervise_init 0 None) = Some gave_up /\
  crash_times five_crashes (supervise_init 0 None) = [0; 2; 6; 14; 30] /\ l_pc gave_up = PDone 1.
Proof.
  assert (H : run five_crashes (supervise_init 0 None) = Some gave_up) by by vm_compute.
  assert (Hc : crash_times five_crashes (supervise_init 0 None) = [0; 2; 6; 14; 30]) by by vm_compute.
  split; [exact H|]. split; [exact Hc|].
  apply (proj1 (crash_guard_spec _ _ _ _ H)). rewrite Hc. exists 30. split; [done|by vm_compute; lia].
Defined.

(** Two signals leave a child behind that was told to stop. *)
Definition two_signals : list levent :=
  [EMain Plain; EMain (Forked 7); EMain Plain; ESignal true; EMain Interrupted; EMain Plain;
   ESignal true; EMain Interrupted].

Definition left_behind : lstate := LState (PDone 0) true 7 2 [] {[7 := Running true]} 0 None false.

Lemma supervisor_safe_witness :
  run two_signals (supervise_init 0 (Some 5)) = Some left_behind /\
  (size (l_kids left_behind) <= 1)%nat /\ count is_signal two_signals = 2%nat.
Proof.
  assert (H : run two_signals (supervise_init 0 (Some 5)) = Some left_behind) by by vm_compute.
  split_and!; [exact H|exact (proj1 (supervisor_safe _ _ _ _ H))|by vm_compute].
Defined.

Definition waiting7 : lstate := LState (PWait 7 false) false 7 2 [] {[7 := Running false]} 0 (Some 7) false.
Definition told7 (p : pc) : lstate := LState p true 7 2 [] {[7 := Running true]} 0 (Some 7) false.

Lemma sigterm_stops_witness :
  run [EMain Plain; EMain (Forked 7); EMain Plain] (supervise_init 0 None) = Some waiting7 /\
  lstep (ESignal true) waiting7 = Some (told7 (PWait 7 true)) /\
  run [EMain Interrupted; EMain Plain] (told7 (PWait 7 true)) = Some (told7 (PFinalWait false)) /\
  l_pc (told7 (PFinalWait false)) <> PSpawn.
Proof.
  assert (H1 : run [EMain Plain; EMain (Forked 7); EMain Plain] (supervise_init 0 None) = Some waiting7)
    by by vm_compute.
  assert (H2 : lstep (ESignal true) waiting7 = Some (told7 (PWait 7 true))) by by vm_compute.
  assert (H3 : run [EMain Interrupted; EMain Plain] (told7 (PWait 7 true)) = Some (told7 (PFinalWait false)))
    by by vm_compute.
  split_and!; [exact H1|exact H2|exact H3|].
  exact (proj1 (sigterm_stops _ _ _ _ _ _ _ _ H1 eq_refl H2 H3)).
Defined.
