(* ===== verification/Lsm.v ===== *)
(** * The limit map guard ([lsm/hnc_limit_map_guard.bpf.c], [lsm/hnc_lsm_loader.c])

    A BPF program on the entry of [security_bpf] reports every write of the unlimited
    quota to the protected upstream by another process; a thread of the daemon answers
    each report by writing quota 0 again.  libbpf is outside: the outcomes of its
    calls are the record [lsm_io]. *)
From S2P Require Import Prelude CStr JsonText.
Local Open Scope Z_scope.

(** ** The BPF program *)

Definition U64_MAX : Z := 2 ^ 64 - 1.
Definition BPF_MAP_UPDATE_ELEM : Z := 2.
Definition BPF_MAP_UPDATE_BATCH : Z := 26.

(** [struct hnc_lsm_ctrl] *)
Record lsm_ctrl := LsmCtrl {
  ct_map_id : Z; ct_ifindex : Z; ct_pid : Z; ct_enabled : Z
}.

(** [struct hnc_lsm_event] *)
Record lsm_event := LsmEvent {
  ev_ts : Z; ev_pid : Z; ev_uid : Z; ev_value : Z; ev_ifindex : Z; ev_verdict : Z; ev_comm : bytes
}.

(** The descriptor table of a process: [max_fds] and the array.  A file is what is read as
    the id of a map behind its [private_data], [None] when that is a null pointer. *)
Definition fd_table : Type := Z * (Z -> option (option Z)).

(** One call of bpf(2): the command, the descriptor, what user memory holds at the key
    and at the value ([None]: a fault), the elements a batch writes, and the caller.  The program and
    the kernel read the same memory: it does not change during the call, and is present.
    [bc_files] is [None] when one of the pointers to the table is null. *)
Record bpf_call := BpfCall {
  bc_cmd : Z; bc_map_fd : Z; bc_key : option Z; bc_value : option Z; bc_batch : list (Z * Z);
  bc_tgid : Z; bc_uid : Z; bc_comm : bytes; bc_files : option fd_table
}.

(** The id the program finds for a descriptor; the array is indexed with 16 bits of it. *)
Definition guard_map_id (files : option fd_table) (map_fd : Z) : option Z :=
  match files with
  | None => None
  | Some (max_fds, fdarr) =>
      if max_fds <=? map_fd then None
      else
        let map_fd := Z.land map_fd 65535 in
        if max_fds <=? map_fd then None
        else match fdarr map_fd with
             | None => None
             | Some private_data => private_data
             end
  end.

(** [hnc_check_bpf]: the event it submits, when the ring has [room]. *)
Definition hnc_check_bpf (ctrl : option lsm_ctrl) (c : bpf_call) (now : Z) (room : bool) : option lsm_event :=
  if negb (bc_cmd c =? BPF_MAP_UPDATE_ELEM) then None
  else match ctrl with
  | None => None
  | Some ctrl =>
      if ct_map_id ctrl =? 0 then None
      else match guard_map_id (bc_files c) (bc_map_fd c) with
      | None => None
      | Some mid =>
          if negb (mid =? ct_map_id ctrl) then None
          else
            let ifindex := default 0 (bc_key c) in
            if negb (ifindex =? ct_ifindex ctrl) then None
            else if bc_tgid c =? ct_pid ctrl then None
            else
              let val := default 0 (bc_value c) in
              if negb (val =? U64_MAX) then None
              else if room then
                Some (LsmEvent now (bc_tgid c) (Z.land (bc_uid c) 4294967295) val ifindex 1
                        (c_trunc 16 (bc_comm c)))
              else None
      end
  end.

(** ** The loader's state *)

Inductive lsm_state := HNC_LSM_DISABLED | HNC_LSM_ACTIVE | HNC_LSM_FAILED.

(** [hnc_lsm_status_t] *)
Record lsm_status := LsmStatus {
  st_state : lsm_state; st_map_id : Z; st_ifindex : Z; st_pid : Z;
  st_deny : Z; st_allow : Z; st_last_ts : Z; st_comm : bytes; st_reason : bytes
}.

(** [g]: [lg_obj], [lg_link] and [lg_rb] tell whether the pointers are set, [lg_thread] is
    [rb_thread_started]. *)
Record lsm_globals := LsmGlobals {
  lg_initialized : bool; lg_obj : bool; lg_link : bool; lg_ctrl_fd : Z; lg_limit_fd : Z;
  lg_rb : bool; lg_thread : bool; lg_stat : lsm_status
}.
Definition lsm_zero : lsm_globals :=
  LsmGlobals false false false (-1) (-1) false false
    (LsmStatus HNC_LSM_DISABLED 0 0 0 0 0 0 [] []).

(** The daemon with what the kernel keeps for it: the one element of the control map,
    which starts as zeros when the object is loaded, and the descriptors of the limit map that are open. *)
Record lsm_world := LsmWorld {
  lw_g : lsm_globals;
  lw_ctrl : option lsm_ctrl;
  lw_limit_fds : list Z
}.

Definition set_stat (s : lsm_status) (g : lsm_globals) : lsm_globals :=
  LsmGlobals (lg_initialized g) (lg_obj g) (lg_link g) (lg_ctrl_fd g) (lg_limit_fd g) (lg_rb g) (lg_thread g) s.
Definition set_ptrs (obj link : bool) (g : lsm_globals) : lsm_globals :=
  LsmGlobals (lg_initialized g) obj link (lg_ctrl_fd g) (lg_limit_fd g) (lg_rb g) (lg_thread g) (lg_stat g).
Definition set_limit_fd (fd : Z) (g : lsm_globals) : lsm_globals :=
  LsmGlobals (lg_initialized g) (lg_obj g) (lg_link g) (lg_ctrl_fd g) fd (lg_rb g) (lg_thread g) (lg_stat g).
Definition set_ctrl_fd (fd : Z) (g : lsm_globals) : lsm_globals :=
  LsmGlobals (lg_initialized g) (lg_obj g) (lg_link g) fd (lg_limit_fd g) (lg_rb g) (lg_thread g) (lg_stat g).
Definition with_g (f : lsm_globals -> lsm_globals) (w : lsm_world) : lsm_world :=
  LsmWorld (f (lw_g w)) (lw_ctrl w) (lw_limit_fds w).
Definition with_ctrl (c : option lsm_ctrl) (w : lsm_world) : lsm_world :=
  LsmWorld (lw_g w) c (lw_limit_fds w).

(** [set_fail] with the formatted text. *)
Definition set_fail (text : bytes) (w : lsm_world) : lsm_world :=
  with_g (fun g => let s := lg_stat g in
    set_stat (LsmStatus HNC_LSM_FAILED (st_map_id s) (st_ifindex s) (st_pid s) (st_deny s) (st_allow s)
                (st_last_ts s) (st_comm s) (c_trunc 128 text)) g) w.

(** ** Initialisation *)

(** How the calls of [hnc_lsm_init] turn out; [inr] and [Some] carry an errno. *)
Record lsm_io := LsmIo {
  io_obj_get : Z + Z;            (* bpf_obj_get *)
  io_info : Z + Z;               (* bpf_obj_get_info_by_fd: the map's id *)
  io_open : option Z;            (* bpf_object__open_file *)
  io_load : option Z;            (* bpf_object__load *)
  io_prog : bool;                (* bpf_object__find_program_by_name *)
  io_maps : option Z;            (* both find_map_by_name; the control map's descriptor *)
  io_populate : option Z;        (* bpf_map_update_elem on the control map *)
  io_attach : option Z;          (* bpf_program__attach_kprobe *)
  io_ring : option Z;            (* ring_buffer__new *)
  io_thread : bool;              (* pthread_create *)
  io_pid : Z
}.

Section loader.
(** The C library's text for an errno. *)
Context (strerror : Z -> bytes).

Definition close_obj (link : bool) (w : lsm_world) : lsm_world :=
  with_ctrl None (with_g (set_ptrs false link) w).

(** Step 8: the ring buffer and its thread. *)
Definition init_ring (io : lsm_io) (w : lsm_world) : Z * lsm_world :=
  match io_ring io with
  | Some e => (-1, close_obj false (set_fail (str "ring_buffer__new: " ++ strerror e) w))
  | None =>
      (0, with_g (fun g =>
            let s := lg_stat g in
            LsmGlobals true (lg_obj g) (lg_link g) (lg_ctrl_fd g) (lg_limit_fd g) true
              (io_thread io || lg_thread g)
              (LsmStatus HNC_LSM_ACTIVE (st_map_id s) (st_ifindex s) (st_pid s) (st_deny s) (st_allow s)
                 (st_last_ts s) (st_comm s) [])) w)
  end.

(** Steps 6 and 7: fill the control map, attach the probe. *)
Definition init_attach (io : lsm_io) (initial_ifindex : Z) (w : lsm_world) : Z * lsm_world :=
  match io_populate io with
  | Some e => (-1, close_obj (lg_link (lw_g w)) (set_fail (str "populate ctrl: " ++ strerror e) w))
  | None =>
      let w := with_ctrl (Some (LsmCtrl (st_map_id (lg_stat (lw_g w))) initial_ifindex (io_pid io) 1)) w in
      match io_attach io with
      | Some e => (-1, close_obj false (set_fail (str "attach_kprobe: " ++ strerror e) w))
      | None => init_ring io (with_g (set_ptrs true true) w)
      end
  end.

(** Steps 3 to 5: open and load the object, find its program and maps. *)
Definition init_object (io : lsm_io) (initial_ifindex : Z) (w : lsm_world) : Z * lsm_world :=
  let link := lg_link (lw_g w) in
  match io_open io with
  | Some e => (-1, with_g (set_ptrs false link) (set_fail (str "bpf_object__open_file: " ++ strerror e) w))
  | None =>
      match io_load io with
      | Some e => (-1, close_obj link (set_fail (str "bpf_object__load: " ++ strerror e) w))
      | None =>
          let w := with_ctrl (Some (LsmCtrl 0 0 0 0)) (with_g (set_ptrs true link) w) in
          if negb (io_prog io)
          then (-1, close_obj link (set_fail (str "find prog 'hnc_check_bpf' failed") w))
          else match io_maps io with
               | None => (-1, close_obj link (set_fail (str "find map ctrl/events failed") w))
               | Some fd => init_attach io initial_ifindex (with_g (set_ctrl_fd fd) w)
               end
      end
  end.

Definition hnc_lsm_init (io : lsm_io) (target_limit_map_path : bytes) (initial_ifindex : Z) (w : lsm_world) :
    Z * lsm_world :=
  if lg_initialized (lw_g w) then (0, w)
  else
    let w := with_g (fun g => let s := lg_stat g in
               set_stat (LsmStatus HNC_LSM_DISABLED (st_map_id s) (st_ifindex s) (io_pid io) (st_deny s)
                           (st_allow s) (st_last_ts s) (st_comm s) (st_reason s)) g) w in
    match io_obj_get io with
    | inr e => (-1, set_fail (str "bpf_obj_get(" ++ target_limit_map_path ++ str "): " ++ strerror e) w)
    | inl fd =>
        let w := LsmWorld (set_limit_fd fd (lw_g w)) (lw_ctrl w) (fd :: lw_limit_fds w) in
        match io_info io with
        | inr e => (-1, set_fail (str "bpf_obj_get_info_by_fd: " ++ strerror e) w)
        | inl id =>
            init_object io initial_ifindex
              (with_g (fun g => let s := lg_stat g in
                 set_stat (LsmStatus (st_state s) id initial_ifindex (st_pid s) (st_deny s) (st_allow s)
                             (st_last_ts s) (st_comm s) (st_reason s)) g) w)
        end
    end.
End loader.

(** ** The other operations *)

(** [hnc_lsm_update_ifindex]; [lookup_ok] and [update_ok] are the outcomes of the calls on
    the control map. *)
Definition hnc_lsm_update_ifindex (lookup_ok update_ok : bool) (new_ifindex : Z) (w : lsm_world) : Z * lsm_world :=
  if negb (lg_initialized (lw_g w)) || (lg_ctrl_fd (lw_g w) <? 0) then (-1, w)
  else match (if lookup_ok then lw_ctrl w else None) with
  | None => (-1, w)
  | Some v =>
      if negb update_ok then (-1, w)
      else (0, with_ctrl (Some (LsmCtrl (ct_map_id v) new_ifindex (ct_pid v) (ct_enabled v)))
                 (with_g (fun g => let s := lg_stat g in
                    set_stat (LsmStatus (st_state s) (st_map_id s) new_ifindex (st_pid s) (st_deny s)
                                (st_allow s) (st_last_ts s) (st_comm s) (st_reason s)) g) w))
  end.

Definition hnc_lsm_shutdown (w : lsm_world) : lsm_world :=
  let g := lw_g w in
  if negb (lg_initialized g) then w
  else LsmWorld (LsmGlobals false false false (lg_ctrl_fd g)
                   (if 0 <=? lg_limit_fd g then -1 else lg_limit_fd g) false false (lg_stat g))
         None
         (if 0 <=? lg_limit_fd g then filter (fun fd => fd <> lg_limit_fd g) (lw_limit_fds w)
          else lw_limit_fds w).

Definition hnc_lsm_get_status (w : lsm_world) : lsm_status := lg_stat (lw_g w).

(** [ringbuf_handle_event] for a whole event: the new status, and the interface whose quota is
    to be written as 0. *)
Definition ringbuf_handle_event (now : Z) (ev : lsm_event) (g : lsm_globals) : lsm_globals * option Z :=
  let s := lg_stat g in
  let deny := negb (ev_verdict ev =? 0) in
  let g := set_stat (LsmStatus (st_state s) (st_map_id s) (st_ifindex s) (st_pid s)
                       (if deny then u64 (st_deny s + 1) else st_deny s)
                       (if deny then st_allow s else u64 (st_allow s + 1))
                       now (c_trunc 16 (ev_comm ev)) (st_reason s)) g in
  (g, if deny && (0 <=? lg_limit_fd g) then Some (ev_ifindex ev) else None).

(** ** The status as JSON *)

Definition state_str (s : lsm_state) : bytes :=
  match s with
  | HNC_LSM_ACTIVE => str "active"
  | HNC_LSM_FAILED => str "failed"
  | HNC_LSM_DISABLED => str "disabled"
  end.

Definition status_fragment (st : lsm_status) : bytes :=
  key "lsm" ++ [123] ++
  key "state" ++ quoted (state_str (st_state st)) ++ [44] ++
  key "protected_map_id" ++ dec (st_map_id st) ++ [44] ++
  key "protected_ifindex" ++ dec (st_ifindex st) ++ [44] ++
  key "hotspotd_pid" ++ dec (st_pid st) ++ [44] ++
  key "deny_count" ++ dec (st_deny st) ++ [44] ++
  key "allow_count" ++ dec (st_allow st) ++ [44] ++
  key "last_event_ts" ++ dec (st_last_ts st) ++ [44] ++
  key "last_caller" ++ quoted (st_comm st) ++ [44] ++
  key "fail_reason" ++ quoted (st_reason st) ++ [125].

(** [hnc_lsm_status_to_json_fragment]: the text, or [None] when it does not fit. *)
Definition hnc_lsm_status_to_json_fragment (st : lsm_status) (buf_size : nat) : option bytes :=
  let text := status_fragment st in
  if (buf_size <=? length text)%nat then None else Some text.

(** ** Writers of the limit map and the guard *)

(** The limit map with a note of who wrote each quota last, the calls that have entered the
    kernel and not yet written (with the number of their event), the ring, and the
    loader's globals. *)
Inductive writer := WInitial | WForeign | WOwn | WGuard.

Record guard_sys := GuardSys {
  gs_limit : gmap Z (Z * writer);
  gs_flight : list (nat * bpf_call);
  gs_ring : list (nat * lsm_event);
  gs_next : nat;
  gs_ctrl : option lsm_ctrl;
  gs_g : lsm_globals
}.

(** A process enters the kernel and the program runs; a call that is under way writes; the
    thread takes the oldest event and answers it ([ok]: its write succeeds). *)
Inductive guard_act :=
| AEnter (c : bpf_call) (now : Z) (room : bool)
| ALand (n : nat)
| AConsume (now : Z) (ok : bool).

(** The map a descriptor really names. *)
Definition real_map_id (c : bpf_call) : option Z :=
  '(max_fds, fdarr) ← bc_files c;
  if (0 <=? bc_map_fd c) && (bc_map_fd c <? max_fds) then mjoin (fdarr (bc_map_fd c)) else None.

(** The quotas a call writes into map [id], in order: those of an update that is
    successful, and the elements of a batch up to its end or first fault. *)
Definition call_writes (id : Z) (c : bpf_call) : list (Z * Z) :=
  if bool_decide (real_map_id c = Some id) then
    if bc_cmd c =? BPF_MAP_UPDATE_ELEM then
      match bc_key c, bc_value c with Some key, Some val => [(key, val)] | _, _ => [] end
    else if bc_cmd c =? BPF_MAP_UPDATE_BATCH then bc_batch c
    else []
  else [].
Definition write_all (who : writer) (ws : list (Z * Z)) (limit : gmap Z (Z * writer)) : gmap Z (Z * writer) :=
  fold_left (fun m kv => <[kv.1 := (kv.2, who)]> m) ws limit.

Definition guard_step (limit_id own : Z) (a : guard_act) (s : guard_sys) : option guard_sys :=
  match a with
  | AEnter c now room =>
      Some (GuardSys (gs_limit s) (gs_flight s ++ [(gs_next s, c)])
              (gs_ring s ++ match hnc_check_bpf (gs_ctrl s) c now room with
                            | Some ev => [(gs_next s, ev)]
                            | None => []
                            end)
              (S (gs_next s)) (gs_ctrl s) (gs_g s))
  | ALand n =>
      '(_, c) ← list_find (fun e => e.1 = n) (gs_flight s);
      Some (GuardSys
              (write_all (if bc_tgid c.2 =? own then WOwn else WForeign) (call_writes limit_id c.2) (gs_limit s))
              (filter (fun e => e.1 <> n) (gs_flight s)) (gs_ring s) (gs_next s) (gs_ctrl s) (gs_g s))
  | AConsume now ok =>
      match gs_ring s with
      | [] => None
      | (_, ev) :: ring =>
          let '(g, key) := ringbuf_handle_event now ev (gs_g s) in
          Some (GuardSys
                  (match key with
                   | Some key => if ok : bool then <[key := (0, WGuard)]> (gs_limit s) else gs_limit s
                   | None => gs_limit s
                   end) (gs_flight s) ring (gs_next s) (gs_ctrl s) g)
      end
  end.

Fixpoint guard_run (limit_id own : Z) (acts : list guard_act) (s : guard_sys) : option guard_sys :=
  match acts with
  | [] => Some s
  | a :: acts => s' ← guard_step limit_id own a s; guard_run limit_id own acts s'
  end.
