(* ===== verification/LsmSpec.v ===== *)
(** * What the limit map guard does *)
From S2P Require Import Prelude CStr JsonText.
From S2P Require Import Helpers Lsm.
Local Open Scope Z_scope.

(** ** The BPF program *)

(** For descriptors below 2^16 the program finds the map the call names. *)
Lemma guard_map_id_real c :
  0 <= bc_map_fd c < 65536 -> guard_map_id (bc_files c) (bc_map_fd c) = real_map_id c.
Proof.
  intros Hfd. unfold guard_map_id, real_map_id. destruct (bc_files c) as [[max_fds fdarr]|]; [|done].
  cbn [mbind option_bind]. change 65535 with (Z.ones 16). rewrite (Z.land_ones (bc_map_fd c) 16) by lia.
  rewrite Z.mod_small by (cbn; lia). rewrite (proj2 (Z.leb_le 0 _)) by lia. cbn [andb].
  destruct (Z.leb_spec max_fds (bc_map_fd c)); [by rewrite (proj2 (Z.ltb_ge _ _)) by lia|].
  rewrite (proj2 (Z.ltb_lt _ _)) by lia. by destruct (fdarr (bc_map_fd c)) as [[|]|].
Qed.

(** The writes the guard is there for: the unlimited quota for interface [p] in map [id], by
    a process other than [own]. *)
Definition dangerous (id p own : Z) (c : bpf_call) : Prop :=
  (p, U64_MAX) ∈ call_writes id c /\ bc_tgid c <> own.

(** A batch with an unlimited quota, which the program does not look at. *)
Definition blind_batch (c : bpf_call) : bool :=
  (bc_cmd c =? BPF_MAP_UPDATE_BATCH) && existsb (fun kv => kv.2 =? U64_MAX) (bc_batch c).

Definition guards (id p own : Z) (ctrl : option lsm_ctrl) : Prop :=
  exists v, ctrl = Some v /\ ct_map_id v = id /\ ct_ifindex v = p /\ ct_pid v = own.

Lemma write_all_lookup who ws : forall limit k v who',
  write_all who ws limit !! k = Some (v, who') -> limit !! k = Some (v, who') \/ ((k, v) ∈ ws /\ who' = who).
Proof.
  induction ws as [|[k0 v0] ws IH]; intros limit k v who'; [by left|]. cbn [write_all fold_left fst snd].
  intros [H|[? ?]]%IH; [|right; by split; [right|]]. destruct (decide (k0 = k)) as [->|].
  - rewrite lookup_insert_eq in H. injection H as -> ->. right. split; [left|done].
  - rewrite lookup_insert_ne in H by done. by left.
Qed.

(** Without such a batch an unlimited quota comes from an update of one element. *)
Lemma call_writes_max id c key :
  blind_batch c = false -> (key, U64_MAX) ∈ call_writes id c ->
  bc_cmd c = BPF_MAP_UPDATE_ELEM /\ real_map_id c = Some id /\ bc_key c = Some key /\ bc_value c = Some U64_MAX.
Proof.
  unfold call_writes, blind_batch. intros Hb. case_bool_decide; [|by intros ?%elem_of_nil].
  destruct (bc_cmd c =? BPF_MAP_UPDATE_ELEM) eqn:E; bool_simpl.
  - destruct (bc_key c), (bc_value c); try by intros ?%elem_of_nil. by intros [= -> ->]%list_elem_of_singleton.
  - destruct (bc_cmd c =? BPF_MAP_UPDATE_BATCH); [|by intros ?%elem_of_nil]. cbn [andb] in Hb. intros Hin.
    assert (existsb (fun kv => kv.2 =? U64_MAX) (bc_batch c) = true); [|congruence].
    apply existsb_exists. exists (key, U64_MAX). by split; [apply list_elem_of_In|].
Qed.

Lemma dangerous_reported id p own ctrl c now :
  guards id p own ctrl -> id <> 0 -> 0 <= bc_map_fd c < 65536 -> blind_batch c = false -> dangerous id p own c ->
  exists ev, hnc_check_bpf ctrl c now true = Some ev /\ ev_ifindex ev = p /\ ev_verdict ev = 1.
Proof.
  intros (v & -> & Hi & Hp & Ho) Hid Hfd Hb [(Hc & Hm & Hk & Hv)%call_writes_max Hf]; [|done].
  unfold hnc_check_bpf. rewrite Hc, Hi, Hp, Ho. cbn [negb].
  rewrite (proj2 (Z.eqb_neq id 0)) by done. rewrite guard_map_id_real, Hm by done.
  rewrite Z.eqb_refl, Hk. cbn [negb default]. rewrite Z.eqb_refl. cbn [negb].
  rewrite (proj2 (Z.eqb_neq _ own)) by done. rewrite Hv. cbn [default]. rewrite Z.eqb_refl. by eexists.
Qed.

Lemma reported_event id p own ctrl c now room ev :
  guards id p own ctrl -> hnc_check_bpf ctrl c now room = Some ev -> ev_ifindex ev = p /\ ev_verdict ev = 1.
Proof.
  intros (v & -> & Hi & Hp & Ho). unfold hnc_check_bpf. repeat (case_match; try done). intros [= <-].
  cbn. split; [|done]. bool_simpl. congruence.
Qed.

(** ** Counter-writes *)

(** An action of a run in which the ring has room, the guard's writes succeed, descriptors
    are below 2^16, no batch holds an unlimited quota, and an event is answered only
    when its call has written. *)
Definition act_ok (a : guard_act) (s : guard_sys) : bool :=
  match a with
  | AEnter c _ room => room && (0 <=? bc_map_fd c) && (bc_map_fd c <? 65536) && negb (blind_batch c)
  | ALand _ => true
  | AConsume _ ok =>
      ok && match gs_ring s with
            | [] => true
            | (n, _) :: _ => forallb (fun e => negb (e.1 =? n)%nat) (gs_flight s)
            end
  end.
Fixpoint acts_ok (id own : Z) (acts : list guard_act) (s : guard_sys) : bool :=
  match acts with
  | [] => true
  | a :: acts => act_ok a s && match guard_step id own a s with
                               | Some s' => acts_ok id own acts s'
                               | None => true
                               end
  end.

Record guard_inv (id p own : Z) (s : guard_sys) : Prop := GuardInv {
  gi_ctrl : guards id p own (gs_ctrl s);
  gi_fd : 0 <= lg_limit_fd (gs_g s);
  gi_ring n ev : (n, ev) ∈ gs_ring s -> ev_ifindex ev = p /\ ev_verdict ev = 1;
  gi_flight n c : (n, c) ∈ gs_flight s -> dangerous id p own c -> exists ev, (n, ev) ∈ gs_ring s;
  gi_limit : gs_limit s !! p = Some (U64_MAX, WForeign) -> gs_ring s <> []
}.

Lemma handle_event_keeps now ev g : lg_limit_fd (ringbuf_handle_event now ev g).1 = lg_limit_fd g.
Proof. done. Qed.

Lemma guard_inv_step id p own a s s' :
  id <> 0 -> guard_inv id p own s -> act_ok a s = true -> guard_step id own a s = Some s' ->
  guard_inv id p own s'.
Proof.
  intros Hid [Hc Hfd Hr Hf Hl] Ha Hs. destruct a as [c now room|n|now ok]; cbn in Ha, Hs.
  - bool_simpl. subst room. injection Hs as <-. split; cbn; [done..| | |].
    + intros n ev [?|Hev]%elem_of_app; [by eapply Hr|].
      destruct (hnc_check_bpf _ _ _ _) as [ev'|] eqn:E; [|by apply elem_of_nil in Hev].
      apply list_elem_of_singleton in Hev as [= -> ->]. by eapply reported_event.
    + intros n c' [Hin|[= -> ->]%list_elem_of_singleton]%elem_of_app Hd.
      * destruct (Hf n c' Hin Hd) as [ev ?]. exists ev. by apply elem_of_app; left.
      * destruct (dangerous_reported id p own (gs_ctrl s) c now Hc Hid ltac:(lia) ltac:(done) Hd) as (ev & -> & _).
        exists ev. apply elem_of_app. right. left.
    + intros H%Hl E%app_nil. by destruct E.
  - destruct (list_find _ _) as [[i [m c]]|] eqn:E; [|done]. cbn in Hs. injection Hs as <-.
    apply list_find_Some in E as (E & Hm & _). cbn in Hm. subst m. apply list_elem_of_lookup_2 in E.
    split; cbn; [done..| |].
    + intros n' c' [_ Hin]%list_elem_of_filter. by apply Hf.
    + intros [Hlim|[Hin Ho]]%write_all_lookup; [by apply Hl|].
      destruct (bc_tgid c =? own) eqn:Eo; [done|]. bool_simpl.
      destruct (Hf n c E) as [ev Hev]; [by split|]. intros E0. rewrite E0 in Hev. by apply elem_of_nil in Hev.
  - destruct (gs_ring s) as [|[n ev] ring] eqn:Er; [done|]. bool_simpl. subst ok. cbn in Hs. injection Hs as <-.
    destruct (Hr n ev ltac:(left)) as [Hi Hv]. rewrite Hv, Hi in *. cbn [negb Z.eqb andb].
    rewrite (proj2 (Z.leb_le 0 _)) by done.
    split; cbn; [done..| | |].
    + intros n' ev' Hin. eapply Hr. by right.
    + intros n' c' Hin Hd. destruct (Hf n' c' Hin Hd) as [ev' [Heq|Hin']%elem_of_cons]; [|by exists ev'].
      injection Heq as -> ->.
      match goal with H : forallb _ _ = true |- _ => apply (forallb_elem _ _ (n, c')) in H; [|done] end.
      cbn in *. by rewrite Nat.eqb_refl in *.
    + by rewrite lookup_insert_eq.
Qed.

Lemma guard_run_inv id p own acts : forall s s',
  id <> 0 -> guard_inv id p own s -> acts_ok id own acts s = true -> guard_run id own acts s = Some s' ->
  guard_inv id p own s'.
Proof.
  induction acts as [|a acts IH]; intros s s' Hid Hi Ha Hr; cbn in Ha, Hr; [by simplify_eq|].
  apply andb_prop in Ha as [Ha Hs]. destruct (guard_step id own a s) as [s1|] eqn:E; [|done]. cbn in Hr.
  eapply IH; [done| |exact Hs|exact Hr]. by eapply guard_inv_step.
Qed.

(** C13: while the guard protects an interface, the ring has room, every report is answered
    after its call has written and the answer is written, no process uses a descriptor
    above 65535, none writes an unlimited quota with a batch, and none changes the arguments of a
    call in memory during it: no other process's write of the
    unlimited quota survives.  Whenever no report is waiting, the quota of the interface was not
    last set to unlimited by another process, whatever calls ran in whatever order. *)
Theorem guard_keeps_quota (id p own : Z) (acts : list guard_act) (s s' : guard_sys) :
  id <> 0 -> guards id p own (gs_ctrl s) -> 0 <= lg_limit_fd (gs_g s) ->
  gs_ring s = [] -> gs_flight s = [] -> gs_limit s !! p <> Some (U64_MAX, WForeign) ->
  acts_ok id own acts s = true -> guard_run id own acts s = Some s' ->
  gs_ring s' = [] -> gs_limit s' !! p <> Some (U64_MAX, WForeign).
Proof.
  intros Hid Hc Hfd Hr Hf Hl Ha Hrun Hr' Hl'.
  assert (Hi : guard_inv id p own s).
  { split; [done..| | |done]; rewrite ?Hr, ?Hf; by intros ? ? ?%elem_of_nil. }
  pose proof (guard_run_inv id p own acts s s' Hid Hi Ha Hrun) as Hinv.
  exact (gi_limit _ _ _ _ Hinv Hl' Hr').
Qed.

(** ** The loader's life cycle *)

(** Without a guard nothing but descriptors of the limit map is held; an active guard holds
    everything, and its control map protects what the status says. *)
Definition lsm_idle (w : lsm_world) : Prop :=
  let g := lw_g w in
  lg_initialized g = false /\ lg_obj g = false /\ lg_link g = false /\ lg_rb g = false /\
  lg_thread g = false /\ lw_ctrl w = None.
Definition lsm_active (w : lsm_world) : Prop :=
  let g := lw_g w in
  lg_initialized g = true /\ lg_obj g = true /\ lg_link g = true /\ lg_rb g = true /\
  st_state (lg_stat g) = HNC_LSM_ACTIVE /\ st_reason (lg_stat g) = [] /\ lg_limit_fd g ∈ lw_limit_fds w /\
  lw_ctrl w = Some (LsmCtrl (st_map_id (lg_stat g)) (st_ifindex (lg_stat g)) (st_pid (lg_stat g)) 1).

(** The operations of the loader, as calls with their outcomes. *)
Inductive lsm_op :=
| OInit (io : lsm_io) (path : bytes) (ifindex : Z)
| OUpdate (lookup_ok update_ok : bool) (ifindex : Z)
| OEvent (now : Z) (ev : lsm_event)
| OShutdown.

Definition io_ok (io : lsm_io) : Prop := forall fd, io_obj_get io = inl fd -> 0 <= fd.
Definition op_ok (o : lsm_op) : Prop := match o with OInit io _ _ => io_ok io | _ => True end.

Section life.
Context (strerror : Z -> bytes).

Definition lsm_apply (o : lsm_op) (w : lsm_world) : lsm_world :=
  match o with
  | OInit io path ifindex => (hnc_lsm_init strerror io path ifindex w).2
  | OUpdate lookup_ok update_ok ifindex => (hnc_lsm_update_ifindex lookup_ok update_ok ifindex w).2
  | OEvent now ev => with_g (fun g => (ringbuf_handle_event now ev g).1) w
  | OShutdown => hnc_lsm_shutdown w
  end.

(** Every way through [hnc_lsm_init] from a state without a guard. *)
Lemma lsm_init_cases io path ifindex w :
  lsm_idle w ->
  let '(rc, w') := hnc_lsm_init strerror io path ifindex w in
  (rc = 0 /\ lsm_active w' /\ st_ifindex (lg_stat (lw_g w')) = ifindex /\
     st_pid (lg_stat (lw_g w')) = io_pid io /\ lg_thread (lw_g w') = io_thread io) \/
  (rc = -1 /\ lsm_idle w' /\ st_state (lg_stat (lw_g w')) = HNC_LSM_FAILED /\
     st_reason (lg_stat (lw_g w')) <> []).
Proof.
  destruct w as [[ini obj link cfd lfd rb th stat] ctrl fds].
  intros (Hi & Ho & Hl & Hr & Ht & Hc). cbn in *. subst. unfold hnc_lsm_init. cbn [lg_initialized lw_g].
  destruct (io_obj_get io) as [fd|e]; [|right; by split_and!].
  destruct (io_info io) as [id|e]; [|right; by split_and!]. unfold init_object. cbn [lg_link lw_g with_g].
  destruct (io_open io) as [e|]; [right; by split_and!|].
  destruct (io_load io) as [e|]; [right; by split_and!|].
  destruct (io_prog io); [|right; by split_and!]. cbn [negb].
  destruct (io_maps io) as [cfd'|]; [|right; by split_and!]. unfold init_attach.
  destruct (io_populate io) as [e|]; [right; by split_and!|].
  destruct (io_attach io) as [e|]; [right; by split_and!|]. unfold init_ring.
  destruct (io_ring io) as [e|]; [right; by split_and!|].
  left. split_and!; [done| |done..|by destruct (io_thread io)]. unfold lsm_active. cbn. split_and!; try done. left.
Qed.
Lemma lsm_init_active io path ifindex w : lsm_active w -> hnc_lsm_init strerror io path ifindex w = (0, w).
Proof. intros (Hi & _). unfold hnc_lsm_init. by rewrite Hi. Qed.

Lemma lsm_shutdown_idle w : lsm_idle w \/ lsm_active w -> lsm_idle (hnc_lsm_shutdown w).
Proof.
  unfold hnc_lsm_shutdown. intros [Hw|(Hi & _)]; [destruct Hw as (Hi & ?)|]; rewrite Hi; [done|].
  by split_and!.
Qed.

Lemma lsm_event_keeps now ev w :
  lsm_idle w \/ lsm_active w ->
  let w' := with_g (fun g => (ringbuf_handle_event now ev g).1) w in lsm_idle w' \/ lsm_active w'.
Proof. intros [H|H]; [left|right]; exact H. Qed.

Lemma lsm_update_keeps lookup_ok update_ok ifindex w :
  lsm_idle w \/ lsm_active w ->
  let w' := (hnc_lsm_update_ifindex lookup_ok update_ok ifindex w).2 in lsm_idle w' \/ lsm_active w'.
Proof.
  unfold hnc_lsm_update_ifindex. intros [Hw|Hw].
  { destruct Hw as (Hi & Hr). rewrite Hi. by left. }
  destruct (_ || _); [by right|]. destruct lookup_ok; [|by right].
  destruct Hw as (Hi & Ho & Hl & Hr & Hs & Hre & Hfd & Hc). rewrite Hc. destruct update_ok; [|by right].
  right. by split_and!.
Qed.

Lemma lsm_apply_keeps o w : lsm_idle w \/ lsm_active w -> lsm_idle (lsm_apply o w) \/ lsm_active (lsm_apply o w).
Proof.
  intros Hw. destruct o as [io path ifindex|l u ifindex|now ev|]; cbn [lsm_apply].
  - destruct Hw as [Hw|Hw]; [|right; by rewrite lsm_init_active].
    pose proof (lsm_init_cases io path ifindex w Hw) as Hc. destruct (hnc_lsm_init _ _ _ _ _) as [rc w'].
    destruct Hc as [(_ & ? & _)|(_ & ? & _)]; auto.
  - by apply lsm_update_keeps.
  - by apply lsm_event_keeps.
  - left. by apply lsm_shutdown_idle.
Qed.

(** *** Descriptors of the limit map *)

(** Those that the starts which failed have opened. *)
Fixpoint left_open (ops : list lsm_op) (w : lsm_world) : list Z :=
  match ops with
  | [] => []
  | o :: ops =>
      match o with
      | OInit io path ifindex =>
          match io_obj_get io with
          | inl fd => if (hnc_lsm_init strerror io path ifindex w).1 <? 0 then [fd] else []
          | inr _ => []
          end
      | _ => []
      end ++ left_open ops (lsm_apply o w)
  end.

(** Every open descriptor is the active guard's, or in a list. *)
Definition fds_in (l : list Z) (w : lsm_world) : Prop :=
  (lg_initialized (lw_g w) = true -> 0 <= lg_limit_fd (lw_g w)) /\
  forall fd, fd ∈ lw_limit_fds w ->
    fd ∈ l \/ lg_initialized (lw_g w) = true /\ fd = lg_limit_fd (lw_g w).

Lemma fds_shutdown l w : fds_in l w -> forall fd, fd ∈ lw_limit_fds (hnc_lsm_shutdown w) -> fd ∈ l.
Proof.
  intros [Hpos Hf] fd. unfold hnc_lsm_shutdown. destruct (lg_initialized (lw_g w)); cbn [negb].
  - specialize (Hpos eq_refl). rewrite (proj2 (Z.leb_le 0 _)) by done. cbn [lw_limit_fds].
    intros [Hne Hin]%list_elem_of_filter. by destruct (Hf fd Hin) as [?|[_ ?]].
  - intros Hin. by destruct (Hf fd Hin) as [?|[? _]].
Qed.

Lemma init_fds io path ifindex w :
  lg_initialized (lw_g w) = false ->
  let w' := (hnc_lsm_init strerror io path ifindex w).2 in
  match io_obj_get io with
  | inl fd => lw_limit_fds w' = fd :: lw_limit_fds w /\ lg_limit_fd (lw_g w') = fd
  | inr _ => lw_limit_fds w' = lw_limit_fds w /\ lg_initialized (lw_g w') = false
  end.
Proof.
  intros Hi. unfold hnc_lsm_init, init_object, init_attach, init_ring. rewrite Hi.
  destruct (io_obj_get io) as [fd|e]; [|by rewrite <- Hi]. destruct (io_info io); [|done].
  destruct (io_open io); [done|]. destruct (io_load io); [done|].
  destruct (io_prog io); [|done]. destruct (io_maps io); [|done]. cbn [negb].
  destruct (io_populate io); [done|]. destruct (io_attach io); [done|]. by destruct (io_ring io).
Qed.

Lemma fds_apply o l w :
  op_ok o -> lsm_idle w \/ lsm_active w -> fds_in l w -> fds_in (l ++ left_open [o] w) (lsm_apply o w).
Proof.
  intros Ho Hw [Hpos Hf]. assert (Hsame : forall w', lg_initialized (lw_g w') = lg_initialized (lw_g w) ->
    lg_limit_fd (lw_g w') = lg_limit_fd (lw_g w) -> lw_limit_fds w' = lw_limit_fds w -> fds_in (l ++ []) w').
  { intros w' E1 E2 E3. split; rewrite E1, E2; [done|]. rewrite E3, app_nil_r. exact Hf. }
  destruct o as [io path ifindex|lk u ifindex|now ev|]; cbn [lsm_apply left_open app].
  - destruct Hw as [Hw|Hw].
    2:{ rewrite lsm_init_active by done. cbn [fst snd]. destruct (io_obj_get io); by apply Hsame. }
    pose proof (lsm_init_cases io path ifindex w Hw) as Hc.
    pose proof (init_fds io path ifindex w (proj1 Hw)) as Hfd. cbv zeta in Hfd.
    destruct (hnc_lsm_init strerror io path ifindex w) as [rc w']. cbn [fst snd] in *.
    destruct (io_obj_get io) as [fd|e] eqn:Eo.
    + destruct Hfd as [E1 E2]. destruct Hc as [(-> & (Hi & _) & _)|(-> & (Hi & _) & _)]; cbn [Z.ltb Z.compare].
      * split; [intros _; rewrite E2; by apply Ho|]. rewrite E1, E2, Hi. intros fd' [->|Hin]%elem_of_cons; [by right|].
        destruct (Hf fd' Hin) as [?|[Hn _]]; [left; by apply elem_of_app; left|]. by destruct Hw as [Hw _]; rewrite Hw in Hn.
      * split; [by rewrite Hi|]. rewrite E1. intros fd' [->|Hin]%elem_of_cons; left; apply elem_of_app; [by right; left|].
        destruct (Hf fd' Hin) as [?|[Hn _]]; [by left|]. by destruct Hw as [Hw _]; rewrite Hw in Hn.
    + destruct Hfd as [E1 E2]. split; [by rewrite E2|]. rewrite E1. intros fd' Hin. left. apply elem_of_app. left.
      destruct (Hf fd' Hin) as [?|[Hn _]]; [done|]. by destruct Hw as [Hw _]; rewrite Hw in Hn.
  - apply Hsame; unfold hnc_lsm_update_ifindex; (destruct (_ || _); [done|]);
      (destruct (if lk then _ else _) as [v|]; [|done]); by destruct (negb u).
  - by apply Hsame.
  - split; [unfold hnc_lsm_shutdown; by destruct (negb _) eqn:E; [apply negb_true_iff in E; rewrite E|]|].
    intros fd Hin. left. apply elem_of_app. left. by eapply fds_shutdown.
Qed.

Lemma lsm_run ops : forall l w,
  Forall op_ok ops -> lsm_idle w \/ lsm_active w -> fds_in l w ->
  let w' := fold_left (fun w o => lsm_apply o w) ops w in
  (lsm_idle w' \/ lsm_active w') /\ fds_in (l ++ left_open ops w) w'.
Proof.
  induction ops as [|o ops IH]; intros l w Hops Hw Hf; cbn [fold_left left_open].
  - by rewrite app_nil_r.
  - apply Forall_cons in Hops as [Ho Hops].
    pose proof (fds_apply o l w Ho Hw Hf) as Hf'. cbn [left_open] in Hf'. rewrite app_nil_r in Hf'.
    destruct (IH _ _ Hops (lsm_apply_keeps o w Hw) Hf') as [H1 H2].
    split; [exact H1|]. by rewrite <- app_assoc in H2.
Qed.

(** C17: whatever sequence of calls, failures and events.  The loader is either idle, holding
    nothing but descriptors of the limit map that starts which failed have left open, or it has
    a guard that is complete except perhaps for the thread that answers, whose control map
    protects the map and interface the status names, and which says so.  From the idle state
    [hnc_lsm_init] returns 0 with such a guard, whose thread runs when it could be created, or
    -1 with the state FAILED, a reason, and nothing more than one descriptor; with a guard it
    returns 0 and changes nothing.  [hnc_lsm_shutdown] leaves nothing but those descriptors. *)
Theorem lsm_lifecycle (ops : list lsm_op) (io : lsm_io) (path : bytes) (ifindex : Z) :
  Forall op_ok ops ->
  let w0 := LsmWorld lsm_zero None [] in
  let w := fold_left (fun w o => lsm_apply o w) ops w0 in
  (lsm_idle w /\ (forall fd, fd ∈ lw_limit_fds w -> fd ∈ left_open ops w0) \/
   lsm_active w /\ (forall fd, fd ∈ lw_limit_fds w -> fd ∈ left_open ops w0 \/ fd = lg_limit_fd (lw_g w))) /\
  (lsm_idle (hnc_lsm_shutdown w) /\
   forall fd, fd ∈ lw_limit_fds (hnc_lsm_shutdown w) -> fd ∈ left_open ops w0) /\
  (let '(rc, w') := hnc_lsm_init strerror io path ifindex w in
   (lsm_active w /\ rc = 0 /\ w' = w) \/
   (lsm_idle w /\ rc = 0 /\ lsm_active w' /\ lg_thread (lw_g w') = io_thread io) \/
   (lsm_idle w /\ rc = -1 /\ lsm_idle w' /\ st_state (lg_stat (lw_g w')) = HNC_LSM_FAILED /\
      st_reason (lg_stat (lw_g w')) <> [] /\
      lw_limit_fds w' = match io_obj_get io with inl fd => [fd] | inr _ => [] end ++ lw_limit_fds w)).
Proof.
  intros Hops w0 w. destruct (lsm_run ops [] w0 Hops) as [Hw Hf].
  { left. by split_and!. }
  { split; [done|]. by intros fd ?%elem_of_nil. }
  change (fold_left (fun w o => lsm_apply o w) ops w0) with w in Hw, Hf. cbn [app] in Hf. split; [|split].
  - destruct Hf as [_ Hf]. destruct Hw as [Hw|Hw]; [left|right]; (split; [exact Hw|]); intros fd Hin;
      destruct (Hf fd Hin) as [?|[Hi ->]]; auto. by destruct Hw as [Hw _]; rewrite Hw in Hi.
  - split; [by apply lsm_shutdown_idle|]. by apply fds_shutdown.
  - destruct Hw as [Hw|Hw].
    + pose proof (lsm_init_cases io path ifindex w Hw) as Hc. pose proof (init_fds io path ifindex w (proj1 Hw)) as Hfd.
      cbv zeta in Hfd. destruct (hnc_lsm_init _ _ _ _ _) as [rc w']. cbn [snd] in Hfd.
      destruct Hc as [(? & ? & _ & _ & ?)|(? & ? & ? & ?)]; [right; left; by split_and!|right; right].
      split_and!; try done. destruct (io_obj_get io); by destruct Hfd.
    + rewrite lsm_init_active by done. by left.
Qed.

(** *** What it does not do *)

(** A start that fails after the limit map was opened keeps the descriptor: a later start
    overwrites the only note of it, so that no shutdown closes it. *)
Lemma failed_init_leaks io io' path ifindex w fd fd' :
  lsm_idle w -> io_obj_get io = inl fd -> (hnc_lsm_init strerror io path ifindex w).1 = -1 ->
  io_obj_get io' = inl fd' -> fd <> fd' ->
  fd ∈ lw_limit_fds (hnc_lsm_shutdown
         (hnc_lsm_init strerror io' path ifindex (hnc_lsm_init strerror io path ifindex w).2).2).
Proof.
  intros Hw Hg Hrc Hg' Hne. pose proof (lsm_init_cases io path ifindex w Hw) as Hc.
  pose proof (init_fds io path ifindex w (proj1 Hw)) as Hfds. cbv zeta in Hfds. rewrite Hg in Hfds.
  destruct Hfds as [Hfds _].
  destruct (hnc_lsm_init strerror io path ifindex w) as [rc w1]. cbn [fst snd] in *.
  destruct Hc as [(-> & _)|(_ & Hw1 & _)]; [done|].
  pose proof (init_fds io' path ifindex w1 (proj1 Hw1)) as Hfds'. cbv zeta in Hfds'. rewrite Hg' in Hfds'.
  destruct Hfds' as [Hfds' Hfd'].
  destruct (hnc_lsm_init strerror io' path ifindex w1) as [rc' w2]. cbn [fst snd] in *.
  unfold hnc_lsm_shutdown. rewrite Hfd', Hfds', Hfds.
  destruct (negb _); [by rewrite Hfds', Hfds; right; left|]. cbn [lw_limit_fds].
  destruct (0 <=? fd'); [apply list_elem_of_filter; split; [done|]|]; by right; left.
Qed.

(** Without its thread the guard answers nothing and still counts as active. *)
Lemma active_without_thread io path ifindex w fd id cfd :
  lsm_idle w -> io_obj_get io = inl fd -> io_info io = inl id -> io_open io = None -> io_load io = None ->
  io_prog io = true -> io_maps io = Some cfd -> io_populate io = None -> io_attach io = None ->
  io_ring io = None -> io_thread io = false ->
  let '(rc, w') := hnc_lsm_init strerror io path ifindex w in
  rc = 0 /\ st_state (lg_stat (lw_g w')) = HNC_LSM_ACTIVE /\ lg_thread (lw_g w') = false.
Proof.
  destruct w as [[ini obj link cf lfd rb th stat] ctrl fds].
  intros (Hi & Ho & Hl & Hr & Ht & Hc) H1 H2 H3 H4 H5 H6 H7 H8 H9 H10. cbn in *. subst.
  unfold hnc_lsm_init, init_object, init_attach, init_ring. cbn.
  by rewrite H1, H2, H3, H4, H5, H6, H7, H8, H9, H10.
Qed.

(** After a shutdown the status still says that the guard is active. *)
Lemma shutdown_still_active w :
  lsm_active w -> st_state (hnc_lsm_get_status (hnc_lsm_shutdown w)) = HNC_LSM_ACTIVE.
Proof. intros (Hi & _ & _ & _ & Hs & _). unfold hnc_lsm_shutdown. by rewrite Hi. Qed.
End life.

(** ** The status as JSON *)

(** What a reader is to see. *)
Definition lsm_field (st : lsm_status) : bytes * json :=
  jfld "lsm" (JObj [
    jfld "state" (JStr (state_str (st_state st)));
    jfld "protected_map_id" (JNum (st_map_id st));
    jfld "protected_ifindex" (JNum (st_ifindex st));
    jfld "hotspotd_pid" (JNum (st_pid st));
    jfld "deny_count" (JNum (st_deny st));
    jfld "allow_count" (JNum (st_allow st));
    jfld "last_event_ts" (JNum (st_last_ts st));
    jfld "last_caller" (JStr (st_comm st));
    jfld "fail_reason" (JStr (st_reason st))]).
Definition status_json (st : lsm_status) : json := JObj [lsm_field st].

Lemma state_str_plain s : plain (state_str s) = true.
Proof. by destruct s. Qed.

Lemma status_fragment_field st :
  plain (st_comm st) = true -> plain (st_reason st) = true ->
  status_fragment st = print_field (lsm_field st).
Proof.
  intros Hc Hr. pose proof (state_str_plain (st_state st)). unfold lsm_field, status_fragment. json_text.
Qed.

Lemma lsm_field_ok st :
  plain (st_comm st) = true -> plain (st_reason st) = true -> field_ok (lsm_field st).
Proof. intros Hc Hr. pose proof (state_str_plain (st_state st)). unfold lsm_field. json_wf. Qed.

Lemma status_fragment_print st :
  plain (st_comm st) = true -> plain (st_reason st) = true ->
  123 :: status_fragment st ++ [125] = print_json (status_json st).
Proof.
  intros Hc Hr. rewrite status_fragment_field by done. unfold status_json.
  rewrite print_json_obj, print_fields_cons. cbn [app print_fields]. by rewrite app_nil_r.
Qed.

Lemma status_json_ok st : plain (st_comm st) = true -> plain (st_reason st) = true -> json_ok (status_json st).
Proof. intros Hc Hr. constructor. constructor; [by apply lsm_field_ok|constructor]. Qed.

(** In braces, the text of the status is a JSON object that shows every field of it, as
    long as the name of the last caller and the reason need no escapes, which the code
    does not write; a text that does not fit the buffer is refused. *)
Lemma lsm_status_readable (st : lsm_status) (buf_size : nat) :
  plain (st_comm st) = true -> plain (st_reason st) = true ->
  match hnc_lsm_status_to_json_fragment st buf_size with
  | Some text => parse_json (123 :: text ++ [125]) = Some (status_json st) /\ (length text < buf_size)%nat
  | None => (buf_size <= length (status_fragment st))%nat
  end.
Proof.
  intros Hc Hr. unfold hnc_lsm_status_to_json_fragment.
  destruct (Nat.leb_spec buf_size (length (status_fragment st))); [done|]. split; [|done].
  rewrite status_fragment_print by done. by apply parse_print_json, status_json_ok.
Qed.

(** The name of a process is not escaped: one that contains a quote breaks the text. *)
Definition quoting : lsm_status := LsmStatus HNC_LSM_ACTIVE 1 30 700 1 0 0 (str "a" ++ [QUOTE] ++ str "b") [].
Lemma caller_breaks_status :
  exists text, hnc_lsm_status_to_json_fragment quoting 1000 = Some text /\ parse_json (123 :: text ++ [125]) = None.
Proof. eexists. split; [vm_compute; reflexivity|by vm_compute]. Qed.

(** ** What the guard does not do *)

(** Two processes with one descriptor of map 9: the daemon (700) and the framework (800). *)
Definition max_write (tgid : Z) : bpf_call :=
  BpfCall 2 5 (Some 30) (Some U64_MAX) [] tgid 0 (str "netd")
    (Some (64, fun fd => if fd =? 5 then Some (Some 9) else None)).
Definition guarded : guard_sys :=
  GuardSys {[30 := (0, WOwn)]} [] [] 0 (Some (LsmCtrl 9 30 700 1))
    (LsmGlobals true true true 4 3 true true (LsmStatus HNC_LSM_ACTIVE 9 30 700 0 0 0 [] [])).

(** The program runs when a call enters the kernel: an answer that is written before the call
    itself writes is lost, and nothing reports the quota any more. *)
Lemma counter_write_race :
  exists s, guard_run 9 700 [AEnter (max_write 800) 0 true; AConsume 0 true; ALand 0] guarded = Some s /\
    gs_limit s !! 30 = Some (U64_MAX, WForeign) /\ gs_ring s = [] /\ gs_flight s = [].
Proof. eexists. split; [vm_compute; reflexivity|]. by vm_compute. Qed.

(** The guard does not know whether a device is limited: also after the daemon has lifted the
    quota it undoes the framework's writes. *)
Lemma restored_quota_undone :
  exists s, guard_run 9 700 [AEnter (max_write 700) 0 true; ALand 0;
                             AEnter (max_write 800) 1 true; ALand 1; AConsume 1 true] guarded = Some s /\
    gs_limit s !! 30 = Some (0, WGuard).
Proof. eexists. split; [vm_compute; reflexivity|]. by vm_compute. Qed.

(** A descriptor above 65535 is taken for another one. *)
Lemma high_descriptor_unseen ctrl :
  hnc_check_bpf ctrl (BpfCall 2 65541 (Some 30) (Some U64_MAX) [] 800 0 []
    (Some (65600, fun fd => if fd =? 65541 then Some (Some 9) else None))) 0 true = None.
Proof. unfold hnc_check_bpf. cbn. destruct ctrl; [|done]. by destruct (ct_map_id _ =? 0). Qed.

(** A batch update with the same quota is not reported. *)
Definition batch_write : bpf_call :=
  BpfCall 26 5 None None [(30, U64_MAX)] 800 0 (str "netd")
    (Some (64, fun fd => if fd =? 5 then Some (Some 9) else None)).
Lemma batch_unseen :
  exists s, guard_run 9 700 [AEnter batch_write 0 true; ALand 0] guarded = Some s /\
    gs_limit s !! 30 = Some (U64_MAX, WForeign) /\ gs_ring s = [] /\ gs_flight s = [].
Proof. eexists. split; [vm_compute; reflexivity|]. by vm_compute. Qed.

(** ** Examples *)

Definition reported_and_answered : list guard_act :=
  [AEnter (max_write 800) 0 true; AEnter (max_write 700) 1 true; ALand 1; ALand 0; AConsume 2 true].

Lemma guard_keeps_quota_witness :
  exists s, guard_run 9 700 reported_and_answered guarded = Some s /\ gs_ring s = [] /\
    gs_limit s !! 30 <> Some (U64_MAX, WForeign).
Proof.
  assert (H : exists s, guard_run 9 700 reported_and_answered guarded = Some s /\ gs_ring s = [])
    by (eexists; split; [vm_compute; reflexivity|done]).
  destruct H as (s & Hs & Hr). exists s. split_and!; [exact Hs|exact Hr|].
  apply (guard_keeps_quota 9 30 700 reported_and_answered guarded s); try done.
  exists (LsmCtrl 9 30 700 1). by split_and!.
Defined.

Lemma lsm_status_readable_witness :
  plain (str "netd") = true /\
  match hnc_lsm_status_to_json_fragment (LsmStatus HNC_LSM_ACTIVE 9 30 700 2 0 5 (str "netd") []) 600 with
  | Some text => parse_json (123 :: text ++ [125])
                 = Some (status_json (LsmStatus HNC_LSM_ACTIVE 9 30 700 2 0 5 (str "netd") [])) /\ (length text < 600)%nat
  | None => False
  end.
Proof.
  assert (Hp : plain (str "netd") = true) by done.
  split; [exact Hp|].
  exact (lsm_status_readable (LsmStatus HNC_LSM_ACTIVE 9 30 700 2 0 5 (str "netd") []) 600 Hp eq_refl).
Defined.

(** A start that cannot load the object, one that succeeds, and a shutdown: the first descriptor stays. *)
Definition demo_io (fd : Z) (load : option Z) : lsm_io :=
  LsmIo (inl fd) (inl 9) None load true (Some 6) None None None true 700.
Definition two_starts : list lsm_op := [OInit (demo_io 3 (Some 1)) [] 30; OInit (demo_io 4 None) [] 30; OShutdown].
Definition no_text (_ : Z) : bytes := [].
Lemma two_starts_ok : Forall op_ok two_starts.
Proof. repeat constructor; cbn; intros fd [= <-]; lia. Qed.
Lemma lsm_lifecycle_witness :
  let w := fold_left (fun w o => lsm_apply no_text o w) two_starts (LsmWorld lsm_zero None []) in
  lw_limit_fds w = [3] /\
  (lsm_idle (hnc_lsm_shutdown w) /\
   forall fd, fd ∈ lw_limit_fds (hnc_lsm_shutdown w) -> fd ∈ left_open no_text two_starts (LsmWorld lsm_zero None [])).
Proof.
  cbv zeta. split; [vm_compute; reflexivity|].
  pose proof (lsm_lifecycle no_text two_starts (demo_io 5 None) [] 30 two_starts_ok) as H.
  cbv zeta in H. destruct H as (_ & H & _). exact H.
Defined.
