(* ===== verification/Guarded.v ===== *)
(** * The scheduler with its guard ([scheduler.c], [lsm/hnc_lsm_loader.c])

    The kernel the adapter writes to, with the guard in it: the loader's globals, the calls
    other processes have under way and the reports that wait.  The scheduler starts and moves the
    guard through its surroundings; other processes and the guard's thread act between its
    steps. *)
From S2P Require Import Prelude CStr Offload BpfAdapter BpfKernel BpfSpec BpfEffects.
From S2P Require Import Scheduler SchedulerSpec KernelPromise Lsm LsmSpec.
Local Open Scope Z_scope.

Record guarded (K : Type) := Guarded {
  gd_k : K; gd_lsm : lsm_world;
  gd_flight : list (nat * bpf_call); gd_ring : list (nat * lsm_event); gd_next : nat
}.
Arguments Guarded {K}. Arguments gd_k {K}. Arguments gd_lsm {K}.
Arguments gd_flight {K}. Arguments gd_ring {K}. Arguments gd_next {K}.

Definition unguarded {K} (k : K) : guarded K := Guarded k (LsmWorld lsm_zero None []) [] [] 0.
Definition put_k {K} (k : K) (g : guarded K) : guarded K :=
  Guarded k (gd_lsm g) (gd_flight g) (gd_ring g) (gd_next g).
Definition put_lsm {K} (l : lsm_world) (g : guarded K) : guarded K :=
  Guarded (gd_k g) l (gd_flight g) (gd_ring g) (gd_next g).

(** The system calls of the adapter pass the guard by. *)
#[export] Instance guarded_sys {K} `{!BpfSys K} : BpfSys (guarded K) := {|
  sys_obj_get path g := let '(r, k) := sys_obj_get path (gd_k g) in (r, put_k k g);
  sys_close fd g := put_k (sys_close fd (gd_k g)) g;
  sys_update fd key v flags g := let '(r, k) := sys_update fd key v flags (gd_k g) in (r, put_k k g);
  sys_next_key fd key g := sys_next_key fd key (gd_k g);
  sys_lookup_stats fd key g := sys_lookup_stats fd key (gd_k g);
  sys_map_info fd g := sys_map_info fd (gd_k g);
  sys_stat_ok path g := sys_stat_ok path (gd_k g);
  sys_sleep d g := put_k (sys_sleep d (gd_k g)) g;
  sys_time g := sys_time (gd_k g);
  sys_map_steps g := sys_map_steps (gd_k g)
|}.

Definition guarded_calls {K} `{!BpfSys K, !LimitCalls K} : LimitCalls (guarded K).
Proof.
  refine {| limit_map g := limit_map (gd_k g); limit_keys g := limit_keys (gd_k g);
            limit_fd g fd := limit_fd (gd_k g) fd; fd_closed g fd := fd_closed (gd_k g) fd;
            limit_pinned g := limit_pinned (gd_k g) |}; intros [k l fl ri n]; cbn.
  - intros fd key v flags Hf. pose proof (update_limit_fd k fd key v flags Hf) as H.
    destruct (sys_update fd key v flags k) as [[e|] k']; [|done]. by destruct H as [? ->].
  - intros fd key v flags Hf. by rewrite update_badf.
  - pose proof (open_limit k) as H. by destruct (sys_obj_get BPF_LIMIT_MAP k) as [[fd|e] k'].
  - intros fd. apply close_limit.
Defined.
#[export] Instance guarded_laws {K} `{!BpfSys K, !BpfLaws K} : BpfLaws (guarded K).
Proof.
  refine {| laws_calls := guarded_calls |}; intros [k l fl ri n]; cbn.
  - apply limit_keys_spec.
  - apply limit_steps.
  - intros fd key v v0 Hf Hv. destruct (update_exist k fd key v v0 Hf Hv) as (k' & -> & H). by eexists.
  - intros fd key v Hf Hv. by rewrite update_absent.
  - intros fd l1 l2. apply next_key_order.
  - intros fd key. apply next_key_badf.
Defined.
#[export] Instance guarded_opens {K} `{!BpfSys K, !BpfLaws K, !BpfOpens K} : BpfOpens (guarded K).
Proof.
  constructor.
  - intros [k l fl ri n] path. pose proof (open_other k path) as H. cbn in *. by destruct (sys_obj_get path k).
  - intros [k l fl ri n] fd key v flags. pose proof (update_pinned k fd key v flags) as H. cbn in *.
    by destruct (sys_update fd key v flags k).
  - intros [k l fl ri n]. apply (stat_limit k).
  - intros d [k l fl ri n]. apply (sleep_limit d k).
Qed.

(** ** The scheduler's surroundings *)

(** How the loader's calls turn out; the text of an errno. *)
Class LoaderEnv (K : Type) := {
  le_strerror : Z -> bytes;
  le_init : K -> lsm_io;
  le_lookup : K -> bool;
  le_update : K -> bool
}.

(** What is expected of them: descriptors are not negative, the map behind the path is the
    limit map [limit_id], the process is [own], and the loader's own array can be read and
    written. *)
Class LoaderLaws (K : Type) `{!LoaderEnv K} (limit_id own : Z) := {
  ll_limit_fd k fd : io_obj_get (le_init k) = inl fd -> 0 <= fd;
  ll_ctrl_fd k fd : io_maps (le_init k) = Some fd -> 0 <= fd;
  ll_map k id : io_info (le_init k) = inl id -> id = limit_id;
  ll_pid k : io_pid (le_init k) = own;
  ll_lookup k : le_lookup k = true;
  ll_update k : le_update k = true
}.

Section env.
Context {K : Type} `{!BpfSys K, !LoaderEnv K, base : !SchedEnv (bpf_world K)}.
Abbreviation GW := (bpf_world (guarded K)).

Definition base_world (w : GW) : bpf_world K := BpfWorld (bw_s w) (gd_k (bw_k w)).
Definition put_base (b : bpf_world K) (w : GW) : GW := BpfWorld (bw_s b) (put_k (bw_k b) (bw_k w)).
Definition lsm_of (w : GW) : lsm_world := gd_lsm (bw_k w).
Definition put_guard (l : lsm_world) (w : GW) : GW := BpfWorld (bw_s w) (put_lsm l (bw_k w)).

(** The calls of [hnc_lsm_loader.c] that [scheduler.c] makes. *)
#[export] Instance guarded_env : SchedEnv GW := {|
  env_detect_upstream w := let '(r, b) := env_detect_upstream (base_world w) in (r, put_base b w);
  env_lsm_init i w :=
    let '(rc, l) := hnc_lsm_init le_strerror (le_init (gd_k (bw_k w))) (str BPF_LIMIT_MAP) i (lsm_of w) in
    (rc, put_guard l w);
  env_lsm_update i w :=
    put_guard (hnc_lsm_update_ifindex (le_lookup (gd_k (bw_k w))) (le_update (gd_k (bw_k w))) i (lsm_of w)).2 w;
  env_lsm_shutdown w := put_guard (hnc_lsm_shutdown (lsm_of w)) w;
  env_rules w := env_rules (base_world w);
  env_thread_create w := env_thread_create (base_world w);
  env_time w := env_time (base_world w)
|}.

#[export] Instance guarded_promise_env `{!UpstreamPromise (bpf_world K)} : UpstreamPromise GW.
Proof.
  constructor. intros w idx name w'. cbn. destruct (env_detect_upstream (base_world w)) as [r b] eqn:E.
  intros [= -> _]. by eapply upstream_positive.
Qed.
#[export] Instance guarded_quiet `{!BpfLaws K, !QuietEnv K} : QuietEnv (guarded K).
Proof.
  constructor.
  - intros w. cbn. pose proof (quiet_detect (base_world w)) as [Hm Hr].
    by destruct (env_detect_upstream (base_world w)).
  - intros i w. cbn. by destruct (hnc_lsm_init _ _ _ _ _).
  - done.
Qed.
End env.

(** ** Other processes and the guard's thread *)

Section actions.
Context {K : Type} `{!BpfSys K, !BpfLaws K}.
Abbreviation GW := (bpf_world (guarded K)).

(** The guard's part of the world, each quota noted as [by] somebody. *)
Definition guard_of (by_ : writer) (w : GW) : guard_sys :=
  GuardSys ((fun q => (q, by_)) <$> lmap w) (gd_flight (bw_k w)) (gd_ring (bw_k w)) (gd_next (bw_k w))
    (lw_ctrl (lsm_of w)) (lw_g (lsm_of w)).

(** An action changes the content of the limit map as [guard_step] says, not who may open the map. *)
Inductive acts (limit_id own : Z) (a : guard_act) (w : GW) : GW -> Prop :=
| acts_intro s k' :
    guard_step limit_id own a (guard_of WInitial w) = Some s ->
    limit_map k' = fst <$> gs_limit s ->
    (limit_pinned (gd_k (bw_k w)) -> limit_pinned k') ->
    (forall fd, limit_fd (gd_k (bw_k w)) fd -> limit_fd k' fd) ->
    acts limit_id own a w
      (BpfWorld (bw_s w)
         (Guarded k' (LsmWorld (gs_g s) (gs_ctrl s) (lw_limit_fds (lsm_of w)))
            (gs_flight s) (gs_ring s) (gs_next s))).

(** Calls that enter are another process's. *)
Definition foreign (own : Z) (a : guard_act) : Prop :=
  match a with AEnter c _ _ => bc_tgid c <> own | _ => True end.

Context `{!SchedEnv GW}.

(** The scheduler, other processes and the guard's thread in any order, while the upstream
    stays. *)
Inductive gstep (limit_id own : Z) : cstate (W:=GW) -> cstate (W:=GW) -> Prop :=
| gs_sched c c' :
    step c c' -> ifindex_of (c_x c') = ifindex_of (c_x c) -> gstep limit_id own c c'
| gs_act s w l m wk a w' :
    acts limit_id own a w w' -> foreign own a -> act_ok a (guard_of WInitial w) = true ->
    gstep limit_id own (CState (SWorld s (w, l)) m wk) (CState (SWorld s (w', l)) m wk).

(** The scheduler alone, while the main thread finds no other upstream than the one known, and
    the worker finds none while the guard is started. *)
Definition starting (m : main_pc) : bool := match m with MLsm _ => true | _ => false end.
Definition calm (c c' : cstate (W:=GW)) : Prop :=
  step c c' /\
  (c_worker c' = c_worker c \/ starting (c_main c) = true -> ifindex_of (c_x c') = ifindex_of (c_x c)).
End actions.
