(* ===== verification/GuardedSpec.v ===== *)
(** * The guard follows the scheduler, and keeps its promise

    [KernelPromise] shows what the scheduler writes while nobody else does, [LsmSpec] what the
    guard answers while nothing else happens.  Here the two run together. *)
From S2P Require Import Prelude CStr Offload BpfAdapter BpfFrame BpfKernel BpfSpec BpfEffects.
From S2P Require Import Scheduler SchedulerSpec KernelPromise Lsm LsmSpec Guarded.
Local Open Scope Z_scope.

(** ** The adapter leaves the guard alone *)

Section frame.
Context {K : Type} `{!BpfSys K}.

Definition same_guard (g g' : guarded K) : Prop :=
  gd_lsm g' = gd_lsm g /\ gd_flight g' = gd_flight g /\ gd_ring g' = gd_ring g /\ gd_next g' = gd_next g.
#[export] Instance same_guard_preorder : PreOrder same_guard.
Proof.
  split; [done|]. intros g1 g2 g3 (? & ? & ? & ?) (? & ? & ? & ?). split_and!; congruence.
Qed.

Definition apart {A} (m : st (bpf_world (guarded K)) A) : Prop := framed same_guard m.

Lemma same_open path g : same_guard g (sys_obj_get path g).2.
Proof. cbn. by destruct (sys_obj_get path (gd_k g)). Qed.
Lemma same_close fd g : same_guard g (sys_close fd g).
Proof. done. Qed.
Lemma same_update fd key v flags g : same_guard g (sys_update fd key v flags g).2.
Proof. cbn. by destruct (sys_update fd key v flags (gd_k g)). Qed.
Lemma same_sleep d g : same_guard g (sys_sleep d g).
Proof. done. Qed.
End frame.
#[local] Hint Resolve same_open same_close same_update same_sleep : core.

Ltac apart_op lem := apply lem; first [apply same_guard_preorder|auto].

(** ** The scheduler's steps and the guard *)

Section steps.
Context {K : Type} `{!BpfSys K, !BpfLaws K, !BpfOpens K, !LoaderEnv K, base : !SchedEnv (bpf_world K),
  !UpstreamPromise (bpf_world K), !QuietEnv K}.
Abbreviation GW := (bpf_world (guarded K)).
Abbreviation X := (sworld (tworld GW)).
Implicit Types x : X.

Definition lsm_at x : lsm_world := lsm_of (world_of x).
Definition beside x x' : Prop := same_guard (bw_k (world_of x)) (bw_k (world_of x')).

Lemma beside_quiet {A} (m : st GW A) x : apart m -> beside x (call (quiet m) x).2.
Proof.
  intros Hm. destruct x as [s [w l]]. unfold beside, world_of, call, quiet. cbn. specialize (Hm w).
  by destruct (m w).
Qed.
Lemma beside_logged {A} c (m : st GW A) x : apart m -> beside x (call (logged c m) x).2.
Proof.
  intros Hm. destruct x as [s [w l]]. unfold beside, world_of, call, logged. cbn. specialize (Hm w).
  by destruct (m w).
Qed.
Lemma beside_trans x1 x2 x3 : beside x1 x2 -> beside x2 x3 -> beside x1 x3.
Proof. unfold beside. intros. by etransitivity. Qed.

Lemma refresh_beside x : beside x (refresh_primary_upstream_locked x).2.
Proof.
  unfold refresh_primary_upstream_locked, mbind, st_bind.
  pose proof (beside_quiet env_detect_upstream x) as Hb. cbn in Hb.
  destruct (call _ x) as [r x1]. cbn [snd] in Hb. eapply beside_trans; [apply Hb|].
  - intros w. cbn. by destruct (env_detect_upstream (base_world w)).
  - unfold beside, smod, st_mod. by destruct r as [[]|].
Qed.
Lemma disable_beside x : elected_ok x -> beside x (trigger_adapter_disable_locked x).2.
Proof.
  unfold elected_ok, adapter_of, trigger_adapter_disable_locked, mbind, st_bind, sget, st_get, mret, st_ret.
  intros [->|[->| ->]]; [|done|done]. cbn. destruct (_ <=? 0).
  - pose proof (beside_logged CDisableGlobal bpf_disable_global x) as Hb.
    destruct (call _ x). apply Hb. apart_op @framed_disable_global.
  - pose proof (beside_logged (CDisableUpstream (sc_ifindex (sw_sched x)))
      (bpf_disable_upstream (sc_ifindex (sw_sched x))) x) as Hb.
    destruct (call _ x). apply Hb. apart_op @framed_disable_upstream.
Qed.
Lemma restore_beside x : elected_ok x -> beside x (trigger_adapter_restore_locked x).2.
Proof.
  unfold elected_ok, adapter_of, trigger_adapter_restore_locked, mbind, st_bind, sget, st_get, mret, st_ret.
  intros [->|[->| ->]]; [|done|done]. cbn.
  pose proof (beside_logged CRestoreGlobal bpf_restore_global x) as Hb.
  destruct (call _ x). apply Hb. apart_op @framed_restore_global.
Qed.
Lemma force_disable_beside x : elected_ok x -> beside x (hnc_scheduler_force_disable_global x).2.
Proof.
  unfold elected_ok, adapter_of, hnc_scheduler_force_disable_global, mbind, st_bind, sget, st_get, mret, st_ret.
  intros [->|[->| ->]]; [|by destruct (negb _)|done]. destruct (negb _); [done|]. cbn.
  apply beside_logged. apart_op @framed_disable_global.
Qed.
Lemma worker_refresh_beside x : elected_ok x -> beside x (worker_refresh x).2.
Proof.
  unfold elected_ok, adapter_of, worker_refresh, mbind, st_bind, sget, st_get, mret, st_ret, smod, st_mod, wget.
  intros [->|[->| ->]]; [|done|done]. cbn.
  pose proof (beside_quiet bpf_refresh_active x) as Hb.
  destruct (call _ x). apply Hb. apart_op @framed_refresh.
Qed.

Lemma request_beside x : beside x (hnc_scheduler_request_refresh x).2.
Proof. unfold beside. by rewrite request_world. Qed.
Lemma refresh_disable_beside x :
  elected_ok x -> beside x (trigger_adapter_disable_locked (refresh_primary_upstream_locked x).2).2.
Proof.
  intros He. eapply beside_trans; [apply refresh_beside|]. apply disable_beside.
  unfold elected_ok. by destruct (refresh_effect x) as (-> & _).
Qed.
Lemma notify_beside x mac b : elected_ok x -> beside x (hnc_scheduler_notify_device_limit_changed mac b x).2.
Proof.
  intros He. rewrite notify_unfold. destruct (if sc_initialized (sw_sched x) then _ else _) as [norm|]; [|done].
  assert (Hn : beside x (notify_locked norm b x).2).
  { pose proof (notify_split x norm b) as Hs. cbv zeta in Hs. set (x1 := SWorld _ _) in Hs.
    assert (He1 : elected_ok x1) by exact He. assert (H1 : beside x x1) by done.
    destruct Hs as [(_ & _ & ->)|[(_ & _ & ->)|[_ ->]]]; [| |done]; (eapply beside_trans; [exact H1|]).
    - by apply refresh_disable_beside.
    - by apply restore_beside. }
  destruct (notify_locked norm b x) as [[] x2]; [|exact Hn]. eapply beside_trans; [exact Hn|apply request_beside].
Qed.
Lemma trigger_beside x n : elected_ok x -> beside x (init_trigger n x).2.
Proof.
  intros He. unfold init_trigger. destruct (0 <? n)%nat; [|done]. pose proof (refresh_disable_beside x He) as H.
  unfold mbind, st_bind. by destruct (refresh_primary_upstream_locked x) as [[] x1].
Qed.
Lemma reprobe_beside x : elected_ok x -> 0 <= ifindex_of x -> beside x (worker_reprobe x).2.
Proof.
  intros He Hi. destruct (reprobe_split x Hi) as [->|[-> _]]; [by apply refresh_disable_beside|apply refresh_beside].
Qed.
Lemma reprobe_indices x : (worker_reprobe x).1 = (ifindex_of x, ifindex_of (worker_reprobe x).2).
Proof.
  unfold worker_reprobe, mbind, st_bind, sget, st_get, mret, st_ret.
  destruct (refresh_primary_upstream_locked x) as [[] x1]. fold (ifindex_of x) (ifindex_of x1).
  destruct (_ || _); [|done]. cbn.
  enough (H : ifindex_of (trigger_adapter_disable_locked x1).2 = ifindex_of x1)
    by (destruct (trigger_adapter_disable_locked x1) as [[] x2]; cbn in *; congruence).
  unfold trigger_adapter_disable_locked, mbind, st_bind, sget, st_get, mret, st_ret, call.
  repeat first [case_match; simplify_eq/= | done].
Qed.

(** What a step of the scheduler does to the guard: nothing, or the start, or the move that
    ends the worker's turn with the guard. *)
Definition lsm_started x (idx : Z) (l' : lsm_world) : Prop :=
  l' = (hnc_lsm_init le_strerror (le_init (gd_k (bw_k (world_of x)))) (str BPF_LIMIT_MAP)
          (u32 idx) (lsm_at x)).2.
Definition lsm_moved x (now : Z) (l' : lsm_world) : Prop :=
  l' = (hnc_lsm_update_ifindex (le_lookup (gd_k (bw_k (world_of x)))) (le_update (gd_k (bw_k (world_of x))))
          (u32 now) (lsm_at x)).2.
Definition rest_same x x' : Prop :=
  gd_flight (bw_k (world_of x')) = gd_flight (bw_k (world_of x)) /\
  gd_ring (bw_k (world_of x')) = gd_ring (bw_k (world_of x)) /\
  gd_next (bw_k (world_of x')) = gd_next (bw_k (world_of x)).
Lemma beside_split x x' : beside x x' <-> lsm_at x' = lsm_at x /\ rest_same x x'.
Proof. done. Qed.

Lemma init_lsm_effect x idx :
  rest_same x (init_lsm_with idx x).2 /\
  (lsm_at (init_lsm_with idx x).2 = lsm_at x \/ lsm_started x idx (lsm_at (init_lsm_with idx x).2)).
Proof.
  destruct x as [[ini ad act lim ifx nm wk] [[bs g] l]].
  unfold init_lsm_with, mbind, st_bind, sget, st_get, mret, st_ret, call, lsm_started, lsm_at, world_of, rest_same. cbn.
  destruct ad as [a|]; [|by split; [|left]]. destruct (bool_decide _); [|by split; [|left]].
  unfold quiet. cbn. destruct (hnc_lsm_init _ _ _ _ _) as [rc l']. by split; [|right].
Qed.
Lemma notify_lsm_effect x prev now :
  rest_same x (worker_notify_lsm prev now x).2 /\
  (if (0 <? now) && negb (now =? prev) then lsm_moved x now (lsm_at (worker_notify_lsm prev now x).2)
   else lsm_at (worker_notify_lsm prev now x).2 = lsm_at x).
Proof. unfold worker_notify_lsm. by destruct (_ && _). Qed.

Definition in_lsm (wk : worker_pc) : bool := match wk with WLsm _ _ => true | _ => false end.

Inductive turn (c c' : cstate (W:=GW)) : Prop :=
| turn_main : c_worker c' = c_worker c -> lsm_at (c_x c') = lsm_at (c_x c) -> turn c c'
| turn_worker : in_lsm (c_worker c) = false -> in_lsm (c_worker c') = false ->
    ifindex_of (c_x c') = ifindex_of (c_x c) -> lsm_at (c_x c') = lsm_at (c_x c) -> turn c c'
| turn_probe : c_worker c = WProbe -> c_worker c' = WLsm (ifindex_of (c_x c)) (ifindex_of (c_x c')) ->
    lsm_at (c_x c') = lsm_at (c_x c) -> turn c c'
| turn_start idx : c_main c = MLsm idx -> c_worker c' = c_worker c -> ifindex_of (c_x c') = ifindex_of (c_x c) ->
    lsm_started (c_x c) idx (lsm_at (c_x c')) -> turn c c'
| turn_lsm prev now : c_worker c = WLsm prev now -> c_worker c' = WRefresh ->
    ifindex_of (c_x c') = ifindex_of (c_x c) ->
    (if (0 <? now) && negb (now =? prev) then lsm_moved (c_x c) now (lsm_at (c_x c'))
     else lsm_at (c_x c') = lsm_at (c_x c)) -> turn c c'.

Lemma rebuild_beside x :
  beside x (init_rebuild x).2 /\ ifindex_of (init_rebuild x).2 = ifindex_of x.
Proof.
  unfold init_rebuild, mbind, st_bind, wget, sget, st_get, smod, st_mod, mret, st_ret.
  by destruct (rebuild_from_rules _ _).
Qed.
Lemma restore_call_beside x a f :
  elected_ok x -> adapter_of x = Some a -> ad_restore_global a = Some f -> beside x (call f x).2.
Proof.
  intros [He|[He|He]] Ha Hf; rewrite He in Ha; simplify_eq.
  - injection Hf as <-. apply beside_logged. apart_op @framed_restore_global.
  - injection Hf as <-. destruct x as [s [w l]]. done.
Qed.

Lemma step_turn c c' :
  sched_inv c -> sound (c_x c) -> step c c' -> rest_same (c_x c) (c_x c') /\ turn c c'.
Proof.
  intros (_ & Hi & _) [He _] Hstep.
  assert (Hmain : forall x' m', beside (c_x c) x' ->
    rest_same (c_x c) x' /\ turn c (CState x' m' (c_worker c))).
  { intros x' m' [Hl Hr]%beside_split. split; [done|by apply turn_main]. }
  destruct Hstep; cbn [c_x c_worker] in *.
  - by apply Hmain.
  - destruct (init_lsm_effect x idx) as [Hr Hl]. destruct (init_lsm_silent x idx) as [(_ & _ & Hidx & _) _].
    split; [exact Hr|]. destruct Hl as [Hl|Hl]; [by apply turn_main|by eapply turn_start].
  - apply Hmain, rebuild_beside.
  - by apply Hmain, trigger_beside.
  - by apply Hmain, notify_beside.
  - apply Hmain, request_beside.
  - by apply Hmain, force_disable_beside.
  - by apply Hmain.
  - by eapply Hmain, restore_call_beside.
  - assert (Hb : beside x r.2) by (unfold beside, r; by rewrite wake_world).
    destruct (proj1 (beside_split _ _) Hb) as [Hl Hr]. split; [done|]. destruct (wake_silent x) as [(_ & _ & Hidx & _) _].
    apply turn_worker; cbn; [done|by destruct r.1|exact Hidx|exact Hl].
  - pose proof (reprobe_beside x He Hi) as [Hl Hr]%beside_split. split; [done|].
    apply turn_probe; cbn; [done| |exact Hl]. unfold r. by rewrite reprobe_indices.
  - destruct (notify_lsm_effect x prev now) as [Hr Hl]. split; [exact Hr|].
    destruct (notify_lsm_silent x prev now) as [(_ & _ & Hidx & _) _]. by eapply turn_lsm.
  - pose proof (worker_refresh_beside x He) as [Hl Hr]%beside_split. split; [done|].
    destruct (refresh_silent x (elected_good_one x He)) as [(_ & _ & Hidx & _) _]. by apply turn_worker.
Qed.

(** ** The guard follows *)

Context (limit_id own : Z) `{!LoaderLaws K limit_id own}.

(** A complete guard of the limit map for interface [p], which spares process [own]. *)
Definition guarding (p : Z) (l : lsm_world) : Prop :=
  lsm_active l /\ st_map_id (lg_stat (lw_g l)) = limit_id /\ st_pid (lg_stat (lw_g l)) = own /\
  st_ifindex (lg_stat (lw_g l)) = p /\ 0 <= lg_limit_fd (lw_g l) /\ 0 <= lg_ctrl_fd (lw_g l).

Lemma guarding_guards p l : guarding p l -> guards limit_id p own (lw_ctrl l) /\ 0 <= lg_limit_fd (lw_g l).
Proof.
  intros ((_ & _ & _ & _ & _ & _ & _ & Hc) & Hm & Hp & Hi & Hf & _). split; [|done]. rewrite Hc.
  eexists. split; [done|]. by cbn.
Qed.

Lemma init_guarding k path p l :
  lsm_idle l ->
  let l' := (hnc_lsm_init le_strerror (le_init k) path p l).2 in lsm_idle l' \/ guarding p l'.
Proof.
  intros Hl. pose proof (lsm_init_cases le_strerror (le_init k) path p l Hl) as Hc. revert Hc.
  destruct l as [[ini obj link cfd lfd rb th stat] ctrl fds]. destruct Hl as (Hi & Ho & Hk & Hr & Ht & Hc).
  pose proof (ll_limit_fd k) as H1. pose proof (ll_ctrl_fd k) as H2. pose proof (ll_map k) as H3.
  pose proof (ll_pid k) as H4. revert H1 H2 H3 H4. cbn in *. subst. unfold hnc_lsm_init. cbn [lg_initialized lw_g].
  destruct (io_obj_get _) as [fd|e]; [|by left]. destruct (io_info _) as [id|e]; [|by left].
  unfold init_object. cbn [lg_link lw_g with_g].
  destruct (io_open _); [by left|]. destruct (io_load _); [by left|]. destruct (io_prog _); [|by left]. cbn [negb].
  destruct (io_maps _) as [cfd'|]; [|by left]. unfold init_attach.
  destruct (io_populate _); [by left|]. destruct (io_attach _); [by left|]. unfold init_ring.
  destruct (io_ring _); [by left|]. intros H1 H2 H3 H4 [(_ & Ha & _)|(_ & (Hi & _) & _)]; [|by cbn in Hi].
  right. split; [exact Ha|]. cbn. split_and!; [by apply H3|done|done|by apply H1|by apply H2].
Qed.
Lemma update_guarding k p q l :
  guarding p l -> guarding q (hnc_lsm_update_ifindex (le_lookup k) (le_update k) q l).2.
Proof.
  intros (Ha & Hm & Hp & Hi & Hl & Hc). unfold hnc_lsm_update_ifindex. rewrite ll_lookup, ll_update.
  destruct Ha as (A1 & A2 & A3 & A4 & A5 & A6 & A7 & A8). rewrite A1, A8.
  rewrite (proj2 (Z.ltb_ge _ _)) by done. by split_and!.
Qed.
Lemma update_idle k q l : lsm_idle l -> (hnc_lsm_update_ifindex (le_lookup k) (le_update k) q l).2 = l.
Proof. intros (Hi & _). unfold hnc_lsm_update_ifindex. by rewrite Hi. Qed.

(** The guard protects the upstream the scheduler knows, or the one it knew before the probe
    whose turn has not come to the guard yet. *)
Record following (c : cstate (W:=GW)) : Prop := Following {
  fo_sched : sched_inv c;
  fo_sound : sound (c_x c);
  fo_start idx : c_main c = MLsm idx -> idx = ifindex_of (c_x c);
  fo_now prev now : c_worker c = WLsm prev now -> now = ifindex_of (c_x c) /\ (now = prev \/ 0 < now);
  fo_guard : lsm_idle (lsm_at (c_x c)) \/
    exists p, guarding p (lsm_at (c_x c)) /\
      (p = u32 (ifindex_of (c_x c)) \/ exists prev now, c_worker c = WLsm prev now /\ p = u32 prev)
}.

Lemma reprobe_moves x :
  0 <= ifindex_of x -> elected_ok x ->
  ifindex_of (worker_reprobe x).2 = ifindex_of x \/ 0 < ifindex_of (worker_reprobe x).2.
Proof.
  intros Hi He. pose proof (reprobe_split x Hi) as Hr. cbv zeta in Hr.
  pose proof (refresh_effect x) as (Ha & _ & _ & _ & _ & Hm).
  destruct Hr as [->|[-> _]]; [|done].
  destruct (trigger_disable_effect (refresh_primary_upstream_locked x).2) as [(_ & _ & -> & _) _]; [|done].
  apply elected_good_one. unfold elected_ok. by rewrite Ha.
Qed.

Lemma sound_step (c c' : cstate (W:=GW)) : sched_inv c -> sound (c_x c) -> step c c' -> sched_inv c' /\ sound (c_x c').
Proof.
  intros Hi Hs Hstep.
  destruct (kernel_step (K:=guarded K) (fun _ _ => True) ltac:(done) ltac:(done) c c') as (H1 & H2 & _); [|done..]. by split_and!.
Qed.

Lemma following_step c c' : following c -> calm c c' -> following c'.
Proof.
  intros [Hi Hs Hst Hnow Hg] [Hstep Hcalm]. destruct (sound_step c c' Hi Hs Hstep) as [Hi' Hs'].
  destruct (step_turn c c' Hi Hs Hstep) as [_ Ht]. split; [done..| | |].
  - intros idx Hm. destruct Hstep; cbn in *; try done; [congruence|subst m..];
      (rewrite Hcalm by (by right); by apply Hst).
  - intros prev now Hwk. destruct Ht as [Hw|? Hn|Hw Hw'|? ? Hw Hidx|? ? ? Hw].
    + rewrite Hcalm by (by left). apply Hnow. congruence.
    + by rewrite Hwk in Hn.
    + rewrite Hw' in Hwk. simplify_eq. split; [done|]. inversion Hstep; subst; cbn in *; try congruence.
      apply reprobe_moves; [apply Hi|apply Hs].
    + rewrite Hidx. apply Hnow. congruence.
    + by rewrite Hwk in Hw.
  - destruct Ht as [Hw Hl|Hn Hn' Hidx Hl|Hw Hw' Hl|idx Hm Hw Hidx Hl|prev now Hw Hw' Hidx Hl].
    + rewrite Hl, (Hcalm (or_introl Hw)), Hw. exact Hg.
    + rewrite Hl, Hidx. destruct Hg as [?|(p & Hp & [->|(prev & now & E & _)])]; [by left|right; eauto|].
      by rewrite E in Hn.
    + rewrite Hl. destruct Hg as [?|(p & Hp & [->|(prev & now & E & _)])]; [by left| |by rewrite E in Hw].
      right. eexists. split; [exact Hp|]. right. eauto.
    + rewrite Hidx, Hw. rewrite (Hst _ Hm) in Hl. unfold lsm_started in Hl. destruct Hg as [Hg|(p & Hp & Hor)].
      * rewrite Hl. destruct (init_guarding (gd_k (bw_k (world_of (c_x c)))) (str BPF_LIMIT_MAP)
          (u32 (ifindex_of (c_x c))) _ Hg); [by left|right; eauto].
      * right. exists p. rewrite lsm_init_active in Hl by apply Hp. cbn in Hl. rewrite Hl. by split.
    + rewrite Hidx. destruct (Hnow _ _ Hw) as [-> Hpos].
      destruct Hg as [Hg|(p & Hp & Hor)].
      * left. destruct (_ && _); [|by rewrite Hl]. unfold lsm_moved in Hl. by rewrite update_idle in Hl by done; rewrite Hl.
      * right. exists (u32 (ifindex_of (c_x c))). split; [|by left].
        destruct ((0 <? ifindex_of (c_x c)) && negb (ifindex_of (c_x c) =? prev)) eqn:E.
        { unfold lsm_moved in Hl. rewrite Hl. by eapply update_guarding. }
        rewrite Hl. enough (p = u32 (ifindex_of (c_x c))) as <- by done.
        destruct Hor as [?|(? & ? & Hw2 & ->)]; [done|]. rewrite Hw in Hw2. simplify_eq.
        bool_simpl. f_equal. lia.
Qed.

(** *** The start *)

Definition starts {A} (m : st X A) : Prop := kpres m /\ forall x, sound x -> beside x (m x).2.
Lemma starts_bind {A B} (m : st X A) (f : A -> st X B) :
  starts m -> (forall a, starts (f a)) -> starts (m ≫= f).
Proof.
  intros [Hk Hb] Hf. split; [apply kpres_bind; [done|apply Hf]|]. intros x Hx.
  specialize (Hk x Hx). specialize (Hb x Hx). unfold mbind, st_bind. destruct (m x) as [a x1].
  eapply beside_trans; [exact Hb|]. by apply Hf.
Qed.
Lemma starts_ret {A} (a : A) : starts (mret a).
Proof. split; [apply kpres_ret|done]. Qed.
Lemma starts_quiet {A} (m : st GW A) : readies m -> apart m -> starts (call (quiet m)).
Proof. intros Hr Ha. split; [by apply kpres_quiet|]. intros x _. by apply beside_quiet. Qed.
Lemma starts_null {A} (m : st (tworld GW) A) : (forall t, (m t).2 = t) -> starts (call m).
Proof.
  intros Hm. assert (H : forall x, (call m x).2 = x).
  { intros [s t]. unfold call. cbn. specialize (Hm t). destruct (m t) as [a t']. cbn in *. by subst. }
  split; intros x Hx; by rewrite H.
Qed.
Lemma starts_fall_back : starts fall_back_to_null.
Proof. split; [apply kpres_fall_back|]. by intros [s [w l]]. Qed.
Lemma starts_shutdown : starts (call (quiet bpf_shutdown)).
Proof. apply starts_quiet; [apply ready_shutdown|]. apart_op @framed_shutdown. Qed.

Lemma starts_adapter a : a = bpf \/ a = adapter_null -> starts (init_adapter a).
Proof.
  unfold init_adapter. intros [->| ->]; apply starts_bind.
  - apply starts_quiet; [apply gentle_readies, gentle_init|]. apart_op @framed_init.
  - intros e. destruct (negb _); [apply starts_fall_back|]. apply starts_bind.
    + apply starts_quiet; [apply gentle_readies, gentle_self_check|]. apart_op @framed_self_check.
    + intros sc. destruct (negb _); [|apply starts_ret].
      apply starts_bind; [apply starts_shutdown|intros _; apply starts_fall_back].
  - by apply starts_null.
  - intros e. destruct (negb _); [apply starts_fall_back|]. apply starts_bind; [by apply starts_null|].
    intros sc. destruct (negb _); [|apply starts_ret].
    apply starts_bind; [by apply starts_null|]. intros _. apply starts_fall_back.
Qed.

Lemma starts_stop : starts (a ← sget sc_adapter; match a with Some a => call (ad_shutdown a) | None => mret tt end;; mret false).
Proof.
  split; [apply kpres_shutdown, kpres_ret|]. intros x [He Hr].
  unfold mbind at 1, st_bind at 1, sget, st_get. change (sc_adapter (sw_sched x)) with (adapter_of x).
  enough (Hb : starts (match adapter_of x with Some a => call (ad_shutdown a) | None => mret tt end;; mret false))
    by by apply Hb.
  apply starts_bind; [|intros _; apply starts_ret].
  destruct He as [->|[->| ->]]; [apply starts_shutdown|by apply starts_null|apply starts_ret].
Qed.
Lemma starts_init a : a = bpf \/ a = adapter_null -> starts (init_start a).
Proof.
  intros Ha. unfold init_start. apply starts_bind; [by apply starts_adapter|]. intros _.
  apply starts_bind; [split; [apply kpres_refresh|intros; apply refresh_beside]|]. intros _.
  apply starts_bind; [split; [apply kpres_worker|done]|]. intros _.
  apply starts_bind; [split; [apply kpres_wget|done]|]. intros rc. destruct (negb (rc =? 0)); [apply starts_stop|].
  apply starts_bind; [split; [apply kpres_worker|done]|]. intros _.
  apply starts_bind; [split; [apply kpres_initialized|done]|]. intros _. apply starts_ret.
Qed.

Lemma started_following k (x1 : X) :
  limit_pinned k -> started [adapter_bpf] (process (unguarded k)) x1 ->
  following (CState x1 MInit WWait) /\ rest_same (SWorld sched_zero (process (unguarded k), [])) x1.
Proof.
  intros Hp Hst. pose proof (started_sound (K:=guarded K) (unguarded k) x1 Hp Hst) as Hs.
  assert (Hc : Forall adapter_complete [adapter_bpf (K:=guarded K)]) by (repeat constructor; by eexists).
  pose proof (started_inv _ _ x1 Hc Hst) as Hi. destruct Hst as (a & Hsel & Hinit).
  assert (Ha : a = bpf \/ a = adapter_null).
  { revert Hsel. unfold offload_select_adapter, g_adapters. cbn. fold (bpf (K:=guarded K)).
    destruct (sys_stat_ok _ _); intros Hs'; injection Hs' as <- _; [by left|by right]. }
  set (x0 := SWorld (set_adapter (Some a) (Some a) sched_zero) (process (unguarded k), [])) in Hinit.
  assert (H0 : sound x0).
  { split; [destruct Ha as [->| ->]; [by left|by right; left]|]. split; [by left|exact Hp]. }
  pose proof (proj2 (starts_init a Ha) x0 H0) as Hb. rewrite Hinit in Hb.
  destruct (proj1 (beside_split _ _) Hb) as [Hl Hr]. split; [|exact Hr]. split; [done..|].
  left. cbn [c_x snd] in *. rewrite Hl. by split_and!.
Qed.

(** ** The promise among other writers *)

(** A quota that lifts the limit of the upstream has been reported and not answered yet. *)
Definition reported (ring : list (nat * lsm_event)) (idx : Z) (w : GW) : Prop :=
  lmap w !! u32 idx = Some BPF_LIMIT_NONE -> ring <> [].
Lemma reported_throttled ring idx w : throttled idx w -> reported ring idx w.
Proof.
  unfold throttled, reported. intros Ht Hn. destruct (0 <? idx); [by rewrite Hn in Ht|].
  by specialize (Ht _ _ Hn).
Qed.
Lemma reported_keeps ring idx w w' : keeps_limits w w' -> reported ring idx w -> reported ring idx w'.
Proof. intros [Hm _]. unfold reported. by rewrite Hm. Qed.

Definition ring_at x := gd_ring (bw_k (world_of x)).
Definition flight_at x := gd_flight (bw_k (world_of x)).

Record shielded (c : cstate (W:=GW)) : Prop := Shielded {
  sh_sched : sched_inv c;
  sh_sound : sound (c_x c);
  sh_now prev now : c_worker c = WLsm prev now -> now = ifindex_of (c_x c);
  sh_guard : guarding (u32 (ifindex_of (c_x c))) (lsm_at (c_x c));
  sh_foreign n b : (n, b) ∈ flight_at (c_x c) -> bc_tgid b <> own;
  sh_inv : guard_inv limit_id (u32 (ifindex_of (c_x c))) own (guard_of WInitial (world_of (c_x c)));
  sh_kept : kept (reported (ring_at (c_x c))) c
}.

(** Without notes of who wrote what, the guard's invariant is about the calls and reports. *)
Lemma guard_inv_of p w s :
  guarding p (lsm_of w) -> guard_inv limit_id p own s ->
  gs_flight s = gd_flight (bw_k w) -> gs_ring s = gd_ring (bw_k w) ->
  guard_inv limit_id p own (guard_of WInitial w).
Proof.
  intros [Hg Hf]%guarding_guards [_ _ Hr Hfl _] E1 E2. rewrite E2 in *. rewrite E1 in Hfl. split; [done..|].
  unfold guard_of. cbn [gs_limit]. rewrite lookup_fmap. by destruct (lmap w !! p).
Qed.

Lemma shielded_sched c c' :
  shielded c -> step c c' -> ifindex_of (c_x c') = ifindex_of (c_x c) -> shielded c'.
Proof.
  intros [Hi Hs Hnow Hg Hf Hinv Hk] Hstep Hidx.
  destruct (step_turn c c' Hi Hs Hstep) as [(Efl & Er & _) Ht].
  destruct (kernel_step (K:=guarded K) (reported (ring_at (c_x c))) (reported_throttled _) (reported_keeps _) c c')
    as (Hi' & Hs' & Hk'); [by split_and!|done|].
  assert (Hg' : guarding (u32 (ifindex_of (c_x c'))) (lsm_at (c_x c'))).
  { rewrite Hidx. destruct Ht as [? ->|? ? ? ->|? ? ->|? ? ? ? Hl|prev now Hw _ _ Hl]; [done..| |].
    - unfold lsm_started in Hl. rewrite lsm_init_active in Hl by apply Hg. cbn in Hl. by rewrite Hl.
    - rewrite (Hnow _ _ Hw) in Hl. destruct (_ && _); [|by rewrite Hl].
      unfold lsm_moved in Hl. rewrite Hl. by eapply update_guarding. }
  split; [done|done| |done| | |].
  - intros prev now Hw. rewrite Hidx. destruct Ht as [E _|_ E _ _|_ E _|? _ E _ _|? ? _ E _ _].
    + apply (Hnow prev). congruence.
    + by rewrite Hw in E.
    + rewrite E in Hw. by simplify_eq.
    + apply (Hnow prev). congruence.
    + by rewrite E in Hw.
  - unfold flight_at. rewrite Efl. exact Hf.
  - rewrite Hidx in *. eapply guard_inv_of; [exact Hg'|exact Hinv|done|done].
  - unfold ring_at. rewrite Er. exact Hk'.
Qed.

(** An action keeps the guard, and what it does to the quota it guards. *)
Lemma act_guarding p a s s' :
  guard_step limit_id own a s = Some s' ->
  gs_ctrl s' = gs_ctrl s /\
  (forall fds, guarding p (LsmWorld (gs_g s) (gs_ctrl s) fds) -> guarding p (LsmWorld (gs_g s') (gs_ctrl s') fds)).
Proof.
  destruct a as [b now room|n|now ok]; cbn.
  - by intros [= <-].
  - destruct (list_find _ _) as [[i [m b]]|]; [|done]. by intros [= <-].
  - destruct (gs_ring s) as [|[n ev] ring]; [done|]. by intros [= <-].
Qed.

Lemma act_flight a s s' :
  guard_step limit_id own a s = Some s' -> foreign own a ->
  (forall n b, (n, b) ∈ gs_flight s -> bc_tgid b <> own) ->
  forall n b, (n, b) ∈ gs_flight s' -> bc_tgid b <> own.
Proof.
  destruct a as [b now room|n|now ok]; cbn; intros Hs Hf Hfl.
  - injection Hs as <-. cbn. intros n b' [?|[= -> ->]%list_elem_of_singleton]%elem_of_app; [by eapply Hfl|done].
  - destruct (list_find _ _) as [[i [m b]]|]; [|done]. injection Hs as <-. cbn.
    intros n' b' [_ Hin]%list_elem_of_filter. by eapply Hfl.
  - destruct (gs_ring s) as [|[n ev] ring]; [done|]. by injection Hs as <-.
Qed.

Lemma act_reported p a s s' :
  guard_inv limit_id p own s -> act_ok a s = true ->
  (forall n b, (n, b) ∈ gs_flight s -> bc_tgid b <> own) ->
  guard_step limit_id own a s = Some s' ->
  ((fst <$> gs_limit s) !! p = Some BPF_LIMIT_NONE -> gs_ring s <> []) ->
  (fst <$> gs_limit s') !! p = Some BPF_LIMIT_NONE -> gs_ring s' <> [].
Proof.
  intros [Hc Hfd Hr Hfl _] Ha Hf Hs Hq. destruct a as [b now room|n|now ok]; cbn in Ha, Hs.
  - injection Hs as <-. cbn. intros Hn%Hq E%app_nil. by destruct E.
  - destruct (list_find _ _) as [[i [m b]]|] eqn:E; [|done]. injection Hs as <-. cbn.
    apply list_find_Some in E as (E & Hm & _). cbn in Hm. subst m. apply list_elem_of_lookup_2 in E.
    rewrite lookup_fmap. intros ([v who] & Hv & Ev)%fmap_Some. cbn in Ev. subst v.
    apply write_all_lookup in Hv as [Hv|[Hin _]].
    + apply Hq. by rewrite lookup_fmap, Hv.
    + destruct (Hfl n b E) as [ev Hev]; [split; [exact Hin|by eapply Hf]|].
      intros E0. rewrite E0 in Hev. by apply elem_of_nil in Hev.
  - destruct (gs_ring s) as [|[n ev] ring] eqn:Er; [done|]. bool_simpl. subst ok. injection Hs as <-.
    destruct (Hr n ev ltac:(left)) as [Hi Hv]. cbn. rewrite Hv, Hi. cbn [negb Z.eqb andb].
    rewrite (proj2 (Z.leb_le 0 _)) by done. cbn. rewrite lookup_fmap, lookup_insert_eq. done.
Qed.

Lemma shielded_act s w l m wk a w' :
  limit_id <> 0 -> shielded (CState (SWorld s (w, l)) m wk) ->
  acts limit_id own a w w' -> foreign own a -> act_ok a (guard_of WInitial w) = true ->
  shielded (CState (SWorld s (w', l)) m wk).
Proof.
  intros Hid [Hi [He Hr] Hnow Hg Hf Hinv Hk] Hact Hfor Hok. destruct Hact as [sy k' Hs Hm Hp Hfd].
  unfold lsm_at, flight_at, ring_at, world_of in *. cbn [c_x c_worker sw_w fst] in *.
  pose proof (guard_inv_step limit_id _ own a _ sy Hid Hinv Hok Hs) as Hinv'.
  destruct (act_guarding (u32 (ifindex_of (SWorld s (w, l)))) a _ _ Hs) as [_ Hkeep].
  specialize (Hkeep (lw_limit_fds (lsm_of w))). cbn in Hkeep.
  assert (Hg' : guarding (u32 (ifindex_of (SWorld s (w, l))))
    (LsmWorld (gs_g sy) (gs_ctrl sy) (lw_limit_fds (lsm_of w)))).
  { apply Hkeep. by destruct (lsm_of w). }
  split; cbn [c_x c_worker]; [exact Hi| |exact Hnow|exact Hg'| | |].
  - split; [exact He|]. destruct Hr as [Hready Hpin]. split; [|by apply Hp].
    unfold fd_ready, fd_good in *. cbn in *. destruct Hready as [?|?]; [by left|right; by apply Hfd].
  - eapply act_flight; [exact Hs|exact Hfor|exact Hf].
  - eapply guard_inv_of; [exact Hg'|exact Hinv'|done|done].
  - intros Hmain Hne Hb. specialize (Hk Hmain Hne Hb). cbn in *. unfold reported, lmap in *. cbn.
    rewrite Hm. eapply (act_reported (u32 (sc_ifindex s)) a (guard_of WInitial w));
      [exact Hinv|exact Hok|exact Hf|exact Hs|].
    unfold guard_of. cbn [gs_limit gs_ring]. rewrite <- map_fmap_compose.
    intros H. apply Hk. unfold lmap in H. cbn in H. by rewrite map_fmap_id in H.
Qed.

Lemma shielded_step c c' : limit_id <> 0 -> shielded c -> gstep limit_id own c c' -> shielded c'.
Proof. intros Hid Hc Hs. destruct Hs; [by eapply shielded_sched|by eapply shielded_act]. Qed.

(** A state the scheduler reaches by itself, with the guard at its upstream. *)
Lemma calm_run k (x1 : X) c :
  limit_pinned k -> started [adapter_bpf] (process (unguarded k)) x1 ->
  rtc calm (CState x1 MInit WWait) c ->
  following c /\ kernel_inv throttled c /\ rest_same (SWorld sched_zero (process (unguarded k), [])) (c_x c).
Proof.
  intros Hp Hst Hrun. destruct (started_following k x1 Hp Hst) as [Hf0 Hr0].
  apply (rtc_invariant calm (fun c => following c /\ kernel_inv throttled c /\
           rest_same (SWorld sched_zero (process (unguarded k), [])) (c_x c))) in Hrun; [done| |].
  - intros c1 c2 (Hf & Hk & Hr) Hc. split; [by eapply following_step|]. split.
    + eapply (kernel_step (K:=guarded K) throttled); [done|apply throttled_keeps|exact Hk|apply Hc].
    + destruct (step_turn c1 c2 (fo_sched _ Hf) (fo_sound _ Hf) (proj1 Hc)) as [Hr' _].
      unfold rest_same in *. intuition congruence.
  - split; [done|]. split; [|done]. by eapply (kernel_run (K:=guarded K) (unguarded k)); [| |apply rtc_refl].
Qed.

Lemma following_guarding c :
  following c -> lsm_active (lsm_at (c_x c)) -> in_lsm (c_worker c) = false ->
  guarding (u32 (ifindex_of (c_x c))) (lsm_at (c_x c)).
Proof.
  intros [_ _ _ _ [(Hi & _)|(p & Hp & [->|(prev & now & E & _)])]] Ha Hw; [|done|by rewrite E in Hw].
  destruct Ha as (Ha & _). by rewrite Ha in Hi.
Qed.

Lemma calm_shielded k (x1 : X) c :
  limit_pinned k -> started [adapter_bpf] (process (unguarded k)) x1 ->
  rtc calm (CState x1 MInit WWait) c -> lsm_active (lsm_at (c_x c)) -> in_lsm (c_worker c) = false ->
  shielded c.
Proof.
  intros Hp Hst Hrun Ha Hw. destruct (calm_run k x1 c Hp Hst Hrun) as (Hf & Hk & Hfl & Hr & _).
  pose proof (following_guarding c Hf Ha Hw) as Hg. destruct Hk as (Hi & Hs & Hk). cbn in Hfl, Hr.
  split; [done|done| |exact Hg| | |].
  - intros prev now E. by rewrite E in Hw.
  - unfold flight_at. rewrite Hfl. by intros ? ? ?%elem_of_nil.
  - destruct (guarding_guards _ _ Hg) as [Hg1 Hg2]. split; [done|done| | |]; cbn; rewrite ?Hfl, ?Hr.
    + by intros ? ? ?%elem_of_nil.
    + by intros ? ? ?%elem_of_nil.
    + rewrite lookup_fmap. by intros (? & _ & ?)%fmap_Some.
  - intros H1 H2 H3. by apply reported_throttled, Hk.
Qed.

(** ** Where the guard is left behind *)

(** Nothing but a change of the upstream that the worker itself finds moves the guard. *)
Lemma left_behind p q c c' :
  rtc (fun c c' => step c c' /\ ifindex_of (c_x c') = q) c c' ->
  sched_inv c -> sound (c_x c) -> ifindex_of (c_x c) = q -> in_lsm (c_worker c) = false ->
  guarding p (lsm_at (c_x c)) -> guarding p (lsm_at (c_x c')).
Proof.
  intros Hrun Hi Hs Hq Hw Hg.
  enough (H : sched_inv c' /\ sound (c_x c') /\ ifindex_of (c_x c') = q /\
    (forall prev now, c_worker c' = WLsm prev now -> now = prev) /\ guarding p (lsm_at (c_x c'))) by apply H.
  eapply (rtc_invariant _ (fun c => sched_inv c /\ sound (c_x c) /\ ifindex_of (c_x c) = q /\
    (forall prev now, c_worker c = WLsm prev now -> now = prev) /\ guarding p (lsm_at (c_x c)))); [|exact Hrun|].
  2:{ split_and!; try done. intros prev now E. by rewrite E in Hw. }
  clear Hrun Hi Hs Hq Hw Hg c c'. intros c c' (Hi & Hs & Hq & Hn & Hg) [Hstep Hq'].
  destruct (sound_step c c' Hi Hs Hstep) as [Hi' Hs']. destruct (step_turn c c' Hi Hs Hstep) as [_ Ht].
  split_and!; [done..| |].
  - intros prev now E. destruct Ht as [E' _|_ E' _ _|_ E' _|? _ E' _ _|? ? _ E' _ _].
    + apply Hn. congruence.
    + by rewrite E in E'.
    + rewrite E' in E. simplify_eq. congruence.
    + apply Hn. congruence.
    + by rewrite E in E'.
  - destruct Ht as [_ ->|_ _ _ ->|_ _ ->|? _ _ _ Hl|prev now Hw _ _ Hl]; [done..| |].
    + unfold lsm_started in Hl. rewrite lsm_init_active in Hl by apply Hg. cbn in Hl. by rewrite Hl.
    + rewrite (Hn _ _ Hw), Z.eqb_refl, andb_false_r in Hl. by rewrite Hl.
Qed.
End steps.

(** C14: the guard follows the scheduler.  Start the scheduler with the BPF adapter and a
    loader whose calls may fail; let requests, notifications and the worker's turns
    interleave in any way in which the main thread itself finds no other upstream than the
    one known, and the worker none while the guard is being started.  Whenever the guard is up and the worker is not on its way to it, the control
    map names the limit map, the daemon, and the upstream the scheduler has just switched off. *)
Theorem guard_follows {K} `{!BpfSys K, !BpfLaws K, !BpfOpens K, !LoaderEnv K, !SchedEnv (bpf_world K),
    !UpstreamPromise (bpf_world K), !QuietEnv K} (limit_id own : Z) `{!LoaderLaws K limit_id own}
    (k : K) (x1 : sworld (tworld (bpf_world (guarded K)))) (c : cstate (W:=bpf_world (guarded K))) :
  limit_pinned k -> started [adapter_bpf] (process (unguarded k)) x1 ->
  rtc calm (CState x1 MInit WWait) c ->
  lsm_active (lsm_at (c_x c)) -> in_lsm (c_worker c) = false ->
  guards limit_id (u32 (ifindex_of (c_x c))) own (lw_ctrl (lsm_at (c_x c))).
Proof.
  intros Hp Hst Hrun Ha Hw. destruct (calm_run limit_id own k x1 c Hp Hst Hrun) as (Hf & _).
  by apply guarding_guards, following_guarding.
Qed.

(** C3: the promise among other writers, on a pinned limit map.  Once a run in which the main thread
    finds no upstream but the one known has brought the guard to the upstream, let other
    processes enter and finish any calls on the limit map, the guard's thread answer, and the
    scheduler go on with everything it does, in any order, as long as the upstream stays,
    the ring has room, no unlimited quota is written by a batch or over a descriptor above 65535,
    the arguments of a call do not change in memory during it, and the answers are written and come after the calls they answer.
    Whenever the main thread is between two requests, some device is limited and no report
    waits, the quota of the upstream is not the unlimited one: the scheduler's zero has not
    been lifted for good. *)
Theorem guarded_promise {K} `{!BpfSys K, !BpfLaws K, !BpfOpens K, !LoaderEnv K, !SchedEnv (bpf_world K),
    !UpstreamPromise (bpf_world K), !QuietEnv K} (limit_id own : Z) `{!LoaderLaws K limit_id own}
    (k : K) (x1 : sworld (tworld (bpf_world (guarded K)))) (c0 c : cstate (W:=bpf_world (guarded K))) :
  limit_id <> 0 -> limit_pinned k -> started [adapter_bpf] (process (unguarded k)) x1 ->
  rtc calm (CState x1 MInit WWait) c0 ->
  lsm_active (lsm_at (c_x c0)) -> in_lsm (c_worker c0) = false ->
  rtc (gstep limit_id own) c0 c ->
  c_main c = MIdle -> limited_of (c_x c) <> [] -> adapter_of (c_x c) = Some bpf -> ring_at (c_x c) = [] ->
  lmap (world_of (c_x c)) !! u32 (ifindex_of (c_x c)) <> Some BPF_LIMIT_NONE.
Proof.
  intros Hid Hp Hst Hrun Ha Hw Hrun' Hm Hne Hb Hr Hq.
  assert (Hs : shielded limit_id own c).
  { eapply (rtc_invariant (gstep limit_id own) (shielded limit_id own)); [|exact Hrun'|].
    - intros c1 c2 H1 H2. by eapply shielded_step.
    - by eapply (calm_shielded limit_id own k x1). }
  by apply (sh_kept _ _ _ Hs Hm Hne Hb Hq).
Qed.

(** ** Runs on the concrete kernel *)

#[export] Instance demo_loader : LoaderEnv kern := {|
  le_strerror := fun _ => [];
  le_init := fun _ => LsmIo (inl 4) (inl 9) None None true (Some 6) None None None true 700;
  le_lookup := fun _ => true;
  le_update := fun _ => true
|}.
#[export] Instance demo_loader_laws : LoaderLaws kern 9 700.
Proof. constructor; cbn; intros; simplify_eq; lia. Qed.

(** The runs of the examples. *)
Section runs.
Context (env : SchedEnv (bpf_world kern)).
Abbreviation GX := (sworld (tworld (bpf_world (guarded kern)))).
#[local] Instance genv : SchedEnv (bpf_world (guarded kern)) := guarded_env (base:=env).

Definition gdemo_start : GX :=
  let a := bpf (K:=guarded kern) in
  (init_start a
     (SWorld (set_adapter (Some a) (Some a) sched_zero) (process (unguarded demo_kern), []))).2.
Definition gdemo_up : GX :=
  let r := init_rebuild (init_lsm gdemo_start).2 in (init_trigger r.1 r.2).2.

(** One turn of the worker that nothing interrupts. *)
Definition worker_round (x : GX) : GX :=
  let x1 := (worker_wake x).2 in
  let r := worker_reprobe x1 in
  (worker_refresh (worker_notify_lsm r.1.1 r.1.2 r.2).2).2.
Lemma round_calm x m :
  starting m = false -> (worker_wake x).1 = true -> rtc calm (CState x m WWait) (CState (worker_round x) m WWait).
Proof.
  intros Hm Hw. eapply rtc_l; [split; [apply step_wake|rewrite Hw; cbn; rewrite Hm; by intros []]|]. rewrite Hw.
  eapply rtc_l; [split; [apply step_probe|cbn; rewrite Hm; by intros []]|].
  eapply rtc_l; [split; [apply step_lsm|cbn; rewrite Hm; by intros []]|].
  apply rtc_once. split; [apply step_refresh|cbn; rewrite Hm; by intros []].
Qed.
Lemma calm_steps (c c' : cstate (W:=bpf_world (guarded kern))) : rtc calm c c' -> rtc step c c'.
Proof. apply rtc_subrel. by intros ? ? []. Qed.

Lemma probe_calm x m prev now :
  starting m = false -> (worker_wake x).1 = true -> (worker_reprobe (worker_wake x).2).1 = (prev, now) ->
  rtc calm (CState x m WWait) (CState (worker_reprobe (worker_wake x).2).2 m (WLsm prev now)).
Proof.
  intros Hm Hw Hp. eapply rtc_l; [split; [apply step_wake|rewrite Hw; cbn; rewrite Hm; by intros []]|].
  rewrite Hw. apply rtc_once. pose proof (step_probe (worker_wake x).2 m) as Hs. cbv zeta in Hs. rewrite Hp in Hs.
  split; [done|]. cbn. rewrite Hm. by intros [].
Qed.
Lemma rounds_calm n x m :
  starting m = false -> forallb (fun i => (worker_wake (Nat.iter i worker_round x)).1) (seq 0 n) = true ->
  rtc calm (CState x m WWait) (CState (Nat.iter n worker_round x) m WWait).
Proof.
  intros Hm. induction n as [|n IH]; intros Hn; [apply rtc_refl|]. rewrite seq_S, forallb_app in Hn.
  apply andb_prop in Hn as [Hn Hw]. cbn in Hw. rewrite andb_true_r in Hw.
  etransitivity; [by apply IH|]. by apply round_calm.
Qed.

(** The actions one after the other, if each is one that the theorem admits. *)
Fixpoint act_all (acts : list guard_act) (w : bpf_world (guarded kern)) : option (bpf_world (guarded kern)) :=
  match acts with
  | [] => Some w
  | a :: acts =>
      if act_ok a (guard_of WInitial w) &&
         match a with AEnter c _ _ => negb (bc_tgid c =? 700) | _ => true end
      then s ← guard_step 9 700 a (guard_of WInitial w);
           let k := gd_k (bw_k w) in
           act_all acts (BpfWorld (bw_s w)
             (Guarded (Kern (fst <$> gs_limit s) (kk_stats k) (kk_pinned k) (kk_fds k) (kk_clock k))
                (LsmWorld (gs_g s) (gs_ctrl s) (lw_limit_fds (lsm_of w)))
                (gs_flight s) (gs_ring s) (gs_next s)))
      else None
  end.
Lemma act_all_run acts : forall s w w' l m wk,
  act_all acts w = Some w' ->
  rtc (gstep 9 700) (CState (SWorld s (w, l)) m wk) (CState (SWorld s (w', l)) m wk).
Proof.
  induction acts as [|a acts IH]; intros s w w' l m wk; cbn [act_all]; [intros [= ->]; apply rtc_refl|].
  destruct (_ && _) eqn:E; [|done]. apply andb_prop in E as [Hok Hf].
  destruct (guard_step _ _ _ _) as [sy|] eqn:Hs; [|done]. cbn [mbind option_bind]. intros H.
  eapply rtc_l; [|by apply IH]. eapply gs_act; [by eapply acts_intro| |done].
  destruct a; cbn in *; try done. by apply negb_true_iff, Z.eqb_neq in Hf.
Qed.
End runs.

(** The framework's write of the unlimited quota for interface [p]. *)
Definition framework_write (p : Z) : bpf_call :=
  BpfCall 2 5 (Some p) (Some U64_MAX) [] 800 0 (str "netd")
    (Some (64, fun fd => if fd =? 5 then Some (Some 9) else None)).

(** *** The scheduler and the guard from the start *)

Definition up5 := gdemo_up demo_env.
Definition up7 := Nat.iter 3 (worker_round demo_env) up5.

Lemma demo_pinned : limit_pinned demo_kern.
Proof. reflexivity. Qed.
Lemma up_started : started [adapter_bpf] (process (unguarded demo_kern)) (gdemo_start demo_env).
Proof. exists bpf. split; reflexivity. Qed.

Lemma up5_calm : rtc calm (CState (gdemo_start demo_env) MInit WWait) (CState up5 MIdle WWait).
Proof.
  eapply rtc_l; [split; [apply step_lsm_read|done]|].
  eapply rtc_l; [split; [apply step_lsm_init|intros _; vm_compute; reflexivity]|].
  eapply rtc_l; [split; [apply step_rebuild|intros _; vm_compute; reflexivity]|].
  apply rtc_once. split; [apply step_trigger|intros _; vm_compute; reflexivity].
Qed.
Lemma up7_calm : rtc calm (CState (gdemo_start demo_env) MInit WWait) (CState up7 MIdle WWait).
Proof.
  etransitivity; [apply up5_calm|]. by apply (rounds_calm demo_env 3); [|vm_compute; reflexivity].
Qed.

#[local] Opaque up5 up7 gdemo_start.

(** The worker finds another upstream in its third turn and moves the guard. *)
Lemma guard_follows_witness :
  lsm_active (lsm_at up7) /\ ifindex_of up7 = 7 /\ guards 9 7 700 (lw_ctrl (lsm_at up7)).
Proof.
  assert (Ha : lsm_active (lsm_at up7)) by (vm_compute; split_and!; try reflexivity; left).
  assert (Hi : ifindex_of up7 = 7) by (vm_compute; reflexivity).
  split; [exact Ha|]. split; [exact Hi|]. change 7 with (u32 7). rewrite <- Hi.
  apply (guard_follows 9 700 demo_kern (gdemo_start demo_env) (CState up7 MIdle WWait) demo_pinned
    up_started up7_calm Ha eq_refl).
Defined.

(** The framework lifts the quota of the upstream, the guard answers. *)
Definition lift_and_answer : list guard_act :=
  [AEnter (framework_write 5) 0 true; ALand 0; AConsume 1 true].
Definition answered : sworld (tworld (bpf_world (guarded kern))) :=
  SWorld (sw_sched up5) (default (world_of up5) (act_all lift_and_answer (world_of up5)), (sw_w up5).2).
Lemma answered_run : rtc (gstep 9 700) (CState up5 MIdle WWait) (CState answered MIdle WWait).
Proof.
  pose proof (act_all_run demo_env lift_and_answer (sw_sched up5) (world_of up5)
    (default (world_of up5) (act_all lift_and_answer (world_of up5))) (sw_w up5).2 MIdle WWait) as Hr.
  assert (E : SWorld (sw_sched up5) (world_of up5, (sw_w up5).2) = up5) by (by destruct up5 as [? [? ?]]).
  rewrite E in Hr. apply Hr. vm_compute. reflexivity.
Qed.
#[local] Opaque answered.

Lemma guarded_promise_witness :
  limited_of answered = [str "aa:bb:cc:dd:ee:01"] /\ st_deny (lg_stat (lw_g (lsm_at answered))) = 1 /\
  lmap (world_of answered) !! u32 (ifindex_of answered) <> Some BPF_LIMIT_NONE.
Proof.
  assert (Hl : limited_of answered = [str "aa:bb:cc:dd:ee:01"]) by (vm_compute; reflexivity).
  assert (Hr : ring_at answered = []) by (vm_compute; reflexivity).
  assert (Ha : lsm_active (lsm_at up5)) by (vm_compute; split_and!; try reflexivity; left).
  assert (Hb : adapter_of answered = Some bpf) by reflexivity.
  split; [exact Hl|]. split; [vm_compute; reflexivity|].
  refine (guarded_promise 9 700 demo_kern (gdemo_start demo_env) (CState up5 MIdle WWait)
    (CState answered MIdle WWait) _ demo_pinned up_started up5_calm Ha eq_refl answered_run eq_refl _ Hb Hr).
  - lia.
  - cbn [c_x]. rewrite Hl. discriminate.
Defined.

(** *** Left behind by a notification

    The upstream appears after the scheduler has started; the first limited device finds it
    before the worker does.  The worker's next turns see no change, so the guard keeps
    protecting interface 0. *)
Definition late_env : SchedEnv (bpf_world kern) := {|
  env_detect_upstream := fun w => (if kk_clock (bw_k w) <? 1 then None else Some (5, str "rmnet0"), w);
  env_lsm_init := fun _ w => (0, w);
  env_lsm_update := fun _ w => w;
  env_lsm_shutdown := fun w => w;
  env_rules := fun _ => None;
  env_thread_create := fun _ => 0;
  env_time := fun w => kk_clock (bw_k w)
|}.

Section late.
#[local] Existing Instance late_env.
Definition late1 := worker_round late_env (gdemo_up late_env).
Definition late2 := (hnc_scheduler_notify_device_limit_changed (Some (str "aa:bb:cc:dd:ee:01")) true late1).2.
Definition late3 := worker_round late_env late2.

Lemma late_run : rtc step (CState (gdemo_start late_env) MInit WWait) (CState late3 MIdle WWait).
Proof.
  etransitivity; [apply init_steps|].
  etransitivity; [by apply (calm_steps late_env), (round_calm late_env); [|vm_compute; reflexivity]|].
  eapply rtc_l; [apply step_notify|]. by apply (calm_steps late_env), (round_calm late_env); [|vm_compute; reflexivity].
Qed.

(** From then on the framework lifts the quota of the limited device's upstream, and nothing
    is reported. *)
Lemma guard_left_behind :
  exists c w', rtc step (CState (gdemo_start late_env) MInit WWait) c /\
    c_main c = MIdle /\ c_worker c = WWait /\ limited_of (c_x c) <> [] /\ ifindex_of (c_x c) = 5 /\
    guarding 9 700 0 (lsm_at (c_x c)) /\ throttled 5 (world_of (c_x c)) /\
    act_all [AEnter (framework_write 5) 0 true; ALand 0] (world_of (c_x c)) = Some w' /\
    gd_ring (bw_k w') = [] /\ gd_flight (bw_k w') = [] /\ lmap w' !! 5 = Some BPF_LIMIT_NONE.
Proof.
  assert (Hw : exists w', act_all [AEnter (framework_write 5) 0 true; ALand 0] (world_of late3) = Some w' /\
    gd_ring (bw_k w') = [] /\ gd_flight (bw_k w') = [] /\ lmap w' !! 5 = Some BPF_LIMIT_NONE).
  { eexists. split; [vm_compute; reflexivity|]. by vm_compute. }
  destruct Hw as (w' & Hw). exists (CState late3 MIdle WWait), w'. split; [exact late_run|].
  split; [done|]. split; [done|]. cbn [c_x].
  split; [vm_compute; discriminate|]. split; [vm_compute; reflexivity|].
  split; [|split; [vm_compute; reflexivity|exact Hw]].
  vm_compute. split_and!; try reflexivity; try discriminate. left.
Qed.
End late.

(** *** The gap of a move

    The worker switches the new upstream off and moves the guard to it afterwards; a write in
    between is reported to nobody. *)
Definition gap1 := Nat.iter 2 (worker_round demo_env) up5.
Definition gap2 := worker_reprobe (worker_wake gap1).2.
Definition gap_write : list guard_act := [AEnter (framework_write 7) 0 true; ALand 0].
Definition gap3 : sworld (tworld (bpf_world (guarded kern))) :=
  SWorld (sw_sched gap2.2) (default (world_of gap2.2) (act_all gap_write (world_of gap2.2)), (sw_w gap2.2).2).

Lemma gap1_calm : rtc calm (CState (gdemo_start demo_env) MInit WWait) (CState gap1 MIdle WWait).
Proof. etransitivity; [apply up5_calm|]. by apply (rounds_calm demo_env 2); [|vm_compute; reflexivity]. Qed.
Lemma gap_probe : rtc calm (CState gap1 MIdle WWait) (CState gap2.2 MIdle (WLsm 5 7)).
Proof. apply (probe_calm demo_env); [done|vm_compute; reflexivity..]. Qed.
#[local] Opaque gap1 gap2.

(** The new upstream is switched off, the framework lifts its quota, the guard arrives: the
    quota stays, although the guard protects the upstream and no report waits. *)
Lemma takeover_gap :
  let x4 := (worker_notify_lsm 5 7 gap3).2 in
  rtc calm (CState (gdemo_start demo_env) MInit WWait) (CState gap2.2 MIdle (WLsm 5 7)) /\
  throttled 7 (world_of gap2.2) /\
  rtc (gstep 9 700) (CState gap2.2 MIdle (WLsm 5 7)) (CState gap3 MIdle (WLsm 5 7)) /\
  step (CState gap3 MIdle (WLsm 5 7)) (CState x4 MIdle WRefresh) /\
  guarding 9 700 7 (lsm_at x4) /\ limited_of x4 <> [] /\ ring_at x4 = [] /\
  lmap (world_of x4) !! 7 = Some BPF_LIMIT_NONE.
Proof.
  cbv zeta. split; [etransitivity; [apply gap1_calm|apply gap_probe]|].
  split; [vm_compute; reflexivity|]. split; [|split; [apply step_lsm|]].
  - pose proof (act_all_run demo_env gap_write (sw_sched gap2.2) (world_of gap2.2)
      (default (world_of gap2.2) (act_all gap_write (world_of gap2.2))) (sw_w gap2.2).2 MIdle (WLsm 5 7)) as Hr.
    assert (E : SWorld (sw_sched gap2.2) (world_of gap2.2, (sw_w gap2.2).2) = gap2.2)
      by (by destruct gap2.2 as [? [? ?]]).
    rewrite E in Hr. apply Hr. vm_compute. reflexivity.
  - split; [vm_compute; split_and!; try reflexivity; try discriminate; left|].
    split; [vm_compute; discriminate|]. split; vm_compute; reflexivity.
Qed.

(** Only the unlimited quota is reported: any other one that another process writes over the
    scheduler's zero stays. *)
Lemma finite_quota_unreported :
  exists w', act_all [AEnter (BpfCall 2 5 (Some 5) (Some 1000000000) [] 800 0 (str "netd")
                                (Some (64, fun fd => if fd =? 5 then Some (Some 9) else None))) 0 true; ALand 0]
    (world_of up5) = Some w' /\
    throttled 5 (world_of up5) /\ gd_ring (bw_k w') = [] /\ lmap w' !! 5 = Some 1000000000.
Proof. eexists. split; [vm_compute; reflexivity|]. by vm_compute. Qed.
