(* ===== verification/StatusJson.v ===== *)
(** * The answer to [OFFLOAD_STATUS]

    The text [hnc_scheduler_summary_to_json] builds, with the fragment of the LSM
    guard in it, is one JSON object that fits the daemon's buffer. *)
From S2P Require Import Prelude CStr JsonText Offload Scheduler Lsm LsmSpec.
Local Open Scope Z_scope.

(** What a reader is to see. *)
Definition summary_fields (s : offload_summary) : list (bytes * json) :=
  let stat := su_status s in [
    jfld "adapter" (JObj [
      jfld "name" (JStr (su_adapter_name s));
      jfld "type" (JNum (su_adapter_type s));
      jfld "granularity" (JNum (su_adapter_gran s))]);
    jfld "active" (JBool (st_active stat));
    jfld "last_refresh_ts" (JNum (st_last_refresh_ts stat));
    jfld "last_delta_bytes" (JNum (st_last_delta_bytes stat));
    jfld "globally_disabled" (JBool (st_globally_disabled stat));
    jfld "disabled_upstream_count" (JNum (st_disabled_upstream_count stat));
    jfld "disabled_upstream_ifindex" (JArr (map JNum (st_disabled_upstream_ifindex stat)));
    jfld "limited_device_count" (JNum (su_limited_device_count s));
    jfld "primary_upstream_ifindex" (JNum (su_primary_upstream_ifindex s));
    jfld "primary_upstream_ifname" (JStr (su_primary_upstream_ifname s));
    jfld "worker_running" (JBool (su_worker_running s));
    jfld "worker_last_refresh_ts" (JNum (su_worker_last_refresh_ts s));
    jfld "worker_refresh_count" (JNum (su_worker_refresh_count s))].

Definition int32 (z : Z) : Prop := - 2 ^ 31 <= z < 2 ^ 32.
Definition int64 (z : Z) : Prop := LONG_MIN <= z <= ULONG_MAX.

(** The sizes of the C types, the eight records of switched-off upstreams, and
    texts that need no escape. *)
Record summary_ok (s : offload_summary) : Prop := SummaryOk {
  so_name : plain (su_adapter_name s) = true /\ (length (su_adapter_name s) < 32)%nat;
  so_ifname : plain (su_primary_upstream_ifname s) = true /\ (length (su_primary_upstream_ifname s) < 16)%nat;
  so_count : st_disabled_upstream_count (su_status s)
             = Z.of_nat (length (st_disabled_upstream_ifindex (su_status s)));
  so_eight : (length (st_disabled_upstream_ifindex (su_status s)) <= 8)%nat;
  so_ifindex : Forall int32 (st_disabled_upstream_ifindex (su_status s));
  so_ints : Forall int32 [su_adapter_type s; su_adapter_gran s; su_limited_device_count s;
                          su_primary_upstream_ifindex s];
  so_longs : Forall int64 [st_last_refresh_ts (su_status s); st_last_delta_bytes (su_status s);
                           su_worker_last_refresh_ts s; su_worker_refresh_count s]
}.

Record lsm_status_ok (st : lsm_status) : Prop := LsmStatusOk {
  lo_comm : plain (st_comm st) = true /\ (length (st_comm st) < 16)%nat;
  lo_reason : plain (st_reason st) = true /\ (length (st_reason st) < 128)%nat;
  lo_nums : Forall int64 [st_map_id st; st_ifindex st; st_pid st; st_deny st; st_allow st; st_last_ts st]
}.

(** ** The array of switched-off upstreams *)

Lemma dis_arr_loop_items l : forall acc first,
  Forall int32 l -> (length acc + 12 * length l < 128)%nat ->
  dis_arr_loop acc first l = Some (acc ++ print_items first (map JNum l)) /\
  (length (print_items first (map JNum l)) <= 12 * length l)%nat.
Proof.
  induction l as [|x l IH]; intros acc first Hl Hlen; cbn [dis_arr_loop map print_items length].
  { rewrite app_nil_r. split; [done|lia]. }
  apply Forall_cons in Hl as [Hx Hl]. pose proof (dec_length_32 x Hx) as Hd. cbn [length] in Hlen.
  assert (Hp : (length ((if first then [] else [44%Z]) ++ dec x) <= 12)%nat)
    by (rewrite length_app; destruct first; cbn [length]; lia).
  rewrite (proj2 (Nat.leb_gt _ _)) by lia.
  destruct (IH (acc ++ (if first then [] else [44]) ++ dec x) false) as [-> Hlt];
    [done|rewrite length_app; lia|].
  cbn [print_json]. rewrite !length_app in *. rewrite <- !app_assoc. split; [done|lia].
Qed.

Lemma dis_arr_print l :
  Forall int32 l -> (length l <= 8)%nat ->
  dis_arr (Z.of_nat (length l)) l = print_json (JArr (map JNum l)) /\
  (length (dis_arr (Z.of_nat (length l)) l) <= 98)%nat.
Proof.
  intros Hl Hlen. unfold dis_arr. rewrite Nat2Z.id, firstn_all.
  destruct l as [|x l]; [split; [done|vm_compute; lia]|].
  rewrite (proj2 (Z.ltb_lt 0 _)) by (cbn [length]; lia).
  destruct (dis_arr_loop_items (x :: l) [91] true Hl) as [-> Hlt]; [cbn [length] in *; lia|].
  rewrite take_ge by (rewrite length_app; cbn [length] in *; lia).
  rewrite print_json_arr. split; [done|]. rewrite !length_app. cbn [length] in *. lia.
Qed.

(** ** The whole text *)

Lemma summary_text s fld :
  summary_ok s -> summary_base s ++ print_field fld ++ [125] = print_json (JObj (summary_fields s ++ [fld])).
Proof.
  intros [[Hn _] [Hi _] Hcount H8 Hifs _ _]. unfold summary_base, summary_fields, jfield. cbn zeta.
  rewrite Hcount, (proj1 (dis_arr_print _ Hifs H8)).
  generalize (map JNum (st_disabled_upstream_ifindex (su_status s))) as items. intros items.
  cbn [app]. json_text.
Qed.

Lemma summary_base_length s :
  summary_ok s -> (length (summary_base s) <= 31 + 15 + 98 + 3 * 5 + 5 * 11 + 4 * 20 + 400)%nat.
Proof.
  intros [[_ Hn] [_ Hi] Hcount H8 Hifs Hints Hlongs]. unfold summary_base, jfield. cbn zeta.
  pose proof (proj2 (dis_arr_print _ Hifs H8)) as Harr. rewrite <- Hcount in Harr.
  repeat (apply Forall_cons in Hints as [?%dec_length_32 Hints]).
  repeat (apply Forall_cons in Hlongs as [?%dec_length_64 Hlongs]).
  assert (Hc : (length (dec (st_disabled_upstream_count (su_status s))) <= 11)%nat)
    by (apply dec_length_32; lia).
  pose proof (jbool_length (st_active (su_status s))). pose proof (jbool_length (st_globally_disabled (su_status s))).
  pose proof (jbool_length (su_worker_running s)).
  rewrite !length_app, !key_length, !quoted_length. cbn [length String.length str map String.list_ascii_of_string]. lia.
Qed.

Lemma status_fragment_length st :
  lsm_status_ok st -> (length (status_fragment st) <= 15 + 127 + 6 * 20 + 250)%nat.
Proof.
  intros [[_ Hc] [_ Hr] Hnums]. unfold status_fragment.
  repeat (apply Forall_cons in Hnums as [?%dec_length_64 Hnums]).
  assert (Hs : (length (state_str (st_state st)) <= 13)%nat) by (destruct (st_state st); vm_compute; lia).
  rewrite !length_app, !key_length, !quoted_length. cbn [length String.length]. lia.
Qed.

Lemma summary_value_ok s st :
  summary_ok s -> plain (st_comm st) = true -> plain (st_reason st) = true ->
  json_ok (JObj (summary_fields s ++ [lsm_field st])).
Proof.
  intros [[Hn _] [Hi _] _ _ _ _ _] Hc Hr. pose proof (lsm_field_ok st Hc Hr). unfold summary_fields. cbn zeta.
  apply (ok_obj (_ ++ _)). change (Forall field_ok (?a ++ ?b)) with (Forall field_ok (a ++ b)).
  apply Forall_app. split; [|by constructor].
  change (Forall field_ok (summary_fields s)). unfold summary_fields. cbn zeta. json_wf.
  apply ok_arr, Forall_map, Forall_true. intros z. apply ok_num.
Qed.

Definition STATUS_BUF : nat := Z.to_nat 2048.

(** C28: when the texts in it need no escapes (the names of the adapter, of the interface and of the last
    caller, and the reason), the answer to [OFFLOAD_STATUS], with the fragment of the LSM guard, fits its
    buffer and is one JSON object that shows every field of the summary and of the guard's
    status. *)
Theorem offload_status_readable (s : offload_summary) (st : lsm_status) :
  summary_ok s -> lsm_status_ok st ->
  exists text, hnc_scheduler_summary_to_json s (hnc_lsm_status_to_json_fragment st) STATUS_BUF = Some text /\
    parse_json text = Some (JObj (summary_fields s ++ [lsm_field st])) /\ (length text < STATUS_BUF)%nat.
Proof.
  intros Hs Hst. pose proof (summary_base_length s Hs). pose proof (status_fragment_length st Hst).
  assert (Hbuf : STATUS_BUF = (1024 + 1024)%nat) by by vm_compute. rewrite Hbuf.
  unfold hnc_scheduler_summary_to_json, hnc_lsm_status_to_json_fragment.
  rewrite (proj2 (Nat.leb_gt (1024 + 1024) (length (summary_base s)))) by lia.
  rewrite (proj2 (Nat.leb_gt (1024 + 1024 - _) _)) by lia.
  rewrite (proj2 (Nat.leb_gt (1024 + 1024) (_ + 2))) by (rewrite length_app; lia).
  eexists. split; [done|]. split; [|rewrite !length_app; cbn [length]; lia].
  destruct Hst as [[Hc _] [Hr _] _]. rewrite status_fragment_field, <- app_assoc by done.
  rewrite summary_text by done. apply parse_print_json. by apply summary_value_ok.
Qed.

Ltac ranges :=
  repeat (apply Forall_cons; split); [..|apply Forall_nil; exact I]; unfold int32, int64, LONG_MIN, ULONG_MAX; lia.

(** The BPF adapter at work with two upstreams, one limited device. *)
Definition sample_summary : offload_summary :=
  OffloadSummary (str "bpf") 1 2 (OffloadStatus true 1700000000 123456 2 [30; 31] false) 1 30 (str "rmnet_data0")
    true 1700000005 7.
Definition sample_status : lsm_status := LsmStatus HNC_LSM_ACTIVE 9 30 700 2 0 5 (str "netd") [].

Lemma offload_status_readable_witness :
  summary_ok sample_summary /\ lsm_status_ok sample_status /\
  exists text, hnc_scheduler_summary_to_json sample_summary (hnc_lsm_status_to_json_fragment sample_status) STATUS_BUF
               = Some text /\
    parse_json text = Some (JObj (summary_fields sample_summary ++ [lsm_field sample_status])) /\
    (length text < STATUS_BUF)%nat.
Proof.
  assert (Hs : summary_ok sample_summary).
  { constructor; cbn; [split; [reflexivity|lia]..|reflexivity|lia|ranges|ranges|ranges]. }
  assert (Ht : lsm_status_ok sample_status).
  { constructor; cbn; [split; [reflexivity|lia]..|ranges]. }
  split; [exact Hs|]. split; [exact Ht|]. exact (offload_status_readable sample_summary sample_status Hs Ht).
Defined.
