(* ===== verification/TcIngress.v ===== *)
(** * Installing the ingress redirect ([tc_netlink/hnc_tc_ingress.c])

    The tool builds two rtnetlink requests byte by byte (the clsact qdisc and a matchall
    filter with a mirred action), sends each and waits for its acknowledgement.  The
    outcomes of the socket calls are arguments; numbers are little-endian. *)
From S2P Require Import Prelude CStr Wire Stdio.
Local Open Scope Z_scope.

(** ** Constants *)
Definition HNC_TC_H_INGRESS_PARENT : Z := 4294967282.  (* 0xFFFFFFF2 *)
Definition HNC_TC_H_CLSACT_HANDLE : Z := 4294901760.   (* 0xFFFF0000 *)
Definition TC_H_CLSACT : Z := 4294967281.              (* 0xFFFFFFF1 *)
Definition RTNL_REQ_BUF_SIZE : Z := 1024.
Definition RC_OK : Z := 0.
Definition RC_IFACE_NOT_FOUND : Z := 1.
Definition RC_IFB_NOT_FOUND : Z := 2.
Definition RC_NETLINK_ERROR : Z := 3.
Definition RC_USAGE : Z := 4.

Definition NLMSG_ERROR : Z := 2.
Definition RTM_NEWQDISC : Z := 36.
Definition RTM_NEWTFILTER : Z := 44.
(** [NLM_F_REQUEST | NLM_F_CREATE | NLM_F_EXCL | NLM_F_ACK] *)
Definition REQ_FLAGS : Z := Z.lor 1 (Z.lor 1024 (Z.lor 512 4)).
Definition NLA_F_NESTED : Z := 32768.
Definition TCA_KIND : Z := 1.
Definition TCA_OPTIONS : Z := 2.
Definition TCA_MATCHALL_ACT : Z := 2.
Definition TCA_ACT_KIND : Z := 1.
Definition TCA_ACT_OPTIONS : Z := 2.
Definition TCA_MIRRED_PARMS : Z := 2.
Definition TC_ACT_STOLEN : Z := 4.
Definition TCA_EGRESS_REDIR : Z := 1.
Definition ETH_P_ALL : Z := 3.
Definition EIO : Z := 5.
Definition EEXIST : Z := 17.
Definition EPROTO : Z := 71.
Definition EMSGSIZE : Z := 90.

(** ** Attributes *)

(** The fixed part of a request and the bytes of its attributes: [nlmsg_len] is always
    36 and the number of these bytes. *)
Record tcmsg := TcMsg {
  tcm_family : Z; tcm_ifindex : Z; tcm_handle : Z; tcm_parent : Z; tcm_info : Z
}.
Record nlreq := NlReq { nr_type : Z; nr_flags : Z; nr_tcm : tcmsg; nr_attrs : bytes }.

Definition NLHDR_LEN : Z := 16.
Definition TCMSG_LEN : Z := 20.
(** [sizeof(req)] *)
Definition REQ_SIZE : Z := NLHDR_LEN + TCMSG_LEN + RTNL_REQ_BUF_SIZE.

Definition nlmsg_len (n : nlreq) : Z := NLHDR_LEN + TCMSG_LEN + Z.of_nat (length (nr_attrs n)).
Definition set_attrs (a : bytes) (n : nlreq) : nlreq := NlReq (nr_type n) (nr_flags n) (nr_tcm n) a.

(** Fallible steps: [inl] is a negative errno. *)
Definition err (A : Type) : Type := Z + A.
Definition ebind {A B} (m : err A) (f : A -> err B) : err B :=
  match m with inl e => inl e | inr a => f a end.

(** Zeroed bytes of the request up to its next aligned length. *)
Definition align_attrs (n : nlreq) : bytes :=
  nr_attrs n ++ replicate (Z.to_nat (align4 (nlmsg_len n) - nlmsg_len n)) 0.

(** [addattr_l]: the attribute is written behind the aligned length, which then covers it
    and its padding. *)
Definition addattr_l (n : nlreq) (maxlen type : Z) (data : bytes) : err nlreq :=
  let len := 4 + Z.of_nat (length data) in
  if maxlen <? align4 (nlmsg_len n) + align4 len then inl (- EMSGSIZE)
  else inr (set_attrs (align_attrs n ++ le16 len ++ le16 type ++ data
                       ++ replicate (Z.to_nat (align4 len - len)) 0) n).

(** [addattr_nest]: the place of the nested attribute in the attributes. *)
Definition addattr_nest (n : nlreq) (maxlen type : Z) : err (nlreq * nat) :=
  ebind (addattr_l n maxlen type []) (fun n' => inr (n', length (align_attrs n))).

(** [addattr_nest_end]: the length from the place on, in 16 bits. *)
Definition addattr_nest_end (n : nlreq) (nest : nat) : nlreq :=
  let a := nr_attrs n in
  let len := (align4 (nlmsg_len n) - NLHDR_LEN - TCMSG_LEN - Z.of_nat nest) mod 65536 in
  set_attrs (take nest a ++ le16 len ++ drop (nest + 2) a) n.

(** ** The requests *)

(** A C string with its terminating NUL. *)
Definition cstring (s : string) : bytes := str s ++ [0].

Definition clsact_request (ifindex : Z) : err nlreq :=
  addattr_l (NlReq RTM_NEWQDISC REQ_FLAGS (TcMsg 0 ifindex HNC_TC_H_CLSACT_HANDLE TC_H_CLSACT 0) [])
    REQ_SIZE TCA_KIND (cstring "clsact").

(** [struct tc_mirred]: the five words of [tc_gen], [eaction], [ifindex]. *)
Definition tc_mirred (ifb_ifindex : Z) : bytes :=
  le32 0 ++ le32 0 ++ le32 TC_ACT_STOLEN ++ le32 0 ++ le32 0 ++ le32 TCA_EGRESS_REDIR ++ le32 ifb_ifindex.

Definition append_mirred_action (n : nlreq) (maxlen ifb_ifindex : Z) : err nlreq :=
  ebind (addattr_l n maxlen TCA_ACT_KIND (cstring "mirred")) (fun n =>
  ebind (addattr_nest n maxlen (Z.lor TCA_ACT_OPTIONS NLA_F_NESTED)) (fun '(n, act_opts) =>
  ebind (addattr_l n maxlen TCA_MIRRED_PARMS (tc_mirred ifb_ifindex)) (fun n =>
  inr (addattr_nest_end n act_opts)))).

Definition htons (z : Z) : Z := Z.lor (Z.shiftl (Z.land z 255) 8) (Z.shiftr z 8).
(** [TC_H_MAKE] *)
Definition TC_H_MAKE (maj min : Z) : Z := Z.lor (Z.land maj 4294901760) (Z.land min 65535).

Definition matchall_request (iface_ifindex ifb_ifindex prio : Z) : err nlreq :=
  let n := NlReq RTM_NEWTFILTER REQ_FLAGS
             (TcMsg 0 iface_ifindex 0 HNC_TC_H_INGRESS_PARENT (TC_H_MAKE (u32 (Z.shiftl prio 16)) (htons ETH_P_ALL))) [] in
  ebind (addattr_l n REQ_SIZE TCA_KIND (cstring "matchall")) (fun n =>
  ebind (addattr_nest n REQ_SIZE TCA_OPTIONS) (fun '(n, options) =>
  ebind (addattr_nest n REQ_SIZE TCA_MATCHALL_ACT) (fun '(n, ma_act) =>
  ebind (addattr_nest n REQ_SIZE 1) (fun '(n, act_1) =>
  ebind (append_mirred_action n REQ_SIZE ifb_ifindex) (fun n =>
  let n := addattr_nest_end n act_1 in
  let n := addattr_nest_end n ma_act in
  inr (addattr_nest_end n options)))))).

(** What is sent: the header with the sequence number, [struct tcmsg], the attributes. *)
Definition tcm_bytes (t : tcmsg) : bytes :=
  [tcm_family t; 0; 0; 0] ++ le32 (tcm_ifindex t) ++ le32 (tcm_handle t) ++ le32 (tcm_parent t)
  ++ le32 (tcm_info t).
Definition wire (seq : Z) (n : nlreq) : bytes :=
  le32 (nlmsg_len n) ++ le16 (nr_type n) ++ le16 (nr_flags n) ++ le32 seq ++ le32 0
  ++ tcm_bytes (nr_tcm n) ++ nr_attrs n.

(** ** Sending and the acknowledgement *)

(** The outcome of [sendto] and the outcomes of the calls of [recvmsg], a datagram being its
    bytes; errors carry their errno. *)
Inductive send_out := Sent (n : Z) | SendErr (e : Z).
Inductive recv_out := Datagram (d : bytes) | RecvErr (e : Z).

Definition EINTR : Z := 4.

(** One turn of the loop over the messages of a datagram: the offset and the bytes that
    are left, which [NLMSG_OK] sees as a [size_t].  [inr (Some rc)] is a result, [inr None]
    the end of the datagram; [None] is a read behind the datagram. *)
Definition ack_state : Type := nat * Z.
Definition ack_step (seq : Z) (d : bytes) (s : ack_state) : ack_state + option (option Z) :=
  let '(off, len) := s in
  if negb (16 <=? u64 len) then inr (Some None)
  else
    match rd32 d off, rd16 d (off + 4), rd32 d (off + 8) with
    | Some hlen, Some type, Some hseq =>
        if negb ((16 <=? hlen) && (hlen <=? u64 len)) then inr (Some None)
        else if negb (hseq =? seq) then inl ((off + Z.to_nat (align4 hlen))%nat, len - align4 hlen)
        else if type =? NLMSG_ERROR then
          match rd32 d (off + 16) with
          | None => inr None
          | Some e =>
              let error := s32 e in
              if error =? 0 then inr (Some (Some 0))
              else if error =? - EEXIST then inr (Some (Some 0))
              else inr (Some (Some error))
          end
        else inr (Some (Some (- EPROTO)))
    | _, _, _ => inr None
    end.
Definition ack_datagram (seq : Z) (d : bytes) : option (option Z) :=
  match loop (ack_step seq d) (S (length d)) (0%nat, Z.of_nat (length d)) with
  | Some r => r
  | None => None
  end.

(** What [rtnl_send_ack] comes to: a return value and the outcomes that are left, more to
    wait for, or a read outside of a datagram. *)
Inductive ack_result := AckRc (rc : Z) (rest : list recv_out) | AckWaits | AckOverrun.

Fixpoint ack_loop (seq : Z) (rs : list recv_out) : ack_result :=
  match rs with
  | [] => AckWaits
  | RecvErr e :: rs => if e =? EINTR then ack_loop seq rs else AckRc (- e) rs
  | Datagram d :: rs =>
      if bool_decide (d = []) then AckRc (- EIO) rs
      else match ack_datagram seq d with
           | None => AckOverrun
           | Some (Some rc) => AckRc rc rs
           | Some None => ack_loop seq rs
           end
  end.

(** [rtnl_send_ack]: the new [g_seq] and the result. *)
Definition rtnl_send_ack (g_seq : Z) (n : nlreq) (sent : send_out) (rs : list recv_out) : Z * ack_result :=
  let seq := u32 (g_seq + 1) in
  (seq, match sent with
        | SendErr e => AckRc (- e) rs
        | Sent k => if negb (k =? nlmsg_len n) then AckRc (- EIO) rs else ack_loop seq rs
        end).

(** ** The program *)

(** What [main] meets: [if_nametoindex], whether the socket can be opened and bound, the
    clock and the process, the outcomes of the two sends and of the receives. *)
Record tc_env := TcEnv {
  te_index : bytes -> Z;
  te_socket : bool;
  te_bind : bool;
  te_time : Z;
  te_pid : Z;
  te_send1 : send_out;
  te_send2 : send_out;
  te_recv : list recv_out
}.

(** [rtnl_open]: [g_seq], which was 0, or [None] for -1. *)
Definition rtnl_seed (time pid : Z) : Z :=
  let g_seq := u32 (Z.lxor time (u32 (Z.shiftl (u32 pid) 16))) in
  if g_seq =? 0 then 1 else g_seq.
Definition rtnl_open (env : tc_env) : option Z :=
  if negb (te_socket env) then None
  else if negb (te_bind env) then None
  else Some (rtnl_seed (te_time env) (te_pid env)).

(** The priority given as an argument. *)
Definition parse_prio (arg : option bytes) : option Z :=
  match arg with
  | None => Some 1
  | Some s =>
      match scan_ld s with
      | Some (v, []) => if (v <? 1) || (65535 <? v) then None else Some v
      | _ => None
      end
  end.

(** The exit code; [None] when the program waits, [Some None] when it reads outside of a
    datagram. *)
Definition exit_of (a : ack_result) (k : list recv_out -> option (option Z)) : option (option Z) :=
  match a with
  | AckWaits => None
  | AckOverrun => Some None
  | AckRc rc rest => if rc <? 0 then Some (Some RC_NETLINK_ERROR) else k rest
  end.

Definition tc_main (args : list bytes) (env : tc_env) : option (option Z) :=
  match args with
  | iface :: ifb_iface :: prio =>
      if (1 <? length prio)%nat then Some (Some RC_USAGE)
      else match parse_prio (head prio) with
      | None => Some (Some RC_USAGE)
      | Some prio =>
          let iface_idx := te_index env iface in
          if iface_idx =? 0 then Some (Some RC_IFACE_NOT_FOUND)
          else
            let ifb_idx := te_index env ifb_iface in
            if ifb_idx =? 0 then Some (Some RC_IFB_NOT_FOUND)
            else match rtnl_open env with
            | None => Some (Some RC_NETLINK_ERROR)
            | Some g_seq =>
                match clsact_request iface_idx with
                | inl e => if e <? 0 then Some (Some RC_NETLINK_ERROR) else None
                | inr n =>
                    let '(g_seq, a) := rtnl_send_ack g_seq n (te_send1 env) (te_recv env) in
                    exit_of a (fun rest =>
                      match matchall_request iface_idx ifb_idx prio with
                      | inl e => if e <? 0 then Some (Some RC_NETLINK_ERROR) else None
                      | inr n => exit_of (rtnl_send_ack g_seq n (te_send2 env) rest).2
                                   (fun _ => Some (Some RC_OK))
                      end)
                end
            end
      end
  | _ => Some (Some RC_USAGE)
  end.
