(* ===== verification/TcIngressSpec.v ===== *)
(** * What the tool installs

    The requests against a reader of netlink messages, the acknowledgements against the
    messages of the kernel, and the program against any kernel that keeps to the documented
    rules for the two requests. *)
From S2P Require Import Prelude CStr Wire Stdio.
From S2P Require Import TcIngress.
Local Open Scope Z_scope.

(** ** A reader of requests *)

(** The attributes of a text, with the flag for nesting taken off their types. *)
Fixpoint parse_attrs (fuel : nat) (s : bytes) : option (list (Z * bytes)) :=
  match s, fuel with
  | [], _ => Some []
  | _, O => None
  | _, S fuel =>
      len ← rd16 s 0;
      type ← rd16 s 2;
      if (4 <=? len) && (len <=? Z.of_nat (length s)) then
        rest ← parse_attrs fuel (drop (Z.to_nat (align4 len)) s);
        Some ((Z.land type 32767, take (Z.to_nat len - 4) (drop 4 s)) :: rest)
      else None
  end.
Definition attrs_of (s : bytes) : option (list (Z * bytes)) := parse_attrs (length s) s.

Fixpoint attr_get (type : Z) (l : list (Z * bytes)) : option bytes :=
  match l with
  | [] => None
  | (t, v) :: l => if t =? type then Some v else attr_get type l
  end.

(** An action of a filter: its place, its kind, what is done with the packet and with the copy, the
    interface. *)
Record tc_action := TcAction {
  ac_index : Z; ac_kind : bytes; ac_action : Z; ac_eaction : Z; ac_ifindex : Z
}.
Inductive tc_request :=
| NewQdisc (ifindex parent handle : Z) (kind : bytes)
| NewFilter (ifindex parent prio protocol : Z) (kind : bytes) (actions : list tc_action).

Definition read_action (a : Z * bytes) : option tc_action :=
  attrs ← attrs_of a.2;
  kind ← attr_get TCA_ACT_KIND attrs;
  opts ← attr_get TCA_ACT_OPTIONS attrs ≫= attrs_of;
  parms ← attr_get TCA_MIRRED_PARMS opts;
  action ← rd32 parms 8; eaction ← rd32 parms 20; ifindex ← rd32 parms 24;
  Some (TcAction a.1 kind action eaction ifindex).

(** A request that asks to create and not to replace, and for an acknowledgement, with its
    sequence number. *)
Definition read_request (d : bytes) : option (Z * tc_request) :=
  len ← rd32 d 0; type ← rd16 d 4; flags ← rd16 d 6; seq ← rd32 d 8;
  ifindex ← rd32 d 20; handle ← rd32 d 24; parent ← rd32 d 28; info ← rd32 d 32;
  if (len =? Z.of_nat (length d)) && (flags =? 1541) then
    attrs ← attrs_of (drop 36 d);
    kind ← attr_get TCA_KIND attrs;
    if type =? RTM_NEWQDISC then Some (seq, NewQdisc ifindex parent handle kind)
    else if type =? RTM_NEWTFILTER then
      opts ← attr_get TCA_OPTIONS attrs ≫= attrs_of;
      acts ← attr_get TCA_MATCHALL_ACT opts ≫= attrs_of;
      actions ← mapM read_action acts;
      Some (seq, NewFilter ifindex parent (info / 65536) (info mod 65536) kind actions)
    else None
  else None.

(** *** Reading what was written *)

Definition plain_type (a : Z * bytes) : Prop := attr_ok a /\ 0 <= a.1 < 65536.
Definition unflag (a : Z * bytes) : Z * bytes := (Z.land a.1 32767, a.2).

Lemma at_off_0 buf : at_off buf 0 buf.
Proof. exists []. by rewrite app_nil_r. Qed.

Lemma parse_attrs_enc l : forall fuel,
  Forall plain_type l -> (length (enc_attrs l) <= fuel)%nat ->
  parse_attrs fuel (enc_attrs l) = Some (map unflag l).
Proof.
  induction l as [|a l IH]; intros fuel Hok Hf; [by destruct fuel|].
  apply Forall_cons in Hok as [[Ha Ht] Hok]. pose proof (enc_attr_length a Ha) as Hal.
  unfold enc_attrs in *. cbn [map concat] in *. set (tl := concat (map enc_attr l)) in *.
  assert (Hlen : length (enc_attr a) = (4 + length a.2 + pad4 (length a.2))%nat).
  { unfold enc_attr. rewrite !length_app, length_replicate. cbn. lia. }
  rewrite length_app in Hf. destruct fuel as [|fuel]; [lia|].
  assert (Hdrop : drop (length (enc_attr a)) (enc_attr a ++ tl) = tl) by apply drop_app_length.
  assert (Hne : exists c s, enc_attr a ++ tl = c :: s) by (unfold enc_attr, le16; by eexists _, _).
  assert (Hat : at_off (enc_attr a ++ tl) 0 (enc_attr a)) by by exists tl.
  assert (Hx : length (enc_attr a ++ tl) = (length (enc_attr a) + length tl)%nat) by apply length_app.
  generalize dependent (enc_attr a ++ tl). intros x Hdrop Hne Hat Hx. unfold enc_attr in Hat.
  apply at_off_app in Hat as [H0 Hat]. change (length (le16 _)) with 2%nat in Hat.
  apply at_off_app in Hat as [H2 Hat]. change (length (le16 _)) with 2%nat in Hat.
  apply at_off_app in Hat as [[r H4] _]. cbn [Nat.add] in H2, H4.
  destruct Hne as (c & s & Hne). cbn [parse_attrs]. rewrite Hne at 1. cbn iota.
  rewrite (rd16_at _ _ _ H0). cbn [mbind option_bind]. rewrite (rd16_at _ _ _ H2). cbn [mbind option_bind].
  rewrite Hal, H4, Nat2Z.id, Hdrop. rewrite (proj2 (Z.leb_le 4 _)), (proj2 (Z.leb_le _ (Z.of_nat _))) by lia. cbn [andb].
  rewrite IH by (done || lia). cbn [mbind option_bind]. unfold unflag.
  replace (Z.to_nat (4 + Z.of_nat (length a.2)) - 4)%nat with (length a.2) by lia.
  by rewrite take_app_length.
Qed.

Lemma attrs_of_enc l : Forall plain_type l -> attrs_of (enc_attrs l) = Some (map unflag l).
Proof. intros Hl. by apply parse_attrs_enc. Qed.

(** ** What is built *)

Definition mirred_attrs (ifb : Z) : list (Z * bytes) :=
  [(TCA_ACT_KIND, cstring "mirred");
   (Z.lor TCA_ACT_OPTIONS NLA_F_NESTED, enc_attrs [(TCA_MIRRED_PARMS, tc_mirred ifb)])].
Definition options_attrs (ifb : Z) : list (Z * bytes) :=
  [(TCA_MATCHALL_ACT, enc_attrs [(1, enc_attrs (mirred_attrs ifb))])].
Definition filter_attrs (ifb : Z) : list (Z * bytes) :=
  [(TCA_KIND, cstring "matchall"); (TCA_OPTIONS, enc_attrs (options_attrs ifb))].

Lemma clsact_request_built i :
  clsact_request i = inr (NlReq RTM_NEWQDISC REQ_FLAGS (TcMsg 0 i HNC_TC_H_CLSACT_HANDLE TC_H_CLSACT 0)
                            (enc_attrs [(TCA_KIND, cstring "clsact")])).
Proof. reflexivity. Qed.

(** The nested lengths are patched to what the reader expects. *)
Lemma matchall_request_built i b prio :
  matchall_request i b prio
  = inr (NlReq RTM_NEWTFILTER REQ_FLAGS
           (TcMsg 0 i 0 HNC_TC_H_INGRESS_PARENT (TC_H_MAKE (u32 (Z.shiftl prio 16)) (htons ETH_P_ALL)))
           (enc_attrs (filter_attrs b))).
Proof.
  unfold matchall_request, filter_attrs, options_attrs, mirred_attrs, append_mirred_action, tc_mirred.
  generalize (TcMsg 0 i 0 HNC_TC_H_INGRESS_PARENT (TC_H_MAKE (u32 (Z.shiftl prio 16)) (htons ETH_P_ALL))).
  intros t. assert (Hb : exists x0 x1 x2 x3, le32 b = [x0; x1; x2; x3]) by by eexists _, _, _, _.
  destruct Hb as (x0 & x1 & x2 & x3 & ->). vm_compute. reflexivity.
Qed.

(** ** What is read *)

(** The next piece of a concatenation, and the rest at offset [n]. *)
Ltac at_next H K n :=
  apply at_off_app in H as [K H]; change (_ + length _)%nat with n in H.

Lemma wire_read seq n :
  let d := wire seq n in
  rd32 d 0 = Some (nlmsg_len n) /\ rd16 d 4 = Some (nr_type n) /\ rd16 d 6 = Some (nr_flags n) /\
  rd32 d 8 = Some seq /\ rd32 d 20 = Some (tcm_ifindex (nr_tcm n)) /\
  rd32 d 24 = Some (tcm_handle (nr_tcm n)) /\ rd32 d 28 = Some (tcm_parent (nr_tcm n)) /\
  rd32 d 32 = Some (tcm_info (nr_tcm n)) /\ drop 36 d = nr_attrs n /\ Z.of_nat (length d) = nlmsg_len n.
Proof.
  intros d. pose proof (at_off_0 d) as H. unfold d at 2, wire, tcm_bytes in H.
  rewrite <- !app_assoc in H.
  at_next H H0 4%nat. at_next H H4 6%nat. at_next H H6 8%nat. at_next H H8 12%nat. at_next H H12 16%nat.
  at_next H H16 20%nat. at_next H H20 24%nat. at_next H H24 28%nat. at_next H H28 32%nat.
  at_next H H32 36%nat.
  repeat (split; [by first [apply rd32_at|apply rd16_at]|]). split.
  - unfold d, wire, tcm_bytes. reflexivity.
  - unfold d, wire, tcm_bytes, nlmsg_len, NLHDR_LEN, TCMSG_LEN. rewrite !length_app.
    change (length [_; _; _; _]) with 4%nat. change (length (le32 _)) with 4%nat.
    change (length (le16 _)) with 2%nat. lia.
Qed.

Lemma tcm_info_prio prio :
  1 <= prio <= 65535 -> TC_H_MAKE (u32 (Z.shiftl prio 16)) (htons ETH_P_ALL) = prio * 65536 + 768.
Proof.
  intros Hp. change (htons ETH_P_ALL) with 768. unfold TC_H_MAKE. change (Z.land 768 65535) with 768.
  rewrite Z.shiftl_mul_pow2 by lia. change (2 ^ 16) with 65536. rewrite u32_small by lia.
  assert (Hl : Z.land (prio * 65536) 4294901760 = prio * 65536).
  { change 4294901760 with (Z.shiftl (Z.ones 16) 16). change 65536 with (2 ^ 16).
    rewrite <- Z.shiftl_mul_pow2, <- Z.shiftl_land, Z.land_ones by lia. rewrite Z.mod_small by lia. done. }
  rewrite Hl. pose proof (lor_shiftl_add prio 768 16 ltac:(lia) ltac:(lia)) as H.
  rewrite Z.shiftl_mul_pow2 in H by lia. exact H.
Qed.

(** The two requests in the reader's terms. *)
Definition qdisc_request (i : Z) : tc_request :=
  NewQdisc i TC_H_CLSACT HNC_TC_H_CLSACT_HANDLE (cstring "clsact").
Definition redirect_request (i b prio : Z) : tc_request :=
  NewFilter i HNC_TC_H_INGRESS_PARENT prio 768 (cstring "matchall")
    [TcAction 1 (cstring "mirred") TC_ACT_STOLEN TCA_EGRESS_REDIR b].

Lemma read_clsact seq i :
  exists n, clsact_request i = inr n /\ read_request (wire seq n) = Some (seq, qdisc_request i).
Proof.
  eexists. split; [apply clsact_request_built|]. unfold read_request.
  destruct (wire_read seq (NlReq RTM_NEWQDISC REQ_FLAGS (TcMsg 0 i HNC_TC_H_CLSACT_HANDLE TC_H_CLSACT 0)
              (enc_attrs [(TCA_KIND, cstring "clsact")])))
    as (-> & -> & -> & -> & -> & -> & -> & -> & -> & ->).
  cbn [mbind option_bind nr_flags nr_tcm nr_type nr_attrs tcm_ifindex tcm_handle tcm_parent tcm_info].
  rewrite Z.eqb_refl. change (REQ_FLAGS =? 1541) with true. cbn [andb].
  rewrite attrs_of_enc by (by repeat constructor). reflexivity.
Qed.

Lemma read_action_enc b :
  read_action (1, enc_attrs (mirred_attrs b)) = Some (TcAction 1 (cstring "mirred") TC_ACT_STOLEN TCA_EGRESS_REDIR b).
Proof.
  unfold read_action. cbn [fst snd]. rewrite attrs_of_enc by (by repeat constructor).
  change (map unflag (mirred_attrs b)) with [(1, cstring "mirred"); (2, enc_attrs [(TCA_MIRRED_PARMS, tc_mirred b)])].
  cbn [mbind option_bind].
  change (attr_get TCA_ACT_KIND _) with (Some (cstring "mirred")). cbn [mbind option_bind].
  change (attr_get TCA_ACT_OPTIONS _) with (Some (enc_attrs [(TCA_MIRRED_PARMS, tc_mirred b)])).
  cbn [mbind option_bind]. rewrite attrs_of_enc by (by repeat constructor). cbn [mbind option_bind].
  change (attr_get TCA_MIRRED_PARMS _) with (Some (tc_mirred b)). cbn [mbind option_bind].
  pose proof (at_off_0 (tc_mirred b)) as H. unfold tc_mirred at 2 in H.
  at_next H H0 4%nat. at_next H H4 8%nat. at_next H H8 12%nat. at_next H H12 16%nat. at_next H H16 20%nat.
  at_next H H20 24%nat.
  rewrite (rd32_at _ _ _ H8), (rd32_at _ _ _ H20), (rd32_at _ _ _ H). done.
Qed.

Lemma read_matchall seq i b prio :
  1 <= prio <= 65535 ->
  exists n, matchall_request i b prio = inr n /\ read_request (wire seq n) = Some (seq, redirect_request i b prio).
Proof.
  intros Hp. eexists. split; [apply matchall_request_built|]. rewrite tcm_info_prio by done. unfold read_request.
  destruct (wire_read seq (NlReq RTM_NEWTFILTER REQ_FLAGS (TcMsg 0 i 0 HNC_TC_H_INGRESS_PARENT (prio * 65536 + 768))
              (enc_attrs (filter_attrs b))))
    as (-> & -> & -> & -> & -> & -> & -> & -> & -> & ->).
  cbn [mbind option_bind nr_flags nr_tcm nr_type nr_attrs tcm_ifindex tcm_handle tcm_parent tcm_info].
  rewrite Z.eqb_refl. change (REQ_FLAGS =? 1541) with true. cbn [andb].
  rewrite attrs_of_enc by (by repeat constructor).
  change (map unflag (filter_attrs b)) with [(1, cstring "matchall"); (2, enc_attrs (options_attrs b))].
  cbn [mbind option_bind]. change (attr_get TCA_KIND _) with (Some (cstring "matchall")). cbn [mbind option_bind].
  change (RTM_NEWTFILTER =? RTM_NEWQDISC) with false. change (RTM_NEWTFILTER =? RTM_NEWTFILTER) with true.
  cbn iota. change (attr_get TCA_OPTIONS _) with (Some (enc_attrs (options_attrs b))). cbn [mbind option_bind].
  rewrite attrs_of_enc by (by repeat constructor). cbn [mbind option_bind].
  change (attr_get TCA_MATCHALL_ACT _) with (Some (enc_attrs [(1, enc_attrs (mirred_attrs b))])).
  cbn [mbind option_bind]. rewrite attrs_of_enc by (by repeat constructor). cbn [mbind option_bind].
  change (map unflag [(1, enc_attrs (mirred_attrs b))]) with [(1, enc_attrs (mirred_attrs b))].
  cbn [mapM]. rewrite read_action_enc. cbn [mbind option_bind mret option_ret]. unfold redirect_request.
  rewrite Z.div_add_l by lia. rewrite (Z.add_comm (prio * 65536)), Z.mod_add by lia.
  change (768 / 65536) with 0. change (768 mod 65536) with 768. by rewrite Z.add_0_r.
Qed.

(** ** Acknowledgements *)

(** A message of the kernel, padded to four bytes; that of an error starts with the code. *)
Record reply := Reply { rp_type : Z; rp_flags : Z; rp_seq : Z; rp_pid : Z; rp_body : bytes }.
Definition enc_reply (r : reply) : bytes :=
  le32 (16 + Z.of_nat (length (rp_body r))) ++ le16 (rp_type r) ++ le16 (rp_flags r) ++ le32 (rp_seq r)
  ++ le32 (rp_pid r) ++ rp_body r ++ replicate (pad4 (length (rp_body r))) 0.
Definition enc_replies (rs : list reply) : bytes := concat (map enc_reply rs).

Definition RTNL_RECV_BUF_SIZE : nat := Z.to_nat 8192.
Definition reply_ok (r : reply) : Prop :=
  rp_type r = NLMSG_ERROR -> exists e rest, rp_body r = le32 (u32 e) ++ rest /\ - 2 ^ 31 <= e < 2 ^ 31.
Definition datagram_ok (rs : list reply) : Prop :=
  rs <> [] /\ Forall reply_ok rs /\ (length (enc_replies rs) <= RTNL_RECV_BUF_SIZE)%nat.

(** What a reply means for the request: 0 for success and for a thing that exists already. *)
Definition reply_rc (r : reply) : Z :=
  if rp_type r =? NLMSG_ERROR then
    let error := s32 (default 0 (rd32 (rp_body r) 0)) in
    if error =? - EEXIST then 0 else error
  else - EPROTO.
(** The first reply to request [seq] decides. *)
Fixpoint answer (seq : Z) (rs : list reply) : option Z :=
  match rs with
  | [] => None
  | r :: rs => if rp_seq r =? seq then Some (reply_rc r) else answer seq rs
  end.

Lemma enc_reply_length r :
  Z.of_nat (length (rp_body r)) < 2 ^ 31 ->
  align4 (16 + Z.of_nat (length (rp_body r))) = Z.of_nat (length (enc_reply r)) /\ (16 <= length (enc_reply r))%nat.
Proof.
  intros Hr. rewrite align4_spec by lia. unfold enc_reply. rewrite !length_app, length_replicate.
  change (length (le16 _)) with 2%nat. change (length (le32 _)) with 4%nat. split; [|lia]. unfold pad4.
  generalize dependent (length (rp_body r)). intros n Hn. rewrite !Nat2Z.inj_add, !Nat2Z.inj_mod.
  rewrite Nat2Z.inj_sub, Nat2Z.inj_mod by (pose proof (Nat.mod_upper_bound n 4); lia).
  Z.to_euclidean_division_equations. lia.
Qed.

Lemma ack_step_reply seq d off r rest :
  at_off d off (enc_reply r) -> reply_ok r -> 0 <= rest ->
  Z.of_nat (length (enc_reply r)) + rest < 2 ^ 31 ->
  ack_step seq d (off, Z.of_nat (length (enc_reply r)) + rest)
  = if rp_seq r =? seq then inr (Some (Some (reply_rc r)))
    else inl ((off + length (enc_reply r))%nat, rest).
Proof.
  intros Hat Hok Hrest Hlen.
  assert (Hb : Z.of_nat (length (rp_body r)) < 2 ^ 31).
  { unfold enc_reply in Hlen. rewrite !length_app in Hlen. lia. }
  destruct (enc_reply_length r Hb) as [Hal Hge]. pose proof Hat as H. unfold enc_reply in H.
  assert (Hle : 16 + Z.of_nat (length (rp_body r)) <= Z.of_nat (length (enc_reply r))).
  { unfold enc_reply. rewrite !length_app. change (length (le16 _)) with 2%nat. change (length (le32 _)) with 4%nat. lia. }
  apply at_off_app in H as [H0 H]. change (length (le32 _)) with 4%nat in H.
  apply at_off_app in H as [H4 H]. change (length (le16 _)) with 2%nat in H.
  apply at_off_app in H as [H6 H]. change (length (le16 _)) with 2%nat in H.
  apply at_off_app in H as [H8 H]. change (length (le32 _)) with 4%nat in H.
  apply at_off_app in H as [_ H]. change (length (le32 _)) with 4%nat in H.
  apply at_off_app in H as [H16 _].
  replace (off + 4 + 2 + 2)%nat with (off + 8)%nat in H8 by lia.
  replace (off + 4 + 2 + 2 + 4 + 4)%nat with (off + 16)%nat in H16 by lia.
  unfold ack_step. rewrite u64_small by lia. rewrite (proj2 (Z.leb_le 16 (_ + rest))) by lia. cbn [negb].
  rewrite (rd32_at _ _ _ H0), (rd16_at _ _ _ H4), (rd32_at _ _ _ H8).
  rewrite (proj2 (Z.leb_le 16 (16 + _))), (proj2 (Z.leb_le _ (_ + rest))) by lia. cbn [andb negb].
  destruct (rp_seq r =? seq); cbn [negb].
  - unfold reply_rc. destruct (rp_type r =? NLMSG_ERROR) eqn:Et; [|done]. bool_simpl.
    destruct (Hok Et) as (e & tl & Hbody & He). rewrite Hbody in *.
    apply at_off_app in H16 as [H16 _]. rewrite (rd32_at _ _ _ H16).
    rewrite (rd32_at (le32 (u32 e) ++ tl) 0 (u32 e)) by by exists tl. cbn [default].
    change (id (u32 e)) with (u32 e). generalize (s32 (u32 e)). intros error.
    destruct (Z.eqb_spec error 0) as [->|]; [done|]. by destruct (error =? - EEXIST).
  - rewrite Hal, Nat2Z.id. do 2 f_equal. lia.
Qed.

Lemma ack_loop_replies seq d rs : forall off fuel,
  at_off d off (enc_replies rs) -> Forall reply_ok rs -> Z.of_nat (length (enc_replies rs)) < 2 ^ 31 ->
  (length rs < fuel)%nat ->
  loop (ack_step seq d) fuel (off, Z.of_nat (length (enc_replies rs))) = Some (Some (answer seq rs)).
Proof.
  induction rs as [|r rs IH]; intros off fuel Hat Hok Hlen Hf; (destruct fuel as [|fuel]; [lia|]); rewrite loop_S; [done|].
  apply Forall_cons in Hok as [Hr Hok]. unfold enc_replies in *. cbn [map concat] in *.
  apply at_off_app in Hat as [Ha Hat]. rewrite length_app, Nat2Z.inj_add in *.
  rewrite ack_step_reply by (done || lia). cbn [answer]. destruct (rp_seq r =? seq); [done|].
  apply IH; [done|done|lia|cbn in Hf; lia].
Qed.

(** A datagram of whole messages is read to its end and not further. *)
Lemma ack_datagram_replies seq rs :
  datagram_ok rs -> ack_datagram seq (enc_replies rs) = Some (answer seq rs).
Proof.
  intros (Hne & Hok & Hlen). unfold ack_datagram.
  assert (Hs : Z.of_nat (length (enc_replies rs)) < 2 ^ 31) by (unfold RTNL_RECV_BUF_SIZE in Hlen; lia).
  rewrite ack_loop_replies; [done|apply at_off_0|done|done|].
  assert (Hge : (length rs <= length (enc_replies rs))%nat); [|lia]. clear.
  induction rs as [|r rs IH]; [done|]. unfold enc_replies in *. cbn [map concat length]. rewrite length_app.
  assert (1 <= length (enc_reply r))%nat by (unfold enc_reply, le32, le16; cbn; lia). lia.
Qed.

(** What comes before the answer: interrupted calls and datagrams for others. *)
Inductive noise (seq : Z) : list recv_out -> Prop :=
| noise_nil : noise seq []
| noise_intr rs : noise seq rs -> noise seq (RecvErr EINTR :: rs)
| noise_stray d rs : datagram_ok d -> answer seq d = None -> noise seq rs ->
    noise seq (Datagram (enc_replies d) :: rs).

Lemma enc_replies_ne rs : rs <> [] -> enc_replies rs <> [].
Proof. destruct rs as [|r rs]; [done|]. intros _. unfold enc_replies, enc_reply, le32, le16. by cbn. Qed.

Lemma ack_loop_noise seq pre d rest rc :
  noise seq pre -> datagram_ok d -> answer seq d = Some rc ->
  ack_loop seq (pre ++ Datagram (enc_replies d) :: rest) = AckRc rc rest.
Proof.
  intros Hn Hd Ha. induction Hn as [|rs _ IH|d' rs Hd' Ha' _ IH]; cbn [app ack_loop].
  - rewrite bool_decide_eq_false_2 by (apply enc_replies_ne, Hd). by rewrite ack_datagram_replies, Ha.
  - done.
  - rewrite bool_decide_eq_false_2 by (apply enc_replies_ne, Hd'). by rewrite ack_datagram_replies, Ha'.
Qed.

(** ** A kernel *)

(** A kernel that handles the two requests: its answer is 0 or a negative errno; it has a
    qdisc of some kind at the ingress side of some interfaces, and there filters by priority,
    with their kind and actions. *)
Definition tc_filter : Type := bytes * list tc_action.
Class TcKernel (K : Type) := {
  tk_handle : tc_request -> K -> Z * K;
  tk_qdisc : Z -> K -> option bytes;
  tk_filter : Z -> Z -> K -> option tc_filter
}.
Definition refused (e : Z) : Prop := - 2 ^ 31 < e < 0 /\ e <> - EEXIST.

(** What the tool asks for. *)
Definition clsact : bytes := cstring "clsact".
Definition redirect_to (b : Z) : tc_filter :=
  (cstring "matchall", [TcAction 1 (cstring "mirred") TC_ACT_STOLEN TCA_EGRESS_REDIR b]).

(** The documented rules for requests with [NLM_F_CREATE | NLM_F_EXCL]: a thing that exists,
    of the wanted kind or of another, is left alone, with [EEXIST] or another error; a new one is
    created and nothing else changes, or the request is refused and nothing changes. *)
Class TcLaws (K : Type) `{!TcKernel K} := {
  law_qdisc i k :
    let '(e, k') := tk_handle (qdisc_request i) k in
    match tk_qdisc i k with
    | Some _ => (e = - EEXIST \/ refused e) /\ k' = k
    | None =>
        e = 0 /\ tk_qdisc i k' = Some clsact /\ (forall j, j <> i -> tk_qdisc j k' = tk_qdisc j k) /\
          (forall j p, tk_filter j p k' = tk_filter j p k) \/
        refused e /\ k' = k
    end;
  law_filter i b p k :
    let '(e, k') := tk_handle (redirect_request i b p) k in
    match tk_filter i p k with
    | Some _ => (e = - EEXIST \/ refused e) /\ k' = k
    | None =>
        e = 0 /\ tk_filter i p k' = Some (redirect_to b) /\ (forall j, tk_qdisc j k' = tk_qdisc j k) /\
          (forall j q, (j, q) <> (i, p) -> tk_filter j q k' = tk_filter j q k) \/
        refused e /\ k' = k
    end
}.

(** The request that an acknowledgement repeats fits the receive buffer with it. *)
Definition ECHO_MAX : nat := Z.to_nat 8000.

(** The acknowledgement of request [seq] with code [e]; the kernel appends the request. *)
Definition ack (seq e : Z) (echo : bytes) : list reply :=
  [Reply NLMSG_ERROR 0 seq 0 (le32 (u32 e) ++ echo)].

Lemma answer_ack seq e echo :
  - 2 ^ 31 <= e < 2 ^ 31 -> answer seq (ack seq e echo) = Some (if e =? - EEXIST then 0 else e).
Proof.
  intros He. cbn [answer ack rp_seq]. rewrite Z.eqb_refl. unfold reply_rc. cbn [rp_type rp_body].
  rewrite (rd32_at (le32 (u32 e) ++ echo) 0 (u32 e)) by by exists echo.
  change (NLMSG_ERROR =? NLMSG_ERROR) with true. cbn iota. change (default 0 (Some (u32 e))) with (u32 e).
  by rewrite s32_u32 by lia.
Qed.

Lemma ack_ok seq e echo :
  - 2 ^ 31 <= e < 2 ^ 31 -> (length echo <= ECHO_MAX)%nat -> datagram_ok (ack seq e echo).
Proof.
  intros He Hl. split; [done|]. split.
  - apply Forall_singleton. intros _. by exists e, echo.
  - unfold ack, enc_replies, enc_reply. cbn [map concat rp_body]. rewrite !length_app, length_replicate.
    change (length (le32 _)) with 4%nat. change (length (le16 _)) with 2%nat. cbn [length].
    unfold RTNL_RECV_BUF_SIZE, ECHO_MAX, pad4 in *.
    pose proof (Nat.mod_upper_bound (4 - (4 + length echo) mod 4) 4). lia.
Qed.

(** Each request is sent whole and answered by the kernel, after any noise. *)
Record served {K} `{!TcKernel K} (env : tc_env) (i b p g : Z) (k k1 k2 : K) (e1 e2 : Z) : Prop := Served {
  sv_seq : rtnl_open env = Some g;
  sv_send1 n : clsact_request i = inr n -> te_send1 env = Sent (nlmsg_len n);
  sv_send2 n : matchall_request i b p = inr n -> te_send2 env = Sent (nlmsg_len n);
  sv_handle1 n s r : clsact_request i = inr n -> read_request (wire (u32 (g + 1)) n) = Some (s, r) ->
    s = u32 (g + 1) /\ tk_handle r k = (e1, k1);
  sv_handle2 n s r : matchall_request i b p = inr n ->
    read_request (wire (u32 (u32 (g + 1) + 1)) n) = Some (s, r) ->
    s = u32 (u32 (g + 1) + 1) /\ tk_handle r k1 = (e2, k2);
  sv_recv : exists pre1 echo1 pre2 echo2 rest,
    noise (u32 (g + 1)) pre1 /\ noise (u32 (u32 (g + 1) + 1)) pre2 /\
    (length echo1 <= ECHO_MAX)%nat /\ (length echo2 <= ECHO_MAX)%nat /\
    te_recv env = pre1 ++ Datagram (enc_replies (ack (u32 (g + 1)) e1 echo1)) ::
                  pre2 ++ Datagram (enc_replies (ack (u32 (u32 (g + 1) + 1)) e2 echo2)) :: rest
}.

Lemma send_ack_served g n rs pre e echo rest :
  let seq := u32 (g + 1) in
  rs = pre ++ Datagram (enc_replies (ack seq e echo)) :: rest ->
  noise seq pre -> - 2 ^ 31 <= e < 2 ^ 31 -> (length echo <= ECHO_MAX)%nat ->
  rtnl_send_ack g n (Sent (nlmsg_len n)) rs = (seq, AckRc (if e =? - EEXIST then 0 else e) rest).
Proof.
  intros seq -> Hn He Hl. unfold rtnl_send_ack. fold seq. rewrite Z.eqb_refl. cbn [negb]. f_equal.
  apply ack_loop_noise; [done|by apply ack_ok|by apply answer_ack].
Qed.

Definition ok_code (e : Z) : bool := (e =? 0) || (e =? - EEXIST).

Lemma refused_code e : refused e -> ok_code e = false.
Proof. unfold refused, ok_code. intros [He Hn]. apply orb_false_iff. rewrite !Z.eqb_neq. lia. Qed.

(** The kernel's answers. *)
Definition answer_code (e : Z) : Prop := e = 0 \/ e = - EEXIST \/ refused e.
Lemma answer_codes {K} `{!TcKernel K, !TcLaws K} i b p (k : K) :
  answer_code (tk_handle (qdisc_request i) k).1 /\ answer_code (tk_handle (redirect_request i b p) k).1.
Proof.
  pose proof (law_qdisc i k) as H1. pose proof (law_filter i b p k) as H2.
  destruct (tk_handle (qdisc_request i) k) as [e1 k1], (tk_handle (redirect_request i b p) k) as [e2 k2].
  unfold answer_code. cbn [fst]. destruct (tk_qdisc i k), (tk_filter i p k); naive_solver.
Qed.
Lemma answer_code_range e : answer_code e -> - 2 ^ 31 <= e < 2 ^ 31 /\ ((e <? 0) = true \/ e = 0).
Proof. rewrite Z.ltb_lt. unfold answer_code, refused, EEXIST. lia. Qed.

Lemma exit_of_ok e rest k :
  (e <? 0) = true \/ e = 0 ->
  exit_of (AckRc (if e =? - EEXIST then 0 else e) rest) k
  = if ok_code e then k rest else Some (Some RC_NETLINK_ERROR).
Proof.
  unfold ok_code, exit_of. intros [He| ->]; [|done]. bool_simpl. rewrite (proj2 (Z.eqb_neq e 0)) by lia. cbn [orb].
  destruct (e =? - EEXIST); [done|]. by rewrite (proj2 (Z.ltb_lt _ _)).
Qed.

Lemma parse_prio_range arg p : parse_prio arg = Some p -> 1 <= p <= 65535.
Proof.
  unfold parse_prio. destruct arg as [s|]; [|by intros [= <-]].
  destruct (scan_ld s) as [[v [|]]|]; try done. destruct (_ || _) eqn:E; [done|]. intros [= <-]. bool_simpl. lia.
Qed.

Lemma tc_main_served {K} `{!TcKernel K, !TcLaws K} (iface ifb : bytes) (pargs : list bytes) (env : tc_env)
    (i b p g : Z) (k k1 k2 : K) (e1 e2 : Z) :
  (length pargs <= 1)%nat -> parse_prio (head pargs) = Some p ->
  te_index env iface = i -> te_index env ifb = b -> i <> 0 -> b <> 0 ->
  served env i b p g k k1 k2 e1 e2 ->
  tk_handle (qdisc_request i) k = (e1, k1) /\ tk_handle (redirect_request i b p) k1 = (e2, k2) /\
  tc_main (iface :: ifb :: pargs) env
  = Some (Some (if ok_code e1 then (if ok_code e2 then RC_OK else RC_NETLINK_ERROR) else RC_NETLINK_ERROR)).
Proof.
  intros Hargs Hprio Hi Hb Hi0 Hb0 Hs.
  assert (Hp : 1 <= p <= 65535) by by eapply parse_prio_range.
  destruct (read_clsact (u32 (g + 1)) i) as (n1 & Hn1 & Hr1).
  destruct (read_matchall (u32 (u32 (g + 1) + 1)) i b p Hp) as (n2 & Hn2 & Hr2).
  destruct (sv_handle1 _ _ _ _ _ _ _ _ _ _ Hs n1 _ _ Hn1 Hr1) as [_ Hk1].
  destruct (sv_handle2 _ _ _ _ _ _ _ _ _ _ Hs n2 _ _ Hn2 Hr2) as [_ Hk2].
  split; [done|]. split; [done|].
  pose proof (answer_codes i b p k) as [A1 _]. pose proof (answer_codes i b p k1) as [_ A2].
  rewrite Hk1 in A1. rewrite Hk2 in A2. cbn [fst] in A1, A2.
  destruct (answer_code_range e1 A1) as [He1 Hc1], (answer_code_range e2 A2) as [He2 Hc2].
  destruct (sv_recv _ _ _ _ _ _ _ _ _ _ Hs) as (pre1 & echo1 & pre2 & echo2 & rest & Hno1 & Hno2 & Hl1 & Hl2 & Hrecv).
  unfold tc_main. rewrite (proj2 (Nat.ltb_ge _ _)) by lia. rewrite Hprio, Hi, Hb.
  rewrite (proj2 (Z.eqb_neq i 0)), (proj2 (Z.eqb_neq b 0)) by done.
  rewrite (sv_seq _ _ _ _ _ _ _ _ _ _ Hs), Hn1, (sv_send1 _ _ _ _ _ _ _ _ _ _ Hs n1 Hn1).
  rewrite (send_ack_served g n1 _ _ _ _ _ Hrecv Hno1 He1 Hl1).
  rewrite exit_of_ok by done. destruct (ok_code e1); [|done].
  rewrite Hn2, (sv_send2 _ _ _ _ _ _ _ _ _ _ Hs n2 Hn2).
  rewrite (send_ack_served (u32 (g + 1)) n2 _ _ _ _ _ eq_refl Hno2 He2 Hl2). cbn [snd].
  rewrite exit_of_ok by done. by destruct (ok_code e2).
Qed.

(** Each request is refused and changes nothing, or what it asks for is there, from before or
    new. *)
Lemma qdisc_step {K} `{!TcKernel K, !TcLaws K} i (k k1 : K) e1 :
  tk_handle (qdisc_request i) k = (e1, k1) ->
  refused e1 /\ k1 = k \/
  ok_code e1 = true /\ tk_qdisc i k1 = Some (default clsact (tk_qdisc i k)) /\
    (forall j, j <> i -> tk_qdisc j k1 = tk_qdisc j k) /\ (forall j p, tk_filter j p k1 = tk_filter j p k).
Proof.
  intros H. pose proof (law_qdisc i k) as L. rewrite H in L.
  destruct (tk_qdisc i k) as [q|] eqn:Eq.
  - destruct L as [[->|Hr] ->]; [right|by left]. by rewrite Eq.
  - destruct L as [(-> & L)|?]; [by right|by left].
Qed.
Lemma filter_step {K} `{!TcKernel K, !TcLaws K} i b p (k k2 : K) e2 :
  tk_handle (redirect_request i b p) k = (e2, k2) ->
  refused e2 /\ k2 = k \/
  ok_code e2 = true /\ tk_filter i p k2 = Some (default (redirect_to b) (tk_filter i p k)) /\
    (forall j, tk_qdisc j k2 = tk_qdisc j k) /\
    (forall j q, (j, q) <> (i, p) -> tk_filter j q k2 = tk_filter j q k).
Proof.
  intros H. pose proof (law_filter i b p k) as L. rewrite H in L.
  destruct (tk_filter i p k) as [c|] eqn:Ec.
  - destruct L as [[->|Hr] ->]; [right|by left]. by rewrite Ec.
  - destruct L as [(-> & L)|?]; [by right|by left].
Qed.

(** ** The theorems *)

(** C22: the two requests, as the bytes that are sent, are read by the kernel's format as what
    the tool is for: a clsact qdisc on the interface, and a matchall filter of the given
    priority for all protocols on its ingress side whose one action takes the packet and
    redirects it to the second interface; every nested length is right. *)
Theorem tc_requests_understood (seq i b prio : Z) :
  1 <= prio <= 65535 ->
  exists n1 n2, clsact_request i = inr n1 /\ matchall_request i b prio = inr n2 /\
    read_request (wire seq n1) = Some (seq, NewQdisc i TC_H_CLSACT HNC_TC_H_CLSACT_HANDLE (cstring "clsact")) /\
    read_request (wire seq n2)
    = Some (seq, NewFilter i HNC_TC_H_INGRESS_PARENT prio 768 (cstring "matchall")
                   [TcAction 1 (cstring "mirred") TC_ACT_STOLEN TCA_EGRESS_REDIR b]) /\
    Z.of_nat (length (wire seq n1)) = nlmsg_len n1 /\ Z.of_nat (length (wire seq n2)) = nlmsg_len n2.
Proof.
  intros Hp. destruct (read_clsact seq i) as (n1 & H1 & R1). destruct (read_matchall seq i b prio Hp) as (n2 & H2 & R2).
  exists n1, n2. split_and!; [done..| |]; apply wire_read.
Qed.

(** C15: against any kernel that follows the documented rules, when both requests are delivered
    whole and answered, whatever messages for others and interruptions come between: the
    tool exits with 0 or 3.  With 0 the interface has a qdisc at its ingress side, the one it had
    or a new clsact, and at the priority the filter it had, of whatever kind, or, when there was
    none, the redirect of every packet to the second interface.  With 3 the kernel refused one of the requests: the
    first, and nothing has changed, or the second, and only the qdisc may be new.  In either
    case no qdisc of another interface and no other filter changes. *)
Theorem tc_install {K} `{!TcKernel K, !TcLaws K} (iface ifb : bytes) (pargs : list bytes) (env : tc_env)
    (i b p g : Z) (k k1 k2 : K) (e1 e2 : Z) :
  (length pargs <= 1)%nat -> parse_prio (head pargs) = Some p ->
  te_index env iface = i -> te_index env ifb = b -> i <> 0 -> b <> 0 ->
  served env i b p g k k1 k2 e1 e2 ->
  let final := if ok_code e1 then k2 else k in
  let qdisc := Some (default clsact (tk_qdisc i k)) in
  exists rc, tc_main (iface :: ifb :: pargs) env = Some (Some rc) /\
  (rc = RC_OK /\ tk_qdisc i final = qdisc /\
     tk_filter i p final = Some (default (redirect_to b) (tk_filter i p k)) \/
   rc = RC_NETLINK_ERROR /\
     (refused e1 /\ final = k \/ refused e2 /\ tk_qdisc i final = qdisc /\ tk_filter i p final = tk_filter i p k)) /\
  (forall j, j <> i -> tk_qdisc j final = tk_qdisc j k) /\
  (forall j q, (j, q) <> (i, p) -> tk_filter j q final = tk_filter j q k).
Proof.
  intros Ha Hp Hi Hb Hi0 Hb0 Hs. destruct (tc_main_served iface ifb pargs env i b p g k k1 k2 e1 e2 Ha Hp Hi Hb Hi0 Hb0 Hs)
    as (Hk1 & Hk2 & Hm).
  destruct (qdisc_step _ _ _ _ Hk1) as [(Hr1 & ->)|(Ho1 & Q1 & Q1' & F1)].
  { rewrite (refused_code e1 Hr1) in *. eexists. split; [exact Hm|]. split; [|done]. right. split; [done|by left]. }
  rewrite Ho1 in *. eexists. split; [exact Hm|].
  destruct (filter_step _ _ _ _ _ _ Hk2) as [(Hr2 & ->)|(Ho2 & F2 & Q2 & F2')].
  - rewrite (refused_code e2 Hr2). split; [|by auto]. right. split; [done|]. right. by rewrite Q1, F1.
  - rewrite Ho2. split; [left; by rewrite Q2, Q1, F2, F1|]. split.
    + intros j Hj. by rewrite Q2, Q1'.
    + intros j q Hne. by rewrite F2', F1.
Qed.

(** ** What it does not promise *)

(** A message that is not padded to four bytes at the end of a datagram makes the number of
    bytes left negative, which the [size_t] of [NLMSG_OK] takes for a huge one: the loop
    goes on behind the datagram. *)
Lemma ack_unaligned_overrun :
  ack_datagram 1 (le32 17 ++ le16 3 ++ le16 0 ++ le32 9 ++ le32 0 ++ [0]) = None.
Proof. by vm_compute. Qed.

(** ** Examples *)

(** A kernel that has interfaces with a qdisc and filters. *)
Record demo_kernel := DemoKernel { dk_qdiscs : gmap Z bytes; dk_filters : gmap (Z * Z) tc_filter }.
#[export] Instance demo_tc : TcKernel demo_kernel := {|
  tk_handle r k :=
    match r with
    | NewQdisc i _ _ kind =>
        match dk_qdiscs k !! i with
        | Some _ => (- EEXIST, k)
        | None => (0, DemoKernel (<[i := kind]> (dk_qdiscs k)) (dk_filters k))
        end
    | NewFilter i _ p _ kind acts =>
        match dk_filters k !! (i, p) with
        | Some (kind', _) => (if bool_decide (kind' = kind) then - EEXIST else -22, k)
        | None => (0, DemoKernel (dk_qdiscs k) (<[(i, p) := (kind, acts)]> (dk_filters k)))
        end
    end;
  tk_qdisc i k := dk_qdiscs k !! i;
  tk_filter i p k := dk_filters k !! (i, p)
|}.
#[export] Instance demo_laws : TcLaws demo_kernel.
Proof.
  split.
  - intros i k. cbn. destruct (dk_qdiscs k !! i) eqn:E; [by split; [left|]|]. left. cbn.
    split_and!; [done|apply lookup_insert_eq| |done]. intros j Hne. by apply lookup_insert_ne.
  - intros i b p k. cbn. destruct (dk_filters k !! (i, p)) as [[kind acts]|] eqn:E; cbn.
    + split; [|done]. case_bool_decide; [by left|by right].
    + left. split_and!; [done|apply lookup_insert_eq|done|]. intros j q Hne. by apply lookup_insert_ne.
Qed.

Definition demo_env : tc_env := {|
  te_index := fun name => if bool_decide (name = str "wlan2") then 31
                          else if bool_decide (name = str "ifb0") then 40 else 0;
  te_socket := true;
  te_bind := true;
  te_time := 65636;
  te_pid := 1;
  te_send1 := Sent 48;
  te_send2 := Sent 112;
  te_recv := [RecvErr EINTR; Datagram (enc_replies (ack 101 0 [])); Datagram (enc_replies (ack 102 0 []))]
|}.

Lemma demo_served :
  served demo_env 31 40 1 100 (DemoKernel ∅ ∅) (DemoKernel {[31 := clsact]} ∅)
    (DemoKernel {[31 := clsact]} {[(31, 1) := redirect_to 40]}) 0 0.
Proof.
  split.
  - done.
  - intros n Hn. rewrite clsact_request_built in Hn. injection Hn as <-. by vm_compute.
  - intros n Hn. rewrite matchall_request_built in Hn. injection Hn as <-. by vm_compute.
  - intros n s r Hn Hr. destruct (read_clsact (u32 (100 + 1)) 31) as (n' & Hn' & Hr').
    rewrite Hn' in Hn. injection Hn as <-. rewrite Hr' in Hr. injection Hr as <- <-. split; by vm_compute.
  - intros n s r Hn Hr. destruct (read_matchall (u32 (u32 (100 + 1) + 1)) 31 40 1 ltac:(lia)) as (n' & Hn' & Hr').
    rewrite Hn' in Hn. injection Hn as <-. rewrite Hr' in Hr. injection Hr as <- <-. split; by vm_compute.
  - exists [RecvErr EINTR], [], [], [], []. split_and!; [by repeat constructor|constructor|cbn; lia|cbn; lia|done].
Qed.

Lemma tc_install_witness :
  tc_main [str "wlan2"; str "ifb0"] demo_env = Some (Some RC_OK) /\
  exists rc, tc_main [str "wlan2"; str "ifb0"] demo_env = Some (Some rc) /\ (rc = RC_OK \/ rc = RC_NETLINK_ERROR).
Proof.
  split; [by vm_compute|].
  pose proof (tc_install (str "wlan2") (str "ifb0") [] demo_env 31 40 1 100 _ _ _ 0 0
              (le_S _ _ (le_n 0)) eq_refl eq_refl eq_refl ltac:(done) ltac:(done) demo_served) as H.
  cbv zeta in H. destruct H as (rc & Hrc & Hor & _). exists rc. split; [exact Hrc|].
  destruct Hor as [[Hor _]|[Hor _]]; [left|right]; exact Hor.
Defined.

Lemma tc_requests_understood_witness :
  exists n1 n2, clsact_request 31 = inr n1 /\ matchall_request 31 40 7 = inr n2 /\
    Z.of_nat (length (wire 1 n2)) = nlmsg_len n2.
Proof.
  destruct (tc_requests_understood 1 31 40 7 ltac:(lia)) as (n1 & n2 & H1 & H2 & _ & _ & _ & H3).
  exists n1, n2. split; [exact H1|]. split; [exact H2|exact H3].
Defined.

(** A filter of the same priority that redirects elsewhere counts as installed, and so does an old
    ingress qdisc in place of clsact. *)
Definition foreign : demo_kernel := DemoKernel {[31 := cstring "ingress"]} {[(31, 1) := redirect_to 99]}.
Lemma other_redirect_accepted :
  tc_main [str "wlan2"; str "ifb0"]
    (TcEnv (te_index demo_env) true true 65636 1 (Sent 48) (Sent 112)
       [Datagram (enc_replies (ack 101 (tk_handle (qdisc_request 31) foreign).1 []));
        Datagram (enc_replies (ack 102 (tk_handle (redirect_request 31 40 1) foreign).1 []))])
  = Some (Some RC_OK) /\
  (tk_handle (redirect_request 31 40 1) foreign).2 = foreign.
Proof. by vm_compute. Qed.

(** The first sequence number is a 32-bit word other than 0. *)
Lemma rtnl_open_seq env g : rtnl_open env = Some g -> 0 < g < 2 ^ 32.
Proof.
  unfold rtnl_open. destruct (te_socket env); [|done]. destruct (te_bind env); [|done]. cbn [negb].
  intros [= <-]. unfold rtnl_seed. pose proof (u32_range (Z.lxor (te_time env) (u32 (Z.shiftl (u32 (te_pid env)) 16)))).
  destruct (Z.eqb_spec (u32 (Z.lxor (te_time env) (u32 (Z.shiftl (u32 (te_pid env)) 16)))) 0); lia.
Qed.
