(* ===== verification/OffloadCtl.v ===== *)
(** * The commands [offload_ctl] and [platform_probe] ([tools/])

    Two programs that a user runs by hand: each is a process of its own that probes the
    platform, elects an adapter and calls it, without the daemon.  Their results are the
    exit code and the standard output; [None] is a probe of the platform that writes
    behind a buffer (see [Platform]). *)
From S2P Require Import Prelude CStr JsonText Offload Platform.
Local Open Scope Z_scope.

(** ["%-ns"] *)
Definition pad_right (n : nat) (s : bytes) : bytes := s ++ repeat 32 (n - length s).
Definition str_z (f : Z -> string) (z : Z) : bytes := str (f z).
Definition int_of (b : bool) : bytes := dec (if b then 1 else 0).
Definition yes_no (b : bool) : bytes := if b then str "yes" else str "no".
Definition out_line (parts : list bytes) : bytes := concat parts ++ [NL].

Section ctl.
Context {W : Type}.
(** The adapters compiled in; the names of interfaces; what the phone answers. *)
Context (compiled_in : list (offload_adapter W)).
Context (if_nametoindex : bytes -> Z) (if_indextoname : Z -> option bytes).
Context (e : plat_env).

(** The exit code, what was printed, and the world. *)
Definition outcome : Type := Z * bytes * W.

Definition parse_ifindex (s : bytes) : Z :=
  if bool_decide (s = []) then 0
  else if forallb is_digit s then atoi s
  else s32 (if_nametoindex s).

Definition probe_matches (a : offload_adapter W) (w : W) : bool :=
  match ad_probe a with Some probe => probe w | None => false end.

Definition matrix_row (w : W) (i : nat) (a : offload_adapter W) : bytes :=
  out_line [str "  ["; dec (Z.of_nat i); str "] "; pad_right 8 (str (ad_name a)); str " type=";
    pad_right 10 (str_z offload_type_str (offload_type_val (ad_type a))); str " gran=";
    pad_right 12 (str_z offload_gran_str (offload_gran_val (ad_granularity a))); str " probe=";
    if probe_matches a w then str "MATCH" else str "no"].

Definition do_probe (w : W) : option outcome :=
  '(_, g) ← platform_probe e platform_zero;
  let sel := (offload_select_adapter (g_adapters compiled_in) w None).1 in
  let out :=
    out_line [str "Platform: vendor="; platform_soc_vendor_str (pi_soc_vendor g); str " rom=";
      platform_rom_str (pi_rom g); str " api="; dec (pi_android_api g); str " kernel="; pi_kernel_release g] ++
    out_line [str "Offload presence: bpf="; int_of (pi_has_bpf_tethering g); str " mtk_ppe=";
      int_of (pi_has_mtk_ppe g); str " nss="; int_of (pi_has_samsung_nss g); str " bpf_syscall_ok=";
      int_of (pi_bpf_syscall_ok g)] ++
    [NL] ++ out_line [str "Adapter probe matrix:"] ++
    concat (imap (matrix_row w) (g_adapters compiled_in)) ++
    [NL] ++ out_line [str "Selected: "; match sel with Some a => str (ad_name a) | None => str "(none)" end] in
  Some (0, out, w).

(** The elected adapter after its init, or the exit code. *)
Definition prep_adapter (w : W) : option ((offload_adapter W * W) + outcome) :=
  '(_, _) ← platform_probe e platform_zero;
  match (offload_select_adapter (g_adapters compiled_in) w None).1 with
  | None => Some (inr (1, [], w))
  | Some a =>
      let '(r, w) := ad_init a w in
      if bool_decide (r = OFFLOAD_OK) then Some (inl (a, w)) else Some (inr (offload_err_val r, [], w))
  end.

(** A command on that adapter; every one of them ends with its shutdown. *)
Definition with_adapter (cmd : offload_adapter W -> W -> outcome) (w : W) : option outcome :=
  r ← prep_adapter w;
  match r with
  | inr o => Some o
  | inl (a, w) => let '(rc, out, w) := cmd a w in Some (rc, out, (ad_shutdown a w).2)
  end.

Definition err_text (r : offload_err) : bytes := str_z offload_err_str (offload_err_val r).

Definition do_self_check : W -> option outcome :=
  with_adapter (fun a w =>
    let '(r, w) := match ad_self_check a with Some check => check w | None => (OFFLOAD_OK, w) end in
    (offload_err_val r, out_line [str "self_check: adapter="; str (ad_name a); str " result="; err_text r], w)).

Definition upstream_row (i : nat) (ifindex : Z) : bytes :=
  out_line [str "    ["; dec (Z.of_nat i); str "] ifindex="; dec ifindex; str " (";
    default (str "?") (if_indextoname (u32 ifindex)); str ")"].

Definition do_status : W -> option outcome :=
  with_adapter (fun a w =>
    let st := match ad_status a with Some status => status w | None => status_zero end in
    let out :=
      out_line [str "Adapter"] ++ out_line [str "  name           : "; str (ad_name a)] ++
      out_line [str "  type           : "; str_z offload_type_str (offload_type_val (ad_type a))] ++
      out_line [str "  granularity    : "; str_z offload_gran_str (offload_gran_val (ad_granularity a))] ++
      [NL] ++ out_line [str "Status (cached, last refresh "; dec (st_last_refresh_ts st); str ")"] ++
      out_line [str "  active         : "; yes_no (st_active st)] ++
      out_line [str "  delta_bytes    : "; dec (st_last_delta_bytes st)] ++
      out_line [str "  global_disable : "; yes_no (st_globally_disabled st)] ++
      out_line [str "  per-upstream disable count : "; dec (st_disabled_upstream_count st)] ++
      concat (imap upstream_row (take (Z.to_nat (st_disabled_upstream_count st)) (st_disabled_upstream_ifindex st))) in
    (0, out, w)).

Definition do_refresh : W -> option outcome :=
  with_adapter (fun a w =>
    match ad_refresh_active a with
    | None => (1, [], w)
    | Some refresh =>
        let '(r, w) := refresh w in
        if negb (bool_decide (r = OFFLOAD_OK)) then (offload_err_val r, [], w)
        else
          let st := match ad_status a with Some status => status w | None => status_zero end in
          (0, out_line [str "active="; int_of (st_active st); str " delta_bytes="; dec (st_last_delta_bytes st);
                        str " refresh_ts="; dec (st_last_refresh_ts st)], w)
    end).

(** A missing operation is ENOTSUP. *)
Definition call_op (name : bytes) (op : option (st W offload_err)) (w : W) : outcome :=
  match op with
  | None => (offload_err_val OFFLOAD_ENOTSUP, [], w)
  | Some f => let '(r, w) := f w in (offload_err_val r, out_line [name; str ": "; err_text r], w)
  end.

Definition do_disable_upstream (arg : bytes) (w : W) : option outcome :=
  let ifindex := parse_ifindex arg in
  if ifindex <=? 0 then Some (offload_err_val OFFLOAD_EINVAL, [], w)
  else
    with_adapter (fun a w =>
      if offload_gran_val (ad_granularity a) <? offload_gran_val OFFLOAD_GRAN_PER_UPSTREAM
      then (offload_err_val OFFLOAD_ENOTSUP, [], w)
      else call_op (str "disable_upstream(" ++ dec ifindex ++ str ")")
             ((fun f => f ifindex) <$> ad_disable_upstream a) w) w.

Definition do_restore_upstream (arg : bytes) (w : W) : option outcome :=
  let ifindex := parse_ifindex arg in
  if ifindex <=? 0 then Some (offload_err_val OFFLOAD_EINVAL, [], w)
  else
    with_adapter (fun a w =>
      call_op (str "restore_upstream(" ++ dec ifindex ++ str ")") ((fun f => f ifindex) <$> ad_restore_upstream a) w) w.

Definition do_disable_global : W -> option outcome :=
  with_adapter (fun a => call_op (str "disable_global") (ad_disable_global a)).
Definition do_restore_global : W -> option outcome :=
  with_adapter (fun a => call_op (str "restore_global") (ad_restore_global a)).

(** [main] of [offload_ctl]; [args] are the arguments behind the program's name. *)
Definition ctl_main (args : list bytes) (w : W) : option outcome :=
  match args with
  | [] => Some (1, [], w)
  | cmd :: rest =>
      if strcmp_eq cmd (str "probe") then do_probe w
      else if strcmp_eq cmd (str "self_check") then do_self_check w
      else if strcmp_eq cmd (str "status") then do_status w
      else if strcmp_eq cmd (str "refresh") then do_refresh w
      else if strcmp_eq cmd (str "disable_global") then do_disable_global w
      else if strcmp_eq cmd (str "restore_global") then do_restore_global w
      else if strcmp_eq cmd (str "disable_upstream") then
        match rest with [] => Some (offload_err_val OFFLOAD_EINVAL, [], w) | arg :: _ => do_disable_upstream arg w end
      else if strcmp_eq cmd (str "restore_upstream") then
        match rest with [] => Some (offload_err_val OFFLOAD_EINVAL, [], w) | arg :: _ => do_restore_upstream arg w end
      else if strcmp_eq cmd (str "-h") || strcmp_eq cmd (str "--help") then Some (0, [], w)
      else Some (1, [], w)
  end.

(** ** [platform_probe] *)

Definition print_pretty (g : platform_info) (w : W) : bytes :=
  let field (name : string) (v : bytes) := out_line [str "  "; str name; str " : "; v] in
  out_line [str "=== HNC v5.0 Platform Probe ==="] ++ [NL] ++
  out_line [str "SoC"] ++ field "vendor   " (platform_soc_vendor_str (pi_soc_vendor g)) ++
    field "raw      " (pi_soc_vendor_raw g) ++ field "model    " (pi_soc_model g) ++
    field "hardware " (pi_soc_hardware g) ++ [NL] ++
  out_line [str "Android"] ++ field "api      " (dec (pi_android_api g)) ++
    field "release  " (pi_android_release g) ++ [NL] ++
  out_line [str "ROM"] ++ field "id       " (platform_rom_str (pi_rom g)) ++
    field "name     " (pi_rom_name g) ++ field "version  " (pi_rom_version g) ++ [NL] ++
  out_line [str "Kernel"] ++ field "release  " (pi_kernel_release g) ++
    field "parsed   " (dec (pi_kernel_major g) ++ [46] ++ dec (pi_kernel_minor g) ++ [46] ++ dec (pi_kernel_patch g)) ++
    [NL] ++
  out_line [str "Offload subsystems"] ++
    field "bpf_tethering        " (yes_no (pi_has_bpf_tethering g)) ++
    field "bpf_tethering_partial" (yes_no (pi_has_bpf_tethering_partial g)) ++
    field "mtk_ppe              " (yes_no (pi_has_mtk_ppe g)) ++
    field "samsung_nss          " (yes_no (pi_has_samsung_nss g)) ++
    field "bpf_syscall_ok       " (yes_no (pi_bpf_syscall_ok g)) ++ [NL] ++
  out_line [str "APEX"] ++
    field "connectivity"
      (if pi_apex_connectivity_version g =? -1 then str "present (version not parsed)"
       else if pi_apex_connectivity_version g =? 0 then str "absent"
       else str "v" ++ dec (pi_apex_connectivity_version g)) ++ [NL] ++
  out_line [str "Adapter selection"] ++
    match (offload_select_adapter (g_adapters compiled_in) w None).1 with
    | Some a => field "selected" (str (ad_name a) ++ str " (type=" ++
                  str_z offload_type_str (offload_type_val (ad_type a)) ++ str " gran=" ++
                  str_z offload_gran_str (offload_gran_val (ad_granularity a)) ++ str ")")
    | None => field "selected" (str "<none>")
    end ++ [NL] ++
  out_line [str "Adapter probe matrix"] ++
  concat (imap (fun i a => out_line [str "  ["; dec (Z.of_nat i); str "] "; pad_right 8 (str (ad_name a)); str " probe=";
                   if probe_matches a w then str "MATCH" else str "no"]) (g_adapters compiled_in)).

Fixpoint probe_args (pretty : bool) (args : list bytes) : option bool :=
  match args with
  | [] => Some pretty
  | a :: r =>
      if strcmp_eq a (str "--pretty") || strcmp_eq a (str "-p") then probe_args true r
      else if strcmp_eq a (str "--help") || strcmp_eq a (str "-h") then None
      else probe_args pretty r
  end.

Definition probe_main (args : list bytes) (w : W) : option (Z * bytes) :=
  match probe_args false args with
  | None => Some (0, [])
  | Some pretty =>
      '(rc, g) ← platform_probe e platform_zero;
      if negb (rc =? 0) then Some (1, [])
      else if pretty : bool then Some (0, print_pretty g w)
      else match platform_dump_json g (Z.to_nat 4096) with
           | None => Some (1, [])
           | Some text => Some (0, text ++ [NL])
           end
  end.
End ctl.
