(* ===== verification/OffloadCtlSpec.v ===== *)
(** * Theorems about [offload_ctl]

    The command works on the kernel's map and on nothing that a process remembers: what one
    run switches off another run can lift, and what a run says of switched-off upstreams is
    always that there are none. *)
From S2P Require Import Prelude CStr Offload BpfAdapter BpfKernel BpfSpec BpfEffects Platform OffloadCtl.
Local Open Scope Z_scope.

Section rescue.
Context {K : Type} `{!BpfSys K, !BpfLaws K, !BpfOpens K}.
Context (if_nametoindex : bytes -> Z) (if_indextoname : Z -> option bytes) (e : plat_env).
Implicit Types w : bpf_world K.
Notation ctl := (ctl_main [adapter_bpf] if_nametoindex if_indextoname e).

(** The surroundings of a command: the map is there, and the platform can be probed. *)
Context (g : Z * platform_info) (Hplat : platform_probe e platform_zero = Some g).

Lemma with_bpf cmd k :
  limit_pinned k ->
  exists w, fd_good w /\ 0 <= bs_fd_limit (bw_s w) /\ same_effect (process k) w /\
    with_adapter [adapter_bpf] e cmd (process k)
    = let '(rc, out, w') := cmd adapter_bpf w in Some (rc, out, (bpf_shutdown w').2).
Proof.
  intros Hp. destruct (bpf_init_effect k Hp) as (w & Hi & Hg & Hfd & Hs). exists w. split_and!; [done..|].
  unfold with_adapter, prep_adapter. rewrite Hplat. destruct g as [rc pi]. cbn [mbind option_bind].
  unfold offload_select_adapter, g_adapters. cbn [app select_from ad_probe adapter_bpf fst].
  unfold bpf_probe. cbn [process bw_k]. rewrite (stat_limit k Hp). cbn [fst ad_init adapter_bpf].
  fold (process k). by rewrite Hi.
Qed.

Lemma parse_ifindex_dec n : 0 < n < 2 ^ 31 -> parse_ifindex if_nametoindex (dec n) = n.
Proof.
  intros Hn. unfold parse_ifindex, dec. rewrite (proj2 (Z.ltb_ge n 0)) by lia.
  assert (Hd : forallb is_digit (dec_nat n) = true).
  { apply forallb_forall. intros c Hc%list_elem_of_In. apply dec_nat_digit in Hc; [done|lia]. }
  rewrite Hd, bool_decide_eq_false_2.
  - unfold atoi. pose proof (strtol_dec n []) as Hs. unfold dec in Hs.
    rewrite (proj2 (Z.ltb_ge n 0)), app_nil_r in Hs by lia.
    rewrite Hs by (unfold LONG_MIN, LONG_MAX; done || lia). apply s32_id. lia.
  - unfold dec_nat. destruct (digits_nonempty (Z.to_nat (Z.log2 n)) n) as (d & ds & ->). done.
Qed.

Lemma offload_err_val_zero r : offload_err_val r = 0 <-> r = OFFLOAD_OK.
Proof. by destruct r. Qed.

Ltac pick_command :=
  unfold ctl_main;
  repeat match goal with
    | |- context [strcmp_eq (str ?a) (str ?b)] =>
        let v := eval vm_compute in (strcmp_eq (str a) (str b)) in change (strcmp_eq (str a) (str b)) with v; cbv iota
    end.

Lemma ctl_disable_effect k n :
  limit_pinned k -> 0 < n < 2 ^ 31 ->
  exists rc out w', ctl [str "disable_upstream"; dec n] (process k) = Some (rc, out, w') /\
    limit_pinned (bw_k w') /\
    lmap w' = if rc =? 0 then <[u32 n := BPF_LIMIT_ZERO]> (limit_map k) else limit_map k.
Proof.
  intros Hp Hn. pick_command. unfold do_disable_upstream.
  rewrite parse_ifindex_dec, (proj2 (Z.leb_gt n 0)) by lia.
  match goal with |- context [with_adapter _ _ ?cmd _] => destruct (with_bpf cmd k Hp) as (w & Hg & Hfd & Hs & ->) end.
  cbn [ad_granularity adapter_bpf offload_gran_val ad_disable_upstream fmap option_fmap option_map].
  change (2 <? 2) with false. cbv iota. unfold call_op.
  destruct (bpf_disable_upstream_effect w n) as (r & w' & Hrun & Hres); [lia|by right; left|].
  pose proof (pins_disable n w) as Hpd. rewrite Hrun in *. cbn [snd] in Hpd.
  pose proof (bpf_shutdown_effect w') as [Hm Hpin]. eexists _, _, _. split; [done|].
  destruct Hs as (S1 & _ & _ & _ & S5). unfold lmap in *. cbn in S1, S5. split; [tauto|]. rewrite Hm.
  destruct Hres as [[-> (H1 & _)]|(x & (_ & Hne & (H1 & _)) & _)]; unfold lmap in H1.
  - cbn. by rewrite H1, S1.
  - rewrite (proj2 (Z.eqb_neq (offload_err_val r) 0)) by by rewrite offload_err_val_zero. by rewrite H1, S1.
Qed.

Lemma ctl_restore_effect k n :
  limit_pinned k -> 0 < n < 2 ^ 31 ->
  exists out w', ctl [str "restore_upstream"; dec n] (process k) = Some (0, out, w') /\
    lmap w' = alter (fun _ => BPF_LIMIT_NONE) (u32 n) (limit_map k).
Proof.
  intros Hp Hn. pick_command. unfold do_restore_upstream.
  rewrite parse_ifindex_dec, (proj2 (Z.leb_gt n 0)) by lia.
  match goal with |- context [with_adapter _ _ ?cmd _] => destruct (with_bpf cmd k Hp) as (w & Hg & Hfd & Hs & ->) end.
  cbn [adapter_bpf ad_restore_upstream fmap option_fmap option_map]. unfold call_op.
  destruct (bpf_restore_good w n Hg Hfd (proj1 Hn)) as (w' & -> & Hm' & _).
  pose proof (bpf_shutdown_effect w') as [Hm _]. eexists _, _. split; [done|].
  unfold lmap in *. rewrite Hm. rewrite Hm'. destruct Hs as (S1 & _). unfold lmap in S1. cbn in S1. by rewrite S1.
Qed.

Lemma ctl_restore_global_effect k :
  limit_pinned k ->
  exists out w', ctl [str "restore_global"] (process k) = Some (0, out, w') /\
    lmap w' = (fun _ => BPF_LIMIT_NONE) <$> limit_map k.
Proof.
  intros Hp. pick_command. unfold do_restore_global.
  match goal with |- context [with_adapter _ _ ?cmd _] => destruct (with_bpf cmd k Hp) as (w & Hg & Hfd & Hs & ->) end.
  cbn [adapter_bpf ad_restore_global]. unfold call_op, bpf_restore_global, mbind at 1, st_bind at 1.
  rewrite ensure_limit_good by done.
  destruct (sweep_limit_effect BPF_LIMIT_NONE disabled_set_remove w Hg) as (w' & -> & Hm' & _).
  cbn [sw_world sw_touched sw_errs Nat.eqb]. unfold sweep_result. cbn [sw_errs Nat.eqb].
  match goal with |- context [bpf_shutdown ?x] => pose proof (bpf_shutdown_effect x) as [Hm _] end.
  eexists _, _. split; [done|]. unfold lmap in *. rewrite Hm. cbn [bw_k]. rewrite Hm'.
  destruct Hs as (S1 & _). unfold lmap in S1. cbn in S1. by rewrite S1.
Qed.

(** C20: each run of [offload_ctl] is a new process, which remembers nothing.  The exit code of
    [disable_upstream] tells whether the quota of the interface is 0 now or nothing
    changed; whatever earlier runs or the daemon did, a later [restore_upstream] lifts that
    quota and [restore_global] lifts all, and both exit with 0. *)
Theorem ctl_rescue (k : K) (n : Z) :
  limit_pinned k -> 0 < n < 2 ^ 31 ->
  exists rc out w1, ctl [str "disable_upstream"; dec n] (process k) = Some (rc, out, w1) /\
    lmap w1 = (if rc =? 0 then <[u32 n := BPF_LIMIT_ZERO]> (limit_map k) else limit_map k) /\
    (exists out w2, ctl [str "restore_upstream"; dec n] (process (bw_k w1)) = Some (0, out, w2) /\
       lmap w2 = alter (fun _ => BPF_LIMIT_NONE) (u32 n) (lmap w1)) /\
    (exists out w2, ctl [str "restore_global"] (process (bw_k w1)) = Some (0, out, w2) /\
       lmap w2 = (fun _ => BPF_LIMIT_NONE) <$> lmap w1).
Proof.
  intros Hp Hn. destruct (ctl_disable_effect k n Hp Hn) as (rc & out & w1 & H1 & Hp1 & Hm).
  exists rc, out, w1. split_and!; [done|done|by apply ctl_restore_effect|by apply ctl_restore_global_effect].
Qed.

(** What [status] prints never shows that anything is switched off. *)
Lemma ctl_status_forgets k :
  limit_pinned k ->
  exists front w', ctl [str "status"] (process k)
    = Some (0, front ++ out_line [str "  global_disable : "; str "no"] ++
               out_line [str "  per-upstream disable count : "; str "0"], w').
Proof.
  intros Hp. pick_command. unfold do_status.
  match goal with |- context [with_adapter _ _ ?cmd _] => destruct (with_bpf cmd k Hp) as (w & Hg & Hfd & Hs & ->) end.
  destruct Hs as (_ & _ & S3 & S4 & _). cbn in S3, S4.
  cbn [adapter_bpf ad_status]. unfold bpf_status. rewrite S3, S4. cbn [st_disabled_upstream_count st_globally_disabled
    st_disabled_upstream_ifindex length take Z.of_nat Z.to_nat imap concat yes_no].
  eexists _, _. rewrite app_nil_r. rewrite !app_assoc. reflexivity.
Qed.
End rescue.

(** ** Witness *)

Definition plain_phone : plat_env := PlatEnv host_prop (fun _ => false) None (fun _ => false).

Lemma ctl_rescue_witness :
  exists rc out w1, ctl_main [adapter_bpf] (fun _ => 0) (fun _ => None) plain_phone [str "disable_upstream"; dec 5]
      (process kern0) = Some (rc, out, w1) /\
    lmap w1 = (if rc =? 0 then <[u32 5 := BPF_LIMIT_ZERO]> (limit_map kern0) else limit_map kern0).
Proof.
  assert (Hplat : exists g, platform_probe plain_phone platform_zero = Some g) by (eexists; vm_compute; reflexivity).
  destruct Hplat as [g Hg].
  assert (Hp : limit_pinned kern0) by (vm_compute; reflexivity).
  destruct (ctl_rescue (fun _ => 0) (fun _ => None) plain_phone g Hg kern0 5 Hp ltac:(lia))
    as (rc & out & w1 & H1 & H2 & _).
  exists rc, out, w1. exact (conj H1 H2).
Defined.
