(* ===== verification/IpcClient.v ===== *)
(** * The command [hnc_ipc] ([tools/hnc_ipc.c])

    It sends one command to the daemon's socket and prints the answer.  The outcomes of
    the system calls are arguments. *)
From S2P Require Import Prelude CStr Stdio Platform.
Local Open Scope Z_scope.

Definition DEFAULT_SOCK_PATH : bytes := str "/data/local/hnc/run/hotspotd.sock".
Definition IPC_DEFAULT_TIMEOUT : Z := 3.
Definition CMD_BUF_SIZE : nat := Z.to_nat 1024.
Definition RESP_BUF_SIZE : nat := Z.to_nat 65536.

(** The loop of [build_cmd_from_argv] over the arguments behind the program's name. *)
Fixpoint build_from (first : bool) (acc : bytes) (args : list bytes) (out_size : nat) : option bytes :=
  match args with
  | [] => Some acc
  | a :: r =>
      let piece := (if first then [] else [32]) ++ a in
      if (out_size <=? length acc + length piece)%nat then None
      else build_from false (acc ++ piece) r out_size
  end.
Definition build_cmd_from_argv (args : list bytes) (out_size : nat) : option bytes :=
  out ← build_from true [] args out_size;
  if (out_size <=? length out + 1)%nat then None else Some (out ++ [NL]).

Definition read_cmd_from_stdin (stdin : bytes) (out_size : nat) : option bytes :=
  match fgets_lines out_size stdin with
  | [] => None
  | out :: _ =>
      if bool_decide (out = []) then None
      else if bool_decide (last out = Some NL) then Some out
      else if (out_size <=? length out + 1)%nat then None
      else Some (out ++ [NL])
  end.

(** The outcome of [recv]: data, an interruption, another error (a timeout), the end. *)
Inductive reply_ev := ReplyData (b : bytes) | ReplyEintr | ReplyError | ReplyEof.

(** The loop that fills the buffer: [room] bytes are left.  It ends also when the list of
    outcomes does. *)
Fixpoint recv_all (room : nat) (evs : list reply_ev) : bytes :=
  match room, evs with
  | O, _ | _, [] => []
  | S _, ReplyEintr :: evs' => recv_all room evs'
  | S _, ReplyError :: _ | S _, ReplyEof :: _ => []
  | S _, ReplyData b :: evs' =>
      let got := take room b in
      if bool_decide (got = []) then [] else got ++ recv_all (room - length got) evs'
  end.

(** Two environment variables, [socket], [connect] on the path cut to the field of the
    address, [send] (the number of bytes, [None]: an error) and what arrives; the last two
    depend on the timeout of the socket. *)
Record ipc_io := IpcIo {
  ip_timeout : option bytes;
  ip_sock : option bytes;
  ip_stdin : bytes;
  ip_socket : bool;
  ip_connect : bytes -> bool;
  ip_send : Z -> bytes -> option nat;
  ip_reply : Z -> list reply_ev
}.

Definition ipc_timeout (io : ipc_io) : Z :=
  match ip_timeout io with
  | Some t => let v := atoi t in if (0 <? v) && (v <? 300) then v else IPC_DEFAULT_TIMEOUT
  | None => IPC_DEFAULT_TIMEOUT
  end.

Definition sock_path (io : ipc_io) : bytes :=
  match ip_sock io with
  | Some p => if bool_decide (p = []) then DEFAULT_SOCK_PATH else p
  | None => DEFAULT_SOCK_PATH
  end.

Definition with_nl (s : bytes) : bytes := if bool_decide (last s = Some NL) then s else s ++ [NL].

(** The exit code, what was sent and what was printed. *)
Definition ipc_main (args : list bytes) (io : ipc_io) : Z * bytes * bytes :=
  match args with
  | [] => (1, [], [])
  | _ :: _ =>
      let cmd := if bool_decide (args = [str "-"]) then read_cmd_from_stdin (ip_stdin io) CMD_BUF_SIZE
                 else build_cmd_from_argv args CMD_BUF_SIZE in
      match cmd with
      | None => (1, [], [])
      | Some cmd =>
          if negb (ip_socket io) then (2, [], [])
          else if negb (ip_connect io (c_trunc 108 (sock_path io))) then (3, [], [])
          else
            match ip_send io (ipc_timeout io) cmd with
            | None => (4, [], [])
            | Some sent =>
                let total := recv_all RESP_BUF_SIZE (ip_reply io (ipc_timeout io)) in
                if bool_decide (total = []) then (5, take sent cmd, [])
                else (0, take sent cmd, with_nl total)
            end
      end
  end.
