(* ===== verification/IpcClientSpec.v ===== *)
(** * Theorems about [hnc_ipc]

    The client and the daemon's [handle_client] fit together: the daemon reads the
    arguments of the command line joined by blanks, and the client prints the daemon's
    answer however the socket cuts it. *)
From S2P Require Import Prelude CStr Stdio Offload BpfAdapter BpfKernel Scheduler SchedulerSpec HostnameCache MdnsWorker.
From S2P Require Import DeviceTable DhcpLog Hotspotd IpcClient.
Local Open Scope Z_scope.

(** ** The command line *)

Definition blank_args (args : list bytes) : bytes := concat (map (cons 32) args).
Definition join_args (args : list bytes) : bytes :=
  match args with [] => [] | a :: r => a ++ blank_args r end.

Lemma build_from_rest args : forall acc n,
  build_from false acc args n
  = if (n <=? length acc + length (blank_args args))%nat && negb (bool_decide (args = [])) then None
    else Some (acc ++ blank_args args).
Proof.
  induction args as [|a args IH]; intros acc n; cbn [build_from blank_args map concat].
  { cbn. by rewrite andb_false_r, app_nil_r. }
  rewrite bool_decide_eq_false_2, andb_true_r by done. unfold blank_args in *. cbn [map concat].
  cbn [app length]. rewrite length_app. cbn [length].
  destruct (Nat.leb_spec n (length acc + S (length a))).
  { rewrite (proj2 (Nat.leb_le _ _)) by lia. done. }
  rewrite IH, length_app. cbn [length]. rewrite <- app_assoc. cbn [app].
  destruct (decide (args = [])) as [->|Hne].
  - cbn [map concat length]. rewrite bool_decide_eq_true_2 by done. rewrite andb_false_r.
    rewrite (proj2 (Nat.leb_gt _ _)) by lia. done.
  - rewrite bool_decide_eq_false_2, andb_true_r by done.
    replace (length acc + S (length a + length (concat (map (cons 32%Z) args))))%nat
      with (length acc + S (length a) + length (concat (map (cons 32%Z) args)))%nat by lia. done.
Qed.

(** The command is the arguments joined by blanks with a newline, when that fits with its NUL. *)
Lemma build_cmd_spec args n :
  (0 < n)%nat ->
  build_cmd_from_argv args n
  = if (n <=? length (join_args args) + 1)%nat then None else Some (join_args args ++ [NL]).
Proof.
  intros Hn. unfold build_cmd_from_argv. destruct args as [|a args]; [done|]. cbn [build_from join_args].
  cbn [app length]. rewrite Nat.add_0_l. rewrite length_app.
  destruct (Nat.leb_spec n (length a)).
  { rewrite (proj2 (Nat.leb_le _ _)) by lia. done. }
  rewrite build_from_rest. destruct (decide (args = [])) as [->|Hne].
  - rewrite bool_decide_eq_true_2, andb_false_r by done. cbn [mbind option_bind]. by rewrite length_app.
  - rewrite bool_decide_eq_false_2, andb_true_r by done.
    destruct (Nat.leb_spec n (length a + length (blank_args args))).
    + rewrite (proj2 (Nat.leb_le _ _)) by lia. done.
    + cbn [mbind option_bind]. by rewrite length_app.
Qed.

(** ** The answer *)

(** What arrives before the end: pieces and interruptions. *)
Definition arrives (ev : reply_ev) : bool :=
  match ev with ReplyData b => negb (bool_decide (b = [])) | ReplyEintr => true | _ => false end.
Definition piece (ev : reply_ev) : bytes := match ev with ReplyData b => b | _ => [] end.

Lemma recv_all_pieces evs rest : forall room,
  forallb arrives evs = true -> (length (concat (map piece evs)) < room)%nat ->
  recv_all room (evs ++ ReplyEof :: rest) = concat (map piece evs).
Proof.
  induction evs as [|ev evs IH]; intros room He Hr; cbn [app map concat].
  { by destruct room. }
  cbn [forallb] in He. apply andb_prop in He as [Hev He]. cbn [map concat] in Hr. rewrite length_app in Hr.
  destruct room as [|room]; [lia|]. cbn [recv_all]. destruct ev as [b| | |]; try done; cbn [piece] in *.
  - apply negb_true_iff, bool_decide_eq_false in Hev. rewrite take_ge by lia.
    rewrite bool_decide_eq_false_2 by done. by rewrite IH by (done || lia).
  - apply (IH (S room)); [done|]. cbn in Hr. lia.
Qed.

Lemma resp_room n : (n < 100)%nat -> (n < RESP_BUF_SIZE)%nat.
Proof. unfold RESP_BUF_SIZE. lia. Qed.

(** ** The conversation *)
Section conversation.
Context {W : Type} `{!SchedEnv W} (lsm_fragment : W -> nat -> option bytes).
Notation handle := (handle_client lsm_fragment).

(** The daemon strips the newline the client added. *)
Lemma handle_newline now pid req h x :
  Forall is_cchar req -> req <> [] -> (length req <= 62)%nat ->
  (forall c, last req = Some c -> is_trailing c = false) ->
  handle now pid (Some (req ++ [NL])) h x = handle now pid (Some req) h x.
Proof.
  intros Hc Hne Hl Ht. assert (Hs : strip_tail is_trailing (cut_nul (take 63 (req ++ [NL])))
                              = strip_tail is_trailing (cut_nul (take 63 req))).
  { rewrite !take_ge by (rewrite ?length_app; cbn [length]; lia).
    rewrite cut_nul_id by (apply Forall_app; split; [done|]; repeat constructor).
    rewrite cut_nul_id by done. rewrite (strip_tail_id _ req) by done.
    unfold strip_tail. rewrite reverse_snoc. cbn [drop_while]. change (is_trailing NL) with true. cbv iota.
    by apply (strip_tail_id _ req). }
  unfold handle_client. rewrite Hs. destruct req; [done|]. done.
Qed.

(** A client whose system calls work. *)
Definition connected (io : ipc_io) (args : list bytes) : Prop :=
  ip_socket io = true /\ ip_connect io (c_trunc 108 (sock_path io)) = true /\
  ip_send io (ipc_timeout io) (join_args args ++ [NL]) = Some (length (join_args args ++ [NL])) /\ args <> [] /\ args <> [str "-"].

Lemma ipc_main_sends args io evs rest :
  connected io args -> (length (join_args args) <= 62)%nat ->
  ip_reply io (ipc_timeout io) = evs ++ ReplyEof :: rest -> forallb arrives evs = true ->
  concat (map piece evs) <> [] -> (length (concat (map piece evs)) < RESP_BUF_SIZE)%nat ->
  ipc_main args io = (0, join_args args ++ [NL], with_nl (concat (map piece evs))).
Proof.
  intros (Hs & Hc & Hsend & Hne & Hdash) Hl Hr He Hp Hlen. unfold ipc_main.
  destruct args as [|a args]; [done|]. rewrite bool_decide_eq_false_2 by done.
  rewrite build_cmd_spec by (vm_compute; lia). rewrite (proj2 (Nat.leb_gt _ _)).
  2:{ assert (H : CMD_BUF_SIZE = (512 + 512)%nat) by by vm_compute. rewrite H. lia. }
  rewrite Hs, Hc, Hsend, Hr. cbn [negb]. rewrite recv_all_pieces by done.
  rewrite bool_decide_eq_false_2 by done. by rewrite take_ge.
Qed.

Definition NOTIFY : bytes := str "OFFLOAD_NOTIFY_LIMIT".
Definition flag_text (limited : bool) : bytes := if limited then str "1" else str "0".

Lemma join_notify mac limited :
  join_args [NOTIFY; mac; flag_text limited] = str "OFFLOAD_NOTIFY_LIMIT " ++ mac ++ 32 :: flag_text limited.
Proof. unfold join_args, blank_args. cbn [map concat]. by rewrite app_nil_r. Qed.

Lemma notify_text_ok mac limited :
  Forall is_cchar mac -> Forall is_cchar (str "OFFLOAD_NOTIFY_LIMIT " ++ mac ++ 32 :: flag_text limited).
Proof.
  intros Hc. apply Forall_app; split; [repeat constructor|]. apply Forall_app; split; [done|].
  destruct limited; repeat constructor.
Qed.
Lemma notify_text_last mac limited c :
  last (str "OFFLOAD_NOTIFY_LIMIT " ++ mac ++ 32 :: flag_text limited) = Some c -> is_trailing c = false.
Proof. rewrite !last_app. by destruct limited; intros [= <-]. Qed.
Lemma notify_text_length mac limited :
  (length mac <= 31)%nat -> (length (str "OFFLOAD_NOTIFY_LIMIT " ++ mac ++ 32%Z :: flag_text limited) <= 62)%nat.
Proof.
  intros Hl. rewrite !length_app. change (length (str "OFFLOAD_NOTIFY_LIMIT ")) with 21%nat.
  destruct limited; cbn [length flag_text str map String.list_ascii_of_string]; lia.
Qed.

Lemma handle_notify now pid mac limited h x :
  is_word mac = true -> (length mac <= 31)%nat -> Forall is_cchar mac ->
  handle now pid (Some (join_args [NOTIFY; mac; flag_text limited])) h x
  = ([str "OK" ++ [NL]], h, (hnc_scheduler_notify_device_limit_changed (Some mac) limited x).2).
Proof.
  intros Hw Hl Hc.
  rewrite join_notify.
  assert (Hstrip : strip_tail is_trailing (cut_nul (take 63 (str "OFFLOAD_NOTIFY_LIMIT " ++ mac ++ 32 :: flag_text limited)))
                   = str "OFFLOAD_NOTIFY_LIMIT " ++ mac ++ 32 :: flag_text limited).
  { pose proof (notify_text_length mac limited Hl). rewrite take_ge by lia.
    rewrite cut_nul_id by by apply notify_text_ok. apply strip_tail_id. intros c. apply notify_text_last. }
  unfold handle_client. destruct (str "OFFLOAD_NOTIFY_LIMIT " ++ mac ++ 32 :: flag_text limited) as [|c r] eqn:Er; [done|].
  rewrite Hstrip, <- Er. clear Hstrip.
  assert (Hne : forall s, negb (starts_with (str "O") (str s)) = true ->
    strcmp_eq (str "OFFLOAD_NOTIFY_LIMIT " ++ mac ++ 32 :: flag_text limited) (str s) = false).
  { intros s Hs. apply bool_decide_eq_false. intros Heq. rewrite <- Heq in Hs. done. }
  rewrite !Hne by done. rewrite strip_prefix_app. pose proof (scan_s_word 31 [] mac (32 :: flag_text limited)) as Hsc.
  cbn [app] in Hsc. rewrite Hsc; [|done|done|done|by intros ? [= <-]].
  cbn [mbind option_bind]. by destruct limited.
Qed.

(** A command [hnc_ipc OFFLOAD_NOTIFY_LIMIT mac flag] makes the daemon notify its scheduler of
    exactly that device and flag, and nothing else; however the socket cuts the answer, the
    client prints [OK] and exits with 0. *)
Lemma ipc_notify (now pid : Z) (mac : bytes) (limited : bool) (h : hstate) (x : sworld W) (io : ipc_io) :
  let args := [NOTIFY; mac; flag_text limited] in
  let sent := join_args args ++ [NL] in
  is_word mac = true -> (length mac <= 31)%nat -> Forall is_cchar mac -> connected io args ->
  handle now pid (Some sent) h x
  = ([str "OK" ++ [NL]], h, (hnc_scheduler_notify_device_limit_changed (Some mac) limited x).2) /\
  forall evs rest, ip_reply io (ipc_timeout io) = evs ++ ReplyEof :: rest -> forallb arrives evs = true ->
    concat (map piece evs) = str "OK" ++ [NL] ->
    ipc_main args io = (0, sent, str "OK" ++ [NL]).
Proof.
  intros args sent Hw Hl Hc Hio.
  assert (Hlen : (length (join_args args) <= 62)%nat) by (unfold args; rewrite join_notify; by apply notify_text_length).
  split.
  - unfold sent. rewrite handle_newline; [by apply handle_notify| |done|done|].
    + unfold args. rewrite join_notify. by apply notify_text_ok.
    + intros c. unfold args. rewrite join_notify. apply notify_text_last.
  - intros evs rest Hr He Hp. rewrite (ipc_main_sends args io evs rest); rewrite ?Hp; try assumption; try reflexivity.
    + done.
    + apply resp_room. apply Nat.ltb_lt. reflexivity.
Qed.
End conversation.

(** An answer in two pieces. *)
Definition sample_ipc : ipc_io :=
  IpcIo None (Some (str "/run/s")) [] true (fun p => bool_decide (p = str "/run/s")) (fun _ b => Some (length b))
    (fun _ => [ReplyEintr; ReplyData (str "O"); ReplyData (str "K" ++ [NL]); ReplyEof]).
