(* ===== verification/EndToEnd.v ===== *)
(** * A limit from the command line to the kernel

    The parts of the program in a row: [hnc_ipc] sends a command, [handle_client] reads it,
    the scheduler changes its set and calls the BPF adapter, and the adapter writes the limit
    map. *)
From S2P Require Import Prelude CStr Stdio HostnameCache MdnsWorker DeviceTable DhcpLog Hotspotd IpcClient IpcClientSpec.
From S2P Require Import Offload BpfAdapter BpfKernel BpfSpec BpfEffects Scheduler SchedulerSpec KernelPromise.
Local Open Scope Z_scope.

(** A word that is a MAC is 17 characters long. *)
Lemma normalize_word n : forall i inp o,
  normalize_mac_from n i inp = Some o -> (forall c, c ∈ inp -> not_space c = true) ->
  length inp = n /\ Forall is_cchar inp.
Proof.
  induction n as [|n IH]; intros i inp o; cbn [normalize_mac_from].
  { destruct inp as [|c r]; [done|]. intros H Hw. specialize (Hw c ltac:(left)). revert H.
    destruct ((c =? NL) || (c =? 32)) eqn:E; [|done]. exfalso. revert Hw. apply orb_true_iff in E.
    by destruct E as [->%Z.eqb_eq| ->%Z.eqb_eq]. }
  destruct inp as [|c r]; [done|]. intros H Hw.
  assert (Hr : forall o', normalize_mac_from n (S i) r = Some o' -> length r = n /\ Forall is_cchar r).
  { intros o' Ho. eapply IH; [exact Ho|]. intros c' Hc. apply Hw. by right. }
  assert (Hc : is_cchar c /\ exists o', normalize_mac_from n (S i) r = Some o').
  { destruct (i mod 3 =? 2)%nat.
    - destruct (c =? COLON) eqn:E; [|done]. bool_simpl. subst c. split; [by vm_compute|].
      destruct (normalize_mac_from n (S i) r); [eauto|done].
    - destruct (isxdigit c) eqn:E; [|done]. split.
      + revert E. unfold isxdigit, is_digit, is_lower_hex, is_upper_hex, is_cchar. zcases; lia.
      + destruct (normalize_mac_from n (S i) r); [eauto|done]. }
  destruct Hc as [Hc [o' Ho]]. destruct (Hr o' Ho) as [Hl Hf]. cbn [length]. by split; [lia|constructor].
Qed.

(** C7: the whole way of a limit.  In every state that the scheduler with the BPF adapter can
    be in between two requests, the command [hnc_ipc OFFLOAD_NOTIFY_LIMIT mac flag] changes the
    set of limited devices by that MAC in canonical form; afterwards the limit map holds no
    quota for the upstream if a device is limited, and lifts every quota if this was
    the last one; the client prints [OK] and exits with 0 however the socket cuts the
    answer. *)
Theorem limit_command {K} `{!BpfSys K, !BpfLaws K, !BpfOpens K, !SchedEnv (bpf_world K),
    !UpstreamPromise (bpf_world K), !QuietEnv K} (lsm : tworld (bpf_world K) -> nat -> option bytes)
    (now pid : Z) (mac norm : bytes) (limited : bool) (h : hstate) (io : ipc_io)
    (k : K) (x1 x : sworld (tworld (bpf_world K))) (wk : worker_pc) :
  let args := [NOTIFY; mac; flag_text limited] in
  let sent := join_args args ++ [NL] in
  limit_pinned k -> started [adapter_bpf] (process k) x1 ->
  rtc step (CState x1 MInit WWait) (CState x MIdle wk) ->
  adapter_of x = Some bpf -> initialized_of x = true ->
  is_word mac = true -> normalize_mac mac = Some norm -> connected io args ->
  exists x', handle_client lsm now pid (Some sent) h x = ([str "OK" ++ [NL]], h, x') /\
    limited_of x' = set_change norm limited (limited_of x) /\
    (limited_of x' <> [] -> throttled (ifindex_of x') (world_of x')) /\
    (limited_of x <> [] -> limited_of x' = [] ->
       lmap (world_of x') = (fun _ => BPF_LIMIT_NONE) <$> lmap (world_of x)) /\
    forall evs rest, ip_reply io (ipc_timeout io) = evs ++ ReplyEof :: rest -> forallb arrives evs = true ->
      concat (map piece evs) = str "OK" ++ [NL] -> ipc_main args io = (0, sent, str "OK" ++ [NL]).
Proof.
  intros args sent Hp Hst Hrun Hb Hini Hw Hn Hio.
  destruct (normalize_word _ _ _ _ Hn (proj2 (is_word_spec _ Hw))) as [Hlen Hc].
  destruct (ipc_notify lsm now pid mac limited h x io) as [Hh Hmain]; [done|by rewrite Hlen; lia|done|done|].
  pose proof (kernel_run k x1 _ Hp Hst Hrun) as (_ & Hs & _).
  assert (Hrun' : rtc step (CState x1 MInit WWait)
    (CState (hnc_scheduler_notify_device_limit_changed (Some mac) limited x).2 MIdle wk))
    by (eapply rtc_r; [exact Hrun|apply step_notify]).
  pose proof (kernel_run k x1 _ Hp Hst Hrun') as (_ & _ & Ht). cbn in Hs.
  eexists. split; [exact Hh|].
  assert (Hf : limited_of (hnc_scheduler_notify_device_limit_changed (Some mac) limited x).2
                 = set_change norm limited (limited_of x) /\
               adapter_of (hnc_scheduler_notify_device_limit_changed (Some mac) limited x).2 = Some bpf).
  { rewrite notify_unfold. unfold initialized_of in Hini. rewrite Hini. cbn [mbind option_bind].
    fold (normalize_mac mac) in Hn. rewrite Hn. 
    pose proof (notify_records x norm limited (elected_good_one x (proj1 Hs))) as Hr. rewrite Hb in Hr. cbv zeta in Hr.
    destruct (notify_locked norm limited x) as [[] y]; [|done]. cbn [snd] in *.
    destruct (request_silent y) as [(-> & -> & _) _]. done. }
  destruct Hf as [Hl Ha]. split_and!; [exact Hl| |by apply last_lifts|exact Hmain].
  intros Hne. by apply Ht.
Qed.

(** ** Witness: the last device leaves, on the concrete kernel *)
Lemma limit_command_witness :
  exists x', handle_client (fun _ _ => None) 0 1 (Some (str "OFFLOAD_NOTIFY_LIMIT AA:bb:cc:dd:ee:01 0" ++ [NL]))
      (hstate_zero None) demo_x2 = ([str "OK" ++ [NL]], hstate_zero None, x') /\
    lmap (world_of x') = (fun _ => BPF_LIMIT_NONE) <$> lmap (world_of demo_x2) /\
    ipc_main [NOTIFY; str "AA:bb:cc:dd:ee:01"; str "0"] sample_ipc
    = (0, str "OFFLOAD_NOTIFY_LIMIT AA:bb:cc:dd:ee:01 0" ++ [NL], str "OK" ++ [NL]).
Proof.
  assert (Hp : limit_pinned demo_kern) by reflexivity.
  destruct (limit_command (K:=kern) (fun _ _ => None) 0 1 (str "AA:bb:cc:dd:ee:01") (str "aa:bb:cc:dd:ee:01") false
    (hstate_zero None) sample_ipc demo_kern demo_start demo_x2 WWait Hp demo_started demo_run)
    as (x' & Hh & Hl & _ & Hlift & Hmain).
  - reflexivity.
  - by vm_compute.
  - reflexivity.
  - by vm_compute.
  - split; [reflexivity|]. split; [by vm_compute|]. by split; [reflexivity|].
  - exists x'. split; [exact Hh|]. split.
    + apply Hlift; [intros H; vm_compute in H; discriminate H|]. rewrite Hl. by vm_compute.
    + by apply (Hmain [ReplyEintr; ReplyData (str "O"); ReplyData (str "K" ++ [NL])] []).
Defined.
