(* ===== verification/JsonTool.v ===== *)
(** * The command [hnc_json_c] ([tools/hnc_json.c])

    The helper that shell scripts call to read and change the configuration files.
    It never parses a file: it searches the text for a key in quotes, finds the end of
    the value by counting brackets, and splices texts.  A pointer into a text is the
    suffix it points at; memory is taken to be available.  The buffers the source
    allocates are as long as the texts built here, by its own computation. *)
From S2P Require Import Prelude CStr.
Local Open Scope Z_scope.

Definition LBRACE : Z := 123.
Definition RBRACE : Z := 125.
Definition LBRACKET : Z := 91.
Definition RBRACKET : Z := 93.
Definition COMMA : Z := 44.

(** ** Files

    A file is its bytes and its mode; [None] cannot be opened. *)
Record jfile := JFile { jf_data : bytes; jf_mode : Z }.

(** How the calls of [write_file] turn out: [fopen], how much of the text [fwrite] brings to
    the disk ([None]: all of it), whether the newline gets there, [fclose], [rename]; with
    the mode of a new file. *)
Record jsys := JSys {
  js_fopen : bool; js_fwrite : option nat; js_fputc : bool; js_fclose : bool; js_rename : bool; js_umask_mode : Z
}.

(** What [read_file] returns is used as a C string. *)
Definition read_file (f : option jfile) : option bytes := cut_nul ∘ jf_data <$> f.

(** The results of [fwrite] and [fputc] are not looked at. *)
Definition write_file (w : jsys) (s : bytes) (f : option jfile) : Z * option jfile :=
  if negb (js_fopen w) then (1, f)
  else
    let data := match js_fwrite w with Some n => take n s | None => s end ++ (if js_fputc w then [NL] else []) in
    if negb (js_fclose w) then (1, f)
    else if negb (js_rename w) then (1, f)
    else (0, Some (JFile data (js_umask_mode w))).

(** [chmod(file, 0600)] *)
Definition chmod600 (f : option jfile) : option jfile := (fun x => JFile (jf_data x) 384) <$> f.

(** ** Scanning *)

(** [valid_json]: brackets outside of strings balance, no kind is told apart; [true] is
    the result 0. *)
Fixpoint valid_from (ins esc seen : bool) (dep : Z) (s : bytes) : bool :=
  match s with
  | [] => seen && negb ins && negb esc && (dep =? 0)
  | c :: r =>
      if ins then
        if esc then valid_from ins false seen dep r
        else if c =? BSLASH then valid_from ins true seen dep r
        else if c =? QUOTE then valid_from false esc seen dep r
        else if c <? 32 then false
        else valid_from ins esc seen dep r
      else if isspace c then valid_from ins esc seen dep r
      else if c =? QUOTE then valid_from true esc true dep r
      else if (c =? LBRACE) || (c =? LBRACKET) then valid_from ins esc true (dep + 1) r
      else if (c =? RBRACE) || (c =? RBRACKET) then
        if dep - 1 <? 0 then false else valid_from ins esc true (dep - 1) r
      else valid_from ins esc true dep r
  end.
Definition valid_json (s : bytes) : bool := valid_from false false false 0 s.

(** [escstr]: control characters are dropped. *)
Definition esc1 (c : Z) : bytes :=
  if (c =? BSLASH) || (c =? QUOTE) then [BSLASH; c] else if 32 <=? c then [c] else [].
Definition escstr (v : bytes) : bytes := QUOTE :: concat (map esc1 v) ++ [QUOTE].

Definition literal (v t : bytes) : option bytes :=
  if strcmp_eq t (str "str") || strcmp_eq t (str "string") then Some (escstr v)
  else if strcmp_eq t (str "bool") || strcmp_eq t (str "boolean") then
    if strcmp_eq v (str "true") || strcmp_eq v (str "false") then Some v else None
  else if strcmp_eq t (str "null") then if strcmp_eq v (str "null") then Some v else None
  else if strcmp_eq t (str "num") || strcmp_eq t (str "number") then Some v
  else if strcmp_eq t (str "json") || strcmp_eq t (str "raw") then if valid_json v then Some v else None
  else None.

(** The text of [s] before its suffix [q], and [join3(s, q - s, m, b)]. *)
Definition before (s q : bytes) : bytes := take (length s - length q) s.
Definition join3 (s q m b : bytes) : bytes := before s q ++ m ++ b.

(** The suffix at the end of a value. *)
Fixpoint value_end (ins esc : bool) (dep : Z) (q : bytes) : bytes :=
  match q with
  | [] => []
  | ch :: r =>
      if ins then
        if esc then value_end ins false dep r
        else if ch =? BSLASH then value_end ins true dep r
        else value_end (negb (ch =? QUOTE)) esc dep r
      else if ch =? QUOTE then value_end true esc dep r
      else if (ch =? LBRACE) || (ch =? LBRACKET) then value_end ins esc (dep + 1) r
      else if ((ch =? COMMA) || (ch =? RBRACE)) && (dep =? 0) then q
      else if (ch =? RBRACE) || (ch =? RBRACKET) then value_end ins esc (dep - 1) r
      else value_end ins esc dep r
  end.

(** [find_key]: the text before the key in quotes, the suffix at its value, the suffix
    behind the value. *)
Definition find_key (s key : bytes) : option (bytes * bytes * bytes) :=
  let k := escstr key in
  '(pre, p) ← strstr k s;
  '(_, c) ← split_at COLON (drop (length k) p);
  let val := drop_while isspace (tail c) in
  Some (pre, val, value_end false false 0 val).

(** [while (p > s && isspace(p[-1])) p--; if (p > s && p[-1] == ',') p--;] *)
Definition rtrim (s : bytes) : bytes := rev (drop_while isspace (rev s)).
Definition cut_comma (s : bytes) : bytes :=
  let s := rtrim s in
  if bool_decide (last s = Some COMMA) then removelast s else s.

(** [while (isspace( *b)) b++; if ( *b == ',') b++;] with whether there was a comma. *)
Definition skip_comma (b : bytes) : bool * bytes :=
  match drop_while isspace b with
  | c :: r => if c =? COMMA then (true, r) else (false, c :: r)
  | [] => (false, [])
  end.

Section commands.
Context (w : jsys).

(** What every command ends with. *)
Definition commit (out : bytes) (f : option jfile) : Z * option jfile :=
  if valid_json out then write_file w out f else (1, f).

(** The member to insert behind the first ['{'], and the texts around it. *)
Definition insert_member (s key lit : bytes) : option bytes :=
  '(pre, r) ← split_at LBRACE s;
  let rest := tail r in
  let empty := bool_decide (head (drop_while isspace rest) = Some RBRACE) in
  Some (pre ++ [LBRACE] ++ (escstr key ++ COLON :: lit ++ (if empty then [] else [COMMA])) ++ rest).

Definition set_object_key (key v typ : bytes) (f : option jfile) : Z * option jfile :=
  let s := default (str "{}") (read_file f) in
  if negb (valid_json s) then (2, f)
  else
    match literal v typ with
    | None => (2, f)
    | Some lit =>
        match find_key s key with
        | Some (_, val, end_) => commit (join3 s val lit end_) f
        | None =>
            match insert_member s key lit with
            | None => (2, f)
            | Some out => commit out f
            end
        end
    end.

Definition del_object_key (key : bytes) (f : option jfile) : Z * option jfile :=
  match read_file f with
  | None => (0, f)
  | Some s =>
      if negb (valid_json s) then (2, f)
      else
        match find_key s key with
        | None => (0, f)
        | Some (pre, _, end_) =>
            let '(comma, after) := skip_comma end_ in
            commit ((if comma then pre else cut_comma pre) ++ after) f
        end
  end.

(** [strrchr] *)
Fixpoint strrchr (c : Z) (s : bytes) : option bytes :=
  match s with
  | [] => None
  | x :: r => match strrchr c r with
              | Some q => Some q
              | None => if x =? c then Some s else None
              end
  end.

Definition array_add (key v : bytes) (f : option jfile) : Z * option jfile :=
  let s := default (str "{}") (read_file f) in
  if negb (valid_json s) then (2, f)
  else
    let lit := escstr v in
    match find_key s key with
    | None => set_object_key key (LBRACKET :: lit ++ [RBRACKET]) (str "json") f
    | Some (_, val, end_) =>
        match strstr lit val with
        | Some _ => (0, f)
        | None =>
            match strrchr RBRACKET val with
            | None => (2, f)
            | Some rb =>
                if (length rb <? length end_)%nat then (2, f)
                else
                  let empty := bool_decide (head (drop_while isspace (tail val)) = Some RBRACKET) in
                  commit (join3 s rb ((if empty then [] else [COMMA]) ++ lit) rb) f
            end
        end
    end.

(** The file is not checked before. *)
Definition array_del (key v : bytes) (f : option jfile) : Z * option jfile :=
  match read_file f with
  | None => (0, f)
  | Some s =>
      let lit := escstr v in
      match find_key s key with
      | None => (0, f)
      | Some (_, val, end_) =>
          match strstr lit val with
          | None => (0, f)
          | Some (seg, x) =>
              if (length x <? length end_)%nat then (0, f)
              else
                let '(comma, b) := skip_comma (drop (length lit) x) in
                commit (before s val ++ (if comma then seg else cut_comma seg) ++ b) f
          end
      end
  end.

Definition with_chmod (r : Z * option jfile) : Z * option jfile := (r.1, chmod600 r.2).

Definition token_revoke (tid : bytes) (f : option jfile) : Z * option jfile :=
  match read_file f with
  | None => (0, f)
  | Some s =>
      match '(_, p) ← strstr (escstr tid) s; '(_, r) ← strstr (QUOTE :: str "revoked" ++ [QUOTE]) p;
            strstr (str "false") r with
      | None => (0, f)
      | Some (_, fl) => with_chmod (commit (join3 s fl (str "true") (drop 5 fl)) f)
      end
  end.

(** Every ["false"] of the text becomes ["true"]. *)
Fixpoint all_true (n : nat) (s : bytes) : bytes :=
  match n, s with
  | O, _ | _, [] => []
  | S n, c :: r => if starts_with (str "false") s then str "true" ++ all_true n (drop 5 s) else c :: all_true n r
  end.

Definition token_revoke_all (f : option jfile) : Z * option jfile :=
  match read_file f with
  | None => (0, f)
  | Some s => with_chmod (commit (all_true (length s) s) f)
  end.

(** The exit code and what is printed. *)
Definition get_top (key : bytes) (f : option jfile) : Z * bytes :=
  match read_file f with
  | None => (2, [])
  | Some s =>
      match find_key s key with
      | None => (3, [])
      | Some (_, val, end_) => (0, before val end_ ++ [NL])
      end
  end.

(** ** The command line

    [args] are the arguments behind the name of the program; [files] are the files by
    name.  The result is the exit code, the output and the files. *)
Definition jstate : Type := gmap bytes jfile.

Definition on_file (name : bytes) (op : option jfile -> Z * option jfile) (files : jstate) : Z * bytes * jstate :=
  let '(rc, f) := op (files !! name) in
  (rc, [], match f with Some x => <[name := x]> files | None => files end).

Definition json_main (args : list bytes) (files : jstate) : Z * bytes * jstate :=
  match args with
  | cmd :: rest =>
      if strcmp_eq cmd (str "version") then (0, str "hnc_json_c hotfix20.8 optional write helper" ++ [NL], files)
      else
        match rest with
        | [file] =>
            if strcmp_eq cmd (str "validate") then
              match read_file (files !! file) with
              | None => (2, [], files)
              | Some s => (if valid_json s then 0 else 1, [], files)
              end
            else if strcmp_eq cmd (str "token-revoke-all") then on_file file token_revoke_all files
            else (2, [], files)
        | [file; a] =>
            if strcmp_eq cmd (str "get-top") || strcmp_eq cmd (str "get") then
              let '(rc, out) := get_top a (files !! file) in (rc, out, files)
            else if strcmp_eq cmd (str "del-object-key") || strcmp_eq cmd (str "object-del") then
              on_file file (del_object_key a) files
            else if strcmp_eq cmd (str "token-revoke") then on_file file (token_revoke a) files
            else (2, [], files)
        | [file; a; b] =>
            if strcmp_eq cmd (str "set-object-key") || strcmp_eq cmd (str "object-set") then
              on_file file (set_object_key a b (str "str")) files
            else if strcmp_eq cmd (str "add-array-unique") || strcmp_eq cmd (str "array-add-unique") then
              on_file file (array_add a b) files
            else if strcmp_eq cmd (str "del-array-value") || strcmp_eq cmd (str "array-del-value") then
              on_file file (array_del a b) files
            else (2, [], files)
        | [file; a; b; t] =>
            if strcmp_eq cmd (str "set-object-key") || strcmp_eq cmd (str "object-set") then
              on_file file (set_object_key a b t) files
            else (2, [], files)
        | _ => (2, [], files)
        end
  | [] => (2, [], files)
  end.
End commands.
