(* ===== verification/JsonToolSpec.v ===== *)
(** * Theorems about [hnc_json_c]

    On the texts of JSON objects, with blanks anywhere ([jtext], [doc]), the commands of
    the helper act as operations on the list of fields, as long as the key is not
    mentioned before its field; without that they may hit another place. *)
From Stdlib Require Import ZifyBool.
From S2P Require Import Prelude CStr JsonText Stdio JsonTool.
Local Open Scope Z_scope.

(** ** Values and their induction *)
Section json_induction.
Context (P : json -> Prop).
Context (Hstr : forall s, P (JStr s)) (Hnum : forall z, P (JNum z)) (Hbool : forall b, P (JBool b)).
Context (Hword : forall w, P (JWord w)).
Context (Harr : forall vs, Forall P vs -> P (JArr vs)).
Context (Hobj : forall fs, Forall (fun kv => P kv.2) fs -> P (JObj fs)).

Fixpoint json_ind' (v : json) : P v :=
  match v with
  | JStr s => Hstr s
  | JNum z => Hnum z
  | JBool b => Hbool b
  | JWord w => Hword w
  | JArr vs => Harr vs ((fix go vs : Forall P vs :=
                           match vs with
                           | [] => List.Forall_nil _
                           | v :: vs' => List.Forall_cons _ v vs' (json_ind' v) (go vs')
                           end) vs)
  | JObj fs => Hobj fs ((fix go fs : Forall (fun kv => P kv.2) fs :=
                           match fs with
                           | [] => List.Forall_nil _
                           | (k, v) :: fs' =>
                               @List.Forall_cons _ (fun kv : bytes * json => P kv.2) (k, v) fs' (json_ind' v) (go fs')
                           end) fs)
  end.
End json_induction.

(** ** The texts of a value *)

(** A code point of the Basic Multilingual Plane in UTF-8; the two halves of a pair of
    surrogates are taken one by one. *)
Definition utf8 (v : Z) : bytes :=
  if v <? 128 then [v]
  else if v <? 2048 then [192 + v / 64; 128 + v mod 64]
  else [224 + v / 4096; 128 + v / 64 mod 64; 128 + v mod 64].
(** What a backslash and a letter stand for. *)
Definition escape (e : Z) : option Z :=
  if (e =? QUOTE) || (e =? BSLASH) || (e =? 47) then Some e
  else if e =? 98 then Some 8
  else if e =? 102 then Some 12
  else if e =? 110 then Some NL
  else if e =? 114 then Some CR
  else if e =? 116 then Some TAB
  else None.
Definition hex_of (l : list Z) : Z := fold_left (fun v h => v * 16 + hex_val h) l 0.

(** A string and its text between the quotes. *)
Inductive str_text : bytes -> bytes -> Prop :=
  | st_nil : str_text [] []
  | st_char c s t : plain_char c = true -> str_text s t -> str_text (c :: s) (c :: t)
  | st_esc e c s t : escape e = Some c -> str_text s t -> str_text (c :: s) (BSLASH :: e :: t)
  | st_uni h s t : forallb isxdigit h = true -> length h = 4%nat -> str_text s t ->
      str_text (utf8 (hex_of h) ++ s) (BSLASH :: 117 :: h ++ t).
(** A string that needs no escape is written without. *)
Definition spelled (s t : bytes) : Prop := str_text s t /\ (plain s = true -> t = s).

(** [null], or characters that numbers are made of. *)
Definition num_char (c : Z) : bool := is_digit c || (c =? 43) || (c =? 45) || (c =? 46) || (c =? 69) || (c =? 101).
Definition word_ok (w : bytes) : bool :=
  bool_decide (w = str "null") || negb (bool_decide (w = [])) && forallb num_char w.

Lemma str_text_plain s : plain s = true -> str_text s s.
Proof.
  unfold plain. induction s as [|c s IH]; [constructor|]. cbn [forallb]. intros [Hc Hs]%andb_prop.
  constructor; [done|by apply IH].
Qed.
Lemma spelled_plain s : plain s = true -> spelled s s.
Proof. intros Hs. by split; [apply str_text_plain|]. Qed.

(** Members joined by commas. *)
Definition suffixes (ms : list bytes) : bytes := concat (map (cons COMMA) ms).
Definition join (ms : list bytes) : bytes := match ms with [] => [] | m :: r => m ++ suffixes r end.
Definition prefixes (ms : list bytes) : bytes := concat (map (fun m => m ++ [COMMA]) ms).

Inductive padded (R : bytes -> Prop) : bytes -> Prop :=
  | Padded sp t sp' : blanks sp = true -> blanks sp' = true -> R t -> padded R (sp ++ t ++ sp').
Inductive member (R : bytes -> Prop) (k : bytes) : bytes -> Prop :=
  | Member sp kt sp1 sp2 t sp3 :
      blanks sp = true -> blanks sp1 = true -> blanks sp2 = true -> blanks sp3 = true ->
      spelled k kt -> R t -> member R k (sp ++ quoted kt ++ sp1 ++ COLON :: sp2 ++ t ++ sp3).

(** Blanks may stand wherever JSON allows them. *)
Inductive jtext : json -> bytes -> Prop :=
  | jt_str s t : spelled s t -> jtext (JStr s) (quoted t)
  | jt_num z : jtext (JNum z) (dec z)
  | jt_bool b : jtext (JBool b) (jbool b)
  | jt_word w : word_ok w = true -> jtext (JWord w) w
  | jt_arr_nil sp : blanks sp = true -> jtext (JArr []) (LBRACKET :: sp ++ [RBRACKET])
  | jt_arr vs ms : vs <> [] -> Forall2 (fun v => padded (jtext v)) vs ms ->
      jtext (JArr vs) (LBRACKET :: join ms ++ [RBRACKET])
  | jt_obj_nil sp : blanks sp = true -> jtext (JObj []) (LBRACE :: sp ++ [RBRACE])
  | jt_obj fs ms : fs <> [] -> Forall2 (fun kv => member (jtext kv.2) kv.1) fs ms ->
      jtext (JObj fs) (LBRACE :: join ms ++ [RBRACE]).

(** A file with one object. *)
Definition doc (fs : list (bytes * json)) (s : bytes) : Prop :=
  exists sp t sp', s = sp ++ t ++ sp' /\ blanks sp = true /\ blanks sp' = true /\ jtext (JObj fs) t.

(** ** Members of a list *)

Lemma join_split ms1 m ms2 : join (ms1 ++ m :: ms2) = prefixes ms1 ++ m ++ suffixes ms2.
Proof.
  induction ms1 as [|m1 ms1 IH]; [done|]. unfold prefixes in *. cbn [map concat].
  destruct ms1 as [|m1' ms1]; cbn [app join] in *.
  - cbn. by rewrite <- !app_assoc.
  - rewrite <- !app_assoc. cbn [suffixes map concat app]. unfold suffixes in *. cbn [map concat] in *.
    do 2 f_equal. by rewrite IH.
Qed.

Lemma prefixes_snoc ms : ms <> [] -> prefixes ms = join ms ++ [COMMA].
Proof.
  destruct ms as [|m ms] using rev_ind; [done|]. intros _. unfold prefixes. rewrite map_app, concat_app.
  cbn. rewrite app_nil_r. rewrite (join_split ms m []). unfold prefixes. cbn. by rewrite app_nil_r, <- app_assoc.
Qed.

(** ** Scanning a text

    Both scanners keep a state of three parts; [scan_run] is that state after a text in which
    no control character is in a string, no bracket closes below the start, and no comma
    stands at depth 0. *)
Fixpoint scan_run (ins esc : bool) (d : Z) (s : bytes) : option (bool * bool * Z) :=
  match s with
  | [] => Some (ins, esc, d)
  | c :: r =>
      if ins then
        if esc then scan_run ins false d r
        else if c =? BSLASH then scan_run ins true d r
        else if c =? QUOTE then scan_run false esc d r
        else if c <? 32 then None
        else scan_run ins esc d r
      else if c =? QUOTE then scan_run true esc d r
      else if (c =? LBRACE) || (c =? LBRACKET) then scan_run ins esc (d + 1) r
      else if (c =? RBRACE) || (c =? RBRACKET) then if d - 1 <? 0 then None else scan_run ins esc (d - 1) r
      else if (c =? COMMA) && (d =? 0) then None
      else scan_run ins esc d r
  end.

Lemma run_value_end s : forall ins esc d st t,
  scan_run ins esc d s = Some st -> value_end ins esc d (s ++ t) = value_end st.1.1 st.1.2 st.2 t.
Proof.
  induction s as [|c s IH]; intros ins esc d st t; cbn [scan_run app]; [by intros [= <-]|]. intros H.
  cbn [value_end]. destruct ins.
  - destruct esc; [by apply IH|]. destruct (c =? BSLASH); [by apply IH|].
    destruct (c =? QUOTE); [by apply IH|]. destruct (c <? 32); [done|]. by apply IH.
  - destruct (c =? QUOTE); [by apply IH|].
    destruct ((c =? LBRACE) || (c =? LBRACKET)); [by apply IH|].
    destruct ((c =? RBRACE) || (c =? RBRACKET)) eqn:Ec.
    + destruct (Z.ltb_spec (d - 1) 0); [done|]. rewrite (proj2 (Z.eqb_neq d 0)), andb_false_r by lia.
      by apply IH.
    + destruct (c =? RBRACE) eqn:Er; [by apply orb_false_iff in Ec as [? _]|]. rewrite orb_false_r.
      destruct ((c =? COMMA) && (d =? 0)); [done|]. by apply IH.
Qed.

Lemma run_valid s : forall ins esc d st seen D t,
  scan_run ins esc d s = Some st -> 0 <= D ->
  exists seen', (seen = true -> seen' = true) /\
    valid_from ins esc seen (D + d) (s ++ t) = valid_from st.1.1 st.1.2 seen' (D + st.2) t.
Proof.
  induction s as [|c s IH]; intros ins esc d st seen D t; cbn [scan_run app].
  { intros [= <-] _. by exists seen. }
  intros H HD. cbn [valid_from]. destruct ins.
  - destruct esc; [by apply IH|]. destruct (c =? BSLASH); [by apply IH|].
    destruct (c =? QUOTE); [by apply IH|]. destruct (c <? 32); [done|]. by apply IH.
  - destruct (isspace c) eqn:Es.
    { assert (Hb : c <> QUOTE /\ c <> LBRACE /\ c <> LBRACKET /\ c <> RBRACE /\ c <> RBRACKET /\ c <> COMMA)
        by (unfold isspace, QUOTE, LBRACE, LBRACKET, RBRACE, RBRACKET, COMMA in *; lia).
      destruct Hb as (H1 & H2 & H3 & H4 & H5 & H6).
      rewrite !(proj2 (Z.eqb_neq c _)) in H by done. by apply IH. }
    destruct (c =? QUOTE); [destruct (IH _ _ _ _ true D t H HD) as (sn & ? & ?); by exists sn; split; [auto|]|].
    destruct ((c =? LBRACE) || (c =? LBRACKET)).
    { destruct (IH _ _ _ _ true D t H HD) as (sn & ? & Hv). exists sn. split; [auto|].
      by replace (D + d + 1) with (D + (d + 1)) by lia. }
    destruct ((c =? RBRACE) || (c =? RBRACKET)) eqn:Ec.
    + destruct (Z.ltb_spec (d - 1) 0); [done|]. rewrite (proj2 (Z.ltb_ge (D + d - 1) 0)) by lia.
      destruct (IH _ _ _ _ true D t H HD) as (sn & ? & Hv). exists sn. split; [auto|]. by replace (D + d - 1) with (D + (d - 1)) by lia.
    + destruct ((c =? COMMA) && (d =? 0)); [done|].
      destruct (IH _ _ _ _ true D t H HD) as (sn & ? & ?); by exists sn; split; [auto|].
Qed.

(** A text that leaves the scanner as it was, at a depth. *)
Definition keeps (d : Z) (s : bytes) : Prop :=
  forall t, scan_run false false d (s ++ t) = scan_run false false d t.

Lemma keeps_app d s t : keeps d s -> keeps d t -> keeps d (s ++ t).
Proof. intros Hs Ht u. by rewrite <- app_assoc, Hs, Ht. Qed.

Lemma keeps_nil d : keeps d [].
Proof. done. Qed.

(** Characters that mean nothing outside of a string. *)
Definition inert (c : Z) : bool :=
  negb ((c =? QUOTE) || (c =? LBRACE) || (c =? LBRACKET) || (c =? RBRACE) || (c =? RBRACKET) || (c =? COMMA)).

Lemma keeps_inert d s : forallb inert s = true -> keeps d s.
Proof.
  induction s as [|c s IH]; [done|]. cbn [forallb]. intros [Hc Hs]%andb_prop t. cbn [app scan_run].
  unfold inert in Hc. apply negb_true_iff in Hc. rewrite !orb_false_iff in Hc. destruct Hc as [[[[[-> ->] ->] ->] ->] ->].
  cbn [orb andb]. by apply IH.
Qed.

Lemma blanks_inert s : blanks s = true -> forallb inert s = true.
Proof.
  unfold blanks. rewrite !forallb_forall. intros H c Hc. specialize (H c Hc).
  unfold isspace, inert, QUOTE, LBRACE, LBRACKET, RBRACE, RBRACKET, COMMA in *. lia.
Qed.

Lemma keeps_comma d : 0 < d -> keeps d [COMMA].
Proof. intros Hd t. cbn. destruct d; try lia. done. Qed.

Lemma dec_inert z : forallb inert (dec z) = true.
Proof.
  assert (H : forall n, 0 <= n -> forallb inert (dec_nat n) = true).
  { intros n Hn. apply forallb_forall. intros c Hc%list_elem_of_In. apply dec_nat_digit in Hc; [|done].
    unfold is_digit, inert, QUOTE, LBRACE, LBRACKET, RBRACE, RBRACKET, COMMA in *. lia. }
  unfold dec. destruct (Z.ltb_spec z 0); [|by apply H]. cbn [forallb]. by rewrite H by lia.
Qed.

Lemma hex_plain h : forallb isxdigit h = true -> plain h = true.
Proof.
  unfold plain. rewrite !forallb_forall. intros H c Hc. specialize (H c Hc).
  unfold isxdigit, is_digit, is_lower_hex, is_upper_hex, plain_char, QUOTE, BSLASH in *. lia.
Qed.

Lemma run_plain_app d h t : plain h = true -> scan_run true false d (h ++ t) = scan_run true false d t.
Proof.
  induction h as [|c h IH]; [done|]. unfold plain in *. cbn [forallb]. intros [Hc Hs]%andb_prop.
  unfold plain_char in Hc. rewrite !andb_true_iff, !negb_true_iff in Hc.
  destruct Hc as [[[H32 _] Hq] Hb]. cbn [app scan_run]. rewrite Hq, Hb.
  rewrite (proj2 (Z.ltb_ge c 32)) by lia. by apply IH.
Qed.

Lemma run_text d s t r : str_text s t -> scan_run true false d (t ++ QUOTE :: r) = scan_run false false d r.
Proof.
  induction 1 as [|c s t Hc _ IH|e c s t He _ IH|h s t Hh _ _ IH]; [done|..]; cbn [app].
  - rewrite <- IH. apply (run_plain_app d [c]). unfold plain. cbn [forallb]. by rewrite Hc.
  - cbn [scan_run]. rewrite IH. done.
  - cbn [scan_run]. rewrite <- app_assoc, (run_plain_app d h), IH by by apply hex_plain. done.
Qed.

Lemma keeps_quoted d s t : str_text s t -> keeps d (quoted t).
Proof. intros Hs r. unfold quoted. cbn [app scan_run]. rewrite <- app_assoc. by eapply run_text. Qed.

Lemma word_inert w : word_ok w = true -> forallb inert w = true.
Proof.
  unfold word_ok. intros [->%bool_decide_eq_true|[_ H]%andb_prop]%orb_true_iff; [done|].
  rewrite !forallb_forall in *. intros c Hc. specialize (H c Hc).
  unfold num_char, is_digit, inert, QUOTE, LBRACE, LBRACKET, RBRACE, RBRACKET, COMMA in *. lia.
Qed.
Lemma word_head w : word_ok w = true -> exists c r, w = c :: r /\ isspace c = false.
Proof.
  unfold word_ok. intros [->%bool_decide_eq_true|[Hw H]%andb_prop]%orb_true_iff; [by eexists _, _|].
  destruct w as [|c w]; [done|]. exists c, w. split; [done|]. cbn [forallb] in H. apply andb_prop in H as [H _].
  unfold num_char, is_digit, isspace in *. lia.
Qed.

Lemma keeps_join d ms : 0 < d -> Forall (keeps d) ms -> keeps d (join ms).
Proof.
  intros Hd. destruct 1 as [|m ms Hm Hms]; [apply keeps_nil|]. cbn [join]. apply keeps_app; [done|].
  induction Hms as [|m' ms' Hm' _ IH]; [apply keeps_nil|]. unfold suffixes. cbn [map concat].
  apply (keeps_app d ([COMMA] ++ m')); [|done]. apply keeps_app; [by apply keeps_comma|done].
Qed.

Lemma keeps_bracket (o c : Z) d s :
  (o = LBRACE /\ c = RBRACE) \/ (o = LBRACKET /\ c = RBRACKET) -> 0 <= d -> keeps (d + 1) s -> keeps d (o :: s ++ [c]).
Proof.
  intros Ho Hd Hs t.
  assert (E : scan_run false false d ((o :: s ++ [c]) ++ t) = scan_run false false (d + 1) ((s ++ [c]) ++ t))
    by (by destruct Ho as [[-> ->]|[-> ->]]).
  rewrite E, <- app_assoc, Hs.
  assert (E2 : scan_run false false (d + 1) ([c] ++ t) = if d + 1 - 1 <? 0 then None else scan_run false false (d + 1 - 1) t)
    by (by destruct Ho as [[-> ->]|[-> ->]]).
  rewrite E2, (proj2 (Z.ltb_ge _ _)) by lia. by replace (d + 1 - 1) with d by lia.
Qed.

Lemma jtext_keeps v : forall t d, 0 <= d -> jtext v t -> keeps d t.
Proof.
  induction v as [s|z|b|w|vs IH|fs IH] using json_ind'; intros t d Hd Ht; inversion Ht as [? ? [Hst _]| | | | | | |]; subst.
  - by eapply keeps_quoted.
  - apply keeps_inert, dec_inert.
  - by destruct b; apply keeps_inert.
  - by apply keeps_inert, word_inert.
  - apply keeps_bracket; [by right|done|]. by apply keeps_inert, blanks_inert.
  - apply keeps_bracket; [by right|done|]. apply keeps_join; [lia|].
    eapply Forall2_Forall_r; [eassumption|]. eapply Forall_impl; [exact IH|].
    intros v Hv m [sp t sp' B1 B2 Ht']. repeat apply keeps_app; try (by apply keeps_inert, blanks_inert).
    apply Hv; [lia|done].
  - apply keeps_bracket; [by left|done|]. by apply keeps_inert, blanks_inert.
  - apply keeps_bracket; [by left|done|]. apply keeps_join; [lia|].
    eapply Forall2_Forall_r; [eassumption|]. eapply Forall_impl; [exact IH|].
    intros kv Hv m [sp kt sp1 sp2 t sp3 B1 B2 B3 B4 [Hk _] Ht'].
    apply keeps_app; [by apply keeps_inert, blanks_inert|]. apply keeps_app; [by eapply keeps_quoted|].
    apply keeps_app; [by apply keeps_inert, blanks_inert|].
    apply (keeps_app _ [COLON]); [by apply keeps_inert|]. apply keeps_app; [by apply keeps_inert, blanks_inert|].
    apply keeps_app; [apply Hv; [lia|done]|by apply keeps_inert, blanks_inert].
Qed.

(** A value starts with no blank. *)
Lemma jtext_head v t : jtext v t -> exists c r, t = c :: r /\ isspace c = false.
Proof.
  destruct 1; try (by eexists _, _).
  - destruct (dec_head z []) as (c & r & E & Hc). rewrite app_nil_r in E. rewrite E. exists c, r.
    split; [done|]. unfold isspace. lia.
  - by destruct b; eexists _, _.
  - by apply word_head.
Qed.

(** The texts hold no NUL. *)
Definition no_nul (s : bytes) : bool := forallb (fun c => negb (c =? 0)) s.

Lemma cut_nul_no_nul s : no_nul s = true -> cut_nul s = s.
Proof.
  unfold no_nul. induction s as [|c s IH]; [done|]. cbn [forallb cut_nul]. intros [Hc Hs]%andb_prop.
  apply negb_true_iff in Hc. by rewrite Hc, IH.
Qed.

Lemma no_nul_app s t : no_nul (s ++ t) = no_nul s && no_nul t.
Proof. apply forallb_app. Qed.

Lemma no_nul_class (p : Z -> bool) s : (p 0 = false) -> forallb p s = true -> no_nul s = true.
Proof.
  unfold no_nul. rewrite !forallb_forall. intros H0 H c Hc. specialize (H c Hc).
  destruct (Z.eqb_spec c 0) as [->|]; [congruence|done].
Qed.

Lemma no_nul_blanks s : blanks s = true -> no_nul s = true.
Proof. by apply no_nul_class. Qed.

Lemma no_nul_str s t : str_text s t -> no_nul t = true.
Proof.
  induction 1 as [|c s t Hc _ IH|e c s t He _ IH|h s t Hh _ _ IH]; [done|..].
  - change (c :: t) with ([c] ++ t). rewrite no_nul_app, IH, (no_nul_class plain_char); [done|done|].
    cbn [forallb]. by rewrite Hc.
  - change (BSLASH :: e :: t) with ([BSLASH] ++ [e] ++ t). rewrite !no_nul_app, IH.
    unfold no_nul. cbn [forallb]. destruct (Z.eqb_spec e 0) as [->|]; done.
  - change (BSLASH :: 117 :: h ++ t) with ([BSLASH; 117] ++ h ++ t).
    rewrite !no_nul_app, IH, (no_nul_class isxdigit h); done.
Qed.
Lemma no_nul_quoted s t : str_text s t -> no_nul (quoted t) = true.
Proof.
  intros Hs. unfold quoted. change (QUOTE :: t ++ [QUOTE]) with ([QUOTE] ++ t ++ [QUOTE]).
  rewrite !no_nul_app. by rewrite (no_nul_str s t).
Qed.

Lemma no_nul_dec z : no_nul (dec z) = true.
Proof.
  assert (H : forall n, 0 <= n -> no_nul (dec_nat n) = true).
  { intros n Hn. apply (no_nul_class is_digit); [done|]. apply forallb_forall.
    intros c Hc%list_elem_of_In. by apply dec_nat_digit in Hc. }
  unfold dec. destruct (Z.ltb_spec z 0); [|by apply H].
  change (45 :: dec_nat (- z)) with ([45] ++ dec_nat (- z)). rewrite no_nul_app. by apply H; lia.
Qed.

Lemma no_nul_word w : word_ok w = true -> no_nul w = true.
Proof.
  unfold word_ok. intros [->%bool_decide_eq_true|[_ H]%andb_prop]%orb_true_iff; [done|].
  by apply (no_nul_class num_char).
Qed.

Lemma no_nul_join ms : Forall (fun m => no_nul m = true) ms -> no_nul (join ms) = true.
Proof.
  destruct 1 as [|m ms Hm Hms]; [done|]. cbn [join]. rewrite no_nul_app, Hm. cbn [andb].
  induction Hms as [|m' ms' Hm' _ IH]; [done|]. unfold suffixes in *. cbn [map concat].
  by rewrite no_nul_app, IH, andb_true_r.
Qed.

Lemma no_nul_bracket o c s : no_nul [o; c] = true -> no_nul s = true -> no_nul (o :: s ++ [c]) = true.
Proof.
  intros Ho Hs. change (o :: s ++ [c]) with ([o] ++ s ++ [c]). rewrite !no_nul_app, Hs.
  unfold no_nul in *. cbn in *. destruct (negb (o =? 0)), (negb (c =? 0)); done.
Qed.

Lemma no_nul_member R k m : (forall t, R t -> no_nul t = true) -> member R k m -> no_nul m = true.
Proof.
  intros HR [sp kt sp1 sp2 t sp3 H1 H2 H3 H4 [Hk _] Ht]. rewrite !no_nul_app, (no_nul_quoted k) by done.
  change (COLON :: sp2 ++ t ++ sp3) with ([COLON] ++ sp2 ++ t ++ sp3). rewrite !no_nul_app.
  by rewrite (no_nul_blanks sp), (no_nul_blanks sp1), (no_nul_blanks sp2), (no_nul_blanks sp3), (HR t) by done.
Qed.

Lemma jtext_no_nul v : forall t, jtext v t -> no_nul t = true.
Proof.
  induction v as [s|z|b|w|vs IH|fs IH] using json_ind'; intros t Ht; inversion Ht as [? ? [Hst _]| | | | | | |]; subst.
  - by eapply no_nul_quoted.
  - apply no_nul_dec.
  - by destruct b.
  - by apply no_nul_word.
  - apply no_nul_bracket; [done|by apply no_nul_blanks].
  - apply no_nul_bracket; [done|]. apply no_nul_join. eapply Forall2_Forall_r; [eassumption|].
    eapply Forall_impl; [exact IH|]. intros v Hv m [sp t sp' B1 B2 Ht'].
    by rewrite !no_nul_app, (no_nul_blanks sp), (no_nul_blanks sp'), (Hv t) by done.
  - apply no_nul_bracket; [done|by apply no_nul_blanks].
  - apply no_nul_bracket; [done|]. apply no_nul_join. eapply Forall2_Forall_r; [eassumption|].
    eapply Forall_impl; [exact IH|]. intros kv Hv m Hm. exact (no_nul_member _ _ m Hv Hm).
Qed.

Lemma doc_no_nul fs s : doc fs s -> no_nul s = true.
Proof.
  intros (sp & t & sp' & -> & H1 & H2 & Ht).
  by rewrite !no_nul_app, (no_nul_blanks sp), (no_nul_blanks sp'), (jtext_no_nul _ _ Ht) by done.
Qed.

Lemma valid_seen c r d :
  isspace c = false -> valid_from false false false d (c :: r) = valid_from false false true d (c :: r).
Proof. intros Hc. cbn [valid_from]. by rewrite Hc. Qed.

(** Blanks may stand around the text of any value. *)
Lemma text_valid v sp t sp' : blanks sp = true -> blanks sp' = true -> jtext v t -> valid_json (sp ++ t ++ sp') = true.
Proof.
  intros H1 H2 Ht.
  assert (Hr : scan_run false false 0 (t ++ sp') = Some (false, false, 0)).
  { rewrite (jtext_keeps _ _ 0 ltac:(lia) Ht). pose proof (keeps_inert 0 sp' (blanks_inert _ H2) []) as H.
    by rewrite app_nil_r in H. }
  destruct (jtext_head _ _ Ht) as (c & r & E & Hc).
  assert (Hsp : forall u, valid_from false false false 0 (sp ++ u) = valid_from false false false 0 u).
  { intros u. clear -H1. induction sp as [|x sp IH]; [done|]. unfold blanks in *. cbn [forallb] in H1.
    apply andb_prop in H1 as [Hx H1]. cbn [app valid_from]. rewrite Hx. by apply IH. }
  unfold valid_json. rewrite Hsp.
  destruct (run_valid _ _ _ _ _ true 0 [] Hr ltac:(lia)) as (sn & Hs & Hv). rewrite app_nil_r in Hv.
  cbn [fst snd] in Hv. rewrite Hs in Hv by done. rewrite E in *. cbn [app] in *. rewrite valid_seen by done. exact Hv.
Qed.
Lemma jtext_valid v t : jtext v t -> valid_json t = true.
Proof. intros Ht. pose proof (text_valid v [] t [] eq_refl eq_refl Ht) as H. by rewrite app_nil_r in H. Qed.

Lemma doc_valid fs s : doc fs s -> valid_json s = true.
Proof. intros (sp & t & sp' & -> & H1 & H2 & Ht). by eapply text_valid. Qed.

(** ** Searching a key *)

(** What may follow a string. *)
Definition delim (c : Z) : bool :=
  isspace c || (c =? COMMA) || (c =? COLON) || (c =? RBRACE) || (c =? RBRACKET).
Definition ends (r : bytes) : Prop := forall c, head r = Some c -> delim c = true.

(** Keys that can be told from the texts between two strings. *)
Definition name_key (key : bytes) : bool :=
  plain key && match key with [] => false | c :: _ => negb (delim c) end.

Fixpoint ends_with (p s : bytes) : bool :=
  bool_decide (s = p) || match s with [] => false | _ :: r => ends_with p r end.
(** The search finds the key in a string: it is the string, or the string ends with a quote
    and the key, as its text then does. *)
Definition hits (key s : bytes) : bool := bool_decide (s = key) || ends_with (QUOTE :: key) s.

(** The key is found in a string of the value. *)
Fixpoint mentions (key : bytes) (v : json) : bool :=
  match v with
  | JStr s => hits key s
  | JNum _ | JBool _ | JWord _ => false
  | JArr vs => existsb (mentions key) vs
  | JObj fs => existsb (fun kv => hits key kv.1 || mentions key kv.2) fs
  end.

Lemma ends_with_app p a s : ends_with p (a ++ s) = false -> ends_with p s = false.
Proof. induction a as [|c a IH]; [done|]. cbn [app ends_with]. intros [_ H]%orb_false_iff. by apply IH. Qed.
Lemma hits_self key : hits key key = true.
Proof. unfold hits. by rewrite bool_decide_eq_true_2. Qed.
Lemma hits_ne key s : hits key s = false -> s <> key.
Proof. intros H ->. by rewrite hits_self in H. Qed.

Lemma escstr_plain s : plain s = true -> escstr s = quoted s.
Proof.
  intros Hs. unfold escstr, quoted. do 2 f_equal. unfold plain in Hs.
  induction s as [|c s IH]; [done|]. cbn [forallb] in Hs. apply andb_prop in Hs as [Hc Hs].
  cbn [map concat]. rewrite IH by done. unfold plain_char in Hc. unfold esc1.
  rewrite !andb_true_iff, !negb_true_iff in Hc. destruct Hc as [[[H32 _] -> ] ->]. by rewrite H32.
Qed.

Lemma strstr_skip p c s :
  starts_with p (c :: s) = false -> strstr p (c :: s) = ('(a, q) ← strstr p s; Some (c :: a, q)).
Proof. intros H. cbn [strstr]. by rewrite H. Qed.

(** A name in quotes is the text of a string only when it is the string. *)
Lemma str_text_key key s t a b :
  plain key = true -> str_text s t -> key ++ QUOTE :: a = t ++ QUOTE :: b -> t = key /\ s = key.
Proof.
  intros Hk Hs. revert key Hk.
  induction Hs as [|c s t Hc _ IH|e c s t _ _ _|h s t _ _ _ _]; intros [|k key] Hk; cbn [app]; try done;
    try (unfold plain in Hk; cbn [forallb] in Hk; apply andb_prop in Hk as [Hk Hks]).
  - intros [= -> _]. done.
  - intros [= <- _]. done.
  - intros [= <- E]. by destruct (IH key Hks E) as [-> ->].
  - intros [= -> _]. done.
  - intros [= -> _]. done.
Qed.

Lemma existsb_none {A} (p : A -> bool) l x : existsb p l = false -> x ∈ l -> p x = false.
Proof.
  intros H Hx. destruct (p x) eqn:E; [|done].
  assert (existsb p l = true); [|congruence]. apply existsb_exists. exists x. by split; [apply list_elem_of_In|].
Qed.

Section search.
Context (key : bytes) (Hkey : name_key key = true).

Lemma key_plain : plain key = true.
Proof. by apply andb_prop in Hkey as [? _]. Qed.

(** The search passes a text. *)
Definition passes (s r : bytes) : Prop :=
  strstr (quoted key) (s ++ r) = ('(a, q) ← strstr (quoted key) r; Some (s ++ a, q)).

Lemma passes_app s t r : passes s (t ++ r) -> passes t r -> passes (s ++ t) r.
Proof.
  unfold passes. intros Hs Ht. rewrite <- app_assoc, Hs, Ht.
  destruct (strstr (quoted key) r) as [[a q]|]; [|done]. cbn. by rewrite app_assoc.
Qed.

Lemma passes_nil r : passes [] r.
Proof. unfold passes. cbn. by destruct (strstr (quoted key) r) as [[a q]|]. Qed.

Lemma passes_cons c s r :
  starts_with (quoted key) (c :: s ++ r) = false -> passes s r -> passes (c :: s) r.
Proof.
  unfold passes. intros H Hs. cbn [app]. rewrite strstr_skip, Hs by done.
  by destruct (strstr (quoted key) r) as [[a q]|].
Qed.

Lemma passes_other s r : forallb (fun c => negb (c =? QUOTE)) s = true -> passes s r.
Proof.
  induction s as [|c s IH]; [intros _; apply passes_nil|]. cbn [forallb]. intros [Hc Hs]%andb_prop.
  apply passes_cons; [|by apply IH]. unfold starts_with, quoted. cbn [strip_prefix].
  apply negb_true_iff in Hc. by rewrite Z.eqb_sym, Hc.
Qed.

Lemma passes_inert s r : forallb inert s = true -> passes s r.
Proof.
  intros Hs. apply passes_other. rewrite !forallb_forall in *. intros c Hc. specialize (Hs c Hc).
  unfold inert in Hs. lia.
Qed.

Lemma passes_plain s r : plain s = true -> passes s r.
Proof.
  intros Hs. apply passes_other. unfold plain in Hs. rewrite !forallb_forall in *. intros c Hc. specialize (Hs c Hc).
  unfold plain_char in Hs. lia.
Qed.

(** At a closing quote the key does not start. *)
Lemma passes_close r : ends r -> passes [QUOTE] r.
Proof.
  intros Hr. apply passes_cons; [|apply passes_nil]. unfold starts_with.
  destruct (strip_prefix _ _) as [rest|] eqn:E; [|done]. apply strip_prefix_Some in E.
  unfold quoted in E. cbn [app] in E. injection E as E. unfold name_key in Hkey.
  destruct key as [|c k]; [by apply andb_prop in Hkey as [_ ?]|]. cbn [app] in E. rewrite E in Hr.
  specialize (Hr c eq_refl). apply andb_prop in Hkey as [_ Hn]. rewrite Hr in Hn. done.
Qed.

Lemma no_key_at s t r :
  str_text s t -> s <> key -> starts_with (quoted key) (QUOTE :: (t ++ [QUOTE]) ++ r) = false.
Proof.
  intros Hs Hne. unfold starts_with. destruct (strip_prefix _ _) as [rest|] eqn:E; [|done].
  apply strip_prefix_Some in E. unfold quoted in E. cbn [app] in E. injection E as E.
  rewrite <- !app_assoc in E. cbn [app] in E. symmetry in E. by apply (str_text_key key s) in E as [_ ?]; [|apply key_plain|].
Qed.

Lemma passes_text s t r : str_text s t -> ends_with (QUOTE :: key) s = false -> ends r -> passes (t ++ [QUOTE]) r.
Proof.
  intros Hs He Hr. induction Hs as [|c s t Hc _ IH|e c s t Hec Hs IH|h s t Hh _ _ IH]; cbn [app].
  - by apply passes_close.
  - apply (passes_app [c]); [|by apply IH, (ends_with_app _ [c])].
    apply passes_plain. unfold plain. cbn [forallb]. by rewrite Hc.
  - apply (passes_app [BSLASH]); [by apply passes_other|].
    pose proof He as He'. cbn [ends_with] in He. apply orb_false_iff in He as [Hne He].
    apply passes_cons; [|by apply IH].
    destruct (Z.eqb_spec e QUOTE) as [->|Hq].
    + apply (no_key_at s); [done|]. intros ->. injection Hec as <-. by rewrite bool_decide_eq_true_2 in Hne.
    + unfold starts_with, quoted. cbn [strip_prefix]. by rewrite (proj2 (Z.eqb_neq _ _)).
  - apply (passes_app [BSLASH; 117]); [by apply passes_other|]. rewrite <- app_assoc.
    apply passes_app; [by apply passes_plain, hex_plain|]. apply IH. by eapply ends_with_app.
Qed.

Lemma passes_quoted s t r : str_text s t -> hits key s = false -> ends r -> passes (quoted t) r.
Proof.
  intros Hs [Hne He]%orb_false_iff Hr. apply bool_decide_eq_false in Hne. unfold quoted at 1.
  apply passes_cons; [by eapply no_key_at|]. by eapply passes_text.
Qed.

Lemma ends_app s r : (s <> [] -> ends s) -> ends r -> ends (s ++ r).
Proof. destruct s; [by intros _ ?|]. intros Hs _ x [= <-]. by apply Hs. Qed.

Lemma ends_blanks s r : blanks s = true -> ends r -> ends (s ++ r).
Proof.
  intros Hs Hr. apply ends_app; [|done]. intros _ c Hc. destruct s as [|x s]; [done|]. injection Hc as ->.
  unfold blanks in Hs. cbn [forallb] in Hs. unfold delim. apply andb_prop in Hs as [-> _]. done.
Qed.

(** A list of members, joined. *)
Lemma passes_suffixes ms r :
  Forall (fun m => forall r, ends r -> passes m r) ms -> ends r -> passes (suffixes ms) r /\ ends (suffixes ms ++ r).
Proof.
  intros Hms Hr. induction Hms as [|m ms Hm _ [IH IHe]]; [split; [apply passes_nil|done]|].
  unfold suffixes in *. cbn [map concat]. split; [|by intros ? [= <-]].
  apply (passes_app ([COMMA] ++ m)); [|done]. apply passes_app; [by apply passes_other|]. by apply Hm.
Qed.

Lemma passes_join ms r :
  Forall (fun m => forall r, ends r -> passes m r) ms -> ends r -> passes (join ms) r.
Proof.
  intros Hms Hr. destruct Hms as [|m ms Hm Hms]; [apply passes_nil|]. cbn [join].
  destruct (passes_suffixes ms r Hms Hr) as [Hp He]. apply passes_app; [by apply Hm|done].
Qed.

Lemma passes_prefixes ms r :
  Forall (fun m => forall r, ends r -> passes m r) ms -> passes (prefixes ms) r.
Proof.
  intros Hms. induction Hms as [|m ms Hm _ IH]; [apply passes_nil|]. unfold prefixes in *. cbn [map concat].
  apply passes_app; [|done]. apply passes_app; [|by apply passes_other]. apply Hm. by intros ? [= <-].
Qed.

Lemma passes_member R k m :
  (forall t r, R t -> ends r -> passes t r) -> hits key k = false -> member R k m -> forall r, ends r -> passes m r.
Proof.
  intros HR Hk [sp kt sp1 sp2 t sp3 H1 H2 H3 H4 [Hpk _] Ht] r Hr.
  apply passes_app; [by apply passes_inert, blanks_inert|]. apply passes_app.
  { eapply passes_quoted; [done|done|]. rewrite <- app_assoc. apply ends_blanks; [done|]. by intros ? [= <-]. }
  apply passes_app; [by apply passes_inert, blanks_inert|].
  apply (passes_app [COLON]); [by apply passes_other|]. apply passes_app; [by apply passes_inert, blanks_inert|].
  apply passes_app; [apply HR; [done|by apply ends_blanks]|by apply passes_inert, blanks_inert].
Qed.

Lemma passes_bracket o c s r :
  negb (o =? QUOTE) && negb (c =? QUOTE) = true -> passes s ([c] ++ r) -> passes (o :: s ++ [c]) r.
Proof.
  intros [Ho Hc]%andb_prop Hs. apply (passes_app [o]); [by apply passes_other; cbn [forallb]; rewrite Ho|].
  apply passes_app; [done|]. apply passes_other. cbn [forallb]. by rewrite Hc.
Qed.

(** The search passes every value that does not mention the key. *)
Lemma passes_jtext v : forall t r, mentions key v = false -> jtext v t -> ends r -> passes t r.
Proof.
  induction v as [s|z|b|w|vs IH|fs IH] using json_ind'; intros t r Hm Ht Hr;
    inversion Ht as [? ? [Hst _]| | | | | | |]; subst; cbn [mentions] in Hm.
  - by eapply passes_quoted.
  - apply passes_inert, dec_inert.
  - by destruct b; apply passes_inert.
  - by apply passes_inert, word_inert.
  - apply passes_bracket; [done|]. by apply passes_inert, blanks_inert.
  - apply passes_bracket; [done|]. apply passes_join; [|by intros ? [= <-]].
    eapply Forall2_Forall_r; [eassumption|]. apply Forall_forall. intros v Hv m [sp t sp' B1 B2 Ht'] r' Hr'.
    apply passes_app; [by apply passes_inert, blanks_inert|].
    apply passes_app; [|by apply passes_inert, blanks_inert].
    rewrite Forall_forall in IH. apply (IH v); [done| |done|by apply ends_blanks].
    by apply (existsb_none _ _ _ Hm).
  - apply passes_bracket; [done|]. by apply passes_inert, blanks_inert.
  - apply passes_bracket; [done|]. apply passes_join; [|by intros ? [= <-]].
    eapply Forall2_Forall_r; [eassumption|]. apply Forall_forall. intros kv Hv m Hm' r' Hr'.
    pose proof (existsb_none _ _ _ Hm Hv) as Hk. cbn beta in Hk. apply orb_false_iff in Hk as [Hk Hkv].
    eapply passes_member; [|exact Hk|exact Hm'|done]. intros t r'' Ht' Hr''.
    rewrite Forall_forall in IH. by apply (IH kv).
Qed.
End search.

(** ** Objects as lists of fields *)

Definition fields : Type := list (bytes * json).

Fixpoint obj_get (key : bytes) (fs : fields) : option json :=
  match fs with
  | [] => None
  | (k, v) :: r => if decide (k = key) then Some v else obj_get key r
  end.
Fixpoint obj_replace (key : bytes) (x : json) (fs : fields) : option fields :=
  match fs with
  | [] => None
  | (k, v) :: r => if decide (k = key) then Some ((k, x) :: r) else cons (k, v) <$> obj_replace key x r
  end.
(** A new field goes to the front. *)
Definition obj_set (key : bytes) (x : json) (fs : fields) : fields :=
  default ((key, x) :: fs) (obj_replace key x fs).
Fixpoint obj_del (key : bytes) (fs : fields) : fields :=
  match fs with
  | [] => []
  | (k, v) :: r => if decide (k = key) then r else (k, v) :: obj_del key r
  end.

(** The search finds the key nowhere before its field, or nowhere when there is no such field. *)
Fixpoint first_use (key : bytes) (fs : fields) : bool :=
  match fs with
  | [] => true
  | (k, v) :: r => if decide (k = key) then true else negb (hits key k) && negb (mentions key v) && first_use key r
  end.

Definition unrelated (key : bytes) (kv : bytes * json) : Prop := hits key kv.1 = false /\ mentions key kv.2 = false.

Lemma first_use_cases key fs :
  first_use key fs = true ->
  (exists pre old post, fs = pre ++ (key, old) :: post /\ Forall (unrelated key) pre) \/ Forall (unrelated key) fs.
Proof.
  induction fs as [|[k v] fs IH]; cbn [first_use]; [by right|]. case_decide as E.
  - intros _. left. exists [], v, fs. by subst.
  - intros [[Hk%negb_true_iff Hm%negb_true_iff]%andb_prop Hf]%andb_prop. destruct (IH Hf) as [(pre & old & post & -> & Hp)|Hp].
    + left. exists ((k, v) :: pre), old, post. split; [done|]. by constructor.
    + right. by constructor.
Qed.

Ltac field_ind :=
  let H := fresh in intros H; induction H as [|[k v] l [Hk Hm] _ IH];
  cbn [app obj_get obj_replace obj_del first_use fst snd fmap option_fmap option_map] in *;
  [by rewrite ?decide_True | by rewrite decide_False, ?Hk, ?Hm, ?IH by (done || by apply hits_ne)].

Section at_key.
Context (key : bytes) (old : json) (pre post : fields).
Lemma obj_get_at : Forall (unrelated key) pre -> obj_get key (pre ++ (key, old) :: post) = Some old.
Proof. field_ind. Qed.
Lemma obj_replace_at x :
  Forall (unrelated key) pre -> obj_replace key x (pre ++ (key, old) :: post) = Some (pre ++ (key, x) :: post).
Proof. field_ind. Qed.
Lemma obj_set_at x :
  Forall (unrelated key) pre -> obj_set key x (pre ++ (key, old) :: post) = pre ++ (key, x) :: post.
Proof. intros H. unfold obj_set. by rewrite obj_replace_at. Qed.
Lemma obj_del_at : Forall (unrelated key) pre -> obj_del key (pre ++ (key, old) :: post) = pre ++ post.
Proof. field_ind. Qed.
Lemma first_use_at : Forall (unrelated key) pre -> first_use key (pre ++ (key, old) :: post) = true.
Proof. field_ind. Qed.
End at_key.

Section absent.
Context (key : bytes) (fs : fields).
Lemma obj_get_absent : Forall (unrelated key) fs -> obj_get key fs = None.
Proof. field_ind. Qed.
Lemma first_use_absent : Forall (unrelated key) fs -> first_use key fs = true.
Proof. field_ind. Qed.
Lemma obj_replace_absent x : Forall (unrelated key) fs -> obj_replace key x fs = None.
Proof. field_ind. Qed.
Lemma obj_set_absent x : Forall (unrelated key) fs -> obj_set key x fs = (key, x) :: fs.
Proof. intros H. unfold obj_set. by rewrite obj_replace_absent. Qed.
Lemma obj_del_absent : Forall (unrelated key) fs -> obj_del key fs = fs.
Proof. field_ind. Qed.
End absent.

(** ** Documents by their members *)

Notation member_of := (fun kv => member (jtext kv.2) kv.1).

Lemma doc_members fs s :
  fs <> [] -> doc fs s <->
  exists sp ms sp', s = sp ++ LBRACE :: join ms ++ RBRACE :: sp' /\ blanks sp = true /\ blanks sp' = true /\
    Forall2 member_of fs ms.
Proof.
  intros Hne. split.
  - intros (sp & t & sp' & -> & H1 & H2 & Ht). inversion Ht; subst; [done|]. exists sp, ms, sp'.
    cbn [app]. by rewrite <- app_assoc.
  - intros (sp & ms & sp' & -> & H1 & H2 & Hms). exists sp, (LBRACE :: join ms ++ [RBRACE]), sp'.
    cbn [app]. rewrite <- app_assoc. split; [done|]. split_and!; [done|done|]. by constructor.
Qed.

(** The text around one member. *)
Definition front (sp : bytes) (ms1 : list bytes) : bytes := sp ++ LBRACE :: prefixes ms1.
Definition back (ms2 : list bytes) (sp' : bytes) : bytes := suffixes ms2 ++ RBRACE :: sp'.

Lemma doc_split pre kv post s :
  doc (pre ++ kv :: post) s <->
  exists sp ms1 m ms2 sp', s = front sp ms1 ++ m ++ back ms2 sp' /\ blanks sp = true /\ blanks sp' = true /\
    Forall2 member_of pre ms1 /\ member_of kv m /\ Forall2 member_of post ms2.
Proof.
  rewrite doc_members by (by destruct pre). unfold front, back. split.
  - intros (sp & ms & sp' & -> & H1 & H2 & (ms1 & mr & Hpre & Hr & ->)%Forall2_app_inv_l).
    apply Forall2_cons_inv_l in Hr as (m & ms2 & Hm & Hpost & ->).
    exists sp, ms1, m, ms2, sp'. rewrite join_split. repeat (rewrite <- app_assoc; cbn [app]). done.
  - intros (sp & ms1 & m & ms2 & sp' & -> & H1 & H2 & Hpre & Hm & Hpost).
    exists sp, (ms1 ++ m :: ms2), sp'. rewrite join_split. repeat (rewrite <- app_assoc; cbn [app]).
    split_and!; [done..|]. apply Forall2_app; [done|]. by constructor.
Qed.

Lemma front_passes key sp pre ms1 r :
  name_key key = true -> Forall (unrelated key) pre -> blanks sp = true -> Forall2 member_of pre ms1 ->
  passes key (front sp ms1) r.
Proof.
  intros Hk Hpre Hsp Hms. unfold front. apply passes_app; [by apply passes_inert, blanks_inert|].
  apply (passes_app _ [LBRACE]); [by apply passes_other|]. apply passes_prefixes.
  eapply Forall2_Forall_r; [exact Hms|]. eapply Forall_impl; [exact Hpre|]. intros kv [Hne Hm] m Hmem.
  eapply passes_member; [done| |exact Hne|exact Hmem]. intros t r' Ht Hr'. by eapply passes_jtext.
Qed.

Lemma drop_blanks sp s : blanks sp = true -> (forall c, head s = Some c -> isspace c = false) ->
  drop_while isspace (sp ++ s) = s.
Proof. apply drop_while_blanks. Qed.

Lemma split_at_blanks sp r : blanks sp = true -> split_at COLON (sp ++ COLON :: r) = Some (sp, COLON :: r).
Proof.
  unfold blanks. induction sp as [|c sp IH]; [done|]. cbn [forallb]. intros [Hc Hs]%andb_prop. cbn [app split_at].
  rewrite (proj2 (Z.eqb_neq c COLON)) by (unfold isspace, COLON in *; lia). by rewrite IH.
Qed.

(** The rest behind a value. *)
Definition closes (rest : bytes) : Prop := head rest = Some COMMA \/ head rest = Some RBRACE.

Lemma back_closes ms2 sp' : closes (back ms2 sp').
Proof. unfold back, closes. destruct ms2; [by right|by left]. Qed.

Lemma find_key_at key fr sp1 sp2 v t sp3 rest :
  name_key key = true -> (forall r, passes key fr r) -> blanks sp1 = true -> blanks sp2 = true -> blanks sp3 = true ->
  jtext v t -> closes rest ->
  find_key (fr ++ quoted key ++ sp1 ++ COLON :: sp2 ++ t ++ sp3 ++ rest) key = Some (fr, t ++ sp3 ++ rest, rest).
Proof.
  intros Hk Hfr H1 H2 H3 Ht Hrest. unfold find_key. rewrite escstr_plain by by apply key_plain.
  assert (Hfind : strstr (quoted key) (fr ++ quoted key ++ sp1 ++ COLON :: sp2 ++ t ++ sp3 ++ rest)
                  = Some (fr, quoted key ++ sp1 ++ COLON :: sp2 ++ t ++ sp3 ++ rest)).
  { rewrite Hfr. unfold quoted at 2. cbn [app strstr]. unfold quoted at 1. cbn [app].
    assert (Hs : starts_with (quoted key) (quoted key ++ sp1 ++ COLON :: sp2 ++ t ++ sp3 ++ rest) = true)
      by apply starts_with_app.
    unfold quoted in *. cbn [app] in *. rewrite Hs. cbn. by rewrite app_nil_r. }
  rewrite Hfind. cbn [mbind option_bind]. rewrite drop_app_length, split_at_blanks by done.
  cbn [mbind option_bind tail]. destruct (jtext_head _ _ Ht) as (c & r & Et & Hc).
  assert (Hval : drop_while isspace (sp2 ++ t ++ sp3 ++ rest) = t ++ sp3 ++ rest).
  { apply drop_while_blanks; [done|]. rewrite Et. by intros x [= <-]. }
  rewrite Hval. do 2 f_equal.
  assert (Hrun : scan_run false false 0 (t ++ sp3) = Some (false, false, 0)).
  { rewrite (jtext_keeps _ _ 0 ltac:(lia) Ht). pose proof (keeps_inert 0 sp3 (blanks_inert _ H3) []) as H.
    by rewrite app_nil_r in H. }
  rewrite app_assoc, (run_value_end _ _ _ _ _ _ Hrun). cbn [fst snd].
  destruct Hrest as [Hr|Hr]; destruct rest as [|x rest]; try done; injection Hr as ->; done.
Qed.

(** ** Setting, reading and deleting a field *)

Lemma before_app a b : before (a ++ b) b = a.
Proof.
  unfold before. rewrite length_app. replace (length a + length b - length b)%nat with (length a) by lia.
  apply take_app_length.
Qed.

(** What a file holds; a file that cannot be read counts as an empty object. *)
Definition holds (fs : fields) (f : option jfile) : Prop :=
  match f with Some x => doc fs (jf_data x) | None => fs = [] end.

Lemma doc_empty : doc [] (str "{}").
Proof. exists [], (str "{}"), []. split_and!; [done..|]. by apply (jt_obj_nil []). Qed.

Lemma holds_read fs f : holds fs f -> doc fs (default (str "{}") (read_file f)).
Proof.
  destruct f as [x|]; cbn; [|by intros ->; apply doc_empty]. intros Hd.
  rewrite cut_nul_no_nul; [done|]. by eapply doc_no_nul.
Qed.

Lemma doc_read fs s m : doc fs s -> read_file (Some (JFile s m)) = Some s.
Proof. intros Hd. cbn. rewrite cut_nul_no_nul; [done|]. by eapply doc_no_nul. Qed.

Lemma doc_blanks fs s sp : blanks sp = true -> doc fs s -> doc fs (s ++ sp).
Proof.
  intros Hsp (sp1 & t & sp2 & -> & H1 & H2 & Ht). exists sp1, t, (sp2 ++ sp). rewrite <- !app_assoc.
  split_and!; [done..| |done]. unfold blanks in *. by rewrite forallb_app, H2.
Qed.

(** A document whose field of the key is exposed. *)
Lemma doc_at key old pre post s :
  doc (pre ++ (key, old) :: post) s -> name_key key = true -> Forall (unrelated key) pre ->
  exists fr sp1 sp2 t sp3 rest,
    s = fr ++ quoted key ++ sp1 ++ COLON :: sp2 ++ t ++ sp3 ++ rest /\ jtext old t /\ blanks sp3 = true /\
    find_key s key = Some (fr, t ++ sp3 ++ rest, rest) /\
    (forall x lit b, jtext x lit -> blanks b = true ->
       doc (pre ++ (key, x) :: post) (fr ++ quoted key ++ sp1 ++ COLON :: sp2 ++ lit ++ b ++ rest)) /\
    (exists sp ms1 sp0 ms2 sp', fr = front sp ms1 ++ sp0 /\ rest = back ms2 sp' /\ blanks sp = true /\
       blanks sp0 = true /\ blanks sp' = true /\ Forall2 member_of pre ms1 /\ Forall2 member_of post ms2).
Proof.
  intros (sp & ms1 & m & ms2 & sp' & -> & Hsp & Hsp' & Hms1 & Hm & Hms2)%doc_split Hk Hpre.
  cbn [fst snd] in Hm. destruct Hm as [sp0 kt sp1 sp2 t sp3 H0 H1 H2 H3 [Hst Hpk] Ht].
  rewrite (Hpk (key_plain key Hk)) in *. clear kt Hpk.
  exists (front sp ms1 ++ sp0), sp1, sp2, t, sp3, (back ms2 sp').
  assert (E : front sp ms1 ++ (sp0 ++ quoted key ++ sp1 ++ COLON :: sp2 ++ t ++ sp3) ++ back ms2 sp'
              = (front sp ms1 ++ sp0) ++ quoted key ++ sp1 ++ COLON :: sp2 ++ t ++ sp3 ++ back ms2 sp')
    by (repeat (rewrite <- app_assoc; cbn [app]); done).
  split_and!; [exact E|done|done| | |].
  - rewrite E. apply (find_key_at key _ sp1 sp2 old); try done; [|apply back_closes].
    intros r. apply passes_app; [by eapply front_passes|by apply passes_inert, blanks_inert].
  - intros x lit b Hx Hb. apply doc_split.
    exists sp, ms1, (sp0 ++ quoted key ++ sp1 ++ COLON :: sp2 ++ lit ++ b), ms2, sp'.
    split; [repeat (rewrite <- app_assoc; cbn [app]); done|]. split_and!; [done..| |done]. constructor; try done; by apply spelled_plain, key_plain.
  - by exists sp, ms1, sp0, ms2, sp'.
Qed.

(** A key that is not there is not found. *)
Lemma doc_absent key fs s :
  doc fs s -> name_key key = true -> Forall (unrelated key) fs -> find_key s key = None.
Proof.
  intros (sp & t & sp' & -> & H1 & H2 & Ht) Hk Hfs. unfold find_key. rewrite escstr_plain by by apply key_plain.
  assert (Hp : passes key (sp ++ t ++ sp') []).
  { apply passes_app; [by apply passes_inert, blanks_inert|].
    apply passes_app; [|by apply passes_inert, blanks_inert].
    apply (passes_jtext key Hk (JObj fs)); [|done|rewrite app_nil_r, <- (app_nil_r sp'); by apply ends_blanks].
    cbn [mentions]. destruct (existsb _ fs) eqn:E; [|done]. apply existsb_exists in E as (kv & Hin & Hkv).
    apply list_elem_of_In in Hin. destruct (proj1 (Forall_forall _ _) Hfs kv Hin) as [Hne Hm].
    by rewrite Hm, Hne in Hkv. }
  unfold passes in Hp. rewrite app_nil_r in Hp. by rewrite Hp.
Qed.

Lemma split_at_brace sp r : blanks sp = true -> split_at LBRACE (sp ++ LBRACE :: r) = Some (sp, LBRACE :: r).
Proof.
  unfold blanks. induction sp as [|c sp IH]; [done|]. cbn [forallb]. intros [Hc Hs]%andb_prop. cbn [app split_at].
  rewrite (proj2 (Z.eqb_neq c LBRACE)) by (unfold isspace, LBRACE in *; lia). by rewrite IH.
Qed.

Lemma insert_member_doc key x lit fs s :
  doc fs s -> name_key key = true -> jtext x lit ->
  exists out, insert_member s key lit = Some out /\ doc ((key, x) :: fs) out.
Proof.
  intros (sp & t & sp' & -> & H1 & H2 & Ht) Hk Hx. pose proof (key_plain key Hk) as Hpk.
  unfold insert_member. rewrite escstr_plain by done.
  assert (Hm : forall sp3, blanks sp3 = true -> member (jtext x) key ([] ++ quoted key ++ [] ++ COLON :: [] ++ lit ++ sp3))
    by (intros; constructor; try done; by apply spelled_plain).
  inversion Ht as [| | | | | |b Hb|fs' ms Hne Hms]; subst.
  - cbn [app]. rewrite split_at_brace by done. cbn [mbind option_bind tail].
    assert (E : (b ++ [RBRACE]) ++ sp' = b ++ RBRACE :: sp') by (by rewrite <- app_assoc).
    rewrite E, drop_while_blanks by (done || by intros c [= <-]). cbn [head].
    rewrite bool_decide_eq_true_2 by done. eexists. split; [done|].
    apply (doc_split [] (key, x) []). exists sp, [], (quoted key ++ COLON :: lit ++ b), [], sp'.
    unfold front, back. cbn [prefixes suffixes map concat app]. repeat (rewrite <- app_assoc; cbn [app]).
    split_and!; [done|done|done|constructor|by apply (Hm b)|constructor].
  - cbn [app]. rewrite split_at_brace by done. cbn [mbind option_bind tail].
    assert (Hq : exists b r, blanks b = true /\ (join ms ++ [RBRACE]) ++ sp' = b ++ QUOTE :: r).
    { destruct fs as [|kv fs]; [done|]. apply Forall2_cons_inv_l in Hms as (m & ms' & [] & _ & ->).
      cbn [join]. eexists sp0, _. split; [done|]. unfold quoted. repeat (rewrite <- app_assoc; cbn [app]). done. }
    destruct Hq as (b & r & Hb & Er). rewrite Er, drop_while_blanks by (done || by intros c [= <-]). cbn [head].
    rewrite bool_decide_eq_false_2 by done. eexists. split; [done|]. rewrite <- Er.
    apply (doc_split [] (key, x) fs). exists sp, [], (quoted key ++ COLON :: lit ++ []), ms, sp'.
    unfold front, back. cbn [prefixes map concat app]. repeat (rewrite <- app_assoc; cbn [app]).
    split_and!; [|done|done|constructor|by apply (Hm [])|done]. do 4 f_equal. f_equal.
    destruct ms as [|m ms]; [by apply Forall2_nil_inv_r in Hms|]. cbn [join suffixes map concat app].
    repeat (rewrite <- app_assoc; cbn [app]). done.
Qed.

Lemma doc_commit w fs s f : doc fs s -> commit w s f = write_file w s f.
Proof. intros Hd. unfold commit. by rewrite (doc_valid _ _ Hd). Qed.

(** [get-top] prints the value of the field. *)
Lemma get_top_at key old pre post s m :
  doc (pre ++ (key, old) :: post) s -> name_key key = true -> Forall (unrelated key) pre ->
  exists t sp, jtext old t /\ blanks sp = true /\ get_top key (Some (JFile s m)) = (0, t ++ sp ++ [NL]).
Proof.
  intros Hd Hk Hpre. destruct (doc_at _ _ _ _ _ Hd Hk Hpre) as (fr & sp1 & sp2 & t & sp3 & rest & Hs & Ht & H3 & Hf & _).
  exists t, sp3. split_and!; [done|done|]. unfold get_top. rewrite (doc_read _ _ _ Hd), Hf.
  by rewrite app_assoc, before_app, <- app_assoc.
Qed.

Lemma object_set_run (w : jsys) (key v typ lit : bytes) (x : json) (fs : fields) (f : option jfile) :
  holds fs f -> name_key key = true -> first_use key fs = true -> literal v typ = Some lit -> jtext x lit ->
  exists out, set_object_key w key v typ f = write_file w out f /\ doc (obj_set key x fs) out /\
    forall m, exists t sp, jtext x t /\ blanks sp = true /\
      get_top key (Some (JFile (out ++ [NL]) m)) = (0, t ++ sp ++ [NL]).
Proof.
  intros Hh Hk Hu Hlit Hx. apply holds_read in Hh. unfold set_object_key.
  set (s := default (str "{}") (read_file f)) in *. clearbody s. rewrite (doc_valid _ _ Hh). cbn [negb].
  rewrite Hlit. destruct (first_use_cases _ _ Hu) as [(pre & old & post & -> & Hpre)|Habs].
  - destruct (doc_at _ _ _ _ _ Hh Hk Hpre) as (fr & sp1 & sp2 & t & sp3 & rest & Hs & Ht & H3 & Hf & Hset & _).
    rewrite Hf. specialize (Hset x lit [] Hx eq_refl). cbn [app] in Hset.
    assert (Hj : join3 s (t ++ sp3 ++ rest) lit rest = fr ++ quoted key ++ sp1 ++ COLON :: sp2 ++ lit ++ rest).
    { unfold join3. rewrite Hs. assert (E : fr ++ quoted key ++ sp1 ++ COLON :: sp2 ++ t ++ sp3 ++ rest
        = (fr ++ quoted key ++ sp1 ++ COLON :: sp2) ++ t ++ sp3 ++ rest)
        by (repeat (rewrite <- app_assoc; cbn [app]); done).
      rewrite E, before_app. repeat (rewrite <- app_assoc; cbn [app]). done. }
    rewrite Hj. eexists. rewrite obj_set_at by done. split; [by eapply doc_commit|]. split; [done|].
    intros m. eapply get_top_at; [by apply doc_blanks|done|done].
  - rewrite (doc_absent _ _ _ Hh Hk Habs).
    destruct (insert_member_doc key x lit _ _ Hh Hk Hx) as (out & -> & Hd). exists out.
    rewrite obj_set_absent by done. split; [by eapply doc_commit|]. split; [done|].
    intros m. apply (get_top_at key x [] fs); [by apply doc_blanks|done|constructor].
Qed.

(** *** What the caller asks for *)

(** What [escstr] keeps of a text. *)
Definition kept (v : bytes) : bytes := List.filter (fun c => 32 <=? c) v.

Lemma escstr_text v : Forall is_cchar v -> spelled (kept v) (concat (map esc1 v)).
Proof.
  unfold kept. induction 1 as [|c v Hc _ [IH IHp]]; [by split; [constructor|]|]. cbn [List.filter map concat].
  unfold is_cchar in Hc. unfold esc1 at 1.
  destruct ((c =? BSLASH) || (c =? QUOTE)) eqn:Eq.
  - rewrite (proj2 (Z.leb_le 32 c)) by (unfold BSLASH, QUOTE in Eq; lia). split.
    + constructor; [|done]. unfold escape. apply orb_true_iff in Eq as [->| ->]; [|done]. by rewrite orb_true_r.
    + unfold plain. cbn [forallb]. intros [Hp _]%andb_prop. unfold plain_char in Hp. rewrite orb_comm in Eq. lia.
  - destruct (Z.leb_spec 32 c) as [Hle|Hlt]; [|by split].
    assert (Hp : plain_char c = true) by (unfold plain_char; apply orb_false_iff in Eq as [-> ->]; lia). split.
    + by constructor.
    + unfold plain in *. cbn [forallb app]. intros [_ Hv]%andb_prop. by rewrite IHp.
Qed.

(** The value that an argument and its type stand for.  Control characters in a string are
    dropped; the text of a number or of a value is taken as it is. *)
Inductive means : bytes -> bytes -> json -> Prop :=
  | means_str v typ : typ ∈ [str "str"; str "string"] -> Forall is_cchar v -> means v typ (JStr (kept v))
  | means_bool b typ : typ ∈ [str "bool"; str "boolean"] -> means (jbool b) typ (JBool b)
  | means_null : means (str "null") (str "null") (JWord (str "null"))
  | means_text v typ x : typ ∈ [str "num"; str "number"; str "json"; str "raw"] -> jtext x v -> means v typ x.

Lemma means_literal v typ x : means v typ x -> exists lit, literal v typ = Some lit /\ jtext x lit.
Proof.
  destruct 1 as [v typ Ht Hv|b typ Ht| |v typ x Ht Hx].
  - exists (escstr v). split; [|by constructor; apply escstr_text].
    by repeat (apply elem_of_cons in Ht as [->|Ht]); [..|apply elem_of_nil in Ht].
  - exists (jbool b). split; [|constructor].
    by repeat (apply elem_of_cons in Ht as [->|Ht]); destruct b; try (by apply elem_of_nil in Ht).
  - exists (str "null"). by repeat constructor.
  - exists v. split; [|done]. pose proof (jtext_valid _ _ Hx) as Hv.
    repeat (apply elem_of_cons in Ht as [->|Ht]); [done|done|..|by apply elem_of_nil in Ht];
      (etransitivity; [|change (Some v) with (if true then Some v else None); rewrite <- Hv; reflexivity]); done.
Qed.

(** C16: on a file that holds an object, in any layout, [set-object-key] hands [write_file] the
    text of the object in which the field has the value that was asked for (a string of any characters), or
    with the new field in front, and nothing else changed; [get-top] then prints
    the new value.  A file that cannot be read counts as the empty object.  The key is a plain
    name, and neither an earlier field nor a string in one is that name, or ends with a quote
    and that name; strings that need no escape are written without. *)
Theorem object_set_spec (w : jsys) (key v typ : bytes) (x : json) (fs : fields) (f : option jfile) :
  holds fs f -> name_key key = true -> first_use key fs = true -> means v typ x ->
  exists out, set_object_key w key v typ f = write_file w out f /\ doc (obj_set key x fs) out /\
    forall m, exists t sp, jtext x t /\ blanks sp = true /\
      get_top key (Some (JFile (out ++ [NL]) m)) = (0, t ++ sp ++ [NL]).
Proof. intros Hh Hk Hu (lit & Hl & Hx)%means_literal. by eapply object_set_run. Qed.

Lemma blanks_rev s : blanks (rev s) = blanks s.
Proof.
  unfold blanks. apply eq_true_iff_eq. rewrite !forallb_forall. by setoid_rewrite <- in_rev.
Qed.

Lemma rtrim_blanks a c sp : blanks sp = true -> isspace c = false -> rtrim ((a ++ [c]) ++ sp) = a ++ [c].
Proof.
  intros Hsp Hc. unfold rtrim. rewrite rev_app_distr, rev_unit.
  rewrite drop_while_blanks; [|by rewrite blanks_rev|by intros x [= <-]].
  cbn [rev]. by rewrite rev_involutive.
Qed.

Lemma member_pad R k sp m : blanks sp = true -> member R k m -> member R k (sp ++ m).
Proof.
  intros Hsp [sp0 kt sp1 sp2 t sp3 H0 H1 H2 H3 Hk Ht]. rewrite app_assoc. constructor; try done.
  unfold blanks in *. by rewrite forallb_app, Hsp.
Qed.

(** What is cut before the last member. *)
Lemma cut_comma_open o sp ms1 sp0 :
  isspace o = false -> o <> COMMA -> blanks sp0 = true ->
  cut_comma ((sp ++ o :: prefixes ms1) ++ sp0) = sp ++ o :: join ms1.
Proof.
  intros Ho Hc H0. unfold cut_comma. destruct (decide (ms1 = [])) as [->|Hne].
  - cbn [prefixes map concat join]. rewrite rtrim_blanks by done.
    rewrite last_snoc, bool_decide_eq_false_2; [done|]. by intros [= ->].
  - rewrite prefixes_snoc by done.
    assert (E : sp ++ o :: join ms1 ++ [COMMA] = (sp ++ o :: join ms1) ++ [COMMA])
      by (rewrite <- app_assoc; done).
    rewrite E, rtrim_blanks by done. rewrite last_snoc, bool_decide_eq_true_2 by done. apply removelast_last.
Qed.
Lemma cut_comma_front sp ms1 sp0 :
  blanks sp0 = true -> cut_comma (front sp ms1 ++ sp0) = sp ++ LBRACE :: join ms1.
Proof. intros H. by apply (cut_comma_open LBRACE). Qed.

(** C32: on a file that holds an object, in any layout, [del-object-key] hands [write_file] the
    text of the object without the field, nothing else changed; without such a field, or
    without the file, it writes nothing.  The key is a plain name, and neither a field in front
    of it (any field, when there is no such field) nor a string in one is that name, or ends
    with a quote and that name; strings that need no escape are written without. *)
Theorem object_del_spec (w : jsys) (key : bytes) (fs : fields) (f : option jfile) :
  holds fs f -> name_key key = true -> first_use key fs = true ->
  match obj_get key fs with
  | None => del_object_key w key f = (0, f)
  | Some _ => exists out, del_object_key w key f = write_file w out f /\ doc (obj_del key fs) out
  end.
Proof.
  intros Hh Hk Hu. destruct f as [[s m]|]; [|cbn in Hh; by subst]. cbn [holds jf_data] in Hh.
  unfold del_object_key. rewrite (doc_read _ _ _ Hh), (doc_valid _ _ Hh). cbn [negb].
  destruct (first_use_cases _ _ Hu) as [(pre & old & post & -> & Hpre)|Habs].
  2:{ by rewrite obj_get_absent, (doc_absent _ _ _ Hh Hk Habs). }
  rewrite obj_get_at, obj_del_at by done.
  destruct (doc_at _ _ _ _ _ Hh Hk Hpre)
    as (fr & sp1 & sp2 & t & sp3 & rest & Hs & Ht & H3 & Hf & _ & sp & ms1 & sp0 & ms2 & sp' & -> & -> & H1 & H0 & H2 & Hm1 & Hm2).
  rewrite Hf. unfold back. destruct Hm2 as [|kv m2 post ms2 Hm2 Hms2].
  - cbn [suffixes map concat app]. change (skip_comma (RBRACE :: sp')) with (false, RBRACE :: sp').
    cbn iota. rewrite cut_comma_front, <- app_assoc by done. cbn [app]. rewrite app_nil_r. eexists.
    assert (Hd : doc pre (sp ++ LBRACE :: join ms1 ++ RBRACE :: sp')).
    { destruct Hm1 as [|kv m1 pre ms1 Hm1 Hms1].
      - exists sp, [LBRACE; RBRACE], sp'. split_and!; [done..|]. by apply (jt_obj_nil []).
      - apply doc_members; [done|]. exists sp, (m1 :: ms1), sp'. split_and!; [done..|]. by constructor. }
    split; [by eapply doc_commit|done].
  - unfold suffixes. cbn [map concat app]. change (skip_comma (COMMA :: ?r)) with (true, r). cbn iota.
    assert (Hd : doc (pre ++ kv :: post) ((front sp ms1 ++ sp0) ++ (m2 ++ suffixes ms2) ++ RBRACE :: sp')).
    { apply doc_split. exists sp, ms1, (sp0 ++ m2), ms2, sp'. unfold back.
      split; [by rewrite <- !app_assoc|]. split_and!; [done..| |done]. by apply member_pad. }
    eexists. split; [by eapply doc_commit|exact Hd].
Qed.

(** ** Printed values are texts *)

(** Every string in the value is one of C. *)
Definition cchars (s : bytes) : bool := forallb (fun c => (1 <=? c) && (c <? 256)) s.
Fixpoint json_text_ok (v : json) : bool :=
  match v with
  | JStr s => cchars s
  | JNum _ | JBool _ => true
  | JWord w => word_ok w
  | JArr vs => forallb json_text_ok vs
  | JObj fs => forallb (fun kv => cchars kv.1 && json_text_ok kv.2) fs
  end.

Lemma esc_text s : cchars s = true -> spelled s (json_esc s).
Proof.
  intros Hs. split; [|apply plain_esc]. unfold cchars in Hs.
  induction s as [|c s IH]; [constructor|]. cbn [forallb] in Hs. apply andb_prop in Hs as [Hc Hs].
  rewrite json_esc_cons. specialize (IH Hs). unfold json_esc1.
  destruct ((c =? QUOTE) || (c =? BSLASH)) eqn:E1; [by constructor; [unfold escape; by rewrite E1|]|].
  destruct (Z.eqb_spec c NL) as [->|]; [by constructor|]. destruct (Z.eqb_spec c CR) as [->|]; [by constructor|].
  destruct (Z.eqb_spec c TAB) as [->|]; [by constructor|]. destruct (Z.ltb_spec c 32) as [Hlt|Hge].
  - assert (H : (forallb isxdigit (hex4 c) && bool_decide (length (hex4 c) = 4%nat) && bool_decide (utf8 (hex_of (hex4 c)) = [c])) = true).
    { assert (Hin : c ∈ seqZ 1 31) by (apply elem_of_seqZ; lia).
      refine (proj1 (Forall_forall (fun c => _ = true) (seqZ 1 31)) _ c Hin). by repeat constructor. }
    rewrite !andb_true_iff, !bool_decide_eq_true in H. destruct H as [[Hd Hl] Hu].
    change (c :: s) with ([c] ++ s). rewrite <- Hu. cbn [app]. by apply (st_uni (hex4 c)).
  - constructor; [|done]. unfold plain_char. apply orb_false_iff in E1 as [-> ->]. lia.
Qed.

Lemma print_items_false vs : print_items false vs = suffixes (map print_json vs).
Proof. induction vs as [|v vs IH]; [done|]. rewrite print_items_cons, IH. done. Qed.
Lemma print_items_join vs : print_items true vs = join (map print_json vs).
Proof. destruct vs as [|v vs]; [done|]. by rewrite print_items_cons, print_items_false. Qed.
Lemma print_fields_false fs : print_fields false fs = suffixes (map print_field fs).
Proof. induction fs as [|v vs IH]; [done|]. rewrite print_fields_cons, IH. done. Qed.
Lemma print_fields_join fs : print_fields true fs = join (map print_field fs).
Proof. destruct fs as [|v vs]; [done|]. by rewrite print_fields_cons, print_fields_false. Qed.

Lemma jtext_print v : json_text_ok v = true -> jtext v (print_json v).
Proof.
  induction v as [s|z|b|w|vs IH|fs IH] using json_ind'; cbn [json_text_ok]; intros Hp.
  - constructor. by apply esc_text.
  - constructor.
  - apply (jt_bool b).
  - by constructor.
  - rewrite print_json_arr, print_items_join. destruct vs as [|v0 vs]; [by apply (jt_arr_nil [])|].
    apply jt_arr; [done|]. apply Forall2_fmap_r, Forall_Forall2_diag.
    rewrite Forall_forall in *. intros v Hv. unfold compose. rewrite <- (app_nil_l (print_json v)), <- (app_nil_r (print_json v)).
    constructor; [done|done|]. apply IH; [done|]. by apply (forallb_elem _ _ _ Hp).
  - rewrite print_json_obj, print_fields_join. destruct fs as [|f0 fs]; [by apply (jt_obj_nil [])|].
    apply jt_obj; [done|]. apply Forall2_fmap_r, Forall_Forall2_diag.
    rewrite Forall_forall in *. intros [k v] Hv. pose proof (forallb_elem _ _ _ Hp Hv) as [Hk Hpv]%andb_prop.
    unfold compose, print_field. cbn [fst snd] in *.
    pose proof (Member (jtext v) k [] (json_esc k) [] [] (print_json v) [] eq_refl eq_refl eq_refl eq_refl (esc_text k Hk)) as Hm.
    cbn [app] in Hm. rewrite app_nil_r in Hm. unfold quoted in Hm. cbn [app] in Hm. rewrite <- app_assoc in Hm.
    apply Hm. by apply (IH (k, v)).
Qed.

Lemma doc_print fs : json_text_ok (JObj fs) = true -> doc fs (print_json (JObj fs)).
Proof.
  intros H. exists [], (print_json (JObj fs)), []. rewrite app_nil_r. split_and!; [done..|]. by apply jtext_print.
Qed.

(** ** What the commands do elsewhere *)

Definition sys : jsys := JSys true None true true true 420.
Definition obj_file (fs : fields) : option jfile := Some (JFile (print_json (JObj fs)) 384).
Definition written_file (fs : fields) : option jfile := Some (JFile (print_json (JObj fs) ++ [NL]) 420).

(** A key that is the value of an earlier field: the field behind that one is changed. *)
Definition alias_of_b : fields := [jfld "a" (JStr (str "b")); jfld "c" (JNum 1); jfld "b" (JNum 1)].
Lemma wrong_field_set :
  set_object_key sys (str "b") (str "2") (str "num") (obj_file alias_of_b)
  = (0, written_file [jfld "a" (JStr (str "b")); jfld "c" (JNum 2); jfld "b" (JNum 1)]).
Proof. by vm_compute. Qed.

(** So does a value that ends with a quote and the key. *)
Definition quoting : fields := [jfld "note" (JStr (str "see " ++ QUOTE :: str "mode")); jfld "x" (JNum 1); jfld "mode" (JNum 2)].
Lemma quote_in_value :
  set_object_key sys (str "mode") (str "3") (str "num") (obj_file quoting)
  = (0, written_file [jfld "note" (JStr (str "see " ++ QUOTE :: str "mode")); jfld "x" (JNum 3); jfld "mode" (JNum 2)]).
Proof. by vm_compute. Qed.

(** Deleting a key that is no field but an earlier string: the file is no object any more. *)
Lemma absent_key_cuts :
  del_object_key sys (str "b") (obj_file [jfld "a" (JStr (str "b")); jfld "c" (JNum 1)])
  = (0, Some (JFile (LBRACE :: quoted (str "a") ++ [COLON; RBRACE; NL]) 420)).
Proof. by vm_compute. Qed.

(** A text that did not fit on the disk replaces the file, and the result is 0. *)
Lemma short_write_succeeds :
  set_object_key (JSys true (Some 1%nat) true true true 420) (str "mode") (str "3") (str "num") (obj_file quoting)
  = (0, Some (JFile [LBRACE; NL] 420)).
Proof. by vm_compute. Qed.

(** The value occurs behind the array: nothing is added, and the result is 0. *)
Definition listed_elsewhere : fields :=
  [jfld "blacklist" (JArr [JStr (str "m1")]); jfld "last" (JStr (str "m2"))].
Lemma array_add_loses :
  array_add sys (str "blacklist") (str "m2") (obj_file listed_elsewhere) = (0, obj_file listed_elsewhere).
Proof. by vm_compute. Qed.

(** A token that is revoked already: the next one is revoked instead. *)
Definition token (id : string) (revoked : bool) : json :=
  JObj [jfld "id" (JStr (str id)); jfld "revoked" (JBool revoked)].
Lemma wrong_token_revoked :
  token_revoke sys (str "t1") (obj_file [jfld "tokens" (JArr [token "t1" true; token "t2" false])])
  = (0, chmod600 (written_file [jfld "tokens" (JArr [token "t1" true; token "t2" true])])).
Proof. by vm_compute. Qed.

(** Every "false" is replaced, also in a string. *)
Lemma revoke_all_overwrites :
  token_revoke_all sys (obj_file [jfld "note" (JStr (str "falsework")); jfld "allow_lan" (JBool false)])
  = (0, chmod600 (written_file [jfld "note" (JStr (str "truework")); jfld "allow_lan" (JBool true)])).
Proof. by vm_compute. Qed.

(** A number is taken as it is, and the check of the written text only counts brackets. *)
Lemma bad_number_written :
  exists f, set_object_key sys (str "rate") (str "fast") (str "num") (obj_file []) = (0, Some f) /\
    parse_json (take (length (jf_data f) - 1) (jf_data f)) = None.
Proof. eexists. split; [vm_compute; reflexivity|by vm_compute]. Qed.

(** ** Witnesses *)

Definition rules : fields :=
  [jfld "enabled" (JBool true); jfld "devices" (JObj [jfld "02:00:00:00:00:01" (JNum 5)]); jfld "mode" (JStr (str "auto"))].

(** A value with a quote in it, in a file whose first string has an escape. *)
Definition labels : fields := (str "label", JStr (str "TV " ++ [QUOTE; 50; QUOTE; NL])) :: rules.
Lemma object_set_spec_witness :
  let v := str "5" ++ [QUOTE] in
  exists out, set_object_key sys (str "mode") v (str "str") (obj_file labels) = write_file sys out (obj_file labels) /\
    doc (obj_set (str "mode") (JStr v) labels) out.
Proof.
  intros v. assert (Hh : holds labels (obj_file labels)) by (apply doc_print; vm_compute; reflexivity).
  assert (Hv : Forall is_cchar v) by (repeat constructor; done).
  assert (Hm : means v (str "str") (JStr v)) by (apply (means_str v); [left|exact Hv]).
  destruct (object_set_spec sys (str "mode") v (str "str") (JStr v) labels (obj_file labels) Hh eq_refl eq_refl Hm)
    as (out & H1 & H2 & _).
  exists out. exact (conj H1 H2).
Defined.

Lemma object_del_spec_witness :
  exists out, del_object_key sys (str "devices") (obj_file rules) = write_file sys out (obj_file rules) /\
    doc (obj_del (str "devices") rules) out.
Proof.
  assert (Hh : holds rules (obj_file rules)) by (apply doc_print; vm_compute; reflexivity).
  exact (object_del_spec sys (str "devices") rules (obj_file rules) Hh eq_refl eq_refl).
Defined.
