(* ===== verification/JsonArraySpec.v ===== *)
(** * Arrays of names in a file ([hnc_json_c], [array_add] and [array_del])

    The two commands treat the array of a field as a set of strings: they search the text
    of the value for the string in quotes, and splice.  On texts of objects they
    act on the list of values, as long as the string is nowhere else in the array, and, for an
    addition, neither it nor a closing bracket is behind the array. *)
From S2P Require Import Prelude CStr JsonText Stdio JsonTool.
From S2P Require Import JsonToolSpec.
Local Open Scope Z_scope.

(** ** The operations on values *)

Definition is_str (v : bytes) (x : json) : bool :=
  match x with JStr s => bool_decide (s = v) | _ => false end.
(** The string is an element or not in the array at all. *)
Definition clear_of (v : bytes) (vs : list json) : bool :=
  forallb (fun x => is_str v x || negb (mentions v x)) vs.
(** The first element that is the string goes. *)
Fixpoint list_del (v : bytes) (vs : list json) : list json :=
  match vs with
  | [] => []
  | x :: r => if is_str v x then r else x :: list_del v r
  end.

(** No text of the value holds a closing bracket. *)
Definition no_bracket (s : bytes) : bool := forallb (fun c => negb (c =? RBRACKET)) s.
Fixpoint bracket_free (v : json) : bool :=
  match v with
  | JStr s => no_bracket s
  | JNum _ | JBool _ | JWord _ => true
  | JArr _ => false
  | JObj fs => forallb (fun kv => no_bracket kv.1 && bracket_free kv.2) fs
  end.
(** The fields behind the one of the key. *)
Fixpoint behind (key : bytes) (fs : fields) : fields :=
  match fs with
  | [] => []
  | (k, _) :: r => if decide (k = key) then r else behind key r
  end.
(** A field behind the array that does not disturb an addition. *)
Definition harmless (v : bytes) (kv : bytes * json) : bool :=
  negb (hits v kv.1) && negb (mentions v kv.2) && no_bracket kv.1 && bracket_free kv.2.

Lemma behind_at key old pre post : Forall (unrelated key) pre -> behind key (pre ++ (key, old) :: post) = post.
Proof.
  intros H. induction H as [|[k v] l [Hk _] _ IH]; cbn [app behind]; [by rewrite decide_True|].
  by rewrite decide_False by by apply hits_ne.
Qed.

Lemma first_str v vs :
  existsb (is_str v) vs = true -> clear_of v vs = true ->
  exists l1 l2, vs = l1 ++ JStr v :: l2 /\ Forall (fun x => mentions v x = false) l1 /\ list_del v vs = l1 ++ l2.
Proof.
  induction vs as [|x vs IH]; [done|]. cbn [existsb clear_of forallb list_del].
  destruct (is_str v x) eqn:E; cbn [orb].
  - intros _ _. exists [], vs. destruct x; try done. by apply bool_decide_eq_true in E as ->.
  - intros H [Hm%negb_true_iff Hc]%andb_prop. destruct (IH H Hc) as (l1 & l2 & -> & H1 & H2).
    exists (x :: l1), l2. cbn [app] in *. rewrite H2. split_and!; [done| |done]. by constructor.
Qed.
Lemma no_str v vs :
  existsb (is_str v) vs = false -> clear_of v vs = true -> mentions v (JArr vs) = false.
Proof.
  induction vs as [|x vs IH]; [done|]. cbn [existsb clear_of forallb mentions]. intros [-> H]%orb_false_iff.
  intros [Hm%negb_true_iff Hc]%andb_prop. rewrite Hm. by apply IH.
Qed.

(** ** Texts of arrays *)

Notation elem_of_arr := (fun x => padded (jtext x)).
Definition arr_inner (vs : list json) (inner : bytes) : Prop :=
  vs = [] /\ blanks inner = true \/ vs <> [] /\ exists ms, inner = join ms /\ Forall2 elem_of_arr vs ms.

Lemma arr_text vs t : jtext (JArr vs) t <-> exists inner, t = LBRACKET :: inner ++ [RBRACKET] /\ arr_inner vs inner.
Proof.
  split.
  - inversion 1; subst; eexists; (split; [reflexivity|]); [by left|right; eauto].
  - intros (inner & -> & [[-> Hb]|(Hne & ms & -> & Hms)]); by constructor.
Qed.

(** A value does not start with a closing bracket. *)
Lemma jtext_first v t r : jtext v t -> head (t ++ r) <> Some RBRACKET.
Proof.
  destruct 1; try done.
  - destruct (dec_head z r) as (c & q & E & Hc). rewrite E. unfold RBRACKET. intros [= ->]. lia.
  - by destruct b.
  - destruct (word_head w) as (c & q & -> & _); [done|]. intros [= ->]. by apply word_inert in H.
Qed.

Lemma inner_empty vs inner r :
  arr_inner vs inner ->
  bool_decide (head (drop_while isspace (inner ++ RBRACKET :: r)) = Some RBRACKET) = bool_decide (vs = []).
Proof.
  intros [[-> Hb]|(Hne & ms & -> & Hms)].
  - rewrite drop_while_blanks by (done || by intros c [= <-]). by rewrite !bool_decide_eq_true_2.
  - rewrite (bool_decide_eq_false_2 (vs = [])) by done. apply bool_decide_eq_false_2.
    destruct vs as [|v vs]; [done|]. apply Forall2_cons_inv_l in Hms as (m & ms' & [sp t sp' B1 B2 Ht] & _ & ->).
    cbn [join]. rewrite <- !app_assoc. destruct (jtext_head _ _ Ht) as (c & q & Et & Hc).
    rewrite drop_while_blanks; [by apply (jtext_first v)|done|]. rewrite Et. by intros x [= <-].
Qed.

(** An element more. *)
Lemma inner_add vs inner v :
  arr_inner vs inner -> plain v = true ->
  jtext (JArr (vs ++ [JStr v]))
    (LBRACKET :: inner ++ (if bool_decide (vs = []) then [] else [COMMA]) ++ quoted v ++ [RBRACKET]).
Proof.
  intros Hi Hv. apply arr_text.
  exists (inner ++ (if bool_decide (vs = []) then [] else [COMMA]) ++ quoted v).
  split; [by rewrite <- !app_assoc|]. right. split; [by destruct vs|].
  assert (Hq : padded (jtext (JStr v)) (quoted v)).
  { rewrite <- (app_nil_l (quoted v)), <- (app_nil_r (quoted v)) at 1.
    repeat constructor; by apply str_text_plain. }
  destruct Hi as [[-> Hb]|(Hne & ms & -> & Hms)].
  - exists [inner ++ quoted v ++ []]. split.
    { cbn [app join suffixes map concat]. by rewrite !app_nil_r. }
    constructor; [|constructor]. repeat constructor; (done || by apply str_text_plain).
  - rewrite bool_decide_eq_false_2 by done. exists (ms ++ [quoted v]). split.
    + rewrite (join_split ms _ []), prefixes_snoc by (by destruct Hms). cbn [suffixes map concat]. by rewrite <- app_assoc, app_nil_r.
    + apply Forall2_app; [done|]. by constructor.
Qed.

(** ** Searching *)

Lemma strrchr_last c a r : forallb (fun x => negb (x =? c)) r = true -> strrchr c (a ++ c :: r) = Some (c :: r).
Proof.
  intros Hr. assert (H : strrchr c r = None).
  { induction r as [|x r IH]; [done|]. cbn [forallb] in Hr. apply andb_prop in Hr as [Hx Hr].
    cbn [strrchr]. rewrite IH by done. apply negb_true_iff in Hx. by rewrite Hx. }
  induction a as [|x a IH]; cbn [app strrchr]; [by rewrite H, Z.eqb_refl|by rewrite IH].
Qed.

(** *** Texts without closing brackets *)

Lemma nb_app s t : no_bracket (s ++ t) = no_bracket s && no_bracket t.
Proof. apply forallb_app. Qed.
Lemma nb_class (p : Z -> bool) s : p RBRACKET = false -> forallb p s = true -> no_bracket s = true.
Proof.
  unfold no_bracket. rewrite !forallb_forall. intros H0 H c Hc. specialize (H c Hc).
  destruct (Z.eqb_spec c RBRACKET) as [->|]; [congruence|done].
Qed.
Lemma nb_blanks s : blanks s = true -> no_bracket s = true.
Proof. by apply nb_class. Qed.
Lemma nb_cons c s : no_bracket (c :: s) = negb (c =? RBRACKET) && no_bracket s.
Proof. done. Qed.
Lemma nb_str s t : str_text s t -> no_bracket s = true -> no_bracket t = true.
Proof.
  induction 1 as [|c s t Hc _ IH|e c s t He _ IH|h s t Hh _ _ IH]; [done|..].
  - rewrite !nb_cons. intros [-> Hs]%andb_prop. by apply IH.
  - rewrite !nb_cons. intros [_ Hs]%andb_prop. rewrite (IH Hs). by destruct (Z.eqb_spec e RBRACKET) as [->|].
  - rewrite nb_app, !nb_cons, nb_app. intros [_ Hs]%andb_prop. by rewrite (nb_class isxdigit h), IH.
Qed.
Lemma nb_quoted s t : str_text s t -> no_bracket s = true -> no_bracket (quoted t) = true.
Proof.
  intros Ht Hs. unfold quoted. rewrite nb_cons, nb_app. by rewrite (nb_str s t).
Qed.
Lemma nb_suffixes ms : Forall (fun m => no_bracket m = true) ms -> no_bracket (suffixes ms) = true.
Proof.
  induction 1 as [|m ms Hm _ IH]; [done|]. unfold suffixes in *. cbn [map concat].
  change (COMMA :: m) with ([COMMA] ++ m). by rewrite !nb_app, Hm, IH.
Qed.
Lemma nb_member k v m :
  no_bracket k = true -> (forall t, jtext v t -> no_bracket t = true) -> member (jtext v) k m -> no_bracket m = true.
Proof.
  intros Hk Hv [sp kt sp1 sp2 t sp3 H1 H2 H3 H4 [Hst _] Ht]. rewrite !nb_app, (nb_quoted k) by done.
  change (COLON :: sp2 ++ t ++ sp3) with ([COLON] ++ sp2 ++ t ++ sp3). rewrite !nb_app, (Hv t) by done.
  by rewrite (nb_blanks sp), (nb_blanks sp1), (nb_blanks sp2), (nb_blanks sp3).
Qed.
Lemma nb_jtext v : forall t, bracket_free v = true -> jtext v t -> no_bracket t = true.
Proof.
  induction v as [s|z|b|w|vs _|fs IH] using json_ind'; intros t Hf Ht;
    inversion Ht as [? ? [Hst _]| | | | | | |]; subst; cbn [bracket_free] in Hf.
  - by eapply nb_quoted.
  - apply (nb_class inert); [|apply dec_inert]. done.
  - by destruct b.
  - apply (nb_class inert); [|by apply word_inert]. done.
  - done.
  - done.
  - change (LBRACE :: sp ++ [RBRACE]) with ([LBRACE] ++ sp ++ [RBRACE]). by rewrite !nb_app, (nb_blanks sp).
  - assert (Hms : Forall (fun m => no_bracket m = true) ms).
    { eapply Forall2_Forall_r; [eassumption|]. apply Forall_forall. intros kv Hin m Hm.
      pose proof (forallb_elem _ _ _ Hf Hin) as [Hk Hv]%andb_prop. eapply nb_member; [exact Hk| |exact Hm].
      intros t Ht'. rewrite Forall_forall in IH. by apply (IH kv). }
    change (LBRACE :: join ms ++ [RBRACE]) with ([LBRACE] ++ join ms ++ [RBRACE]). rewrite !nb_app.
    destruct Hms as [|m ms Hm Hms]; [done|]. cbn [join]. by rewrite nb_app, Hm, (nb_suffixes ms).
Qed.

(** *** What stands behind the value *)

Lemma harmless_spec v kv :
  harmless v kv = true -> unrelated v kv /\ no_bracket kv.1 = true /\ bracket_free kv.2 = true.
Proof.
  unfold harmless, unrelated. rewrite !andb_true_iff, !negb_true_iff. tauto.
Qed.
Lemma back_harmless v post ms2 sp' :
  name_key v = true -> forallb (harmless v) post = true -> Forall2 member_of post ms2 -> blanks sp' = true ->
  no_bracket (back ms2 sp') = true /\ passes v (back ms2 sp') [] /\ ends (back ms2 sp').
Proof.
  intros Hv Hp Hms Hsp. unfold back.
  assert (Hend : passes v (RBRACE :: sp') []).
  { apply (passes_app v [RBRACE]); [by apply passes_other|by apply passes_inert, blanks_inert]. }
  assert (H1 : Forall (fun m => no_bracket m = true) ms2 /\ Forall (fun m => forall r, ends r -> passes v m r) ms2).
  { revert Hp. induction Hms as [|kv m post ms2 Hm _ IH]; [done|]. cbn [forallb]. intros [Hk Hp]%andb_prop.
    destruct (IH Hp) as [I1 I2]. apply harmless_spec in Hk as ([Hne Hmen] & Hb & Hbf). split; constructor; try done.
    - eapply nb_member; [exact Hb| |exact Hm]. intros t. by apply nb_jtext.
    - intros r Hr. eapply passes_member; [done| |exact Hne|exact Hm|done]. intros t r'. by eapply passes_jtext. }
  destruct H1 as [Hnb Hpass].
  assert (Hr : ends (RBRACE :: sp' ++ [])) by by intros ? [= <-].
  destruct (passes_suffixes v ms2 (RBRACE :: sp' ++ []) Hpass Hr) as [Hps He].
  split_and!.
  - change (RBRACE :: sp') with ([RBRACE] ++ sp'). by rewrite !nb_app, (nb_suffixes ms2), (nb_blanks sp').
  - by apply passes_app.
  - rewrite app_nil_r in He. exact He.
Qed.
Lemma passes_none v s : passes v s [] -> strstr (quoted v) s = None.
Proof. unfold passes. rewrite app_nil_r. intros ->. done. Qed.

(** The texts around the array of a field. *)
Lemma arr_at key vs pre post s :
  doc (pre ++ (key, JArr vs) :: post) s -> name_key key = true -> Forall (unrelated key) pre ->
  exists hd inner sp3 ms2 sp', blanks sp3 = true /\ blanks sp' = true /\ arr_inner vs inner /\
    Forall2 member_of post ms2 /\ s = hd ++ LBRACKET :: inner ++ RBRACKET :: sp3 ++ back ms2 sp' /\
    (exists fr, find_key s key =
       Some (fr, LBRACKET :: inner ++ RBRACKET :: sp3 ++ back ms2 sp', back ms2 sp')) /\
    (forall x lit, jtext x lit -> doc (pre ++ (key, x) :: post) (hd ++ lit ++ sp3 ++ back ms2 sp')).
Proof.
  intros Hd Hk Hpre.
  destruct (doc_at _ _ _ _ _ Hd Hk Hpre)
    as (fr & sp1 & sp2 & t & sp3 & rest & Hs & Ht & H3 & Hf & Hset & sp & ms1 & sp0 & ms2 & sp' & _ & -> & _ & _ & H2 & _ & Hm2).
  apply arr_text in Ht as (inner & -> & Hi).
  exists (fr ++ quoted key ++ sp1 ++ COLON :: sp2), inner, sp3, ms2, sp'.
  assert (E : forall lit, (fr ++ quoted key ++ sp1 ++ COLON :: sp2) ++ lit ++ sp3 ++ back ms2 sp'
              = fr ++ quoted key ++ sp1 ++ COLON :: sp2 ++ lit ++ sp3 ++ back ms2 sp')
    by (intros; repeat (rewrite <- app_assoc; cbn [app]); done).
  assert (Ev : (LBRACKET :: inner ++ [RBRACKET]) ++ sp3 ++ back ms2 sp'
               = LBRACKET :: inner ++ RBRACKET :: sp3 ++ back ms2 sp') by (cbn [app]; by rewrite <- app_assoc).
  split_and!; [done..| | |].
  - by rewrite Hs, <- Ev, E.
  - exists fr. by rewrite Hf, <- Ev.
  - intros x lit Hx. rewrite E. by apply Hset.
Qed.

(** ** The commands *)

(** The element in the text of its array. *)
Lemma inner_at l1 v l2 inner :
  arr_inner (l1 ++ JStr v :: l2) inner -> plain v = true ->
  exists ms1 b1 b2 ms2, inner = prefixes ms1 ++ (b1 ++ quoted v ++ b2) ++ suffixes ms2 /\
    blanks b1 = true /\ blanks b2 = true /\ Forall2 elem_of_arr l1 ms1 /\ Forall2 elem_of_arr l2 ms2.
Proof.
  intros Hi Hv. destruct Hi as [[E _]|(_ & ms & -> & (ms1 & mr & H1 & Hr & ->)%Forall2_app_inv_l)]; [by destruct l1|].
  apply Forall2_cons_inv_l in Hr as (m & ms2 & [b1 t b2 B1 B2 Ht] & H2 & ->). inversion Ht as [? ? [_ Hpl]| | | | | | |]; subst.
  rewrite (Hpl Hv).
  exists ms1, b1, b2, ms2. by rewrite join_split.
Qed.
Lemma elem_passes v x m r :
  name_key v = true -> mentions v x = false -> padded (jtext x) m -> ends r -> passes v m r.
Proof.
  intros Hv Hm [sp t sp' B1 B2 Ht] Hr. apply passes_app; [by apply passes_inert, blanks_inert|].
  apply passes_app; [|by apply passes_inert, blanks_inert]. by eapply passes_jtext; [| | |apply ends_blanks].
Qed.

(** The search ends at the key behind a text that it passes. *)
Lemma found key a r : passes key a (quoted key ++ r) -> strstr (quoted key) (a ++ quoted key ++ r) = Some (a, quoted key ++ r).
Proof.
  unfold passes. intros ->.
  assert (Hq : strstr (quoted key) (quoted key ++ r) = Some ([], quoted key ++ r)).
  { pose proof (starts_with_app (quoted key) r) as H. unfold quoted in *. cbn [app strstr] in *. by rewrite H. }
  rewrite Hq. cbn [mbind option_bind]. by rewrite app_nil_r.
Qed.

(** The search finds the first element that is the string. *)
Lemma find_elem v l1 ms1 b1 r :
  name_key v = true -> Forall (fun x => mentions v x = false) l1 -> Forall2 elem_of_arr l1 ms1 -> blanks b1 = true ->
  strstr (quoted v) (LBRACKET :: prefixes ms1 ++ b1 ++ quoted v ++ r)
  = Some (LBRACKET :: prefixes ms1 ++ b1, quoted v ++ r).
Proof.
  intros Hv Hl Hms Hb.
  assert (Hp : passes v (LBRACKET :: prefixes ms1 ++ b1) (quoted v ++ r)).
  { apply (passes_app v [LBRACKET]); [by apply passes_other|]. apply passes_app; [|by apply passes_inert, blanks_inert].
    apply passes_prefixes. eapply Forall2_Forall_r; [exact Hms|]. eapply Forall_impl; [exact Hl|].
    intros x Hx m Hm r' Hr'. eapply elem_passes; [done|exact Hx|exact Hm|done]. }
  apply found in Hp. cbn [app] in Hp. by rewrite <- app_assoc in Hp.
Qed.

Lemma array_add_run w key v vs pre post f :
  holds (pre ++ (key, JArr vs) :: post) f -> name_key key = true -> name_key v = true ->
  Forall (unrelated key) pre -> clear_of v vs = true ->
  if existsb (is_str v) vs then array_add w key v f = (0, f)
  else forallb (harmless v) post = true ->
    exists out, array_add w key v f = write_file w out f /\ doc (pre ++ (key, JArr (vs ++ [JStr v])) :: post) out.
Proof.
  intros Hh Hk Hv Hpre Hc. apply holds_read in Hh. unfold array_add.
  set (s := default (str "{}") (read_file f)) in *. clearbody s. rewrite (doc_valid _ _ Hh). cbn [negb].
  destruct (arr_at _ _ _ _ _ Hh Hk Hpre)
    as (hd & inner & sp3 & ms2 & sp' & H3 & H2 & Hi & Hm2 & Es & (fr & Hf) & Hset).
  rewrite Hf, escstr_plain by by apply key_plain. destruct (existsb (is_str v) vs) eqn:Ein.
  - destruct (first_str _ _ Ein Hc) as (l1 & l2 & -> & Hl & _).
    destruct (inner_at _ _ _ _ Hi (key_plain v Hv)) as (m1 & b1 & b2 & m2 & -> & B1 & B2 & M1 & M2).
    repeat (rewrite <- app_assoc; cbn [app]). by rewrite (find_elem v l1).
  - intros Hp. destruct (back_harmless v post ms2 sp' Hv Hp Hm2 H2) as (Hnb & Hpass & Hends).
    assert (Ht : jtext (JArr vs) (LBRACKET :: inner ++ [RBRACKET])) by (apply arr_text; eauto).
    assert (Ev : LBRACKET :: inner ++ RBRACKET :: sp3 ++ back ms2 sp'
                 = (LBRACKET :: inner ++ [RBRACKET]) ++ sp3 ++ back ms2 sp') by (cbn [app]; by rewrite <- app_assoc).
    assert (Hnone : strstr (quoted v) (LBRACKET :: inner ++ RBRACKET :: sp3 ++ back ms2 sp') = None).
    { apply passes_none. rewrite Ev. apply passes_app.
      - eapply passes_jtext; [done|by apply (no_str v vs)|done|]. rewrite app_nil_r. by apply ends_blanks.
      - apply passes_app; [by apply passes_inert, blanks_inert|exact Hpass]. }
    rewrite Hnone.
    assert (Hrb : strrchr RBRACKET (LBRACKET :: inner ++ RBRACKET :: sp3 ++ back ms2 sp')
                  = Some (RBRACKET :: sp3 ++ back ms2 sp')).
    { apply (strrchr_last RBRACKET (LBRACKET :: inner)). fold (no_bracket (sp3 ++ back ms2 sp')).
      by rewrite nb_app, Hnb, (nb_blanks sp3). }
    rewrite Hrb, (proj2 (Nat.ltb_ge _ _)) by (cbn [length]; rewrite length_app; lia).
    cbn [tail]. rewrite (inner_empty vs) by done.
    assert (Hj : join3 s (RBRACKET :: sp3 ++ back ms2 sp')
        ((if bool_decide (vs = []) then [] else [COMMA]) ++ quoted v) (RBRACKET :: sp3 ++ back ms2 sp')
      = hd ++ (LBRACKET :: inner ++ (if bool_decide (vs = []) then [] else [COMMA]) ++ quoted v ++ [RBRACKET])
           ++ sp3 ++ back ms2 sp').
    { unfold join3. rewrite Es.
      assert (E : hd ++ LBRACKET :: inner ++ RBRACKET :: sp3 ++ back ms2 sp'
        = (hd ++ LBRACKET :: inner) ++ RBRACKET :: sp3 ++ back ms2 sp') by (by rewrite <- app_assoc).
      rewrite E, before_app. repeat (rewrite <- app_assoc; cbn [app]). done. }
    rewrite Hj. eexists. split; [|by apply Hset, inner_add; [|apply key_plain]].
    eapply doc_commit. by apply Hset, inner_add; [|apply key_plain].
Qed.

Lemma one_text v : plain v = true -> jtext (JArr [JStr v]) (LBRACKET :: quoted v ++ [RBRACKET]).
Proof. intros Hv. by apply (inner_add [] [] v); [left|]. Qed.
Lemma one_valid v : plain v = true -> valid_json (LBRACKET :: quoted v ++ [RBRACKET]) = true.
Proof.
  intros Hv. pose proof (jtext_keeps _ _ 0 ltac:(lia) (one_text v Hv) []) as Hr.
  rewrite app_nil_r in Hr. destruct (run_valid _ _ _ _ _ true 0 [] Hr ltac:(lia)) as (sn & Hs & E).
  rewrite app_nil_r in E. cbn in E. rewrite Hs in E by done. exact E.
Qed.

Lemma array_add_new w key v fs f :
  holds fs f -> name_key key = true -> name_key v = true -> Forall (unrelated key) fs ->
  exists out, array_add w key v f = write_file w out f /\ doc ((key, JArr [JStr v]) :: fs) out.
Proof.
  intros Hh Hk Hv Habs. pose proof (key_plain v Hv) as Hpv. unfold array_add. pose proof (holds_read _ _ Hh) as Hd.
  rewrite (doc_valid _ _ Hd), (doc_absent _ _ _ Hd Hk Habs), escstr_plain by done. cbn [negb].
  assert (Hlit : literal (LBRACKET :: quoted v ++ [RBRACKET]) (str "json") = Some (LBRACKET :: quoted v ++ [RBRACKET])).
  { unfold literal. change (strcmp_eq (str "json") (str "json")) with true.
    rewrite one_valid by done. done. }
  destruct (object_set_run w key _ _ _ (JArr [JStr v]) fs f Hh Hk (first_use_absent _ _ Habs) Hlit (one_text v Hpv))
    as (out & Hs & Hdoc & _). rewrite obj_set_absent in Hdoc by done. by exists out.
Qed.

(** A name that is not in the array is not removed. *)
Lemma array_del_none w key v vs pre post s m :
  doc (pre ++ (key, JArr vs) :: post) s -> name_key key = true -> name_key v = true ->
  Forall (unrelated key) pre -> clear_of v vs = true -> existsb (is_str v) vs = false ->
  array_del w key v (Some (JFile s m)) = (0, Some (JFile s m)).
Proof.
  intros Hd Hk Hv Hpre Hc Ein. unfold array_del. rewrite (doc_read _ _ _ Hd).
  destruct (arr_at _ _ _ _ _ Hd Hk Hpre)
    as (hd & inner & sp3 & ms2 & sp' & H3 & H2 & Hi & Hm2 & Es & (fr & Hf) & _).
  rewrite Hf, escstr_plain by by apply key_plain.
  destruct (strstr (quoted v) _) as [[seg x]|] eqn:Ex; [|done].
  assert (Ev : LBRACKET :: inner ++ RBRACKET :: sp3 ++ back ms2 sp'
               = ((LBRACKET :: inner ++ [RBRACKET]) ++ sp3) ++ back ms2 sp')
    by (cbn [app]; by rewrite <- !app_assoc).
  assert (Hp : passes v ((LBRACKET :: inner ++ [RBRACKET]) ++ sp3) (back ms2 sp')).
  { assert (He : ends (back ms2 sp')).
    { intros c Hc'. destruct (back_closes ms2 sp') as [E|E]; rewrite E in Hc'; by injection Hc' as <-. }
    apply passes_app; [|by apply passes_inert, blanks_inert].
    eapply passes_jtext; [done|by apply (no_str v vs)|apply arr_text; eauto|by apply ends_blanks]. }
  rewrite Ev, Hp in Ex. destruct (strstr (quoted v) (back ms2 sp')) as [[a q]|] eqn:Eq; [|done].
  cbn in Ex. injection Ex as _ <-. apply strstr_Some in Eq as [Eb Hq].
  rewrite (proj2 (Nat.ltb_lt _ _)); [done|]. rewrite Eb, length_app. destruct a as [|? a]; [|cbn; lia].
  exfalso. cbn [app] in Eb. destruct (back_closes ms2 sp') as [E|E]; rewrite Eb in E; destruct q as [|c q]; try done;
    injection E as ->; done.
Qed.

Lemma array_del_run w key v vs pre post f :
  holds (pre ++ (key, JArr vs) :: post) f -> name_key key = true -> name_key v = true ->
  Forall (unrelated key) pre -> clear_of v vs = true ->
  if existsb (is_str v) vs then
    exists out, array_del w key v f = write_file w out f /\ doc (pre ++ (key, JArr (list_del v vs)) :: post) out
  else array_del w key v f = (0, f).
Proof.
  intros Hh Hk Hv Hpre Hc. destruct f as [[s m]|]; [|by destruct pre]. cbn [holds jf_data] in Hh.
  destruct (existsb (is_str v) vs) eqn:Ein; [|by eapply array_del_none]. unfold array_del. rewrite (doc_read _ _ _ Hh).
  destruct (arr_at _ _ _ _ _ Hh Hk Hpre)
    as (hd & inner & sp3 & ms2 & sp' & H3 & H2 & Hi & Hm2 & Es & (fr & Hf) & Hset).
  rewrite Hf, escstr_plain by by apply key_plain.
  destruct (first_str _ _ Ein Hc) as (l1 & l2 & -> & Hl & ->).
  destruct (inner_at _ _ _ _ Hi (key_plain v Hv)) as (m1 & b1 & b2 & m2 & -> & B1 & B2 & M1 & M2).
  set (r := b2 ++ suffixes m2 ++ RBRACKET :: sp3 ++ back ms2 sp').
  assert (Eval : LBRACKET :: (prefixes m1 ++ (b1 ++ quoted v ++ b2) ++ suffixes m2) ++ RBRACKET :: sp3 ++ back ms2 sp'
    = LBRACKET :: prefixes m1 ++ b1 ++ quoted v ++ r) by (unfold r; repeat (rewrite <- app_assoc; cbn [app]); done).
  rewrite Eval in *. rewrite (find_elem v l1) by done.
  rewrite (proj2 (Nat.ltb_ge _ _)) by (unfold r; cbn [length]; repeat (rewrite !length_app; cbn [length]); lia).
  rewrite drop_app_length, Es, before_app. unfold r. clear Eval r Hf Es Hi.
  destruct M2 as [|y q2 l2 m2 Hy M2].
  + cbn [suffixes map concat app]. rewrite app_nil_r. unfold skip_comma.
    rewrite drop_while_blanks by (done || by intros c [= <-]).
    change (RBRACKET =? COMMA) with false. cbn iota.
    change (LBRACKET :: prefixes m1 ++ b1) with (([] ++ LBRACKET :: prefixes m1) ++ b1).
    rewrite cut_comma_open by done. cbn [app].
    assert (Ht : jtext (JArr l1) (LBRACKET :: join m1 ++ [RBRACKET])).
    { apply arr_text. exists (join m1). split; [done|]. destruct M1 as [|x q1 l1 m1 Hx M1]; [by left|].
      right. split; [done|]. eexists. split; [done|]. by constructor. }
    specialize (Hset _ _ Ht). cbn [app] in Hset. rewrite <- app_assoc in Hset. cbn [app] in Hset.
    eexists. split; [by eapply doc_commit|exact Hset].
  + unfold suffixes. cbn [map concat app]. unfold skip_comma.
    rewrite drop_while_blanks by (done || by intros c [= <-]). rewrite Z.eqb_refl. cbn iota.
    assert (Ht : jtext (JArr (l1 ++ y :: l2)) (LBRACKET :: join (m1 ++ (b1 ++ q2) :: m2) ++ [RBRACKET])).
    { apply jt_arr; [by destruct l1|]. apply Forall2_app; [done|]. constructor; [|done].
      destruct Hy as [c1 t c2 C1 C2 Hy]. rewrite app_assoc. constructor; [|done|done].
      unfold blanks in *. by rewrite forallb_app, B1. }
    specialize (Hset _ _ Ht). rewrite join_split in Hset.
    assert (E : (LBRACKET :: (prefixes m1 ++ (b1 ++ q2) ++ suffixes m2) ++ [RBRACKET]) ++ sp3 ++ back ms2 sp'
      = (LBRACKET :: prefixes m1 ++ b1) ++ (q2 ++ suffixes m2) ++ RBRACKET :: sp3 ++ back ms2 sp')
      by (repeat (rewrite <- app_assoc; cbn [app]); done).
    rewrite E in Hset. eexists. split; [by eapply doc_commit|exact Hset].
Qed.

(** C31: on a file that holds an object, in any layout, the array of a field is a set of names
    to the two commands.  [add-array-unique] hands [write_file] the object with the name behind the
    others, writes nothing when it is there, and makes the field when there is none;
    [del-array-value] hands it the object without the name, and writes nothing when it is not
    there; no other field changes.  This holds under conditions on the file: the key and the name are
    plain names; the key is not found in front of its field (no earlier field or string is the key, or ends
    with a quote and it); the name is not found inside other elements; and, for an addition, in the
    fields behind the array neither is the name found nor is there a closing bracket.
    Strings that need no escape are written without.  A field that is no array is not covered. *)
Theorem array_set_spec (w : jsys) (key v : bytes) (fs : fields) (f : option jfile) :
  holds fs f -> name_key key = true -> name_key v = true -> first_use key fs = true ->
  match obj_get key fs with
  | None =>
      (exists out, array_add w key v f = write_file w out f /\ doc ((key, JArr [JStr v]) :: fs) out) /\
      array_del w key v f = (0, f)
  | Some (JArr vs) =>
      clear_of v vs = true ->
      (if existsb (is_str v) vs then array_add w key v f = (0, f)
       else forallb (harmless v) (behind key fs) = true ->
         exists out, array_add w key v f = write_file w out f /\ doc (obj_set key (JArr (vs ++ [JStr v])) fs) out) /\
      (if existsb (is_str v) vs then
         exists out, array_del w key v f = write_file w out f /\ doc (obj_set key (JArr (list_del v vs)) fs) out
       else array_del w key v f = (0, f))
  | Some _ => True
  end.
Proof.
  intros Hh Hk Hv Hu. destruct (first_use_cases _ _ Hu) as [(pre & old & post & -> & Hpre)|Habs].
  - rewrite obj_get_at by done. destruct old as [| | | |vs|]; try done. intros Hc.
    rewrite behind_at, !obj_set_at by done. split; [by apply (array_add_run w key v vs pre post f)|].
    by apply (array_del_run w key v vs pre post f).
  - rewrite obj_get_absent by done. split; [by apply array_add_new|]. unfold array_del.
    destruct f as [[s m]|]; [|done]. cbn [holds jf_data] in Hh. rewrite (doc_read _ _ _ Hh).
    by rewrite (doc_absent _ _ _ Hh Hk Habs).
Qed.

(** A bracket behind the array: the addition is refused. *)
Definition second_array : fields := [jfld "black" (JArr [JStr (str "m1")]); jfld "white" (JArr [JStr (str "m3")])].
Lemma array_add_refused : array_add sys (str "black") (str "m2") (obj_file second_array) = (2, obj_file second_array).
Proof. by vm_compute. Qed.

Definition lists : fields := [jfld "black" (JArr [JStr (str "m1"); JStr (str "m2")]); jfld "mode" (JStr (str "auto"))].
Lemma array_set_spec_witness :
  (exists out, array_add sys (str "black") (str "m3") (obj_file lists) = write_file sys out (obj_file lists) /\
     doc (obj_set (str "black") (JArr [JStr (str "m1"); JStr (str "m2"); JStr (str "m3")]) lists) out) /\
  (exists out, array_del sys (str "black") (str "m1") (obj_file lists) = write_file sys out (obj_file lists) /\
     doc (obj_set (str "black") (JArr [JStr (str "m2")]) lists) out).
Proof.
  assert (Hh : holds lists (obj_file lists)) by (apply doc_print; vm_compute; reflexivity).
  split.
  - exact (proj1 (array_set_spec sys (str "black") (str "m3") lists (obj_file lists) Hh eq_refl eq_refl eq_refl eq_refl)
             eq_refl).
  - exact (proj2 (array_set_spec sys (str "black") (str "m1") lists (obj_file lists) Hh eq_refl eq_refl eq_refl eq_refl)).
Defined.
