(* ===== verification/JsonTokenSpec.v ===== *)
(** * Revoking a token in a file ([hnc_json_c], [token_revoke])

    The tokens of the web server are objects inside an object of the file.  The command
    searches the id, then the name [revoked] behind it, then the word [false]; on
    the texts of such a file that changes the token with the id, and nothing else. *)
From S2P Require Import Prelude CStr JsonText Stdio JsonTool.
From S2P Require Import JsonToolSpec JsonArraySpec.
Local Open Scope Z_scope.

Definition REVOKED : bytes := str "revoked".

(** ** Fields inside of objects *)

(** The value [x] behind a path of fields, each with what stands before and behind it. *)
Definition path : Type := list (fields * bytes * fields).
Fixpoint plug (p : path) (x : json) : json :=
  match p with
  | [] => x
  | (pre, k, post) :: p => JObj (pre ++ (k, plug p x) :: post)
  end.

(** The text in front of the value, and behind it. *)
Inductive lead : path -> bytes -> Prop :=
| lead_nil : lead [] []
| lead_cons pre k kt post p ms1 sp sp1 sp2 a :
    Forall2 member_of pre ms1 -> blanks sp = true -> blanks sp1 = true -> blanks sp2 = true -> spelled k kt ->
    lead p a ->
    lead ((pre, k, post) :: p) (LBRACE :: prefixes ms1 ++ sp ++ quoted kt ++ sp1 ++ COLON :: sp2 ++ a).

Lemma obj_text pre kv post t :
  jtext (JObj (pre ++ kv :: post)) t <->
  exists ms1 m ms2, t = LBRACE :: (prefixes ms1 ++ m ++ suffixes ms2) ++ [RBRACE] /\
    Forall2 member_of pre ms1 /\ member_of kv m /\ Forall2 member_of post ms2.
Proof.
  split.
  - inversion 1 as [| | | | | |sp Hsp E|fs ms Hne Hms]; subst; [by destruct pre|].
    apply Forall2_app_inv_l in Hms as (ms1 & mr & H1 & (m & ms2 & Hm & H2 & ->)%Forall2_cons_inv_l & ->).
    exists ms1, m, ms2. by rewrite join_split.
  - intros (ms1 & m & ms2 & -> & H1 & Hm & H2). rewrite <- join_split. constructor; [by destruct pre|].
    apply Forall2_app; [done|]. by constructor.
Qed.

Lemma plug_text p : forall x t, jtext (plug p x) t ->
  exists a u b, t = a ++ u ++ b /\ jtext x u /\ lead p a /\
    forall y u', jtext y u' -> jtext (plug p y) (a ++ u' ++ b).
Proof.
  induction p as [|[[pre k] post] p IH]; intros x t Ht; cbn [plug] in *.
  - exists [], t, []. rewrite app_nil_r. split_and!; [done|done|constructor|]. intros y u'. by rewrite app_nil_r.
  - apply obj_text in Ht as (ms1 & m & ms2 & -> & H1 & Hm & H2). cbn [fst snd] in Hm.
    destruct Hm as [sp kt sp1 sp2 t sp3 B0 B1 B2 B3 Hk Ht]. destruct (IH x t Ht) as (a & u & b & -> & Hu & Ha & Hy).
    exists (LBRACE :: prefixes ms1 ++ sp ++ quoted kt ++ sp1 ++ COLON :: sp2 ++ a), u,
      (b ++ sp3 ++ suffixes ms2 ++ [RBRACE]).
    split_and!; [|done|by constructor|].
    + repeat (rewrite <- app_assoc; cbn [app]). done.
    + intros y u' Hu'. apply obj_text.
      exists ms1, (sp ++ quoted kt ++ sp1 ++ COLON :: sp2 ++ (a ++ u' ++ b) ++ sp3), ms2.
      split_and!; [|done|constructor; [done..|by apply Hy]|done]. repeat (rewrite <- app_assoc; cbn [app]). done.
Qed.

(** ** Searching *)

Lemma passes_fields key pre ms1 sp r :
  name_key key = true -> Forall (unrelated key) pre -> Forall2 member_of pre ms1 -> blanks sp = true ->
  passes key (LBRACE :: prefixes ms1 ++ sp) r.
Proof.
  intros Hk Hpre Hms Hsp.
  assert (E : LBRACE :: prefixes ms1 ++ sp = front [] ms1 ++ sp) by done. rewrite E.
  apply passes_app; [by eapply front_passes|by apply passes_inert, blanks_inert].
Qed.
(** A plain string is found only when it is the key. *)
Lemma plain_hits key s : plain s = true -> s <> key -> hits key s = false.
Proof.
  intros Hp Hne. unfold hits. rewrite bool_decide_eq_false_2 by done. cbn [orb]. clear Hne. unfold plain in Hp.
  induction s as [|c s IH]; [done|]. cbn [forallb] in Hp. apply andb_prop in Hp as [Hc Hs].
  cbn [ends_with]. rewrite IH by done. rewrite bool_decide_eq_false_2; [done|]. by intros [= -> _].
Qed.
Lemma passes_colon key k kt sp1 sp2 r :
  name_key key = true -> str_text k kt -> hits key k = false -> blanks sp1 = true -> blanks sp2 = true ->
  passes key (quoted kt ++ sp1 ++ COLON :: sp2) r.
Proof.
  intros Hk Hp Hne B1 B2. apply passes_app.
  - eapply passes_quoted; [done|done|done|]. rewrite <- app_assoc. apply ends_blanks; [done|]. by intros c [= <-].
  - apply passes_app; [by apply passes_inert, blanks_inert|].
    apply (passes_app _ [COLON]); [by apply passes_other|by apply passes_inert, blanks_inert].
Qed.

(** A word is found behind a text without its first character. *)
Lemma word_behind c p a r :
  forallb (fun x => negb (c =? x)) a = true -> strstr (c :: p) (a ++ (c :: p) ++ r) = Some (a, (c :: p) ++ r).
Proof.
  induction a as [|x a IH]; cbn [forallb app strstr].
  - intros _. pose proof (starts_with_app (c :: p) r) as H. cbn [app] in H. by rewrite H.
  - intros [Hx%negb_true_iff Ha]%andb_prop. unfold starts_with. cbn [strip_prefix]. rewrite Hx.
    cbn [app] in IH. by rewrite IH.
Qed.

(** ** The command *)

(** The object of one token, and the file with it. *)
Definition token_obj (r1 : fields) (b : bool) (r2 : fields) : json := JObj (r1 ++ (REVOKED, JBool b) :: r2).
Definition with_token (pre : fields) (name : bytes) (t1 : fields) (tid : bytes) (t : json) (t2 post : fields) : fields :=
  pre ++ (name, JObj (t1 ++ (tid, t) :: t2)) :: post.

Lemma no_f_blanks s : blanks s = true -> forallb (fun x => negb (102 =? x)) s = true.
Proof.
  unfold blanks. rewrite !forallb_forall. intros H c Hc. specialize (H c Hc). unfold isspace in H. lia.
Qed.

(** The three searches end at the word of the token's field. *)
Lemma token_searches pre name t1 tid r1 r2 t2 post s :
  doc (with_token pre name t1 tid (token_obj r1 false r2) t2 post) s ->
  name_key tid = true -> tid <> REVOKED -> hits tid name = false ->
  Forall (unrelated tid) pre -> Forall (unrelated tid) t1 -> Forall (unrelated REVOKED) r1 ->
  exists a b c d, s = (a ++ b ++ c) ++ str "false" ++ d /\
    strstr (quoted tid) s = Some (a, b ++ c ++ str "false" ++ d) /\
    strstr (quoted REVOKED) (b ++ c ++ str "false" ++ d) = Some (b, c ++ str "false" ++ d) /\
    strstr (str "false") (c ++ str "false" ++ d) = Some (c, str "false" ++ d) /\
    doc (with_token pre name t1 tid (token_obj r1 true r2) t2 post) ((a ++ b ++ c) ++ str "true" ++ d).
Proof.
  intros (sp & t & sp' & -> & Hsp & Hsp' & Ht) Hk Hr Hn Hpre Ht1 Hr1.
  destruct (plug_text [(pre, name, post); (t1, tid, t2); (r1, REVOKED, r2)] (JBool false) t Ht)
    as (a & u & b & -> & Hu & Ha & Hy). inversion Hu; subst u. clear Hu.
  specialize (Hy (JBool true) _ (jt_bool true)).
  inversion Ha as [|? ? nt ? ? ms0 q0 q1 q2 a0 M0 B0 B1 B2 P0 Ha0]; subst; clear Ha.
  inversion Ha0 as [|? ? kt1 ? ? ms1 q3 q4 q5 a1 M1 B3 B4 B5 P1 Ha1]; subst; clear Ha0.
  inversion Ha1 as [|? ? kt2 ? ? ms2 q6 q7 q8 a2 M2 B6 B7 B8 P2 Ha2]; subst; clear Ha1.
  inversion Ha2; subst; clear Ha2. rewrite app_nil_r in *.
  pose proof (proj2 P1 (key_plain tid Hk)) as E1. pose proof (proj2 P2 eq_refl) as E2. subst kt1 kt2.
  pose proof (plain_hits REVOKED tid (key_plain tid Hk) Hr) as Hrt.
  destruct P0 as [P0 _], P1 as [P1 _].
  set (x0 := sp ++ (LBRACE :: prefixes ms0 ++ q0) ++ (quoted nt ++ q1 ++ COLON :: q2) ++ (LBRACE :: prefixes ms1 ++ q3)).
  set (x1 := (quoted tid ++ q4 ++ COLON :: q5) ++ (LBRACE :: prefixes ms2 ++ q6)).
  set (x2 := quoted REVOKED ++ q7 ++ COLON :: q8).
  assert (E : forall y, sp ++ ((LBRACE :: prefixes ms0 ++ q0 ++ quoted nt ++ q1 ++ COLON :: q2 ++
      LBRACE :: prefixes ms1 ++ q3 ++ quoted tid ++ q4 ++ COLON :: q5 ++
      LBRACE :: prefixes ms2 ++ q6 ++ quoted REVOKED ++ q7 ++ COLON :: q8) ++ y ++ b) ++ sp'
    = x0 ++ x1 ++ x2 ++ y ++ b ++ sp')
    by (intros y; unfold x0, x1, x2; repeat (rewrite <- app_assoc; cbn [app]); done).
  exists x0, x1, x2, (b ++ sp'). change (jbool false) with (str "false"). rewrite E. split_and!.
  - by rewrite <- !app_assoc.
  - unfold x1. rewrite <- !app_assoc. apply found. unfold x0.
    apply passes_app; [by apply passes_inert, blanks_inert|]. apply passes_app; [by apply (passes_fields _ pre)|].
    apply passes_app; [by eapply passes_colon|by apply (passes_fields _ t1)].
  - unfold x2. rewrite <- !app_assoc. apply found. unfold x1. apply passes_app; [by eapply passes_colon|].
    by apply (passes_fields _ r1).
  - apply (word_behind 102). unfold x2. change (COLON :: q8) with ([COLON] ++ q8). by rewrite !forallb_app, (no_f_blanks q7), (no_f_blanks q8).
  - eexists sp, _, sp'. split_and!; [|done|done|exact Hy]. etransitivity; [|symmetry; apply E]. by rewrite <- !app_assoc.
Qed.

(** C30: on a file with an object of tokens, in any layout, where the token with the id is not
    revoked yet, [token-revoke] hands [write_file] the file in which that token is revoked, every other
    token and field as it was, and then makes the file readable for its owner alone; a file in which the id is
    nowhere found stays as it is.  The id is a plain name other than ["revoked"], and is not found in front of its
    token (no earlier field or string is the id, or ends with a quote and it), nor ["revoked"] in the
    token in front of its field.  Strings that need no escape are written without. *)
Theorem token_revoke_spec (w : jsys) (pre t1 r1 r2 t2 post : fields) (name tid s : bytes) (m : Z) :
  doc (with_token pre name t1 tid (token_obj r1 false r2) t2 post) s ->
  name_key tid = true -> tid <> REVOKED -> hits tid name = false ->
  Forall (unrelated tid) pre -> Forall (unrelated tid) t1 -> Forall (unrelated REVOKED) r1 ->
  (exists out, token_revoke w tid (Some (JFile s m)) = with_chmod (write_file w out (Some (JFile s m))) /\
     doc (with_token pre name t1 tid (token_obj r1 true r2) t2 post) out) /\
  (forall other, name_key other = true ->
     mentions other (JObj (with_token pre name t1 tid (token_obj r1 false r2) t2 post)) = false ->
     token_revoke w other (Some (JFile s m)) = (0, Some (JFile s m))).
Proof.
  intros Hd Hk Hr Hn Hpre Ht1 Hr1. split.
  - destruct (token_searches _ _ _ _ _ _ _ _ _ Hd Hk Hr Hn Hpre Ht1 Hr1) as (a & b & c & d & E & E1 & E2 & E3 & Hout).
    unfold token_revoke. rewrite (doc_read _ _ _ Hd), escstr_plain by by apply key_plain.
    rewrite E1. cbn [mbind option_bind]. change (QUOTE :: str "revoked" ++ [QUOTE]) with (quoted REVOKED).
    rewrite E2. cbn [mbind option_bind]. rewrite E3. unfold join3. rewrite E, before_app.
    change (drop 5 (str "false" ++ d)) with d. rewrite (doc_commit _ _ _ _ Hout). by eexists.
  - intros other Ho Hm. unfold token_revoke. rewrite (doc_read _ _ _ Hd), escstr_plain by by apply key_plain.
    destruct Hd as (sp & t & sp' & -> & Hsp & Hsp' & Ht).
    rewrite passes_none; [done|]. apply passes_app; [by apply passes_inert, blanks_inert|].
    apply passes_app; [|by apply passes_inert, blanks_inert]. eapply passes_jtext; [done|exact Hm|exact Ht|].
    rewrite app_nil_r. rewrite <- (app_nil_r sp'). by apply ends_blanks.
Qed.

(** Two tokens with hashes: the second one is revoked, and an unknown id does nothing. *)
Definition rec_hash : fields := [jfld "hash" (JStr (str "h"))].
Definition two_tokens (b : bool) : fields :=
  with_token [jfld "version" (JNum 1)] (str "tokens") [(str "tok_A", token_obj rec_hash false [])] (str "tok_B")
    (token_obj rec_hash b [jfld "scope" (JStr (str "admin"))]) [] [].
Lemma token_revoke_spec_witness :
  (exists out, token_revoke sys (str "tok_B") (Some (JFile (print_json (JObj (two_tokens false))) 420))
     = with_chmod (write_file sys out (Some (JFile (print_json (JObj (two_tokens false))) 420))) /\ doc (two_tokens true) out) /\
  token_revoke sys (str "tok_C") (Some (JFile (print_json (JObj (two_tokens false))) 420))
  = (0, Some (JFile (print_json (JObj (two_tokens false))) 420)).
Proof.
  assert (Hd : doc (two_tokens false) (print_json (JObj (two_tokens false)))) by (apply doc_print; vm_compute; reflexivity).
  destruct (token_revoke_spec sys [jfld "version" (JNum 1)] [(str "tok_A", token_obj rec_hash false [])] rec_hash
    [jfld "scope" (JStr (str "admin"))] [] [] (str "tokens") (str "tok_B") _ 420 Hd eq_refl) as [H1 H2].
  - done.
  - done.
  - repeat constructor; done.
  - repeat constructor; done.
  - repeat constructor; done.
  - split; [exact H1|]. by apply H2; vm_compute.
Defined.
